(** * The metaslab space allocator (usr/src/uts/common/fs/zfs/metaslab.c)

    A shallow embedding of the metaslab layer: range trees, space maps,
    metaslabs with their per-txg staging trees, metaslab groups, the class
    rotor and the allocator facade, followed by the properties proved of
    them.

    Conventions.
    - A [uint64_t] is a [Z] in [0, 2^64); arithmetic of metaslab.c that can
      wrap is written with [u64].
    - A pointer is an index into the arena that owns the object: a group is
      named by the id of its top-level vdev, a metaslab by the pair of its
      vdev id and its index in [vdev_ms], a class by its index in the pool.
    - [VERIFY] failures, failed range-tree operations and NULL dereferences
      are faults of the [outcome] monad.  [ASSERT]s are compiled out, as in a
      production kernel; where a property needs one it appears as a
      hypothesis. *)

From Stdlib Require Import ZArith List Bool Lia.
From stdpp Require Import base option list sets.
Import ListNotations.
Local Open Scope Z_scope.

(** ** Machine integers *)

Definition U64_MOD : Z := 2 ^ 64.
Definition u64 (z : Z) : Z := z mod U64_MOD.
Definition U64_MAX : Z := U64_MOD - 1.

(** [highbit64(x)]: index of the highest set bit, counting from 1; 0 for 0. *)
Definition highbit64 (x : Z) : Z := if x <=? 0 then 0 else Z.log2 x + 1.

(** [P2ROUNDUP(x, align)] is [-(-(x) & -(align))] on 64 bits. *)
Definition P2ROUNDUP (x align : Z) : Z :=
  u64 (- (Z.land (u64 (- x)) (u64 (- align)))).

(** [P2PHASE(x, align)] is [x & (align - 1)]. *)
Definition P2PHASE (x align : Z) : Z := Z.land x (u64 (align - 1)).

(** ** Faults and outcomes *)

Inductive fault :=
| FAllocCondensing (* VERIFY(!msp->ms_condensing) of metaslab_block_alloc *)
| FFreeCondensing  (* the same VERIFY of metaslab_free_dva *)
| FClaimCondensing (* the same VERIFY of metaslab_claim_dva *)
| FRtCondensing    (* the same VERIFY of metaslab_rt_add and metaslab_rt_remove *)
| FOverlap         (* range_tree_add on space already present *)
| FMissing         (* range_tree_remove on space not present *)
| FVerify          (* any other VERIFY *)
| FNull            (* NULL or out-of-bounds dereference *)
| FDivZero         (* division by zero *)
| FBlocked         (* cv_wait with nobody left to signal *)
| FFuel.           (* the loop bound of the model ran out *)

Inductive outcome (A : Type) :=
| Done (a : A)
| Fault (f : fault).
Arguments Done {A} a.
Arguments Fault {A} f.

#[global] Instance outcome_ret : MRet outcome := fun A a => Done a.
#[global] Instance outcome_bind : MBind outcome := fun A B k m =>
  match m with
  | Done a => k a
  | Fault f => Fault f
  end.

Definition of_option {A} (f : fault) (o : option A) : outcome A :=
  match o with
  | Some a => Done a
  | None => Fault f
  end.

Definition verify (b : bool) : outcome unit :=
  if b then Done tt else Fault FVerify.

(** Unsigned division, which traps on a zero divisor. *)
Definition udiv (a b : Z) : outcome Z :=
  if b =? 0 then Fault FDivZero else Done (a / b).

(** ** Range trees *)

Module RangeTree.

Record range_seg := mk_seg { rs_start : Z; rs_end : Z }.

(** Modelled from the spec: range_tree.c is not part of the sources at
    hand.  A range tree is the in-order content of its by-offset tree:
    pairwise disjoint, coalesced half-open intervals in increasing order. *)
Definition range_tree := list range_seg.

Definition rs_size (r : range_seg) : Z := rs_end r - rs_start r.

Fixpoint sorted_from (lo : Z) (rt : range_tree) : bool :=
  match rt with
  | [] => true
  | r :: rest =>
      (lo <? rs_start r) && (rs_start r <? rs_end r) && sorted_from (rs_end r) rest
  end.

(** Offsets are unsigned, intervals are non-empty, sorted and no two touch. *)
Definition range_tree_wf (rt : range_tree) : bool := sorted_from (-1) rt.

Definition seg_has (x : Z) (r : range_seg) : bool :=
  (rs_start r <=? x) && (x <? rs_end r).

Definition covers (rt : range_tree) (x : Z) : bool := existsb (seg_has x) rt.

(** Modelled from the spec: [add] inserts the interval and coalesces it with
    a neighbour sharing an endpoint; it fails if any part is present. *)
Fixpoint add_seg (rt : range_tree) (s e : Z) : option range_tree :=
  match rt with
  | [] => Some [mk_seg s e]
  | r :: rest =>
      if e <? rs_start r then Some (mk_seg s e :: r :: rest)
      else if e =? rs_start r then Some (mk_seg s (rs_end r) :: rest)
      else if rs_end r <? s then
        match add_seg rest s e with
        | Some rest' => Some (r :: rest')
        | None => None
        end
      else if rs_end r =? s then
        match rest with
        | [] => Some [mk_seg (rs_start r) e]
        | r2 :: rest2 =>
            if e <? rs_start r2 then Some (mk_seg (rs_start r) e :: rest)
            else if e =? rs_start r2 then
              Some (mk_seg (rs_start r) (rs_end r2) :: rest2)
            else None
        end
      else None
  end.

Definition range_tree_add (rt : range_tree) (start size : Z) : outcome range_tree :=
  if size <=? 0 then Fault FVerify
  else of_option FOverlap (add_seg rt start (start + size)).

(** Modelled from the spec: [remove] wants the range inside one interval and
    leaves zero, one or two residual intervals. *)
Fixpoint remove_seg (rt : range_tree) (s e : Z) : option range_tree :=
  match rt with
  | [] => None
  | r :: rest =>
      if (rs_start r <=? s) && (e <=? rs_end r) then
        Some ((if rs_start r <? s then [mk_seg (rs_start r) s] else [])
              ++ (if e <? rs_end r then [mk_seg e (rs_end r)] else [])
              ++ rest)
      else if rs_end r <=? s then
        match remove_seg rest s e with
        | Some rest' => Some (r :: rest')
        | None => None
        end
      else None
  end.

Definition range_tree_remove (rt : range_tree) (start size : Z) : outcome range_tree :=
  if size <=? 0 then Fault FVerify
  else of_option FMissing (remove_seg rt start (start + size)).

Definition range_tree_contains (rt : range_tree) (start size : Z) : bool :=
  (0 <? size)
  && existsb (fun r => (rs_start r <=? start) && (start + size <=? rs_end r)) rt.

Definition range_tree_space (rt : range_tree) : Z :=
  fold_right (fun r acc => rs_size r + acc) 0 rt.

Definition avl_numnodes (rt : range_tree) : Z := Z.of_nat (length rt).

(** [range_tree_vacate(rt, func, arg)] with [func = range_tree_add]: every
    interval of [rt] is added to [arg] in offset order; [rt] ends empty. *)
Fixpoint vacate_into (src dst : range_tree) : outcome range_tree :=
  match src with
  | [] => Done dst
  | r :: rest =>
      dst' ← range_tree_add dst (rs_start r) (rs_size r);
      vacate_into rest dst'
  end.

(** [range_tree_walk(rt, range_tree_remove, arg)]. *)
Fixpoint walk_remove (src dst : range_tree) : outcome range_tree :=
  match src with
  | [] => Done dst
  | r :: rest =>
      dst' ← range_tree_remove dst (rs_start r) (rs_size r);
      walk_remove rest dst'
  end.

End RangeTree.
Export RangeTree.

(** ** Constants of the headers

    Modelled from the spec: the headers (txg.h, spa.h, space_map.h,
    metaslab_impl.h) are not part of the sources at hand.  The spec fixes the
    per-txg ring at four slots and the defer ring at two; the space-map word
    gives a run 15 bits of length. *)

Definition TXG_SIZE : Z := 4.
Definition TXG_MASK : Z := TXG_SIZE - 1.
Definition TXG_DEFER_SIZE : Z := 2.
Definition TXG_CONCURRENT_STATES : Z := 3.
Definition TXG_INITIAL : Z := TXG_SIZE.
Definition TXG_CLEAN (txg : Z) : Z := u64 (txg - 1).

Definition SPA_MINBLOCKSIZE : Z := 512.
Definition SPA_MAXBLOCKSIZE : Z := 131072.
Definition SPA_GANGBLOCKSIZE : Z := SPA_MINBLOCKSIZE.
Definition SPA_DVAS_PER_BP : Z := 3.
Definition DMU_MAX_ACCESS : Z := 10 * 2 ^ 20.
Definition MAX_LBAS : Z := 64.
Definition SM_RUN_MAX : Z := 2 ^ 15.
Definition SPACE_MAP_HISTOGRAM_SIZE : Z := 32.

Definition VDEV_STATE_DEGRADED : Z := 6.
Definition VDEV_STATE_HEALTHY : Z := 7.

Definition METASLAB_HINTBP_AVOID : Z := 1.
Definition METASLAB_GANG_HEADER : Z := 2.
Definition METASLAB_GANG_CHILD : Z := 4.
Definition METASLAB_GANG_AVOID : Z := 8.

Definition ENOENT : Z := 2.
Definition EIO : Z := 5.
Definition ENXIO : Z := 6.
Definition ENOSPC : Z := 28.

(** ** Constants and tunables of metaslab.c *)

Definition CAN_FASTGANG (flags : Z) : bool :=
  Z.land flags
    (Z.lor (Z.lor METASLAB_GANG_CHILD METASLAB_GANG_HEADER) METASLAB_GANG_AVOID)
  =? 0.

Definition METASLAB_WEIGHT_PRIMARY : Z := Z.shiftl 1 63.
Definition METASLAB_WEIGHT_SECONDARY : Z := Z.shiftl 1 62.
Definition METASLAB_ACTIVE_MASK : Z :=
  Z.lor METASLAB_WEIGHT_PRIMARY METASLAB_WEIGHT_SECONDARY.

(** [x & ~METASLAB_ACTIVE_MASK] on 64 bits. *)
Definition clear_active (x : Z) : Z := Z.land x (U64_MAX - METASLAB_ACTIVE_MASK).

Record tunables := mk_tunables {
  metaslab_aliquot : Z;
  metaslab_gang_bang : Z;
  zfs_condense_pct : Z;
  zfs_mg_noalloc_threshold : Z;
  metaslab_debug_load : bool;
  metaslab_debug_unload : bool;
  metaslab_df_alloc_threshold : Z;
  metaslab_df_free_pct : Z;
  metaslab_min_alloc_size : Z;
  metaslab_unload_delay : Z;
  zfs_write_to_degraded : bool;
  metaslab_weight_factor_enable : bool;
  metaslab_ndf_clump_shift : Z
}.

(** The initial values of the globals. *)
Definition default_tunables : tunables := {|
  metaslab_aliquot := 512 * 2 ^ 10;
  metaslab_gang_bang := SPA_MAXBLOCKSIZE + 1;
  zfs_condense_pct := 200;
  zfs_mg_noalloc_threshold := 0;
  metaslab_debug_load := false;
  metaslab_debug_unload := false;
  metaslab_df_alloc_threshold := SPA_MAXBLOCKSIZE;
  metaslab_df_free_pct := 4;
  metaslab_min_alloc_size := DMU_MAX_ACCESS;
  metaslab_unload_delay := TXG_SIZE * 2;
  zfs_write_to_degraded := false;
  metaslab_weight_factor_enable := false;
  metaslab_ndf_clump_shift := 4
|}.

(** ** Data model *)

Inductive maptype := SM_ALLOC | SM_FREE.

Record sm_record := mk_sm_record {
  smr_type : maptype;
  smr_offset : Z;
  smr_size : Z
}.

(** The four allocators of the file, as the [metaslab_ops_t] they fill. *)
Inductive metaslab_ops :=
| metaslab_ff_ops
| metaslab_df_ops
| metaslab_cf_ops
| metaslab_ndf_ops.

(** Modelled from the spec: the DVA macros of spa.h are not part of the
    sources at hand; a DVA is (vdev id, offset, allocated size, gang bit). *)
Record dva_t := mk_dva {
  dva_vdev : Z;
  dva_offset : Z;
  dva_asize : Z;
  dva_gang : bool
}.

Definition dva_zero : dva_t := mk_dva 0 0 0 false.
Definition DVA_IS_VALID (d : dva_t) : bool := negb (dva_asize d =? 0).

Record blkptr_t := mk_blkptr {
  blk_dva : list dva_t;
  blk_phys_birth : Z;
  blk_birth : Z
}.

(** Modelled from the spec: the number of copies a block pointer carries,
    the DVAs with a non-zero size. *)
Definition BP_GET_NDVAS (bp : blkptr_t) : Z :=
  Z.of_nat (length (filter (fun d => DVA_IS_VALID d = true) (blk_dva bp))).

Record space_map := mk_space_map {
  sm_start : Z;
  sm_size : Z;
  sm_shift : Z;
  sm_object : Z;
  sm_length : Z;
  sm_alloc : Z;
  smp_objsize : Z;
  smp_alloc : Z;
  smp_histogram : list Z;
  sm_db_full : bool;
  sm_records : list sm_record;
  sm_io_error : Z
}.

Definition set_sm_length (x : Z) (r : space_map) : space_map :=
  mk_space_map (sm_start r) (sm_size r) (sm_shift r) (sm_object r) x
    (sm_alloc r) (smp_objsize r) (smp_alloc r) (smp_histogram r)
    (sm_db_full r) (sm_records r) (sm_io_error r).
Definition set_sm_alloc (x : Z) (r : space_map) : space_map :=
  mk_space_map (sm_start r) (sm_size r) (sm_shift r) (sm_object r)
    (sm_length r) x (smp_objsize r) (smp_alloc r) (smp_histogram r)
    (sm_db_full r) (sm_records r) (sm_io_error r).
Definition set_smp_objsize (x : Z) (r : space_map) : space_map :=
  mk_space_map (sm_start r) (sm_size r) (sm_shift r) (sm_object r)
    (sm_length r) (sm_alloc r) x (smp_alloc r) (smp_histogram r)
    (sm_db_full r) (sm_records r) (sm_io_error r).
Definition set_smp_alloc (x : Z) (r : space_map) : space_map :=
  mk_space_map (sm_start r) (sm_size r) (sm_shift r) (sm_object r)
    (sm_length r) (sm_alloc r) (smp_objsize r) x (smp_histogram r)
    (sm_db_full r) (sm_records r) (sm_io_error r).
Definition set_smp_histogram (x : list Z) (r : space_map) : space_map :=
  mk_space_map (sm_start r) (sm_size r) (sm_shift r) (sm_object r)
    (sm_length r) (sm_alloc r) (smp_objsize r) (smp_alloc r) x (sm_db_full r)
    (sm_records r) (sm_io_error r).
Definition set_sm_records (x : list sm_record) (r : space_map) : space_map :=
  mk_space_map (sm_start r) (sm_size r) (sm_shift r) (sm_object r)
    (sm_length r) (sm_alloc r) (smp_objsize r) (smp_alloc r) (smp_histogram r)
    (sm_db_full r) x (sm_io_error r).

Record metaslab := mk_metaslab {
  ms_id : Z;
  ms_start : Z;
  ms_size : Z;
  ms_sm : option space_map;
  ms_tree : range_tree;
  ms_alloctree : list (option range_tree);
  ms_freetree : list (option range_tree);
  ms_defertree : list (option range_tree);
  ms_loaded : bool;
  ms_loading : bool;
  ms_condensing : bool;
  ms_weight : Z;
  ms_factor : Z;
  ms_access_txg : Z;
  ms_lbas : list Z;
  ms_deferspace : Z;
  ms_ops : metaslab_ops
}.

Definition set_ms_sm (x : option space_map) (r : metaslab) : metaslab :=
  mk_metaslab (ms_id r) (ms_start r) (ms_size r) x (ms_tree r)
    (ms_alloctree r) (ms_freetree r) (ms_defertree r) (ms_loaded r)
    (ms_loading r) (ms_condensing r) (ms_weight r) (ms_factor r)
    (ms_access_txg r) (ms_lbas r) (ms_deferspace r) (ms_ops r).
Definition set_ms_tree (x : range_tree) (r : metaslab) : metaslab :=
  mk_metaslab (ms_id r) (ms_start r) (ms_size r) (ms_sm r) x (ms_alloctree r)
    (ms_freetree r) (ms_defertree r) (ms_loaded r) (ms_loading r)
    (ms_condensing r) (ms_weight r) (ms_factor r) (ms_access_txg r)
    (ms_lbas r) (ms_deferspace r) (ms_ops r).
Definition set_ms_alloctree (x : list (option range_tree)) (r : metaslab) : metaslab :=
  mk_metaslab (ms_id r) (ms_start r) (ms_size r) (ms_sm r) (ms_tree r) x
    (ms_freetree r) (ms_defertree r) (ms_loaded r) (ms_loading r)
    (ms_condensing r) (ms_weight r) (ms_factor r) (ms_access_txg r)
    (ms_lbas r) (ms_deferspace r) (ms_ops r).
Definition set_ms_freetree (x : list (option range_tree)) (r : metaslab) : metaslab :=
  mk_metaslab (ms_id r) (ms_start r) (ms_size r) (ms_sm r) (ms_tree r)
    (ms_alloctree r) x (ms_defertree r) (ms_loaded r) (ms_loading r)
    (ms_condensing r) (ms_weight r) (ms_factor r) (ms_access_txg r)
    (ms_lbas r) (ms_deferspace r) (ms_ops r).
Definition set_ms_defertree (x : list (option range_tree)) (r : metaslab) : metaslab :=
  mk_metaslab (ms_id r) (ms_start r) (ms_size r) (ms_sm r) (ms_tree r)
    (ms_alloctree r) (ms_freetree r) x (ms_loaded r) (ms_loading r)
    (ms_condensing r) (ms_weight r) (ms_factor r) (ms_access_txg r)
    (ms_lbas r) (ms_deferspace r) (ms_ops r).
Definition set_ms_loaded (x : bool) (r : metaslab) : metaslab :=
  mk_metaslab (ms_id r) (ms_start r) (ms_size r) (ms_sm r) (ms_tree r)
    (ms_alloctree r) (ms_freetree r) (ms_defertree r) x (ms_loading r)
    (ms_condensing r) (ms_weight r) (ms_factor r) (ms_access_txg r)
    (ms_lbas r) (ms_deferspace r) (ms_ops r).
Definition set_ms_loading (x : bool) (r : metaslab) : metaslab :=
  mk_metaslab (ms_id r) (ms_start r) (ms_size r) (ms_sm r) (ms_tree r)
    (ms_alloctree r) (ms_freetree r) (ms_defertree r) (ms_loaded r) x
    (ms_condensing r) (ms_weight r) (ms_factor r) (ms_access_txg r)
    (ms_lbas r) (ms_deferspace r) (ms_ops r).
Definition set_ms_condensing (x : bool) (r : metaslab) : metaslab :=
  mk_metaslab (ms_id r) (ms_start r) (ms_size r) (ms_sm r) (ms_tree r)
    (ms_alloctree r) (ms_freetree r) (ms_defertree r) (ms_loaded r)
    (ms_loading r) x (ms_weight r) (ms_factor r) (ms_access_txg r) (ms_lbas r)
    (ms_deferspace r) (ms_ops r).
Definition set_ms_weight (x : Z) (r : metaslab) : metaslab :=
  mk_metaslab (ms_id r) (ms_start r) (ms_size r) (ms_sm r) (ms_tree r)
    (ms_alloctree r) (ms_freetree r) (ms_defertree r) (ms_loaded r)
    (ms_loading r) (ms_condensing r) x (ms_factor r) (ms_access_txg r)
    (ms_lbas r) (ms_deferspace r) (ms_ops r).
Definition set_ms_factor (x : Z) (r : metaslab) : metaslab :=
  mk_metaslab (ms_id r) (ms_start r) (ms_size r) (ms_sm r) (ms_tree r)
    (ms_alloctree r) (ms_freetree r) (ms_defertree r) (ms_loaded r)
    (ms_loading r) (ms_condensing r) (ms_weight r) x (ms_access_txg r)
    (ms_lbas r) (ms_deferspace r) (ms_ops r).
Definition set_ms_access_txg (x : Z) (r : metaslab) : metaslab :=
  mk_metaslab (ms_id r) (ms_start r) (ms_size r) (ms_sm r) (ms_tree r)
    (ms_alloctree r) (ms_freetree r) (ms_defertree r) (ms_loaded r)
    (ms_loading r) (ms_condensing r) (ms_weight r) (ms_factor r) x (ms_lbas r)
    (ms_deferspace r) (ms_ops r).
Definition set_ms_lbas (x : list Z) (r : metaslab) : metaslab :=
  mk_metaslab (ms_id r) (ms_start r) (ms_size r) (ms_sm r) (ms_tree r)
    (ms_alloctree r) (ms_freetree r) (ms_defertree r) (ms_loaded r)
    (ms_loading r) (ms_condensing r) (ms_weight r) (ms_factor r)
    (ms_access_txg r) x (ms_deferspace r) (ms_ops r).
Definition set_ms_deferspace (x : Z) (r : metaslab) : metaslab :=
  mk_metaslab (ms_id r) (ms_start r) (ms_size r) (ms_sm r) (ms_tree r)
    (ms_alloctree r) (ms_freetree r) (ms_defertree r) (ms_loaded r)
    (ms_loading r) (ms_condensing r) (ms_weight r) (ms_factor r)
    (ms_access_txg r) (ms_lbas r) x (ms_ops r).

Record vdev_stat_t := mk_vdev_stat {
  vs_alloc : Z;
  vs_space : Z;
  vs_dspace : Z;
  vs_write_errors : Z
}.

Definition set_vs_alloc (x : Z) (r : vdev_stat_t) : vdev_stat_t :=
  mk_vdev_stat x (vs_space r) (vs_dspace r) (vs_write_errors r).
Definition set_vs_space (x : Z) (r : vdev_stat_t) : vdev_stat_t :=
  mk_vdev_stat (vs_alloc r) x (vs_dspace r) (vs_write_errors r).
Definition set_vs_dspace (x : Z) (r : vdev_stat_t) : vdev_stat_t :=
  mk_vdev_stat (vs_alloc r) (vs_space r) x (vs_write_errors r).

Record metaslab_group := mk_metaslab_group {
  mg_class : nat;
  mg_activation_count : Z;
  mg_prev : option nat;
  mg_next : option nat;
  mg_aliquot : Z;
  mg_bias : Z;
  mg_free_capacity : Z;
  mg_allocatable : bool
}.

Definition set_mg_activation_count (x : Z) (r : metaslab_group) : metaslab_group :=
  mk_metaslab_group (mg_class r) x (mg_prev r) (mg_next r) (mg_aliquot r)
    (mg_bias r) (mg_free_capacity r) (mg_allocatable r).
Definition set_mg_prev (x : option nat) (r : metaslab_group) : metaslab_group :=
  mk_metaslab_group (mg_class r) (mg_activation_count r) x (mg_next r)
    (mg_aliquot r) (mg_bias r) (mg_free_capacity r) (mg_allocatable r).
Definition set_mg_next (x : option nat) (r : metaslab_group) : metaslab_group :=
  mk_metaslab_group (mg_class r) (mg_activation_count r) (mg_prev r) x
    (mg_aliquot r) (mg_bias r) (mg_free_capacity r) (mg_allocatable r).
Definition set_mg_aliquot (x : Z) (r : metaslab_group) : metaslab_group :=
  mk_metaslab_group (mg_class r) (mg_activation_count r) (mg_prev r)
    (mg_next r) x (mg_bias r) (mg_free_capacity r) (mg_allocatable r).
Definition set_mg_bias (x : Z) (r : metaslab_group) : metaslab_group :=
  mk_metaslab_group (mg_class r) (mg_activation_count r) (mg_prev r)
    (mg_next r) (mg_aliquot r) x (mg_free_capacity r) (mg_allocatable r).
Definition set_mg_free_capacity (x : Z) (r : metaslab_group) : metaslab_group :=
  mk_metaslab_group (mg_class r) (mg_activation_count r) (mg_prev r)
    (mg_next r) (mg_aliquot r) (mg_bias r) x (mg_allocatable r).
Definition set_mg_allocatable (x : bool) (r : metaslab_group) : metaslab_group :=
  mk_metaslab_group (mg_class r) (mg_activation_count r) (mg_prev r)
    (mg_next r) (mg_aliquot r) (mg_bias r) (mg_free_capacity r) x.

Record vdev := mk_vdev {
  vdev_id : Z;
  vdev_ms_shift : Z;
  vdev_ms_count : Z;
  vdev_ashift : Z;
  vdev_asize : Z;
  vdev_children : Z;
  vdev_removing : bool;
  vdev_state : Z;
  vdev_can_alloc : bool;
  vdev_stat : vdev_stat_t;
  vdev_mg : metaslab_group;
  vdev_ms : list metaslab;
  vdev_ms_array : list Z;
  vdev_dirty_ms : list (Z * Z)
}.

Definition set_vdev_stat (x : vdev_stat_t) (r : vdev) : vdev :=
  mk_vdev (vdev_id r) (vdev_ms_shift r) (vdev_ms_count r) (vdev_ashift r)
    (vdev_asize r) (vdev_children r) (vdev_removing r) (vdev_state r)
    (vdev_can_alloc r) x (vdev_mg r) (vdev_ms r) (vdev_ms_array r)
    (vdev_dirty_ms r).
Definition set_vdev_mg (x : metaslab_group) (r : vdev) : vdev :=
  mk_vdev (vdev_id r) (vdev_ms_shift r) (vdev_ms_count r) (vdev_ashift r)
    (vdev_asize r) (vdev_children r) (vdev_removing r) (vdev_state r)
    (vdev_can_alloc r) (vdev_stat r) x (vdev_ms r) (vdev_ms_array r)
    (vdev_dirty_ms r).
Definition set_vdev_ms (x : list metaslab) (r : vdev) : vdev :=
  mk_vdev (vdev_id r) (vdev_ms_shift r) (vdev_ms_count r) (vdev_ashift r)
    (vdev_asize r) (vdev_children r) (vdev_removing r) (vdev_state r)
    (vdev_can_alloc r) (vdev_stat r) (vdev_mg r) x (vdev_ms_array r)
    (vdev_dirty_ms r).
Definition set_vdev_ms_array (x : list Z) (r : vdev) : vdev :=
  mk_vdev (vdev_id r) (vdev_ms_shift r) (vdev_ms_count r) (vdev_ashift r)
    (vdev_asize r) (vdev_children r) (vdev_removing r) (vdev_state r)
    (vdev_can_alloc r) (vdev_stat r) (vdev_mg r) (vdev_ms r) x
    (vdev_dirty_ms r).
Definition set_vdev_dirty_ms (x : list (Z * Z)) (r : vdev) : vdev :=
  mk_vdev (vdev_id r) (vdev_ms_shift r) (vdev_ms_count r) (vdev_ashift r)
    (vdev_asize r) (vdev_children r) (vdev_removing r) (vdev_state r)
    (vdev_can_alloc r) (vdev_stat r) (vdev_mg r) (vdev_ms r) (vdev_ms_array r)
    x.

Record metaslab_class := mk_metaslab_class {
  mc_rotor : option nat;
  mc_aliquot : Z;
  mc_alloc_groups : Z;
  mc_alloc : Z;
  mc_deferred : Z;
  mc_space : Z;
  mc_dspace : Z;
  mc_ops : metaslab_ops
}.

Definition set_mc_rotor (x : option nat) (r : metaslab_class) : metaslab_class :=
  mk_metaslab_class x (mc_aliquot r) (mc_alloc_groups r) (mc_alloc r)
    (mc_deferred r) (mc_space r) (mc_dspace r) (mc_ops r).
Definition set_mc_aliquot (x : Z) (r : metaslab_class) : metaslab_class :=
  mk_metaslab_class (mc_rotor r) x (mc_alloc_groups r) (mc_alloc r)
    (mc_deferred r) (mc_space r) (mc_dspace r) (mc_ops r).
Definition set_mc_alloc_groups (x : Z) (r : metaslab_class) : metaslab_class :=
  mk_metaslab_class (mc_rotor r) (mc_aliquot r) x (mc_alloc r) (mc_deferred r)
    (mc_space r) (mc_dspace r) (mc_ops r).
Definition set_mc_alloc (x : Z) (r : metaslab_class) : metaslab_class :=
  mk_metaslab_class (mc_rotor r) (mc_aliquot r) (mc_alloc_groups r) x
    (mc_deferred r) (mc_space r) (mc_dspace r) (mc_ops r).
Definition set_mc_deferred (x : Z) (r : metaslab_class) : metaslab_class :=
  mk_metaslab_class (mc_rotor r) (mc_aliquot r) (mc_alloc_groups r)
    (mc_alloc r) x (mc_space r) (mc_dspace r) (mc_ops r).
Definition set_mc_space (x : Z) (r : metaslab_class) : metaslab_class :=
  mk_metaslab_class (mc_rotor r) (mc_aliquot r) (mc_alloc_groups r)
    (mc_alloc r) (mc_deferred r) x (mc_dspace r) (mc_ops r).
Definition set_mc_dspace (x : Z) (r : metaslab_class) : metaslab_class :=
  mk_metaslab_class (mc_rotor r) (mc_aliquot r) (mc_alloc_groups r)
    (mc_alloc r) (mc_deferred r) (mc_space r) x (mc_ops r).

Record spa := mk_spa {
  spa_vdevs : list vdev;
  spa_classes : list metaslab_class;
  spa_normal_class : nat;
  spa_freeze_txg : Z;
  spa_writeable : bool;
  spa_sync_pass : Z;
  spa_syncing_txg : Z;
  spa_mos_next : Z
}.

Definition set_spa_vdevs (x : list vdev) (r : spa) : spa :=
  mk_spa x (spa_classes r) (spa_normal_class r) (spa_freeze_txg r)
    (spa_writeable r) (spa_sync_pass r) (spa_syncing_txg r) (spa_mos_next r).
Definition set_spa_classes (x : list metaslab_class) (r : spa) : spa :=
  mk_spa (spa_vdevs r) x (spa_normal_class r) (spa_freeze_txg r)
    (spa_writeable r) (spa_sync_pass r) (spa_syncing_txg r) (spa_mos_next r).
Definition set_spa_sync_pass (x : Z) (r : spa) : spa :=
  mk_spa (spa_vdevs r) (spa_classes r) (spa_normal_class r) (spa_freeze_txg r)
    (spa_writeable r) x (spa_syncing_txg r) (spa_mos_next r).
Definition set_spa_syncing_txg (x : Z) (r : spa) : spa :=
  mk_spa (spa_vdevs r) (spa_classes r) (spa_normal_class r) (spa_freeze_txg r)
    (spa_writeable r) (spa_sync_pass r) x (spa_mos_next r).
Definition set_spa_mos_next (x : Z) (r : spa) : spa :=
  mk_spa (spa_vdevs r) (spa_classes r) (spa_normal_class r) (spa_freeze_txg r)
    (spa_writeable r) (spa_sync_pass r) (spa_syncing_txg r) x.


(** ** Arenas and arrays *)

(** A metaslab pointer: the id of its vdev and its index in [vdev_ms]. *)
Definition msp_ptr : Type := nat * nat.

Definition get_vdev (s : spa) (v : nat) : outcome vdev :=
  of_option FNull (spa_vdevs s !! v).

Definition set_vdev (s : spa) (v : nat) (vd : vdev) : spa :=
  set_spa_vdevs (<[v := vd]> (spa_vdevs s)) s.

Definition get_class (s : spa) (c : nat) : outcome metaslab_class :=
  of_option FNull (spa_classes s !! c).

Definition set_class (s : spa) (c : nat) (mc : metaslab_class) : spa :=
  set_spa_classes (<[c := mc]> (spa_classes s)) s.

Definition get_ms (vd : vdev) (i : nat) : outcome metaslab :=
  of_option FNull (vdev_ms vd !! i).

Definition set_ms (vd : vdev) (i : nat) (msp : metaslab) : vdev :=
  set_vdev_ms (<[i := msp]> (vdev_ms vd)) vd.

Definition get_msp (s : spa) (p : msp_ptr) : outcome metaslab :=
  vd ← get_vdev s p.1; get_ms vd p.2.

Definition set_msp (s : spa) (p : msp_ptr) (msp : metaslab) : outcome spa :=
  vd ← get_vdev s p.1; Done (set_vdev s p.1 (set_ms vd p.2 msp)).

Definition upd_group (s : spa) (g : nat) (f : metaslab_group -> metaslab_group)
  : outcome spa :=
  vd ← get_vdev s g; Done (set_vdev s g (set_vdev_mg (f (vdev_mg vd)) vd)).

Definition get_group (s : spa) (g : nat) : outcome metaslab_group :=
  vd ← get_vdev s g; Done (vdev_mg vd).

(** [vdev_lookup_top(spa, vdev)]: NULL when the id names no top-level vdev. *)
Definition vdev_lookup_top (s : spa) (id : Z) : option (nat * vdev) :=
  if id <? 0 then None
  else match spa_vdevs s !! Z.to_nat id with
       | Some vd => Some (Z.to_nat id, vd)
       | None => None
       end.

(** The slot of [txg] in a per-txg array: [txg & TXG_MASK]. *)
Definition txg_slot (txg : Z) : nat := Z.to_nat (Z.land txg TXG_MASK).

(** The slot of [txg] in the defer ring: [txg % TXG_DEFER_SIZE]. *)
Definition defer_slot (txg : Z) : nat := Z.to_nat (txg mod TXG_DEFER_SIZE).

Definition tree_at (arr : list (option range_tree)) (i : nat) : outcome range_tree :=
  match arr !! i with
  | Some (Some rt) => Done rt
  | _ => Fault FNull
  end.

Definition tree_is_null (arr : list (option range_tree)) (i : nat) : bool :=
  match arr !! i with
  | Some (Some _) => false
  | _ => true
  end.

Definition set_tree (arr : list (option range_tree)) (i : nat) (rt : range_tree)
  : list (option range_tree) :=
  <[i := Some rt]> arr.

(** [range_tree_swap(&a[i], &b[j])]: the two pointers change places. *)
Definition swap_slots {A} (a : list A) (i : nat) (b : list A) (j : nat)
  : outcome (list A * list A) :=
  x ← of_option FNull (a !! i);
  y ← of_option FNull (b !! j);
  Done (<[i := y]> a, <[j := x]> b).

(** The same within one array. *)
Definition swap_within {A} (a : list A) (i j : nat) : outcome (list A) :=
  x ← of_option FNull (a !! i);
  y ← of_option FNull (a !! j);
  Done (<[j := x]> (<[i := y]> a)).

(** ** AVL trees

    Modelled from the spec: avl.c is not part of the sources at hand.  A tree
    is represented by its in-order traversal under its comparison function. *)

Fixpoint avl_insert {A} (cmp : A -> A -> Z) (x : A) (t : list A) : list A :=
  match t with
  | [] => [x]
  | y :: t' => if cmp x y <? 0 then x :: t else y :: avl_insert cmp x t'
  end.

Definition avl_of_nodes {A} (cmp : A -> A -> Z) (nodes : list A) : list A :=
  fold_right (avl_insert cmp) [] nodes.

Definition avl_last {A} (t : list A) : option A := last t.

(** [avl_find]: the first node in order that compares equal to the key. *)
Definition avl_find {A} (cmp : A -> A -> Z) (key : A) (t : list A) : option A :=
  List.find (fun y => cmp key y =? 0) t.

(** The nodes from [avl_find], or else from [avl_nearest(.., AVL_AFTER)],
    onwards in order: what the [AVL_NEXT] walk of a caller visits. *)
Fixpoint avl_seek {A} (cmp : A -> A -> Z) (key : A) (t : list A) : list A :=
  match t with
  | [] => []
  | y :: t' => if 0 <? cmp key y then avl_seek cmp key t' else t
  end.

(** Modelled from the spec: the by-offset tree holds disjoint intervals, and
    a key compares equal to an interval it overlaps. *)
Definition range_tree_seg_compare (r1 r2 : range_seg) : Z :=
  if rs_start r1 <? rs_start r2 then
    (if rs_start r2 <? rs_end r1 then 0 else -1)
  else if rs_start r2 <? rs_start r1 then
    (if rs_start r1 <? rs_end r2 then 0 else 1)
  else 0.

(** ** Space maps

    Modelled from the spec: space_map.c is not part of the sources at hand.
    The object is an append-only log of records; [sm_length] and [sm_alloc]
    are the statistics cached by [space_map_update]. *)

Definition space_map_allocated (sm : option space_map) : Z :=
  match sm with Some m => sm_alloc m | None => 0 end.

Definition space_map_length (sm : option space_map) : Z :=
  match sm with Some m => sm_length m | None => 0 end.

Definition space_map_object (sm : option space_map) : Z :=
  match sm with Some m => sm_object m | None => 0 end.

Definition space_map_alloc_delta (sm : option space_map) : Z :=
  match sm with Some m => smp_alloc m - sm_alloc m | None => 0 end.

Definition space_map_update (sm : option space_map) : option space_map :=
  match sm with
  | Some m => Some (set_sm_alloc (smp_alloc m) (set_sm_length (smp_objsize m) m))
  | None => None
  end.

Definition space_map_open (object start size shift : Z) : space_map :=
  mk_space_map start size shift object 0 0 0 0
    (repeat 0 (Z.to_nat SPACE_MAP_HISTOGRAM_SIZE)) true [] 0.

(** A single interval longer than the run limit takes
    [ceil(len / run_max)] words. *)
Definition sm_words (shift : Z) (r : range_seg) : Z :=
  (Z.shiftr (rs_size r) shift + SM_RUN_MAX - 1) / SM_RUN_MAX.

Definition space_map_write (sm : space_map) (rt : range_tree) (mt : maptype)
  : space_map :=
  let words := fold_right (fun r acc => sm_words (sm_shift sm) r + acc) 0 rt in
  let recs := map (fun r => mk_sm_record mt (rs_start r) (rs_size r)) rt in
  let alloc :=
    match mt with
    | SM_ALLOC => smp_alloc sm + range_tree_space rt
    | SM_FREE => smp_alloc sm - range_tree_space rt
    end in
  set_sm_records (sm_records sm ++ recs)
    (set_smp_alloc alloc (set_smp_objsize (smp_objsize sm + 8 * words) sm)).

Definition space_map_truncate (sm : space_map) : space_map :=
  set_sm_records [] (set_smp_alloc 0 (set_smp_objsize 0 sm)).

Definition space_map_histogram_clear (sm : space_map) : space_map :=
  set_smp_histogram (repeat 0 (Z.to_nat SPACE_MAP_HISTOGRAM_SIZE)) sm.

(** Bucket [log2(length) - sm_shift] counts the interval. *)
Definition space_map_histogram_add (sm : space_map) (rt : range_tree) : space_map :=
  let bump h r :=
    let i := Z.log2 (rs_size r) - sm_shift sm in
    if (0 <=? i) && (i <? SPACE_MAP_HISTOGRAM_SIZE)
    then alter (fun n => n + 1) (Z.to_nat i) h else h in
  set_smp_histogram (fold_left bump rt (smp_histogram sm)) sm.

Fixpoint sm_replay (recs : list sm_record) (mt : maptype) (rt : range_tree)
  : outcome range_tree :=
  match recs with
  | [] => Done rt
  | r :: recs' =>
      rt' ← (match smr_type r, mt with
             | SM_ALLOC, SM_ALLOC | SM_FREE, SM_FREE =>
                 range_tree_add rt (smr_offset r) (smr_size r)
             | _, _ => range_tree_remove rt (smr_offset r) (smr_size r)
             end);
      sm_replay recs' mt rt'
  end.

(** [space_map_load(sm, rt, SM_FREE)]: the whole range is free, then every
    record is replayed.  An I/O error leaves the tree as it was. *)
Definition space_map_load (sm : space_map) (rt : range_tree)
  : outcome (Z * range_tree) :=
  if negb (sm_io_error sm =? 0) then Done (sm_io_error sm, rt)
  else
    rt1 ← range_tree_add rt (sm_start sm) (sm_size sm);
    rt2 ← sm_replay (sm_records sm) SM_FREE rt1;
    Done (0, rt2).

(** ** External collaborators

    Modelled from the spec: vdev.c is not part of the sources at hand. *)

(** [vdev_space_update]: the deltas are pushed to the counters of the device
    and of its class.  The deflated space is taken equal to the space. *)
Definition vdev_stat_update (vs : vdev_stat_t) (alloc_delta space_delta : Z)
  : vdev_stat_t :=
  set_vs_dspace (u64 (vs_dspace vs + space_delta))
    (set_vs_space (u64 (vs_space vs + space_delta))
       (set_vs_alloc (u64 (vs_alloc vs + alloc_delta)) vs)).

(** [vdev_dirty(vd, VDD_METASLAB, msp, txg)]: the metaslab joins the list of
    those to sync in [txg]. *)
Definition vdev_dirty (vd : vdev) (ms : Z) (txg : Z) : vdev :=
  set_vdev_dirty_ms ((txg, ms) :: vdev_dirty_ms vd) vd.

(** [(int)x] for a 64-bit [x]. *)
Definition to_int (x : Z) : Z :=
  let y := x mod 2 ^ 32 in if y <? 2 ^ 31 then y else y - 2 ^ 32.

Section Metaslab.

(** The globals of the file. *)
Variable tun : tunables.

(** [vdev_psize_to_asize] of vdev.c, which is not part of the sources at hand:
    the allocated size a device needs for a physical size. *)
Variable vdev_psize_to_asize : vdev -> Z -> Z.

(** ** Metaslab classes *)

Definition metaslab_class_create (ops : metaslab_ops) : metaslab_class :=
  mk_metaslab_class None 0 0 0 0 0 0 ops.

Definition metaslab_class_space_update (mc : metaslab_class)
    (alloc_delta defer_delta space_delta dspace_delta : Z) : metaslab_class :=
  set_mc_dspace (u64 (mc_dspace mc + dspace_delta))
    (set_mc_space (u64 (mc_space mc + space_delta))
       (set_mc_deferred (u64 (mc_deferred mc + defer_delta))
          (set_mc_alloc (u64 (mc_alloc mc + alloc_delta)) mc))).

Definition metaslab_class_get_alloc (mc : metaslab_class) : Z := mc_alloc mc.
Definition metaslab_class_get_deferred (mc : metaslab_class) : Z := mc_deferred mc.
Definition metaslab_class_get_space (mc : metaslab_class) : Z := mc_space mc.

Definition vdev_space_update (s : spa) (v : nat)
    (alloc_delta defer_delta space_delta : Z) : outcome spa :=
  vd ← get_vdev s v;
  let s1 := set_vdev s v
              (set_vdev_stat (vdev_stat_update (vdev_stat vd) alloc_delta space_delta) vd) in
  let c := mg_class (vdev_mg vd) in
  mc ← get_class s1 c;
  Done (set_class s1 c
          (metaslab_class_space_update mc alloc_delta defer_delta space_delta space_delta)).

(** ** Metaslab groups *)

Definition metaslab_compare (m1 m2 : metaslab) : Z :=
  if ms_weight m1 <? ms_weight m2 then 1
  else if ms_weight m2 <? ms_weight m1 then -1
  else if ms_start m1 <? ms_start m2 then -1
  else if ms_start m2 <? ms_start m1 then 1
  else 0.

(** [mg_metaslab_tree]: the metaslabs of the device in [metaslab_compare]
    order, each with its index in [vdev_ms]. *)
Definition mg_metaslab_tree (vd : vdev) : list (nat * metaslab) :=
  avl_of_nodes (fun a b => metaslab_compare a.2 b.2) (imap pair (vdev_ms vd)).

Definition metaslab_group_alloc_update (s : spa) (g : nat) : outcome spa :=
  vd ← get_vdev s g;
  let mg := vdev_mg vd in
  let vs := vdev_stat vd in
  let was_allocatable := mg_allocatable mg in
  let free_capacity :=
    u64 (u64 (vs_space vs - vs_alloc vs) * 100) / u64 (vs_space vs + 1) in
  let allocatable := u64 (zfs_mg_noalloc_threshold tun) <? free_capacity in
  let mg1 := set_mg_allocatable allocatable (set_mg_free_capacity free_capacity mg) in
  let s1 := set_vdev s g (set_vdev_mg mg1 vd) in
  mc ← get_class s1 (mg_class mg);
  if was_allocatable && negb allocatable then
    Done (set_class s1 (mg_class mg)
            (set_mc_alloc_groups (u64 (mc_alloc_groups mc - 1)) mc))
  else if negb was_allocatable && allocatable then
    Done (set_class s1 (mg_class mg)
            (set_mc_alloc_groups (u64 (mc_alloc_groups mc + 1)) mc))
  else Done s1.

Definition metaslab_group_create (mc : nat) : metaslab_group :=
  mk_metaslab_group mc 0 None None 0 0 0 false.

Definition metaslab_group_activate (s : spa) (g : nat) : outcome spa :=
  mg ← get_group s g;
  let c := mg_class mg in
  let count := mg_activation_count mg + 1 in
  s1 ← upd_group s g (set_mg_activation_count count);
  if count <=? 0 then Done s1
  else
    vd ← get_vdev s1 g;
    s2 ← upd_group s1 g
           (set_mg_aliquot (u64 (metaslab_aliquot tun * Z.max 1 (vdev_children vd))));
    s3 ← metaslab_group_alloc_update s2 g;
    mc ← get_class s3 c;
    s4 ← match mc_rotor mc with
         | None =>
             upd_group s3 g (fun m => set_mg_next (Some g) (set_mg_prev (Some g) m))
         | Some mgprev =>
             prev ← get_group s3 mgprev;
             mgnext ← of_option FNull (mg_next prev);
             sa ← upd_group s3 g
                    (fun m => set_mg_next (Some mgnext) (set_mg_prev (Some mgprev) m));
             sb ← upd_group sa mgprev (set_mg_next (Some g));
             upd_group sb mgnext (set_mg_prev (Some g))
         end;
    mc4 ← get_class s4 c;
    Done (set_class s4 c (set_mc_rotor (Some g) mc4)).

Definition metaslab_group_passivate (s : spa) (g : nat) : outcome spa :=
  mg ← get_group s g;
  let c := mg_class mg in
  let count := mg_activation_count mg - 1 in
  s1 ← upd_group s g (set_mg_activation_count count);
  if negb (count =? 0) then Done s1
  else
    let mgprev := mg_prev mg in
    let mgnext := mg_next mg in
    mc ← get_class s1 c;
    s2 ← (if bool_decide (Some g = mgnext) then
            Done (set_class s1 c (set_mc_rotor None mc))
          else
            let sa := set_class s1 c (set_mc_rotor mgnext mc) in
            p ← of_option FNull mgprev;
            sb ← upd_group sa p (set_mg_next mgnext);
            n ← of_option FNull mgnext;
            upd_group sb n (set_mg_prev mgprev));
    upd_group s2 g (fun m => set_mg_next None (set_mg_prev None m)).

(** [metaslab_group_sort]: the metaslab leaves the tree, takes the weight and
    enters again; the tree is read off the weights. *)
Definition metaslab_group_sort (msp : metaslab) (weight : Z) : metaslab :=
  set_ms_weight weight msp.

Definition metaslab_group_allocatable (s : spa) (g : nat) : outcome bool :=
  mg ← get_group s g;
  mc ← get_class s (mg_class mg);
  Done ((u64 (zfs_mg_noalloc_threshold tun) <? mg_free_capacity mg)
        || negb (bool_decide (mg_class mg = spa_normal_class s))
        || (mc_alloc_groups mc =? 0)).

(** ** Range tree callbacks *)

Definition metaslab_rangesize_compare (r1 r2 : range_seg) : Z :=
  let rs_size1 := u64 (rs_end r1 - rs_start r1) in
  let rs_size2 := u64 (rs_end r2 - rs_start r2) in
  if rs_size1 <? rs_size2 then -1
  else if rs_size2 <? rs_size1 then 1
  else if rs_start r1 <? rs_start r2 then -1
  else if rs_start r2 <? rs_start r1 then 1
  else 0.

(** [ms_size_tree] holds the nodes of [ms_tree], entered and removed by the
    callbacks below, in [metaslab_rangesize_compare] order. *)
Definition ms_size_tree (msp : metaslab) : list range_seg :=
  avl_of_nodes metaslab_rangesize_compare (ms_tree msp).

Definition metaslab_rt_add (msp : metaslab) : outcome unit :=
  if ms_condensing msp then Fault FRtCondensing else Done tt.

Definition metaslab_rt_remove (msp : metaslab) : outcome unit :=
  if ms_condensing msp then Fault FRtCondensing else Done tt.

(** [range_tree_add(msp->ms_tree, ..)] with its callback. *)
Definition ms_tree_add (msp : metaslab) (start size : Z) : outcome metaslab :=
  rt ← range_tree_add (ms_tree msp) start size;
  _ ← metaslab_rt_add msp;
  Done (set_ms_tree rt msp).

(** [range_tree_remove(msp->ms_tree, ..)] with its callback. *)
Definition ms_tree_remove (msp : metaslab) (start size : Z) : outcome metaslab :=
  rt ← range_tree_remove (ms_tree msp) start size;
  _ ← metaslab_rt_remove msp;
  Done (set_ms_tree rt msp).

(** [range_tree_vacate(src, range_tree_add, msp->ms_tree)]. *)
Fixpoint ms_tree_vacate_into (src : range_tree) (msp : metaslab) : outcome metaslab :=
  match src with
  | [] => Done msp
  | r :: rest =>
      msp' ← ms_tree_add msp (rs_start r) (rs_size r);
      ms_tree_vacate_into rest msp'
  end.

(** [range_tree_walk(src, range_tree_remove, msp->ms_tree)]. *)
Fixpoint ms_tree_walk_remove (src : range_tree) (msp : metaslab) : outcome metaslab :=
  match src with
  | [] => Done msp
  | r :: rest =>
      msp' ← ms_tree_remove msp (rs_start r) (rs_size r);
      ms_tree_walk_remove rest msp'
  end.

(** ** Metaslab block operations *)

Definition metaslab_block_maxsize (msp : metaslab) : Z :=
  match avl_last (ms_size_tree msp) with
  | None => 0
  | Some rs => u64 (rs_end rs - rs_start rs)
  end.

Definition lbas_get (msp : metaslab) (i : Z) : outcome Z :=
  if i <? 0 then Fault FNull else of_option FNull (ms_lbas msp !! Z.to_nat i).

Definition lbas_set (msp : metaslab) (i : Z) (x : Z) : metaslab :=
  set_ms_lbas (<[Z.to_nat i := x]> (ms_lbas msp)) msp.

(** The [while] loop of [metaslab_block_picker] over the nodes from [rs] on. *)
Fixpoint picker_walk (nodes : list range_seg) (size align : Z) : option Z :=
  match nodes with
  | [] => None
  | rs :: rest =>
      let offset := P2ROUNDUP (rs_start rs) align in
      if u64 (offset + size) <=? rs_end rs then Some offset
      else picker_walk rest size align
  end.

(** Returns the offset, or [-1ULL], and the value left in [*cursor].  The
    recursive call of the source runs with [*cursor = 0], so it cannot recur
    again; it is written out. *)
Definition metaslab_block_picker (t : list range_seg)
    (cmp : range_seg -> range_seg -> Z) (cursor size align : Z) : Z * Z :=
  match picker_walk (avl_seek cmp (mk_seg cursor (u64 (cursor + size))) t) size align with
  | Some offset => (offset, u64 (offset + size))
  | None =>
      if cursor =? 0 then (U64_MAX, cursor)
      else
        match picker_walk (avl_seek cmp (mk_seg 0 (u64 (0 + size))) t) size align with
        | Some offset => (offset, u64 (offset + size))
        | None => (U64_MAX, 0)
        end
  end.

(** *** The first-fit block allocator *)

Definition metaslab_ff_alloc (msp : metaslab) (size : Z) : outcome (Z * metaslab) :=
  let align := Z.land size (u64 (- size)) in
  let c := highbit64 align - 1 in
  cursor ← lbas_get msp c;
  let r := metaslab_block_picker (ms_tree msp) range_tree_seg_compare cursor size align in
  Done (r.1, lbas_set msp c r.2).

Definition metaslab_ff_fragmented (msp : metaslab) : bool := true.

(** *** The dynamic block allocator *)

Definition metaslab_df_alloc (msp : metaslab) (size : Z) : outcome (Z * metaslab) :=
  let align := Z.land size (u64 (- size)) in
  let c := highbit64 align - 1 in
  cursor ← lbas_get msp c;
  let max_size := metaslab_block_maxsize msp in
  let free_pct := to_int (u64 (range_tree_space (ms_tree msp) * 100) / ms_size msp) in
  if max_size <? size then Done (U64_MAX, msp)
  else if (max_size <? metaslab_df_alloc_threshold tun)
          || (free_pct <? metaslab_df_free_pct tun) then
    let r := metaslab_block_picker (ms_size_tree msp) metaslab_rangesize_compare 0 size 1 in
    Done (r.1, lbas_set msp c r.2)
  else
    let r := metaslab_block_picker (ms_tree msp) range_tree_seg_compare cursor size 1 in
    Done (r.1, lbas_set msp c r.2).

Definition metaslab_df_fragmented (msp : metaslab) : bool :=
  let max_size := metaslab_block_maxsize msp in
  let free_pct := to_int (u64 (range_tree_space (ms_tree msp) * 100) / ms_size msp) in
  if (metaslab_df_alloc_threshold tun <=? max_size)
     && (metaslab_df_free_pct tun <=? free_pct)
  then false else true.

(** *** The cursor-fit block allocator *)

Definition metaslab_cf_alloc (msp : metaslab) (size : Z) : outcome (Z * metaslab) :=
  cursor ← lbas_get msp 0;
  cursor_end ← lbas_get msp 1;
  if cursor_end <? u64 (cursor + size) then
    match avl_last (ms_size_tree msp) with
    | None => Done (U64_MAX, msp)
    | Some rs =>
        if u64 (rs_end rs - rs_start rs) <? size then Done (U64_MAX, msp)
        else
          Done (rs_start rs,
                lbas_set (lbas_set msp 1 (rs_end rs)) 0 (u64 (rs_start rs + size)))
    end
  else Done (cursor, lbas_set msp 0 (u64 (cursor + size))).

Definition metaslab_cf_fragmented (msp : metaslab) : bool :=
  metaslab_block_maxsize msp <? metaslab_min_alloc_size tun.

(** *** The new dynamic fit allocator *)

Definition metaslab_ndf_alloc (msp : metaslab) (size : Z) : outcome (Z * metaslab) :=
  let hbit := highbit64 size in
  let c := hbit - 1 in
  cursor ← lbas_get msp c;
  let max_size := metaslab_block_maxsize msp in
  if max_size <? size then Done (U64_MAX, msp)
  else
    let by_size :=
      let rsearch :=
        mk_seg 0 (Z.min max_size
                    (u64 (Z.shiftl 1 (hbit + metaslab_ndf_clump_shift tun)))) in
      of_option FNull
        (head (avl_seek metaslab_rangesize_compare rsearch (ms_size_tree msp))) in
    rs ← match avl_find range_tree_seg_compare (mk_seg cursor (u64 (cursor + size)))
                 (ms_tree msp) with
         | None => by_size
         | Some rs =>
             if u64 (rs_end rs - rs_start rs) <? size then by_size else Done rs
         end;
    if size <=? u64 (rs_end rs - rs_start rs) then
      Done (rs_start rs, lbas_set msp c (u64 (rs_start rs + size)))
    else Done (U64_MAX, msp).

Definition metaslab_ndf_fragmented (msp : metaslab) : bool :=
  metaslab_block_maxsize msp
  <=? u64 (Z.shiftl (metaslab_min_alloc_size tun) (metaslab_ndf_clump_shift tun)).

Definition msop_alloc (msp : metaslab) (size : Z) : outcome (Z * metaslab) :=
  match ms_ops msp with
  | metaslab_ff_ops => metaslab_ff_alloc msp size
  | metaslab_df_ops => metaslab_df_alloc msp size
  | metaslab_cf_ops => metaslab_cf_alloc msp size
  | metaslab_ndf_ops => metaslab_ndf_alloc msp size
  end.

Definition msop_fragmented (msp : metaslab) : bool :=
  match ms_ops msp with
  | metaslab_ff_ops => metaslab_ff_fragmented msp
  | metaslab_df_ops => metaslab_df_fragmented msp
  | metaslab_cf_ops => metaslab_cf_fragmented msp
  | metaslab_ndf_ops => metaslab_ndf_fragmented msp
  end.

Definition zfs_metaslab_ops : metaslab_ops := metaslab_df_ops.

Definition metaslab_block_alloc (vd : vdev) (msp : metaslab) (size : Z)
  : outcome (Z * metaslab) :=
  if ms_condensing msp then Fault FAllocCondensing
  else
    r ← msop_alloc msp size;
    let start := r.1 in
    if start =? U64_MAX then Done (start, r.2)
    else
      _ ← verify (P2PHASE start (u64 (Z.shiftl 1 (vdev_ashift vd))) =? 0);
      _ ← verify (P2PHASE size (u64 (Z.shiftl 1 (vdev_ashift vd))) =? 0);
      _ ← verify (u64 (range_tree_space (ms_tree r.2) - size) <=? ms_size r.2);
      msp' ← ms_tree_remove r.2 start size;
      Done (start, msp').

(** ** Metaslabs *)

Definition metaslab_load_wait (msp : metaslab) : outcome unit :=
  if ms_loading msp then Fault FBlocked else Done tt.

(** Returns the error of the load and the metaslab it leaves. *)
Definition metaslab_load (msp : metaslab) : outcome (Z * metaslab) :=
  let msp1 := set_ms_loading true msp in
  r ← match ms_sm msp1 with
      | Some sm =>
          l ← space_map_load sm (ms_tree msp1);
          _ ← (if l.1 =? 0 then metaslab_rt_add msp1 else Done tt);
          Done (l.1, set_ms_tree l.2 msp1)
      | None =>
          m ← ms_tree_add msp1 (ms_start msp1) (ms_size msp1);
          Done (0, m)
      end;
  let error := r.1 in
  let msp2 := set_ms_loading false (set_ms_loaded (error =? 0) r.2) in
  msp3 ← (if ms_loaded msp2 then
            d0 ← tree_at (ms_defertree msp2) 0;
            m0 ← ms_tree_walk_remove d0 msp2;
            d1 ← tree_at (ms_defertree m0) 1;
            ms_tree_walk_remove d1 m0
          else Done msp2);
  Done (error, msp3).

Definition metaslab_unload (msp : metaslab) : metaslab :=
  set_ms_weight (clear_active (ms_weight msp))
    (set_ms_loaded false (set_ms_tree [] msp)).

Definition metaslab_weight_factor (vd : vdev) (msp : metaslab) : Z :=
  match ms_sm msp with
  | None =>
      let i := highbit64 (ms_size msp) - 1 in
      let sectors := Z.shiftr (ms_size msp) (vdev_ashift vd) in
      u64 (sectors * i * vdev_ashift vd)
  | Some sm =>
      if negb (sm_db_full sm) then 0
      else
        let step (acc : Z * Z) (h : Z) : Z * Z :=
          let i := acc.1 in
          if h =? 0 then (i + 1, acc.2)
          else
            let sectors := u64 (Z.shiftl h i) in
            (i + 1, u64 (acc.2 + u64 ((i + sm_shift sm) * sectors))) in
        let factor :=
          (fold_left step
             (take (Z.to_nat SPACE_MAP_HISTOGRAM_SIZE) (smp_histogram sm)) (0, 0)).2 in
        u64 (factor * sm_shift sm)
  end.

(** Returns the weight and the metaslab with [ms_factor] stored. *)
Definition metaslab_weight (vd : vdev) (msp : metaslab) : outcome (Z * metaslab) :=
  if vdev_removing vd then Done (0, msp)
  else
    let space := u64 (ms_size msp - space_map_allocated (ms_sm msp)) in
    q ← udiv (u64 (ms_id msp * space)) (vdev_ms_count vd);
    let weight := u64 (2 * space - q) in
    let msp1 := set_ms_factor (metaslab_weight_factor vd msp) msp in
    let weight1 :=
      if metaslab_weight_factor_enable tun then u64 (weight + ms_factor msp1)
      else weight in
    let weight2 :=
      if ms_loaded msp1 && negb (msop_fragmented msp1)
      then Z.lor weight1 (Z.land (ms_weight msp1) METASLAB_ACTIVE_MASK)
      else weight1 in
    Done (weight2, msp1).

(** Returns the error and the metaslab. *)
Definition metaslab_activate (msp : metaslab) (activation_weight : Z)
  : outcome (Z * metaslab) :=
  if Z.land (ms_weight msp) METASLAB_ACTIVE_MASK =? 0 then
    _ ← metaslab_load_wait msp;
    r ← (if negb (ms_loaded msp) then metaslab_load msp else Done (0, msp));
    if negb (r.1 =? 0) then Done (r.1, metaslab_group_sort r.2 0)
    else
      Done (0, metaslab_group_sort r.2 (Z.lor (ms_weight r.2) activation_weight))
  else Done (0, msp).

Definition metaslab_passivate (msp : metaslab) (size : Z) : metaslab :=
  metaslab_group_sort msp (Z.min (ms_weight msp) size).

Definition metaslab_should_condense (msp : metaslab) : outcome bool :=
  match avl_last (ms_size_tree msp) with
  | None => Done true
  | Some rs =>
      sm ← of_option FNull (ms_sm msp);
      let size := Z.shiftr (u64 (rs_end rs - rs_start rs)) (sm_shift sm) in
      entries ← udiv size (Z.min size SM_RUN_MAX);
      let segsz := u64 (entries * 8) in
      Done ((segsz <=? space_map_length (ms_sm msp))
            && (u64 (u64 (zfs_condense_pct tun) * 8 * avl_numnodes (ms_tree msp)) / 100
                <=? space_map_length (ms_sm msp)))
  end.

Definition metaslab_condense (msp : metaslab) (txg : Z) : outcome metaslab :=
  sm ← of_option FNull (ms_sm msp);
  freetree ← tree_at (ms_freetree msp) (txg_slot txg);
  c0 ← range_tree_add [] (ms_start msp) (ms_size msp);
  c1 ← walk_remove freetree c0;
  d0 ← tree_at (ms_defertree msp) 0;
  c2 ← walk_remove d0 c1;
  d1 ← tree_at (ms_defertree msp) 1;
  c3 ← walk_remove d1 c2;
  a1 ← tree_at (ms_alloctree msp) (txg_slot (u64 (txg + 1)));
  c4 ← walk_remove a1 c3;
  a2 ← tree_at (ms_alloctree msp) (txg_slot (u64 (txg + 2)));
  condense_tree ← walk_remove a2 c4;
  let msp1 := set_ms_condensing true msp in
  let sm1 := space_map_truncate sm in
  let sm2 := space_map_write sm1 condense_tree SM_ALLOC in
  let sm3 := space_map_write sm2 (ms_tree msp1) SM_FREE in
  Done (set_ms_condensing false (set_ms_sm (Some sm3) msp1)).

Definition metaslab_sync (s : spa) (p : msp_ptr) (txg : Z) : outcome spa :=
  vd ← get_vdev s p.1;
  msp ← get_ms vd p.2;
  let object := space_map_object (ms_sm msp) in
  if tree_is_null (ms_freetree msp) (txg_slot txg) then Done s
  else
    alloctree ← tree_at (ms_alloctree msp) (txg_slot txg);
    freetree ← tree_at (ms_freetree msp) (txg_slot txg);
    if (range_tree_space alloctree =? 0) && (range_tree_space freetree =? 0)
    then Done s
    else
      a ← match ms_sm msp with
          | Some sm => Done (msp, s)
          | None =>
              let new_object := spa_mos_next s in
              _ ← verify (negb (new_object =? 0));
              Done (set_ms_sm (Some (space_map_open new_object (ms_start msp)
                                       (ms_size msp) (vdev_ashift vd))) msp,
                    set_spa_mos_next (new_object + 1) s)
          end;
      let msp1 := a.1 in
      let s1 := a.2 in
      sm ← of_option FNull (ms_sm msp1);
      condense ← (if ms_loaded msp1 && (spa_sync_pass s1 =? 1)
                  then metaslab_should_condense msp1 else Done false);
      msp2 ← (if (condense : bool) then metaslab_condense msp1 txg
              else Done (set_ms_sm
                           (Some (space_map_write (space_map_write sm alloctree SM_ALLOC)
                                    freetree SM_FREE)) msp1));
      let msp3 := set_ms_alloctree (set_tree (ms_alloctree msp2) (txg_slot txg) []) msp2 in
      sm3 ← of_option FNull (ms_sm msp3);
      let msp4 :=
        if ms_loaded msp3
        then set_ms_sm (Some (space_map_histogram_add (space_map_histogram_clear sm3)
                                (ms_tree msp3))) msp3
        else set_ms_sm (Some (space_map_histogram_add sm3 freetree)) msp3 in
      msp5 ← (if spa_sync_pass s1 =? 1 then
                ft ← swap_within (ms_freetree msp4) (txg_slot txg)
                       (txg_slot (TXG_CLEAN txg));
                Done (set_ms_freetree ft msp4)
              else
                freed ← tree_at (ms_freetree msp4) (txg_slot (TXG_CLEAN txg));
                freed' ← vacate_into freetree freed;
                Done (set_ms_freetree
                        (set_tree (set_tree (ms_freetree msp4) (txg_slot txg) [])
                           (txg_slot (TXG_CLEAN txg)) freed') msp4));
      vd1 ← get_vdev s1 p.1;
      let vd2 :=
        if negb (object =? space_map_object (ms_sm msp5))
        then set_vdev_ms_array
               (<[Z.to_nat (ms_id msp5) := space_map_object (ms_sm msp5)]>
                  (vdev_ms_array vd1)) vd1
        else vd1 in
      Done (set_vdev s1 p.1 (set_ms vd2 p.2 msp5)).

(** The loops of [metaslab_sync_done] that create the trees of a metaslab
    that is just becoming available. *)
Definition metaslab_create_trees (msp : metaslab) : metaslab :=
  let fresh n (arr : list (option range_tree)) :=
    fold_left (fun a t => set_tree a t []) (seq 0 n) arr in
  set_ms_defertree (fresh (Z.to_nat TXG_DEFER_SIZE) (ms_defertree msp))
    (set_ms_freetree (fresh (Z.to_nat TXG_SIZE) (ms_freetree msp))
       (set_ms_alloctree (fresh (Z.to_nat TXG_SIZE) (ms_alloctree msp)) msp)).

Definition metaslab_sync_done (s : spa) (p : msp_ptr) (txg : Z) : outcome spa :=
  vd ← get_vdev s p.1;
  msp ← get_ms vd p.2;
  a ← (if tree_is_null (ms_freetree msp) (txg_slot (TXG_CLEAN txg)) then
         let m := metaslab_create_trees msp in
         s' ← vdev_space_update s p.1 0 0 (ms_size m);
         Done (m, s')
       else Done (msp, s));
  let msp1 := a.1 in
  freed_tree ← tree_at (ms_freetree msp1) (txg_slot (TXG_CLEAN txg));
  defer_tree ← tree_at (ms_defertree msp1) (defer_slot txg);
  let alloc_delta := space_map_alloc_delta (ms_sm msp1) in
  let defer_delta := range_tree_space freed_tree - range_tree_space defer_tree in
  s2 ← vdev_space_update a.2 p.1 (alloc_delta + defer_delta) defer_delta 0;
  _ ← metaslab_load_wait msp1;
  msp2 ← (if ms_loaded msp1 then ms_tree_vacate_into defer_tree msp1 else Done msp1);
  let msp3 := set_ms_defertree (set_tree (ms_defertree msp2) (defer_slot txg) []) msp2 in
  sw ← swap_slots (ms_freetree msp3) (txg_slot (TXG_CLEAN txg))
         (ms_defertree msp3) (defer_slot txg);
  let msp4 := set_ms_defertree sw.2 (set_ms_freetree sw.1 msp3) in
  let msp5 := set_ms_sm (space_map_update (ms_sm msp4)) msp4 in
  let msp6 := set_ms_deferspace (ms_deferspace msp5 + defer_delta) msp5 in
  vd2 ← get_vdev s2 p.1;
  let vd3 :=
    if negb (ms_deferspace msp6 =? 0) then vdev_dirty vd2 (ms_id msp6) (u64 (txg + 1))
    else vd2 in
  msp7 ← (if ms_loaded msp6 && (ms_access_txg msp6 <? txg) then
            a1 ← tree_at (ms_alloctree msp6) (txg_slot (u64 (txg + 1)));
            _ ← verify (range_tree_space a1 =? 0);
            a2 ← tree_at (ms_alloctree msp6) (txg_slot (u64 (txg + 2)));
            _ ← verify (range_tree_space a2 =? 0);
            Done (if negb (metaslab_debug_unload tun) then metaslab_unload msp6
                  else msp6)
          else Done msp6);
  w ← metaslab_weight vd3 msp7;
  Done (set_vdev s2 p.1 (set_ms vd3 p.2 (metaslab_group_sort w.2 w.1))).

(** [opened] is what [space_map_open] finds under [object]; the caller's
    store into [vdev_ms] is part of the step. *)
Definition metaslab_init (s : spa) (g : nat) (id object txg : Z)
    (opened : space_map) : outcome (msp_ptr * spa) :=
  vd ← get_vdev s g;
  mc ← get_class s (mg_class (vdev_mg vd));
  let msp :=
    mk_metaslab id (u64 (Z.shiftl id (vdev_ms_shift vd)))
      (u64 (Z.shiftl 1 (vdev_ms_shift vd)))
      (if negb (object =? 0) then Some opened else None)
      [] (repeat None (Z.to_nat TXG_SIZE)) (repeat None (Z.to_nat TXG_SIZE))
      (repeat None (Z.to_nat TXG_DEFER_SIZE))
      false false false 0 0 0 (repeat 0 (Z.to_nat MAX_LBAS)) 0 (mc_ops mc) in
  _ ← (if bool_decide (Z.to_nat id = length (vdev_ms vd)) then Done tt else Fault FNull);
  let p : msp_ptr := (g, Z.to_nat id) in
  let s1 := set_vdev s g (set_vdev_ms (vdev_ms vd ++ [msp]) vd) in
  s2 ← (if txg <=? TXG_INITIAL then metaslab_sync_done s1 p 0 else Done s1);
  s3 ← (if metaslab_debug_load tun && negb (object =? 0) then
          m ← get_msp s2 p;
          r ← metaslab_load m;
          _ ← verify (r.1 =? 0);
          set_msp s2 p r.2
        else Done s2);
  if negb (txg =? 0) then
    vd3 ← get_vdev s3 g;
    Done (p, set_vdev s3 g (vdev_dirty vd3 id txg))
  else Done (p, s3).

(** ** Allocation from a group *)

Definition metaslab_distance (vd : vdev) (msp : metaslab) (dva : dva_t) : Z :=
  let ms_shift := vdev_ms_shift vd in
  let offset := Z.shiftr (dva_offset dva) ms_shift in
  let start := ms_id msp in
  if negb (vdev_id vd =? dva_vdev dva) then Z.shiftl 1 63
  else if offset <? start then u64 (Z.shiftl (start - offset) ms_shift)
  else if start <? offset then u64 (Z.shiftl (offset - start) ms_shift)
  else 0.

(** What the walk of the group's tree under [mg_lock] ends with. *)
Inductive pick :=
| PickGiveUp                              (* return (-1ULL) inside the walk *)
| PickNone                                (* the walk ran off the tree: msp == NULL *)
| Pick (i : nat) (was_active : bool).

(** [was_active] is a [boolean_t], an [int]-sized enum: the assignment keeps
    the low 32 bits of [ms_weight & METASLAB_ACTIVE_MASK]. *)
Fixpoint group_pick (vd : vdev) (t : list (nat * metaslab))
    (asize activation_weight min_distance : Z) (dva : list dva_t) : pick :=
  match t with
  | [] => PickNone
  | (i, msp) :: rest =>
      if ms_weight msp <? asize then PickGiveUp
      else if ms_condensing msp then
        group_pick vd rest asize activation_weight min_distance dva
      else
        let was_active :=
          negb (to_int (Z.land (ms_weight msp) METASLAB_ACTIVE_MASK) =? 0) in
        if activation_weight =? METASLAB_WEIGHT_PRIMARY then Pick i was_active
        else
          let target_distance :=
            u64 (min_distance
                 + (if negb (space_map_allocated (ms_sm msp) =? 0) then 0
                    else Z.shiftr min_distance 1)) in
          if forallb (fun dv => negb (metaslab_distance vd msp dv <? target_distance)) dva
          then Pick i was_active
          else group_pick vd rest asize activation_weight min_distance dva
  end.

(** What one pass of the [for (;;)] body under [ms_lock] ends with. *)
Inductive attempt :=
| Retry (msp : metaslab)                  (* continue *)
| Allocated (offset : Z) (msp : metaslab).  (* break *)

(** The body of the loop from [mutex_enter(&msp->ms_lock)] on. *)
Definition group_alloc_locked (vd : vdev) (msp : metaslab)
    (asize activation_weight : Z) (was_active : bool) : outcome attempt :=
  if (ms_weight msp <? asize)
     || (was_active
         && (Z.land (ms_weight msp) METASLAB_ACTIVE_MASK =? 0)
         && (activation_weight =? METASLAB_WEIGHT_PRIMARY))
  then Done (Retry msp)
  else if negb (Z.land (ms_weight msp) METASLAB_WEIGHT_SECONDARY =? 0)
          && (activation_weight =? METASLAB_WEIGHT_PRIMARY)
  then Done (Retry (metaslab_passivate msp (clear_active (ms_weight msp))))
  else
    a ← metaslab_activate msp activation_weight;
    if negb (a.1 =? 0) then Done (Retry a.2)
    else if ms_condensing a.2 then Done (Retry a.2)
    else
      b ← metaslab_block_alloc vd a.2 asize;
      if negb (b.1 =? U64_MAX) then Done (Allocated b.1 b.2)
      else Done (Retry (metaslab_passivate b.2 (metaslab_block_maxsize b.2))).

(** [env k] is what other threads did to the pool while this one waited for
    [ms_lock] in the pass numbered [k]; the identity when there are none. *)
Fixpoint metaslab_group_alloc (env : nat -> spa -> spa) (fuel : nat) (s : spa)
    (g : nat) (psize asize txg min_distance : Z) (dva : list dva_t) (d : Z)
  : outcome (Z * spa) :=
  match fuel with
  | O => Fault FFuel
  | S fuel' =>
      vd ← get_vdev s g;
      let prior := take (Z.to_nat d) dva in
      let activation_weight :=
        if existsb (fun dv => dva_vdev dv =? vdev_id vd) prior
        then METASLAB_WEIGHT_SECONDARY else METASLAB_WEIGHT_PRIMARY in
      match group_pick vd (mg_metaslab_tree vd) asize activation_weight
              min_distance prior with
      | PickGiveUp => Done (U64_MAX, s)
      | PickNone => Done (U64_MAX, s)
      | Pick i was_active =>
          let s1 := env fuel' s in
          vd1 ← get_vdev s1 g;
          msp ← get_ms vd1 i;
          r ← group_alloc_locked vd1 msp asize activation_weight was_active;
          match r with
          | Retry msp' =>
              metaslab_group_alloc env fuel' (set_vdev s1 g (set_ms vd1 i msp'))
                g psize asize txg min_distance dva d
          | Allocated offset msp' =>
              alloctree ← tree_at (ms_alloctree msp') (txg_slot txg);
              let vd2 :=
                if range_tree_space alloctree =? 0
                then vdev_dirty vd1 (ms_id msp') txg else vd1 in
              alloctree' ← range_tree_add alloctree offset asize;
              let msp2 :=
                set_ms_access_txg (u64 (txg + metaslab_unload_delay tun))
                  (set_ms_alloctree
                     (set_tree (ms_alloctree msp') (txg_slot txg) alloctree') msp') in
              Done (offset, set_vdev s1 g (set_ms vd2 i msp2))
          end
      end
  end.

(** ** The allocator facade *)

(** The rotor walk of [metaslab_alloc_dva] from [top:] on; one unit of fuel
    is one pass of the [do] body. *)
Fixpoint alloc_dva_walk (env : nat -> spa -> spa) (fuel : nat) (s : spa)
    (mc : nat) (psize : Z) (dva : list dva_t) (d : Z) (txg flags : Z)
    (mg rotor : option nat) (dshift : Z) (zio_lock all_zero : bool)
  : outcome (Z * list dva_t * spa) :=
  match fuel with
  | O => Fault FFuel
  | S fuel' =>
      g ← of_option FNull mg;
      vd ← get_vdev s g;
      allocatable ← (if vdev_can_alloc vd && CAN_FASTGANG flags
                        && (SPA_GANGBLOCKSIZE <? psize)
                     then metaslab_group_allocatable s g
                     else Done (vdev_can_alloc vd));
      let next (s' : spa) (all_zero' : bool) : outcome (Z * list dva_t * spa) :=
        mgr ← get_group s' g;
        mcr ← get_class s' mc;
        let s'' := set_class s' mc (set_mc_aliquot 0 (set_mc_rotor (mg_next mgr) mcr)) in
        if negb (bool_decide (mg_next mgr = rotor)) then
          alloc_dva_walk env fuel' s'' mc psize dva d txg flags (mg_next mgr) rotor
            dshift zio_lock all_zero'
        else if negb all_zero' then
          alloc_dva_walk env fuel' s'' mc psize dva d txg flags (mg_next mgr) rotor
            (dshift + 1) zio_lock true
        else if negb (allocatable : bool) && negb zio_lock then
          alloc_dva_walk env fuel' s'' mc psize dva d txg flags (mg_next mgr) rotor
            3 true true
        else Done (ENOSPC, <[Z.to_nat d := dva_zero]> dva, s'') in
      if negb allocatable then next s all_zero
      else if ((0 <? vs_write_errors (vdev_stat vd))
               || (vdev_state vd <? VDEV_STATE_HEALTHY))
              && (d =? 0) && (dshift =? 3)
              && negb (zfs_write_to_degraded tun
                       && (vdev_state vd =? VDEV_STATE_DEGRADED))
      then next s false
      else
        let distance0 := Z.shiftr (vdev_asize vd) dshift in
        let near := distance0 <=? u64 (Z.shiftl 1 (vdev_ms_shift vd)) in
        let distance := if near then 0 else distance0 in
        let all_zero1 := if near then all_zero else false in
        let asize := vdev_psize_to_asize vd psize in
        r ← metaslab_group_alloc env fuel' s g psize asize txg distance dva d;
        let offset := r.1 in
        let s1 := r.2 in
        if negb (offset =? U64_MAX) then
          vd1 ← get_vdev s1 g;
          mc1 ← get_class s1 mc;
          let mg1 :=
            if mc_aliquot mc1 =? 0 then
              let vs := vdev_stat vd1 in
              let vu := u64 (vs_alloc vs * 100) / u64 (vs_space vs + 1) in
              let cu := u64 (mc_alloc mc1 * 100) / u64 (mc_space mc1 + 1) in
              set_mg_bias (Z.quot ((cu - vu) * mg_aliquot (vdev_mg vd1)) 100)
                (vdev_mg vd1)
            else vdev_mg vd1 in
          let aliquot := u64 (mc_aliquot mc1 + asize) in
          let mc2 :=
            if u64 (mg_aliquot mg1 + mg_bias mg1) <=? aliquot
            then set_mc_aliquot 0 (set_mc_rotor (mg_next mg1) mc1)
            else set_mc_aliquot aliquot mc1 in
          let s2 := set_class (set_vdev s1 g (set_vdev_mg mg1 vd1)) mc mc2 in
          let dv :=
            mk_dva (vdev_id vd1) offset asize
              (negb (Z.land flags METASLAB_GANG_HEADER =? 0)) in
          Done (0, <[Z.to_nat d := dv]> dva, s2)
        else next s1 all_zero1
  end.

(** [lbolt] is the reading of [ddi_get_lbolt()]. *)
Definition metaslab_alloc_dva (env : nat -> spa -> spa) (fuel : nat) (s : spa)
    (mc : nat) (psize : Z) (dva : list dva_t) (d : Z)
    (hintdva : option (list dva_t)) (txg flags lbolt : Z)
  : outcome (Z * list dva_t * spa) :=
  if (metaslab_gang_bang tun <=? psize) && (Z.land lbolt 3 =? 0)
  then Done (ENOSPC, dva, s)
  else
    mcr ← get_class s mc;
    mg0 ← match hintdva with
          | Some hint =>
              h ← of_option FNull (hint !! Z.to_nat d);
              match vdev_lookup_top s (dva_vdev h) with
              | Some (g, vd) =>
                  if negb (Z.land flags METASLAB_HINTBP_AVOID =? 0)
                     && bool_decide (mg_next (vdev_mg vd) <> None)
                  then Done (mg_next (vdev_mg vd))
                  else Done (Some g)
              | None => Done (mc_rotor mcr)
              end
          | None =>
              if negb (d =? 0) then
                prev ← of_option FNull (dva !! Z.to_nat (d - 1));
                gv ← of_option FNull (vdev_lookup_top s (dva_vdev prev));
                Done (mg_next (vdev_mg gv.2))
              else Done (mc_rotor mcr)
          end;
    g0 ← of_option FNull mg0;
    mgr ← get_group s g0;
    let mg :=
      if negb (bool_decide (mg_class mgr = mc)) || (mg_activation_count mgr <=? 0)
      then mc_rotor mcr else mg0 in
    alloc_dva_walk env fuel s mc psize dva d txg flags mg mg 3 false true.

Definition metaslab_free_dva (s : spa) (dva : dva_t) (txg : Z) (now : bool)
  : outcome spa :=
  let offset := dva_offset dva in
  if spa_freeze_txg s <? txg then Done s
  else
    match vdev_lookup_top s (dva_vdev dva) with
    | None => Done s
    | Some (v, vd) =>
        if vdev_ms_count vd <=? Z.shiftr offset (vdev_ms_shift vd) then Done s
        else
          let i := Z.to_nat (Z.shiftr offset (vdev_ms_shift vd)) in
          msp ← get_ms vd i;
          let size :=
            if dva_gang dva then vdev_psize_to_asize vd SPA_GANGBLOCKSIZE
            else dva_asize dva in
          if now then
            alloctree ← tree_at (ms_alloctree msp) (txg_slot txg);
            alloctree' ← range_tree_remove alloctree offset size;
            let msp1 :=
              set_ms_alloctree
                (set_tree (ms_alloctree msp) (txg_slot txg) alloctree') msp in
            _ ← (if ms_condensing msp1 then Fault FFreeCondensing else Done tt);
            _ ← verify (ms_start msp1 <=? offset);
            _ ← verify (u64 (offset + size) <=? u64 (ms_start msp1 + ms_size msp1));
            _ ← verify (u64 (range_tree_space (ms_tree msp1) + size) <=? ms_size msp1);
            _ ← verify (P2PHASE offset (u64 (Z.shiftl 1 (vdev_ashift vd))) =? 0);
            _ ← verify (P2PHASE size (u64 (Z.shiftl 1 (vdev_ashift vd))) =? 0);
            msp2 ← ms_tree_add msp1 offset size;
            Done (set_vdev s v (set_ms vd i msp2))
          else
            freetree ← tree_at (ms_freetree msp) (txg_slot txg);
            let vd1 :=
              if range_tree_space freetree =? 0
              then vdev_dirty vd (ms_id msp) txg else vd in
            freetree' ← range_tree_add freetree offset size;
            Done (set_vdev s v
                    (set_ms vd1 i
                       (set_ms_freetree
                          (set_tree (ms_freetree msp) (txg_slot txg) freetree') msp)))
    end.

Definition metaslab_claim_dva (s : spa) (dva : dva_t) (txg : Z) : outcome (Z * spa) :=
  let offset := dva_offset dva in
  match vdev_lookup_top s (dva_vdev dva) with
  | None => Done (ENXIO, s)
  | Some (v, vd) =>
      if vdev_ms_count vd <=? Z.shiftr offset (vdev_ms_shift vd) then Done (ENXIO, s)
      else
        let i := Z.to_nat (Z.shiftr offset (vdev_ms_shift vd)) in
        msp ← get_ms vd i;
        let size :=
          if dva_gang dva then vdev_psize_to_asize vd SPA_GANGBLOCKSIZE
          else dva_asize dva in
        a ← (if (negb (txg =? 0) && spa_writeable s) || negb (ms_loaded msp)
             then metaslab_activate msp METASLAB_WEIGHT_SECONDARY
             else Done (0, msp));
        let msp1 := a.2 in
        let error :=
          if (a.1 =? 0) && negb (range_tree_contains (ms_tree msp1) offset size)
          then ENOENT else a.1 in
        if negb (error =? 0) || (txg =? 0) then
          Done (error, set_vdev s v (set_ms vd i msp1))
        else
          _ ← (if ms_condensing msp1 then Fault FClaimCondensing else Done tt);
          _ ← verify (P2PHASE offset (u64 (Z.shiftl 1 (vdev_ashift vd))) =? 0);
          _ ← verify (P2PHASE size (u64 (Z.shiftl 1 (vdev_ashift vd))) =? 0);
          _ ← verify (u64 (range_tree_space (ms_tree msp1) - size) <=? ms_size msp1);
          msp2 ← ms_tree_remove msp1 offset size;
          if spa_writeable s then
            alloctree ← tree_at (ms_alloctree msp2) (txg_slot txg);
            let vd1 :=
              if range_tree_space alloctree =? 0
              then vdev_dirty vd (ms_id msp2) txg else vd in
            alloctree' ← range_tree_add alloctree offset size;
            Done (0, set_vdev s v
                       (set_ms vd1 i
                          (set_ms_alloctree
                             (set_tree (ms_alloctree msp2) (txg_slot txg) alloctree')
                             msp2)))
          else Done (0, set_vdev s v (set_ms vd i msp2))
  end.

(** The unwinding loop of [metaslab_alloc]: [for (d--; d >= 0; d--)]. *)
Fixpoint alloc_unwind (s : spa) (dva : list dva_t) (d : nat) (txg : Z)
  : outcome (list dva_t * spa) :=
  match d with
  | O => Done (dva, s)
  | S d' =>
      dv ← of_option FNull (dva !! d');
      s' ← metaslab_free_dva s dv txg true;
      alloc_unwind s' (<[d' := dva_zero]> dva) d' txg
  end.

(** The [for] loop of [metaslab_alloc] with [n] copies still to allocate. *)
Fixpoint alloc_copies (env : nat -> spa -> spa) (fuel : nat) (s : spa) (mc : nat)
    (psize : Z) (dva : list dva_t) (d : nat) (n : nat)
    (hintdva : option (list dva_t)) (txg flags lbolt : Z)
  : outcome (Z * list dva_t * spa) :=
  match n with
  | O => Done (0, dva, s)
  | S n' =>
      r ← metaslab_alloc_dva env fuel s mc psize dva (Z.of_nat d) hintdva txg flags lbolt;
      let error := r.1.1 in
      if negb (error =? 0) then
        u ← alloc_unwind r.2 r.1.2 d txg;
        Done (error, u.1, u.2)
      else alloc_copies env fuel r.2 mc psize r.1.2 (S d) n' hintdva txg flags lbolt
  end.

Definition metaslab_alloc (env : nat -> spa -> spa) (fuel : nat) (s : spa) (mc : nat)
    (psize : Z) (bp : blkptr_t) (ndvas : Z) (txg : Z) (hintbp : option blkptr_t)
    (flags lbolt : Z) : outcome (Z * blkptr_t * spa) :=
  mcr ← get_class s mc;
  match mc_rotor mcr with
  | None => Done (ENOSPC, bp, s)
  | Some _ =>
      r ← alloc_copies env fuel s mc psize (blk_dva bp) 0 (Z.to_nat ndvas)
            (option_map blk_dva hintbp) txg flags lbolt;
      let error := r.1.1 in
      if negb (error =? 0) then
        Done (error, mk_blkptr r.1.2 (blk_phys_birth bp) (blk_birth bp), r.2)
      else Done (0, mk_blkptr r.1.2 0 txg, r.2)
  end.

Fixpoint free_copies (s : spa) (dva : list dva_t) (txg : Z) (now : bool)
  : outcome spa :=
  match dva with
  | [] => Done s
  | dv :: rest =>
      s' ← metaslab_free_dva s dv txg now;
      free_copies s' rest txg now
  end.

Definition metaslab_free (s : spa) (bp : blkptr_t) (txg : Z) (now : bool)
  : outcome spa :=
  free_copies s (take (Z.to_nat (BP_GET_NDVAS bp)) (blk_dva bp)) txg now.

(** The [for] loop of [metaslab_claim], which stops at the first error. *)
Fixpoint claim_copies (s : spa) (dva : list dva_t) (txg : Z) : outcome (Z * spa) :=
  match dva with
  | [] => Done (0, s)
  | dv :: rest =>
      r ← metaslab_claim_dva s dv txg;
      if negb (r.1 =? 0) then Done r else claim_copies r.2 rest txg
  end.

(** The recursive call of the source is the dry run with [txg = 0]. *)
Definition metaslab_claim (s : spa) (bp : blkptr_t) (txg : Z) : outcome (Z * spa) :=
  let dva := take (Z.to_nat (BP_GET_NDVAS bp)) (blk_dva bp) in
  if negb (txg =? 0) then
    r ← claim_copies s dva 0;
    if negb (r.1 =? 0) then Done r else claim_copies r.2 dva txg
  else claim_copies s dva txg.

End Metaslab.

(** ** Vocabulary of the statements *)

(** [x] lies in the half-open interval from [s] to [e]. *)
Definition in_range (s e x : Z) : bool := (s <=? x) && (x <? e).

(** ** Small pools for the examples *)

(** An unloaded metaslab of 4096 bytes at offset 0 with its trees created. *)
Definition ms_example (ops : metaslab_ops) : metaslab :=
  mk_metaslab 0 0 4096 None []
    [Some []; Some []; Some []; Some []] [Some []; Some []; Some []; Some []]
    [Some []; Some []]
    false false false 0 0 0 (repeat 0 (Z.to_nat MAX_LBAS)) 0 ops.

(** A healthy device of one 4096-byte metaslab slot and 512-byte sectors,
    with its group, before [metaslab_init]. *)
Definition vdev_example (id : Z) (class : nat) : vdev :=
  mk_vdev id 12 1 9 4096 0 false VDEV_STATE_HEALTHY true
    (mk_vdev_stat 0 0 0 0) (metaslab_group_create class) [] [0] [].

(** A leaf device allocates whole sectors. *)
Definition asize_example (vd : vdev) (psize : Z) : Z :=
  P2ROUNDUP psize (Z.shiftl 1 (vdev_ashift vd)).

(** No other thread touches the pool. *)
Definition no_env : nat -> spa -> spa := fun _ s => s.

(** ** The claims in the words of the spec *)

(** The weight as the spec words it: twice the free space less the share of
    the metaslab's index, the histogram factor if enabled, and the active bits
    of the metaslab. *)
Definition metaslab_weight_spec (tun : tunables) (vd : vdev) (msp : metaslab) : Z :=
  let free := ms_size msp - space_map_allocated (ms_sm msp) in
  let base := 2 * free - (ms_id msp * free) / vdev_ms_count vd in
  let w := if metaslab_weight_factor_enable tun
           then u64 (base + metaslab_weight_factor vd msp) else base in
  Z.lor w (Z.land (ms_weight msp) METASLAB_ACTIVE_MASK).

(** The condense test as the spec words it, for a largest free segment [rs]:
    its best-case encoding, a word per run of at most [SM_RUN_MAX] sectors, is
    less than the length on disk, and that length exceeds [condense_pct / 100]
    times 8 bytes times the number of nodes. *)
Definition should_condense_spec (tun : tunables) (msp : metaslab) (rs : range_seg)
  : bool :=
  let length := space_map_length (ms_sm msp) in
  let shift := match ms_sm msp with Some sm => sm_shift sm | None => 0 end in
  (8 * sm_words shift rs <? length)
  && (zfs_condense_pct tun * 8 * avl_numnodes (ms_tree msp) <? 100 * length).

(** ** The first-fit scenario *)

Definition bp_empty : blkptr_t := mk_blkptr [dva_zero; dva_zero; dva_zero] 0 0.

(** A new pool of one device with one metaslab of 4096 bytes, sector size
    512, first-fit: the class, the group, [metaslab_init] at [TXG_INITIAL] and
    the activation of the group. *)
Definition ff_pool : outcome spa :=
  let s := mk_spa [vdev_example 0 0] [metaslab_class_create metaslab_ff_ops]
             0 U64_MAX true 1 TXG_INITIAL 1 in
  r ← metaslab_init default_tunables s 0 0 0 TXG_INITIAL (space_map_open 0 0 0 0);
  metaslab_group_activate default_tunables r.2 0.

(** One copy of [psize] bytes in txg 5. *)
Definition ff_alloc (s : spa) (psize : Z) : outcome (Z * blkptr_t * spa) :=
  metaslab_alloc default_tunables asize_example no_env 8 s 0 psize bp_empty 1 5 None 0 1.

Definition first_offset (r : Z * blkptr_t * spa) : Z :=
  match blk_dva r.1.2 with
  | dv :: _ => dva_offset dv
  | [] => U64_MAX
  end.

(** Alloc 512, alloc 1024, free the first block at once, alloc 512, alloc
    4096.  The result lists the three offsets, what the first-fit allocator
    itself answers to the last request, and the error of the last
    [metaslab_alloc]. *)
Definition ff_scenario : outcome (list Z) :=
  s0 ← ff_pool;
  a1 ← ff_alloc s0 512;
  a2 ← ff_alloc a1.2 1024;
  s3 ← metaslab_free asize_example a2.2 a1.1.2 5 true;
  a4 ← ff_alloc s3 512;
  m ← get_msp a4.2 (0%nat, 0%nat);
  r5 ← metaslab_ff_alloc m 4096;
  a5 ← ff_alloc a4.2 4096;
  Done [first_offset a1; first_offset a2; first_offset a4; r5.1; a5.1.1].

(** The metaslab as the third allocation finds it. *)
Definition ff_before_third : outcome metaslab :=
  s0 ← ff_pool;
  a1 ← ff_alloc s0 512;
  a2 ← ff_alloc a1.2 1024;
  s3 ← metaslab_free asize_example a2.2 a1.1.2 5 true;
  get_msp s3 (0%nat, 0%nat).

(** ** Order of the size tree *)

Definition size_le (a b : range_seg) : Prop :=
  u64 (rs_end a - rs_start a) < u64 (rs_end b - rs_start b)
  \/ (u64 (rs_end a - rs_start a) = u64 (rs_end b - rs_start b)
      /\ rs_start a <= rs_start b).

Fixpoint size_ordered (t : list range_seg) : Prop :=
  match t with
  | [] => True
  | y :: t' => (forall z, In z t' -> size_le y z) /\ size_ordered t'
  end.

(** ** The rotor ring *)

Definition mg_of (s : spa) (g : nat) : option metaslab_group :=
  vdev_mg <$> spa_vdevs s !! g.

Definition mg_active (mg : metaslab_group) : Prop := 0 < mg_activation_count mg.

Definition nxt (s : spa) (g : nat) : option nat := mg_of s g ≫= mg_next.
Definition prv (s : spa) (g : nat) : option nat := mg_of s g ≫= mg_prev.
Definition rotor_at (s : spa) (c : nat) : option (option nat) :=
  mc_rotor <$> spa_classes s !! c.

(** The groups met from [g] on along [mg_next] until [rotor] comes up again:
    the [do ... while] walk of [metaslab_class_validate]. *)
Fixpoint ring_from (s : spa) (fuel : nat) (rotor g : nat) : list nat :=
  match fuel with
  | O => []
  | S fuel' =>
      g :: match mg_of s g with
           | Some mg =>
               match mg_next mg with
               | Some n => if bool_decide (n = rotor) then [] else ring_from s fuel' rotor n
               | None => []
               end
           | None => []
           end
  end.

(** The ring of class [c], walked from its rotor. *)
Definition class_ring (s : spa) (c : nat) : list nat :=
  match spa_classes s !! c with
  | Some mc =>
      match mc_rotor mc with
      | Some r => ring_from s (length (spa_vdevs s)) r r
      | None => []
      end
  | None => []
  end.

(** [mg_next] leads from [a] through [l] to [z], and [mg_prev] back. *)
Fixpoint chain (s : spa) (a : nat) (l : list nat) (z : nat) : Prop :=
  match l with
  | [] => nxt s a = Some z /\ prv s z = Some a
  | b :: l' => nxt s a = Some b /\ prv s b = Some a /\ chain s b l' z
  end.

(** [l] is the ring of class [c]: it starts at the rotor, holds exactly the
    groups of the class that are active, each once, and is closed. *)
Definition ring_of (s : spa) (c : nat) (l : list nat) : Prop :=
  NoDup l
  /\ rotor_at s c = Some (head l)
  /\ (forall g, g ∈ l ->
        exists mg, mg_of s g = Some mg /\ mg_class mg = c
                   /\ mg_activation_count mg = 1)
  /\ (forall g mg, mg_of s g = Some mg -> mg_class mg = c -> g ∉ l ->
        mg_activation_count mg <= 0 /\ mg_prev mg = None /\ mg_next mg = None)
  /\ match l with
     | [] => True
     | x :: t => chain s x t x
     end.

Definition rotor_inv (s : spa) : Prop :=
  (forall g mg, mg_of s g = Some mg -> is_Some (spa_classes s !! mg_class mg))
  /\ forall c, is_Some (spa_classes s !! c) -> exists l, ring_of s c l.

(** A pool of newly created classes and groups. *)
Definition fresh_pool (s : spa) : Prop :=
  (forall c mc, spa_classes s !! c = Some mc -> mc_rotor mc = None)
  /\ (forall g mg, mg_of s g = Some mg ->
        is_Some (spa_classes s !! mg_class mg)
        /\ mg_activation_count mg = 0
        /\ mg_prev mg = None /\ mg_next mg = None).

(** A call of the rotor interface. *)
Inductive rotor_call :=
| Activate (g : nat)
| Passivate (g : nat).

Definition rotor_call_run (tun : tunables) (s : spa) (call : rotor_call)
  : outcome spa :=
  match call with
  | Activate g => metaslab_group_activate tun s g
  | Passivate g => metaslab_group_passivate s g
  end.

Fixpoint rotor_calls (tun : tunables) (s : spa) (calls : list rotor_call)
  : outcome spa :=
  match calls with
  | [] => Done s
  | call :: rest =>
      s' ← rotor_call_run tun s call;
      rotor_calls tun s' rest
  end.



(** Two devices of one class, newly created. *)
Definition rotor_pool : spa :=
  mk_spa [vdev_example 0 0; vdev_example 1 0] [metaslab_class_create metaslab_df_ops]
    0 U64_MAX true 1 TXG_INITIAL 1.

(** ** Trees in canonical form *)

(** The intervals are non-empty, in increasing order, and no two touch. *)
Definition sorted (rt : range_tree) : bool :=
  match rt with
  | [] => true
  | r :: _ => sorted_from (rs_start r - 1) rt
  end.

(** Every offset of [s, e) is in the tree. *)
Definition holds (rt : range_tree) (s e : Z) : Prop :=
  forall x, s <= x < e -> covers rt x = true.

(** No offset of [s, e) is in the tree. *)
Definition lacks (rt : range_tree) (s e : Z) : Prop :=
  forall x, s <= x < e -> covers rt x = false.

Definition trees_sorted (arr : list (option range_tree)) : bool :=
  forallb (fun o => match o with Some t => sorted t | None => true end) arr.

Definition trees_exist (n : nat) (arr : list (option range_tree)) : bool :=
  forallb (fun i => negb (tree_is_null arr i)) (seq 0 n).

(** The trees of the metaslab exist and are in canonical form. *)
Definition ms_trees_ok (m : metaslab) : bool :=
  sorted (ms_tree m)
  && trees_exist (Z.to_nat TXG_SIZE) (ms_alloctree m) && trees_sorted (ms_alloctree m)
  && trees_exist (Z.to_nat TXG_SIZE) (ms_freetree m) && trees_sorted (ms_freetree m)
  && trees_exist (Z.to_nat TXG_DEFER_SIZE) (ms_defertree m)
  && trees_sorted (ms_defertree m).

Definition slot_holds (arr : list (option range_tree)) (i : nat) (a b : Z) : Prop :=
  exists t, arr !! i = Some (Some t) /\ holds t a b.


(** The size [metaslab_free_dva] and [metaslab_claim_dva] take for a DVA. *)
Definition dva_size (asize : vdev -> Z -> Z) (vd : vdev) (dva : dva_t) : Z :=
  if dva_gang dva then asize vd SPA_GANGBLOCKSIZE else dva_asize dva.

(** ** Pools for the defer ring *)

(** A metaslab in the course of txg 6: 512 bytes at 0 wait in the defer tree
    of the even txgs, 512 bytes at 512 were freed and synced in txg 6. *)
Definition defer_ms (loaded : bool) : metaslab :=
  set_ms_access_txg 100
    (set_ms_loaded loaded
       (set_ms_tree (if loaded then [mk_seg 1024 4096] else [])
          (set_ms_freetree [Some []; Some [mk_seg 512 1024]; Some []; Some []]
             (set_ms_defertree [Some [mk_seg 0 512]; Some []]
                (ms_example metaslab_ff_ops))))).

Definition defer_pool (loaded : bool) : spa :=
  mk_spa [set_vdev_ms [defer_ms loaded] (vdev_example 0 0)]
    [metaslab_class_create metaslab_ff_ops] 0 U64_MAX true 1 TXG_INITIAL 1.

(** A metaslab whose first 512 bytes are allocated. *)
Definition reuse_ms (loaded : bool) : metaslab :=
  set_ms_access_txg 100
    (set_ms_loaded loaded
       (set_ms_tree (if loaded then [mk_seg 512 4096] else [])
          (ms_example metaslab_ff_ops))).

Definition reuse_pool (loaded : bool) : spa :=
  mk_spa [set_vdev_ms [reuse_ms loaded] (vdev_example 0 0)]
    [metaslab_class_create metaslab_ff_ops] 0 U64_MAX true 1 TXG_INITIAL 1.

(** ** Condensing *)

(** The outcome is not the failure of the check in [metaslab_block_alloc]. *)
Definition passes {A} (o : outcome A) : Prop := o <> Fault FAllocCondensing.

(** The metaslab is condensing and has the trees of [m]. *)
Definition condensing_as (m m' : metaslab) : Prop :=
  ms_condensing m' = true /\ ms_tree m' = ms_tree m
  /\ ms_alloctree m' = ms_alloctree m.

(** A loaded metaslab in the middle of its condensing. *)
Definition condensing_ms : metaslab :=
  set_ms_condensing true
    (set_ms_weight 4096
       (set_ms_loaded true
          (set_ms_tree [mk_seg 0 4096] (ms_example metaslab_ff_ops)))).

Definition condensing_pool : spa :=
  mk_spa [set_vdev_ms [condensing_ms] (vdev_example 0 0)]
    [metaslab_class_create metaslab_ff_ops] 0 U64_MAX true 1 TXG_INITIAL 1.


(** ** Frames *)

(** [asize] looks at the geometry of the device only. *)
Definition asize_stable (asize : vdev -> Z -> Z) : Prop :=
  forall vd vd' x,
    vdev_ashift vd' = vdev_ashift vd -> vdev_children vd' = vdev_children vd ->
    asize vd' x = asize vd x.

(** The two records describe the same device with as many metaslabs. *)
Definition vdev_alike (vd vd' : vdev) : Prop :=
  vdev_id vd' = vdev_id vd /\ vdev_ms_shift vd' = vdev_ms_shift vd
  /\ vdev_ms_count vd' = vdev_ms_count vd /\ vdev_ashift vd' = vdev_ashift vd
  /\ vdev_children vd' = vdev_children vd
  /\ length (vdev_ms vd') = length (vdev_ms vd).

(** [s'] has the devices and metaslabs of [s], and the metaslab [i] of the
    device [v] is related to what it was by [R v i]. *)
Definition pool_frame (R : nat -> nat -> metaslab -> metaslab -> Prop) (s s' : spa)
  : Prop :=
  spa_writeable s' = spa_writeable s /\ spa_freeze_txg s' = spa_freeze_txg s
  /\ length (spa_vdevs s') = length (spa_vdevs s)
  /\ forall v vd, spa_vdevs s !! v = Some vd ->
       exists vd', spa_vdevs s' !! v = Some vd' /\ vdev_alike vd vd'
         /\ forall i m, vdev_ms vd !! i = Some m ->
              exists m', vdev_ms vd' !! i = Some m' /\ R v i m m'.

(** The metaslab a DVA lies in: the index of its device, the device, the
    index of the metaslab, and the metaslab. *)
Definition dva_target (s : spa) (dv : dva_t) : option (nat * vdev * nat * metaslab) :=
  match vdev_lookup_top s (dva_vdev dv) with
  | Some (v, vd) =>
      let i := Z.shiftr (dva_offset dv) (vdev_ms_shift vd) in
      if vdev_ms_count vd <=? i then None
      else match vdev_ms vd !! Z.to_nat i with
           | Some m => Some (v, vd, Z.to_nat i, m)
           | None => None
           end
  | None => None
  end.

(** The device and the interval of a copy. *)
Definition dva_range (asize : vdev -> Z -> Z) (s : spa) (dv : dva_t)
  : option (nat * Z * Z) :=
  match vdev_lookup_top s (dva_vdev dv) with
  | Some (v, vd) => Some (v, dva_offset dv, dva_offset dv + dva_size asize vd dv)
  | None => None
  end.

Definition ranges_apart (a b : option (nat * Z * Z)) : bool :=
  match a, b with
  | Some (va, sa, ea), Some (vb, sb, eb) =>
      negb (va =? vb)%nat || (ea <=? sb) || (eb <=? sa)
  | _, _ => true
  end.

(** No two copies of the list overlap. *)
Fixpoint copies_apart (asize : vdev -> Z -> Z) (s : spa) (dvas : list dva_t) : bool :=
  match dvas with
  | [] => true
  | dv :: rest =>
      forallb (fun dv' => ranges_apart (dva_range asize s dv) (dva_range asize s dv'))
        rest
      && copies_apart asize s rest
  end.

(** Loaded, or marked active: [metaslab_activate] will not load it. *)
Definition ms_ready (m : metaslab) : bool :=
  ms_loaded m || negb (Z.land (ms_weight m) METASLAB_ACTIVE_MASK =? 0).

(** The allocation trees are those of [m], and so is the free tree if [m]
    was loaded or marked active. *)
Definition claim_keeps (m m' : metaslab) : Prop :=
  ms_alloctree m' = ms_alloctree m
  /\ (ms_ready m = true -> ms_ready m' = true /\ ms_tree m' = ms_tree m).

(** Every allocation tree of [s'] is as in [s], and so is the in-core free
    tree of every metaslab that was loaded in [s]. *)
Definition trees_kept (s s' : spa) : Prop :=
  forall v vd i m,
    spa_vdevs s !! v = Some vd -> vdev_ms vd !! i = Some m ->
    exists vd' m',
      spa_vdevs s' !! v = Some vd' /\ vdev_ms vd' !! i = Some m'
      /\ ms_alloctree m' = ms_alloctree m
      /\ (ms_loaded m = true -> ms_tree m' = ms_tree m).

(** The copy lies in a loaded metaslab of the pool. *)
Definition copy_loaded (s : spa) (dv : dva_t) : bool :=
  match dva_target s dv with
  | Some (_, _, _, m) => ms_loaded m
  | None => false
  end.

(** The copy lies in the free tree of its metaslab. *)
Definition copy_free (asize : vdev -> Z -> Z) (s : spa) (dv : dva_t) : bool :=
  match dva_target s dv with
  | Some (_, vd, _, m) =>
      range_tree_contains (ms_tree m) (dva_offset dv) (dva_size asize vd dv)
  | None => false
  end.

(** [a] and [b] differ in the free tree, the flags of loading and the weight
    at most. *)
Definition ms_alike (a b : metaslab) : Prop :=
  ms_id b = ms_id a /\ ms_start b = ms_start a /\ ms_size b = ms_size a
  /\ ms_sm b = ms_sm a /\ ms_alloctree b = ms_alloctree a
  /\ ms_freetree b = ms_freetree a /\ ms_defertree b = ms_defertree a
  /\ ms_condensing b = ms_condensing a /\ ms_ops b = ms_ops a.

(** The activation that [metaslab_claim_dva] starts with. *)
Definition claim_activate (s : spa) (m : metaslab) (txg : Z) : outcome (Z * metaslab) :=
  if (negb (txg =? 0) && spa_writeable s) || negb (ms_loaded m)
  then metaslab_activate m METASLAB_WEIGHT_SECONDARY
  else Done (0, m).

(** The copy lies in the free tree of a metaslab that will not be loaded. *)
Definition claim_ready (asize : vdev -> Z -> Z) (s : spa) (dv : dva_t) : bool :=
  match dva_target s dv with
  | Some (_, vd, _, m) =>
      ms_ready m
      && range_tree_contains (ms_tree m) (dva_offset dv) (dva_size asize vd dv)
  | None => false
  end.

(** A metaslab that is not loaded; its space map records that the first 512
    bytes are allocated. *)
Definition claim_ms : metaslab :=
  set_ms_sm
    (Some (set_sm_records [mk_sm_record SM_ALLOC 0 512] (space_map_open 1 0 4096 9)))
    (ms_example metaslab_ff_ops).

Definition claim_pool : spa :=
  mk_spa [set_vdev_ms [claim_ms] (vdev_example 0 0)]
    [metaslab_class_create metaslab_ff_ops] 0 U64_MAX true 1 TXG_INITIAL 1.

(** Two copies: 512 bytes at 1024, which are free, and 512 bytes at 0, which
    are not. *)
Definition claim_bp : blkptr_t :=
  mk_blkptr [mk_dva 0 1024 512 false; mk_dva 0 0 512 false] 0 0.


(** ** Well-formed pools *)

(** Every interval of the tree lies in [lo, hi). *)
Definition tree_within (rt : range_tree) (lo hi : Z) : bool :=
  forallb (fun r => (lo <=? rs_start r) && (rs_end r <=? hi)) rt.

(** The space map describes the metaslab, and its records lie in it. *)
Definition sm_ok (m : metaslab) : bool :=
  match ms_sm m with
  | Some sm =>
      (sm_start sm =? ms_start m) && (sm_size sm =? ms_size m)
      && forallb (fun r => (ms_start m <=? smr_offset r)
                           && (smr_offset r + smr_size r <=? ms_start m + ms_size m))
           (sm_records sm)
  | None => true
  end.

(** The metaslab [i] of a device with metaslabs of [2 ^ shift] bytes: it
    covers its share of the device, its free tree is in canonical form and
    inside it, its allocation trees are in canonical form, and it is marked
    active only if it is loaded. *)
Definition ms_ok (shift : Z) (i : nat) (m : metaslab) : bool :=
  (ms_start m =? Z.of_nat i * 2 ^ shift) && (ms_size m =? 2 ^ shift)
  && sorted (ms_tree m)
  && tree_within (ms_tree m) (ms_start m) (ms_start m + ms_size m)
  && trees_sorted (ms_alloctree m)
  && sm_ok m
  && (ms_loaded m || (Z.land (ms_weight m) METASLAB_ACTIVE_MASK =? 0)).

Definition vdev_ok (v : nat) (vd : vdev) : bool :=
  (vdev_id vd =? Z.of_nat v) && (0 <=? vdev_ms_shift vd)
  && (Z.of_nat (length (vdev_ms vd)) <=? vdev_ms_count vd)
  && forallb (fun x => x) (imap (ms_ok (vdev_ms_shift vd)) (vdev_ms vd)).

Definition pool_ok (s : spa) : bool :=
  forallb (fun x => x) (imap vdev_ok (spa_vdevs s)).

(** The metaslab keeps its place, its allocation trees and, if it was loaded,
    its free tree; it stays well-formed. *)
Definition alloc_keeps (i : nat) (m m' : metaslab) : Prop :=
  ms_start m' = ms_start m /\ ms_size m' = ms_size m
  /\ ms_alloctree m' = ms_alloctree m
  /\ (ms_loaded m = true -> ms_loaded m' = true /\ ms_tree m' = ms_tree m)
  /\ (forall shift, ms_ok shift i m = true -> ms_ok shift i m' = true).

(** [n] bytes at [o] went from the free tree of the metaslab, loaded for it
    if need be, to the allocation tree of the slot. *)
Definition alloc_moves (o n : Z) (slot : nat) (i : nat) (m m' : metaslab) : Prop :=
  ms_start m' = ms_start m /\ ms_size m' = ms_size m
  /\ (exists A A',
        ms_alloctree m !! slot = Some (Some A)
        /\ range_tree_add A o n = Done A'
        /\ ms_alloctree m' = <[slot := Some A']> (ms_alloctree m))
  /\ ms_loaded m' = true
  /\ (exists T,
        (ms_loaded m = true -> T = ms_tree m)
        /\ sorted T = true
        /\ range_tree_remove T o n = Done (ms_tree m'))
  /\ ms_start m <= o /\ o + n <= ms_start m + ms_size m
  /\ (forall shift, ms_ok shift i m = true -> ms_ok shift i m' = true).

(** The relation of an allocation from the metaslab [i0] of the device [v0]:
    that metaslab gave the block, the others are kept. *)
Definition alloc_at (v0 i0 : nat) (o n : Z) (slot : nat)
  : nat -> nat -> metaslab -> metaslab -> Prop :=
  fun v i m m' =>
    if decide (v = v0 /\ i = i0) then alloc_moves o n slot i m m'
    else alloc_keeps i m m'.

(** The tree is in canonical form and inside [lo, hi). *)
Definition tree_fits (rt : range_tree) (lo hi : Z) : Prop :=
  sorted rt = true /\ tree_within rt lo hi = true.

(** Every metaslab of the pool is kept. *)
Definition keeps : nat -> nat -> metaslab -> metaslab -> Prop :=
  fun _ => alloc_keeps.

(** What one copy's allocation leaves: a failure keeps every metaslab and
    zeroes the DVA; a success took the DVA's block from one metaslab. *)
Definition dva_outcome (asize : vdev -> Z -> Z) (s : spa) (psize : Z) (dva : list dva_t)
    (d txg flags : Z) (r : Z * list dva_t * spa) : Prop :=
  (r.1.1 <> 0 /\ pool_frame keeps s r.2
   /\ (r.1.2 = dva \/ r.1.2 = <[Z.to_nat d := dva_zero]> dva))
  \/ (r.1.1 = 0
      /\ exists g i o vd0,
           pool_frame (alloc_at g i o (asize vd0 psize) (txg_slot txg)) s r.2
           /\ spa_vdevs s !! g = Some vd0 /\ is_Some (vdev_ms vd0 !! i)
           /\ r.1.2 = <[Z.to_nat d :=
                          mk_dva (vdev_id vd0) o (asize vd0 psize)
                            (negb (Z.land flags METASLAB_GANG_HEADER =? 0))]> dva).

(** [n] bytes at [o] went back from the allocation tree of the slot to the
    free tree. *)
Definition free_moves (o n : Z) (slot : nat) (m m' : metaslab) : Prop :=
  exists A A' t,
    ms_alloctree m !! slot = Some (Some A)
    /\ range_tree_remove A o n = Done A'
    /\ range_tree_add (ms_tree m) o n = Done t
    /\ m' = set_ms_tree t (set_ms_alloctree (set_tree (ms_alloctree m) slot A') m).

Definition free_at (v0 i0 : nat) (o n : Z) (slot : nat)
  : nat -> nat -> metaslab -> metaslab -> Prop :=
  fun v i m m' =>
    if decide (v = v0 /\ i = i0) then free_moves o n slot m m' else m' = m.

(** Two copies of [psize] bytes in txg 5. *)
Definition alloc_two (s : spa) (psize : Z) : outcome (Z * blkptr_t * spa) :=
  metaslab_alloc default_tunables asize_example no_env 8 s 0 psize bp_empty 2 5 None 0 1.

(** The pool of the first-fit scenario after a first block of 512 bytes: its
    metaslab is loaded. *)
Definition loaded_pool : outcome spa :=
  s0 ← ff_pool;
  a ← ff_alloc s0 512;
  Done a.2.


(** ** Vocabulary of the further properties *)

(** The metaslabs of the tree come in [metaslab_compare] order. *)
Fixpoint weight_ordered (t : list (nat * metaslab)) : Prop :=
  match t with
  | [] => True
  | y :: t' =>
      (forall z, In z t' -> metaslab_compare y.2 z.2 <= 0) /\ weight_ordered t'
  end.

(** What [metaslab_load] reads: the free space as the space map has it, or
    the whole metaslab when there is no space map yet. *)
Definition load_source (m : metaslab) : outcome (Z * range_tree) :=
  match ms_sm m with
  | Some sm => space_map_load sm (ms_tree m)
  | None =>
      rt ← range_tree_add (ms_tree m) (ms_start m) (ms_size m);
      Done (0, rt)
  end.

(** The space held by the trees of an array. *)
Definition trees_space (arr : list (option range_tree)) : Z :=
  fold_right (fun o acc => match o with
                           | Some t => range_tree_space t + acc
                           | None => acc
                           end) 0 arr.

(** The two copies share no byte of a device. *)
Definition dva_apart (a b : dva_t) : Prop :=
  dva_vdev a <> dva_vdev b
  \/ dva_offset a + dva_asize a <= dva_offset b
  \/ dva_offset b + dva_asize b <= dva_offset a.

(** The block of the DVA lies in one metaslab of its device, which is loaded
    and whose free tree holds none of it. *)
Definition dva_taken (s : spa) (dv : dva_t) : Prop :=
  exists v vd i m,
    spa_vdevs s !! v = Some vd /\ dva_vdev dv = Z.of_nat v
    /\ vdev_ms vd !! i = Some m
    /\ ms_loaded m = true
    /\ 0 < dva_asize dv
    /\ ms_start m <= dva_offset dv
    /\ dva_offset dv + dva_asize dv <= ms_start m + ms_size m
    /\ lacks (ms_tree m) (dva_offset dv) (dva_offset dv + dva_asize dv).


(** A loaded metaslab whose first 512 bytes are allocated. *)
Definition loaded_ms (ops : metaslab_ops) : metaslab :=
  set_ms_loaded true (set_ms_tree [mk_seg 512 4096] (ms_example ops)).

(** The pool of [defer_pool] with the deferred space counted. *)
Definition counted_pool : spa :=
  mk_spa [set_vdev_ms [set_ms_deferspace 512 (defer_ms true)] (vdev_example 0 0)]
    [metaslab_class_create metaslab_ff_ops] 0 U64_MAX true 1 TXG_INITIAL 1.

(** [alloc_at], and the metaslab that gave the block carries the stamp in
    [ms_access_txg]. *)
Definition alloc_stamped (v0 i0 : nat) (o n : Z) (slot : nat) (stamp : Z)
  : nat -> nat -> metaslab -> metaslab -> Prop :=
  fun v i m m' =>
    alloc_at v0 i0 o n slot v i m m'
    /\ (v = v0 /\ i = i0 -> ms_access_txg m' = stamp).

(** The test of the walk of [metaslab_group_alloc] on a metaslab heavy
    enough: it is not condensing and, for a copy that shares the device with
    an earlier one, it is far enough from each of the earlier copies. *)
Definition pick_eligible (vd : vdev) (activation_weight min_distance : Z)
    (dva : list dva_t) (msp : metaslab) : bool :=
  negb (ms_condensing msp)
  && ((activation_weight =? METASLAB_WEIGHT_PRIMARY)
      || forallb (fun dv =>
            negb (metaslab_distance vd msp dv
                  <? u64 (min_distance
                          + (if negb (space_map_allocated (ms_sm msp) =? 0) then 0
                             else Z.shiftr min_distance 1)))) dva).


(** The group counts for the class: it belongs to it and is allocatable. *)
Definition counts_for (c : nat) (mg : metaslab_group) : bool :=
  (mg_class mg =? c)%nat && mg_allocatable mg.

(** The number of allocatable groups of the class. *)
Definition allocatable_count (s : spa) (c : nat) : Z :=
  Z.of_nat (length (List.filter (fun vd => counts_for c (vdev_mg vd)) (spa_vdevs s))).

(** [mc_alloc_groups] of every class is the number of its allocatable
    groups. *)
Definition alloc_groups_ok (s : spa) : Prop :=
  forall c mc, spa_classes s !! c = Some mc -> mc_alloc_groups mc = allocatable_count s c.

(** The pool of the first-fit scenario before its group is activated. *)
Definition init_pool : outcome spa :=
  let s := mk_spa [vdev_example 0 0] [metaslab_class_create metaslab_ff_ops]
             0 U64_MAX true 1 TXG_INITIAL 1 in
  r ← metaslab_init default_tunables s 0 0 0 TXG_INITIAL (space_map_open 0 0 0 0);
  Done r.2.

(** ** The debugging check of a free *)

(** Modelled from the spec: [range_tree_verify(rt, off, size)] of
    range_tree.c, which panics when the tree holds the block; the panic is
    the fault [FVerify]. *)
Definition range_tree_verify (rt : range_tree) (off size : Z) : outcome unit :=
  if range_tree_contains rt off size then Fault FVerify else Done tt.

(** [range_tree_verify] on the trees of the slots [js] of a per-txg array,
    in turn. *)
Fixpoint verify_slots (arr : list (option range_tree)) (js : list nat) (off size : Z)
  : outcome unit :=
  match js with
  | [] => Done tt
  | j :: rest =>
      rt ← tree_at arr j;
      _ ← range_tree_verify rt off size;
      verify_slots arr rest off size
  end.

(** The [for] loop of [metaslab_check_free] over the copies. *)
Fixpoint check_copies (s : spa) (dva : list dva_t) : outcome unit :=
  match dva with
  | [] => Done tt
  | dv :: rest =>
      match vdev_lookup_top s (dva_vdev dv) with
      | None => Fault FNull
      | Some (_, vd) =>
          let offset := dva_offset dv in
          let size := dva_asize dv in
          msp ← get_ms vd (Z.to_nat (Z.shiftr offset (vdev_ms_shift vd)));
          _ ← (if ms_loaded msp then range_tree_verify (ms_tree msp) offset size
               else Done tt);
          _ ← verify_slots (ms_freetree msp) (seq 0 (Z.to_nat TXG_SIZE)) offset size;
          _ ← verify_slots (ms_defertree msp) (seq 0 (Z.to_nat TXG_DEFER_SIZE))
                offset size;
          check_copies s rest
      end
  end.

(** [metaslab_check_free]; [zio_free_debug] tells whether [zfs_flags] has
    [ZFS_DEBUG_ZIO_FREE]. *)
Definition metaslab_check_free (zio_free_debug : bool) (s : spa) (bp : blkptr_t)
  : outcome unit :=
  if negb zio_free_debug then Done tt
  else check_copies s (take (Z.to_nat (BP_GET_NDVAS bp)) (blk_dva bp)).

(** The tree, if canonical, stays canonical and loses no offset. *)
Definition tree_grows (t t' : range_tree) : Prop :=
  sorted t = true ->
  sorted t' = true /\ forall x, covers t x = true -> covers t' x = true.

(** The slot is unchanged, or its tree grew. *)
Definition slot_grows (a b : option (option range_tree)) : Prop :=
  b = a \/ exists t t', a = Some (Some t) /\ b = Some (Some t') /\ tree_grows t t'.

(** What a free leaves of any metaslab: loaded as before, and the free tree
    and the per-txg free trees only grew. *)
Definition free_grows : nat -> nat -> metaslab -> metaslab -> Prop :=
  fun _ _ m m' =>
    ms_loaded m' = ms_loaded m
    /\ tree_grows (ms_tree m) (ms_tree m')
    /\ forall j, slot_grows (ms_freetree m !! j) (ms_freetree m' !! j).

(** The target of the copy can take its free: the trees the free adds to are
    canonical. *)
Definition free_ready (s : spa) (dv : dva_t) : Prop :=
  exists v vd i m,
    dva_target s dv = Some (v, vd, i, m)
    /\ sorted (ms_tree m) = true
    /\ forall j t, ms_freetree m !! j = Some (Some t) -> sorted t = true.

(** The block of the copy is in the tree that a free puts it in: the free
    tree of its loaded metaslab for a free at once, the free tree of the
    slot otherwise. *)
Definition freed_block (s : spa) (dv : dva_t) (now : bool) (slot : nat) : Prop :=
  exists v vd i m,
    dva_target s dv = Some (v, vd, i, m)
    /\ 0 < dva_asize dv
    /\ if now
       then ms_loaded m = true /\ sorted (ms_tree m) = true
            /\ holds (ms_tree m) (dva_offset dv) (dva_offset dv + dva_asize dv)
       else exists t, ms_freetree m !! slot = Some (Some t) /\ sorted t = true
              /\ holds t (dva_offset dv) (dva_offset dv + dva_asize dv).

(** ** Preloading *)

(** [metaslab_preload] on the metaslab [p]: it is loaded if it is not, the
    error of the load is dropped, and it is stamped. *)
Definition metaslab_preload (tun : tunables) (s : spa) (p : msp_ptr) : outcome spa :=
  msp ← get_msp s p;
  _ ← metaslab_load_wait msp;
  msp1 ← (if negb (ms_loaded msp) then r ← metaslab_load msp; Done r.2
          else Done msp);
  set_msp s p
    (set_ms_access_txg (u64 (spa_syncing_txg s + metaslab_unload_delay tun + 1)) msp1).

(** ** Frees in flight and the allocator *)

(** The metaslab keeps its per-txg free trees and its defer trees. *)
Definition frees_same : nat -> nat -> metaslab -> metaslab -> Prop :=
  fun _ _ m m' =>
    ms_freetree m' = ms_freetree m /\ ms_defertree m' = ms_defertree m.

(** The per-txg free trees and the defer trees of the metaslab exist, and
    the frees in flight are not free to allocate: the free tree of a loaded
    metaslab shares no offset with them, and an unloaded metaslab has none. *)
Definition frees_apart (m : metaslab) : Prop :=
  trees_exist (Z.to_nat TXG_SIZE) (ms_freetree m) = true
  /\ trees_exist (Z.to_nat TXG_DEFER_SIZE) (ms_defertree m) = true
  /\ forall t, In (Some t) (ms_freetree m ++ ms_defertree m) ->
       if ms_loaded m
       then forall x, covers t x = true -> covers (ms_tree m) x = false
       else t = [].

(** [frees_apart] of every metaslab of the pool. *)
Definition pool_frees_apart (s : spa) : Prop :=
  forall v vd i m,
    spa_vdevs s !! v = Some vd -> vdev_ms vd !! i = Some m -> frees_apart m.

(** The metaslab of the copy has its per-txg free trees and its defer trees,
    and none of them holds a byte of the copy. *)
Definition frees_lack (s : spa) (dv : dva_t) : Prop :=
  exists v vd m,
    vdev_lookup_top s (dva_vdev dv) = Some (v, vd)
    /\ vdev_ms vd !! Z.to_nat (Z.shiftr (dva_offset dv) (vdev_ms_shift vd)) = Some m
    /\ trees_exist (Z.to_nat TXG_SIZE) (ms_freetree m) = true
    /\ trees_exist (Z.to_nat TXG_DEFER_SIZE) (ms_defertree m) = true
    /\ forall t, In (Some t) (ms_freetree m ++ ms_defertree m) ->
         lacks t (dva_offset dv) (dva_offset dv + dva_asize dv).

(** The relation of an allocation that also keeps the frees in flight. *)
Definition alloc_at_frees (v0 i0 : nat) (o n : Z) (slot : nat)
  : nat -> nat -> metaslab -> metaslab -> Prop :=
  fun v i m m' => alloc_at v0 i0 o n slot v i m m' /\ frees_same v i m m'.

(** ** The rotor under allocation *)

(** The groups keep their class, their activation count and their
    neighbours, the classes are those there were, and every ring has the
    groups it had. *)
Definition rings_kept (s s' : spa) : Prop :=
  (forall g, mg_class <$> mg_of s' g = mg_class <$> mg_of s g)
  /\ (forall g mg mg', mg_of s g = Some mg -> mg_of s' g = Some mg' ->
        mg_activation_count mg' = mg_activation_count mg
        /\ mg_next mg' = mg_next mg /\ mg_prev mg' = mg_prev mg)
  /\ (forall c, is_Some (spa_classes s' !! c) <-> is_Some (spa_classes s !! c))
  /\ forall c l, ring_of s c l ->
       exists l', ring_of s' c l' /\ forall g, g ∈ l' <-> g ∈ l.

(** The group is on the ring of the class. *)
Definition on_ring (s : spa) (c g : nat) : Prop :=
  exists l, ring_of s c l /\ g ∈ l.

(** Two devices of one class with one metaslab each, both groups active. *)
Definition ring_pool : outcome spa :=
  a ← metaslab_init default_tunables rotor_pool 0 0 0 TXG_INITIAL
        (space_map_open 0 0 0 0);
  b ← metaslab_init default_tunables a.2 1 0 0 TXG_INITIAL (space_map_open 0 0 0 0);
  rotor_calls default_tunables b.2 [Activate 0%nat; Activate 1%nat].

(** ** The cursor-fit window *)

(** The cursor window of the cursor-fit allocator, [ms_lbas[0]] to
    [ms_lbas[1]], is empty or lies inside one segment of the free tree. *)
Definition cf_window (m : metaslab) : Prop :=
  exists c e,
    ms_lbas m !! 0%nat = Some c /\ ms_lbas m !! 1%nat = Some e
    /\ 0 <= c <= e /\ e <= 2 ^ 62
    /\ (c < e -> exists r, In r (ms_tree m) /\ rs_start r <= c /\ e <= rs_end r).

(** ** The defer ring under allocation *)
















(** ** A pool for the defer ring *)










(** * Properties *)

(* [set_solver] clears hypotheses it has already used. *)
Set Warnings "-clear-no-such-hyp".

(** ** Facts about range trees *)

Ltac zb :=
  repeat match goal with
  | H : _ && _ = true |- _ => apply andb_true_iff in H; destruct H
  | H : _ || _ = false |- _ => apply orb_false_iff in H; destruct H
  | H : (_ <? _) = true |- _ => apply Z.ltb_lt in H
  | H : (_ <? _) = false |- _ => apply Z.ltb_ge in H
  | H : (_ <=? _) = true |- _ => apply Z.leb_le in H
  | H : (_ <=? _) = false |- _ => apply Z.leb_gt in H
  | H : (_ =? _) = true |- _ => apply Z.eqb_eq in H
  | H : (_ =? _) = false |- _ => apply Z.eqb_neq in H
  | H : negb _ = true |- _ => apply negb_true_iff in H
  | H : negb _ = false |- _ => apply negb_false_iff in H
  end.

Lemma in_range_true s e x : in_range s e x = true <-> s <= x < e.
Proof. unfold in_range. rewrite andb_true_iff, Z.leb_le, Z.ltb_lt. tauto. Qed.

Lemma in_range_false s e x : in_range s e x = false <-> ~ (s <= x < e).
Proof. rewrite <- in_range_true. destruct (in_range s e x); split; congruence. Qed.

Lemma covers_cons r rt x : covers (r :: rt) x = in_range (rs_start r) (rs_end r) x || covers rt x.
Proof. reflexivity. Qed.

Lemma sorted_from_cons lo r rt :
  sorted_from lo (r :: rt) = true <->
  lo < rs_start r /\ rs_start r < rs_end r /\ sorted_from (rs_end r) rt = true.
Proof.
  simpl. rewrite !andb_true_iff, !Z.ltb_lt. tauto.
Qed.

Lemma sorted_from_weaken lo lo' rt :
  lo' <= lo -> sorted_from lo rt = true -> sorted_from lo' rt = true.
Proof.
  destruct rt as [|r rt]; [done|].
  rewrite !sorted_from_cons. intros ? (? & ? & ?). repeat split; [lia|done|done].
Qed.

Lemma covers_above lo rt x :
  sorted_from lo rt = true -> covers rt x = true -> lo < x.
Proof.
  revert lo. induction rt as [|r rt IH]; intros lo Hs Hc; [done|].
  apply sorted_from_cons in Hs as (? & ? & Hs).
  rewrite covers_cons in Hc. apply orb_true_iff in Hc as [Hc|Hc].
  - apply in_range_true in Hc. lia.
  - specialize (IH _ Hs Hc). lia.
Qed.

Lemma covers_below lo rt x :
  sorted_from lo rt = true -> x <= lo -> covers rt x = false.
Proof.
  intros Hs Hx. destruct (covers rt x) eqn:E; [|done].
  pose proof (covers_above _ _ _ Hs E). lia.
Qed.

Lemma add_seg_spec rt : forall lo s e rt',
  sorted_from lo rt = true -> lo < s -> s < e ->
  add_seg rt s e = Some rt' ->
  sorted_from lo rt' = true
  /\ (forall x, covers rt' x = covers rt x || in_range s e x)
  /\ (forall x, s <= x < e -> covers rt x = false).
Proof.
  induction rt as [|r rt IH]; intros lo s e rt' Hs Hlo Hse Hadd; simpl in Hadd.
  - inversion Hadd; subst. split; [|split].
    + simpl. rewrite !andb_true_iff, !Z.ltb_lt. lia.
    + intros. simpl. unfold seg_has, in_range. simpl. by rewrite orb_false_r.
    + done.
  - apply sorted_from_cons in Hs as (H1 & H2 & Hs).
    destruct (e <? rs_start r) eqn:E1; zb.
    { inversion Hadd; subst. split; [|split].
      - rewrite !sorted_from_cons. simpl. repeat split; try lia. done.
      - intros. rewrite !covers_cons. simpl.
        destruct (in_range s e x), (in_range (rs_start r) (rs_end r) x), (covers rt x); done.
      - intros x Hx. rewrite covers_cons. apply orb_false_iff. split.
        + apply in_range_false. lia.
        + eapply covers_below; [done|lia]. }
    destruct (e =? rs_start r) eqn:E2; zb.
    { inversion Hadd; subst. split; [|split].
      - rewrite !sorted_from_cons. simpl. repeat split; try lia. done.
      - intros. rewrite !covers_cons. simpl.
        destruct (covers rt x); rewrite ?orb_true_r; [done|]. rewrite !orb_false_r.
        destruct (in_range s (rs_end r) x) eqn:A, (in_range (rs_start r) (rs_end r) x) eqn:B,
          (in_range s (rs_start r) x) eqn:C; try done;
          rewrite ?in_range_true, ?in_range_false in *; lia.
      - intros x Hx. rewrite covers_cons. apply orb_false_iff. split.
        + apply in_range_false. lia.
        + eapply covers_below; [done|lia]. }
    destruct (rs_end r <? s) eqn:E3; zb.
    { destruct (add_seg rt s e) as [rest'|] eqn:Er; [|done].
      inversion Hadd; subst.
      destruct (IH (rs_end r) s e rest' Hs ltac:(lia) Hse Er) as (Ha & Hb & Hc).
      split; [|split].
      - rewrite sorted_from_cons. done.
      - intros. rewrite !covers_cons, Hb. by rewrite orb_assoc.
      - intros x Hx. rewrite covers_cons. apply orb_false_iff. split.
        + apply in_range_false. lia.
        + by apply Hc. }
    destruct (rs_end r =? s) eqn:E4; zb; [|done].
    destruct rt as [|r2 rest2].
    { inversion Hadd; subst. split; [|split].
      - rewrite !sorted_from_cons. simpl. repeat split; try lia.
      - intros. rewrite !covers_cons. simpl. rewrite !orb_false_r.
        destruct (in_range (rs_start r) e x) eqn:A, (in_range (rs_start r) (rs_end r) x) eqn:B,
          (in_range (rs_end r) e x) eqn:C; try done;
          rewrite ?in_range_true, ?in_range_false in *; lia.
      - intros x Hx. rewrite covers_cons. simpl. rewrite orb_false_r.
        apply in_range_false. lia. }
    apply sorted_from_cons in Hs as (H3 & H4 & Hs).
    destruct (e <? rs_start r2) eqn:E5; zb.
    { inversion Hadd; subst. split; [|split].
      - rewrite !sorted_from_cons. simpl. repeat split; try lia. done.
      - intros. rewrite !covers_cons. simpl.
        destruct (in_range (rs_start r2) (rs_end r2) x || covers rest2 x);
          rewrite ?orb_true_r; [done|]. rewrite !orb_false_r.
        destruct (in_range (rs_start r) e x) eqn:A, (in_range (rs_start r) (rs_end r) x) eqn:B,
          (in_range (rs_end r) e x) eqn:C; try done;
          rewrite ?in_range_true, ?in_range_false in *; lia.
      - intros x Hx. rewrite !covers_cons. repeat (apply orb_false_iff; split).
        + apply in_range_false. lia.
        + apply in_range_false. lia.
        + eapply covers_below; [done|lia]. }
    destruct (e =? rs_start r2) eqn:E6; zb; [|done].
    inversion Hadd; subst. split; [|split].
    + rewrite !sorted_from_cons. simpl. repeat split; try lia. done.
    + intros. rewrite !covers_cons. simpl.
      destruct (covers rest2 x); rewrite ?orb_true_r; [done|]. rewrite !orb_false_r.
      destruct (in_range (rs_start r) (rs_end r2) x) eqn:A,
        (in_range (rs_start r) (rs_end r) x) eqn:B,
        (in_range (rs_start r2) (rs_end r2) x) eqn:D,
        (in_range (rs_end r) (rs_start r2) x) eqn:C; try done;
        rewrite ?in_range_true, ?in_range_false in *; lia.
    + intros x Hx. rewrite !covers_cons. repeat (apply orb_false_iff; split).
      * apply in_range_false. lia.
      * apply in_range_false. lia.
      * eapply covers_below; [done|lia].
Qed.

Lemma remove_seg_spec rt : forall lo s e rt',
  sorted_from lo rt = true -> s < e ->
  remove_seg rt s e = Some rt' ->
  sorted_from lo rt' = true
  /\ (forall x, covers rt' x = covers rt x && negb (in_range s e x))
  /\ (forall x, s <= x < e -> covers rt x = true).
Proof.
  induction rt as [|r rt IH]; intros lo s e rt' Hs Hse Hrm; simpl in Hrm; [done|].
  apply sorted_from_cons in Hs as (H1 & H2 & Hs).
  destruct ((rs_start r <=? s) && (e <=? rs_end r)) eqn:E1.
  - zb. inversion Hrm; subst; clear Hrm. split; [|split].
    + destruct (rs_start r <? s) eqn:A, (e <? rs_end r) eqn:B; zb; simpl;
        rewrite ?andb_true_iff, ?Z.ltb_lt; repeat split; try lia;
        try (eapply sorted_from_weaken; [|done]; lia); done.
    + intros x. rewrite covers_cons.
      assert (Hrt : covers rt x = true -> rs_end r < x)
        by (intros Hc; eapply covers_above; done).
      destruct (rs_start r <? s) eqn:A, (e <? rs_end r) eqn:B; zb; simpl;
        unfold seg_has; simpl; fold (covers rt x);
        destruct (covers rt x) eqn:C;
        try specialize (Hrt eq_refl);
        rewrite ?orb_true_r, ?orb_false_r;
        repeat match goal with
        | |- context [in_range ?a ?b ?c] =>
            let E := fresh in destruct (in_range a b c) eqn:E;
            rewrite ?in_range_true, ?in_range_false in E
        | |- context [(?a <=? ?b) && (?c <? ?d)] =>
            change ((a <=? b) && (c <? d)) with (in_range a d c)
        end; simpl; try done; try lia.
    + intros x Hx. rewrite covers_cons. apply orb_true_iff. left.
      apply in_range_true. lia.
  - destruct (rs_end r <=? s) eqn:E2; [|done]. zb.
    destruct (remove_seg rt s e) as [rest'|] eqn:Er; [|done].
    inversion Hrm; subst; clear Hrm.
    destruct (IH (rs_end r) s e rest' Hs Hse Er) as (Ha & Hb & Hc).
    split; [|split].
    + rewrite sorted_from_cons. done.
    + intros x. rewrite !covers_cons, Hb.
      destruct (in_range (rs_start r) (rs_end r) x) eqn:A,
        (in_range s e x) eqn:B; simpl; rewrite ?andb_true_r, ?andb_false_r; try done.
      rewrite ?in_range_true, ?in_range_false in *. lia.
    + intros x Hx. rewrite covers_cons, (Hc x Hx). apply orb_true_r.
Qed.

Lemma covers_head_le r rt x :
  sorted_from (rs_end r) rt = true -> rs_start r < rs_end r ->
  covers (r :: rt) x = true -> rs_start r <= x.
Proof.
  intros Hs Hr Hc. rewrite covers_cons in Hc. apply orb_true_iff in Hc as [Hc|Hc].
  - apply in_range_true in Hc. lia.
  - pose proof (covers_above _ _ _ Hs Hc). lia.
Qed.

Lemma covers_head_start r rt : rs_start r < rs_end r -> covers (r :: rt) (rs_start r) = true.
Proof.
  intros. rewrite covers_cons. apply orb_true_iff. left. apply in_range_true. lia.
Qed.

(** Well-formed trees are canonical: the same points, the same tree. *)
Lemma range_tree_ext a : forall lo b,
  sorted_from lo a = true -> sorted_from lo b = true ->
  (forall x, covers a x = covers b x) -> a = b.
Proof.
  induction a as [|r1 a IH]; intros lo b Ha Hb Hx.
  - destruct b as [|r2 b]; [done|].
    apply sorted_from_cons in Hb as (? & ? & ?).
    specialize (Hx (rs_start r2)). rewrite covers_head_start in Hx by done. done.
  - destruct b as [|r2 b].
    { apply sorted_from_cons in Ha as (? & ? & ?).
      specialize (Hx (rs_start r1)). rewrite covers_head_start in Hx by done. done. }
    apply sorted_from_cons in Ha as (Ha1 & Ha2 & Ha).
    apply sorted_from_cons in Hb as (Hb1 & Hb2 & Hb).
    assert (Hst : rs_start r1 = rs_start r2).
    { pose proof (Hx (rs_start r1)) as X1. rewrite covers_head_start in X1 by done.
      symmetry in X1. apply covers_head_le in X1; [|done..].
      pose proof (Hx (rs_start r2)) as X2. rewrite (covers_head_start r2) in X2 by done.
      apply covers_head_le in X2; [|done..]. lia. }
    assert (Hen : rs_end r1 = rs_end r2).
    { destruct (Z.lt_trichotomy (rs_end r1) (rs_end r2)) as [L|[L|L]]; [|done|].
      - pose proof (Hx (rs_end r1)) as X. rewrite !covers_cons in X.
        rewrite (covers_below _ _ _ Ha (Z.le_refl _)) in X.
        replace (in_range (rs_start r1) (rs_end r1) (rs_end r1)) with false in X
          by (symmetry; apply in_range_false; lia).
        replace (in_range (rs_start r2) (rs_end r2) (rs_end r1)) with true in X
          by (symmetry; apply in_range_true; lia).
        done.
      - pose proof (Hx (rs_end r2)) as X. rewrite !covers_cons in X.
        rewrite (covers_below _ _ _ Hb (Z.le_refl _)) in X.
        replace (in_range (rs_start r2) (rs_end r2) (rs_end r2)) with false in X
          by (symmetry; apply in_range_false; lia).
        replace (in_range (rs_start r1) (rs_end r1) (rs_end r2)) with true in X
          by (symmetry; apply in_range_true; lia).
        done. }
    assert (r1 = r2) as -> by (destruct r1, r2; simpl in *; congruence).
    f_equal. apply (IH (rs_end r2)); [done..|].
    intros x. specialize (Hx x). rewrite !covers_cons in Hx.
    destruct (in_range (rs_start r2) (rs_end r2) x) eqn:E; [|done].
    apply in_range_true in E.
    rewrite (covers_below _ a x Ha), (covers_below _ b x Hb) by lia. done.
Qed.

Lemma add_seg_total rt : forall lo s e,
  sorted_from lo rt = true -> s < e ->
  (forall x, s <= x < e -> covers rt x = false) ->
  exists rt', add_seg rt s e = Some rt'.
Proof.
  induction rt as [|r rt IH]; intros lo s e Hs Hse Hd; simpl; [eauto|].
  apply sorted_from_cons in Hs as (H1 & H2 & Hs).
  assert (Hr : forall x, s <= x < e -> ~ (rs_start r <= x < rs_end r)).
  { intros x Hx. specialize (Hd x Hx). rewrite covers_cons in Hd.
    apply orb_false_iff in Hd as [Hd _]. by apply in_range_false. }
  assert (Hrt : forall x, s <= x < e -> covers rt x = false).
  { intros x Hx. specialize (Hd x Hx). rewrite covers_cons in Hd.
    by apply orb_false_iff in Hd as [_ Hd]. }
  destruct (e <? rs_start r) eqn:E1; [eauto|].
  destruct (e =? rs_start r) eqn:E2; [eauto|].
  destruct (rs_end r <? s) eqn:E3.
  { destruct (IH (rs_end r) s e Hs Hse Hrt) as [rt' ->]. eauto. }
  zb.
  destruct (rs_end r =? s) eqn:E4; zb.
  - destruct rt as [|r2 rest2]; [eauto|].
    apply sorted_from_cons in Hs as (H3 & H4 & Hs).
    destruct (e <? rs_start r2) eqn:E5; [eauto|].
    destruct (e =? rs_start r2) eqn:E6; [eauto|]. zb.
    specialize (Hrt (rs_start r2) ltac:(lia)).
    rewrite covers_head_start in Hrt by done. done.
  - exfalso.
    destruct (Z.le_gt_cases (rs_start r) s).
    + apply (Hr s); lia.
    + apply (Hr (rs_start r)); lia.
Qed.

Lemma remove_seg_total rt : forall lo s e,
  sorted_from lo rt = true -> s < e ->
  (forall x, s <= x < e -> covers rt x = true) ->
  exists rt', remove_seg rt s e = Some rt'.
Proof.
  induction rt as [|r rt IH]; intros lo s e Hs Hse Hc; simpl.
  { specialize (Hc s ltac:(lia)). done. }
  apply sorted_from_cons in Hs as (H1 & H2 & Hs).
  destruct ((rs_start r <=? s) && (e <=? rs_end r)) eqn:E1; [eauto|].
  destruct (rs_end r <=? s) eqn:E2; zb.
  - destruct (IH (rs_end r) s e Hs Hse) as [rt' ->]; [|eauto].
    intros x Hx. specialize (Hc x Hx). rewrite covers_cons in Hc.
    apply orb_true_iff in Hc as [Hc|Hc]; [|done].
    apply in_range_true in Hc. lia.
  - exfalso.
    assert (Hhead : forall x, s <= x < e -> rs_start r <= x).
    { intros x Hx. eapply covers_head_le; eauto. }
    assert (rs_start r <= s) by (apply Hhead; lia).
    apply andb_false_iff in E1 as [E1|E1]; zb; [lia|].
    pose proof (Hc (rs_end r) ltac:(lia)) as X. rewrite covers_cons in X.
    rewrite (covers_below _ _ _ Hs (Z.le_refl _)), orb_false_r in X.
    apply in_range_true in X. lia.
Qed.

Lemma range_tree_contains_covers rt s n x :
  range_tree_contains rt s n = true -> s <= x < s + n -> covers rt x = true.
Proof.
  unfold range_tree_contains, covers. intros H Hx.
  apply andb_true_iff in H as [_ H].
  apply existsb_exists in H as (r & Hin & Hr). zb.
  apply existsb_exists. exists r. split; [done|].
  unfold seg_has. apply andb_true_iff. rewrite Z.leb_le, Z.ltb_lt. lia.
Qed.

Lemma range_tree_contains_nonempty rt s n :
  range_tree_contains rt s n = true -> 0 < n.
Proof. unfold range_tree_contains. intros H. zb. done. Qed.

Lemma remove_seg_contains rt : forall s e rt',
  s < e -> remove_seg rt s e = Some rt' ->
  range_tree_contains rt s (e - s) = true.
Proof.
  unfold range_tree_contains.
  induction rt as [|r rt IH]; intros s e rt' Hse Hrm; simpl in Hrm; [done|].
  apply andb_true_iff. split; [apply Z.ltb_lt; lia|]. simpl.
  replace (s + (e - s)) with e by lia.
  destruct ((rs_start r <=? s) && (e <=? rs_end r)) eqn:E1; [done|].
  destruct (rs_end r <=? s) eqn:E2; [|done].
  destruct (remove_seg rt s e) as [rest'|] eqn:Er; [|done].
  specialize (IH s e rest' Hse Er). apply andb_true_iff in IH as [_ IH].
  replace (s + (e - s)) with e in IH by lia. rewrite IH. apply orb_true_r.
Qed.

(** ** Facts about machine integers *)

Lemma u64_small x : 0 <= x < U64_MOD -> u64 x = x.
Proof. intros. unfold u64. apply Z.mod_small. done. Qed.

Lemma msop_fragmented_set_factor tun f msp :
  msop_fragmented tun (set_ms_factor f msp) = msop_fragmented tun msp.
Proof. unfold msop_fragmented. simpl. destruct (ms_ops msp); reflexivity. Qed.

(** ** Facts about weights *)

Lemma active_mask_shift x :
  0 <= x < U64_MOD ->
  Z.land x METASLAB_ACTIVE_MASK = Z.shiftl (Z.shiftr x 62) 62.
Proof.
  intros Hx. apply Z.bits_inj'. intros n Hn.
  rewrite Z.land_spec.
  change METASLAB_ACTIVE_MASK with (Z.shiftl 3 62).
  destruct (Z.lt_ge_cases n 62) as [L|G].
  - rewrite !Z.shiftl_spec_low by done. apply andb_false_r.
  - rewrite !Z.shiftl_spec by lia. rewrite Z.shiftr_spec by lia.
    replace (n - 62 + 62) with n by lia.
    destruct (Z.eq_dec n 62) as [->|]; [apply andb_true_r|].
    destruct (Z.eq_dec n 63) as [->|]; [apply andb_true_r|].
    assert (Z.testbit x n = false) as ->; [|done].
    destruct (Z.eq_dec x 0) as [->|]; [apply Z.bits_0|].
    apply Z.bits_above_log2; [lia|].
    assert (Z.log2 x < 64); [|lia].
    apply Z.log2_lt_pow2; unfold U64_MOD in Hx; lia.
Qed.

Lemma active_mask_zero_iff x :
  0 <= x < U64_MOD -> (Z.land x METASLAB_ACTIVE_MASK = 0 <-> x < 2 ^ 62).
Proof.
  intros Hx. rewrite active_mask_shift by done.
  rewrite Z.shiftl_mul_pow2, Z.shiftr_div_pow2 by lia.
  split; intros H.
  - assert (x / 2 ^ 62 = 0) as E by lia.
    apply Z.div_small_iff in E; lia.
  - rewrite Z.div_small by lia. done.
Qed.

(** ** Facts about the size-ordered tree *)

Lemma rangesize_compare_lt a b : metaslab_rangesize_compare a b < 0 -> size_le a b.
Proof.
  unfold metaslab_rangesize_compare, size_le.
  repeat match goal with |- context [?x <? ?y] => destruct (Z.ltb_spec x y) end; lia.
Qed.

Lemma rangesize_compare_ge a b : ~ metaslab_rangesize_compare a b < 0 -> size_le b a.
Proof.
  unfold metaslab_rangesize_compare, size_le.
  repeat match goal with |- context [?x <? ?y] => destruct (Z.ltb_spec x y) end; lia.
Qed.

Lemma size_le_trans a b c : size_le a b -> size_le b c -> size_le a c.
Proof. unfold size_le. lia. Qed.

Lemma avl_insert_In {A} (c : A -> A -> Z) x t z :
  In z (avl_insert c x t) <-> z = x \/ In z t.
Proof.
  induction t as [|y t IH]; simpl; [intuition|].
  destruct (c x y <? 0); simpl; rewrite ?IH; intuition.
Qed.

Lemma avl_of_nodes_In {A} (c : A -> A -> Z) l z :
  In z (avl_of_nodes c l) <-> In z l.
Proof.
  induction l as [|y l IH]; simpl; [done|].
  rewrite avl_insert_In, IH. intuition.
Qed.

Lemma avl_insert_ordered x t : size_ordered t -> size_ordered (avl_insert metaslab_rangesize_compare x t).
Proof.
  induction t as [|y t IH]; simpl; [intuition|]. intros [Hy Ht].
  destruct (Z.ltb_spec (metaslab_rangesize_compare x y) 0) as [L|G]; simpl.
  - split; [|done]. intros z [<-|Hz].
    + by apply rangesize_compare_lt.
    + eapply size_le_trans; [by apply rangesize_compare_lt|by apply Hy].
  - split; [|by apply IH]. intros z Hz. apply avl_insert_In in Hz as [->|Hz].
    + apply rangesize_compare_ge. lia.
    + by apply Hy.
Qed.

Lemma avl_of_nodes_ordered l : size_ordered (avl_of_nodes metaslab_rangesize_compare l).
Proof. induction l; simpl; [done|]. by apply avl_insert_ordered. Qed.

Lemma last_ordered_max t : forall m,
  size_ordered t -> last t = Some m -> In m t /\ forall r, In r t -> size_le r m.
Proof.
  induction t as [|y t IH]; intros m Ho Hl; [done|].
  destruct Ho as [Hy Ht]. destruct t as [|y2 t].
  - simpl in Hl. inversion Hl; subst. split; [by left|].
    intros r [<-|[]]. right. lia.
  - change (last (y :: y2 :: t)) with (last (y2 :: t)) in Hl.
    destruct (IH m Ht Hl) as [Hin Hmax]. split; [by right|].
    intros r [<-|Hr]; [by apply Hy|by apply Hmax].
Qed.

(** [avl_last] of the size tree is a segment of the free tree that no other
    is longer than. *)
Lemma size_tree_last msp rs :
  avl_last (ms_size_tree msp) = Some rs ->
  In rs (ms_tree msp)
  /\ forall r, In r (ms_tree msp) -> u64 (rs_end r - rs_start r) <= u64 (rs_end rs - rs_start rs).
Proof.
  unfold avl_last, ms_size_tree. intros Hl.
  destruct (last_ordered_max _ rs (avl_of_nodes_ordered _) Hl) as [Hin Hmax].
  split; [by apply avl_of_nodes_In in Hin|].
  intros r Hr. apply (avl_of_nodes_In metaslab_rangesize_compare) in Hr.
  specialize (Hmax r Hr). unfold size_le in Hmax. lia.
Qed.

Lemma last_cons_ne {A} (a : A) l : last (a :: l) <> None.
Proof. revert a. induction l as [|b l IH]; intros a; [done|]. apply (IH b). Qed.

Lemma size_tree_last_none msp :
  avl_last (ms_size_tree msp) = None -> ms_tree msp = [].
Proof.
  unfold avl_last, ms_size_tree. intros Hl.
  destruct (ms_tree msp) as [|r t]; [done|]. exfalso.
  simpl in Hl.
  destruct (avl_insert metaslab_rangesize_compare r
              (avl_of_nodes metaslab_rangesize_compare t)) as [|a l] eqn:E.
  - assert (In r []) as []. rewrite <- E. apply avl_insert_In. by left.
  - by apply last_cons_ne in Hl.
Qed.



(** ** Facts about the outcome monad and the arenas *)

Lemma bind_Done {A B} (m : outcome A) (k : A -> outcome B) (b : B) :
  (m ≫= k) = Done b -> exists a, m = Done a /\ k a = Done b.
Proof. destruct m as [a|f]; simpl; [eauto|discriminate]. Qed.

Lemma of_option_Done {A} (f : fault) (o : option A) (a : A) :
  of_option f o = Done a -> o = Some a.
Proof. destruct o; simpl; congruence. Qed.

Tactic Notation "inv_bind" hyp(H) "as" ident(a) ident(Ha) :=
  apply bind_Done in H as (a & Ha & H).

Lemma get_vdev_Done s v vd : get_vdev s v = Done vd -> spa_vdevs s !! v = Some vd.
Proof. apply of_option_Done. Qed.

Lemma get_class_Done s c mc : get_class s c = Done mc -> spa_classes s !! c = Some mc.
Proof. apply of_option_Done. Qed.

Lemma get_group_Done s g mg : get_group s g = Done mg -> mg_of s g = Some mg.
Proof.
  unfold get_group, mg_of. intros H. inv_bind H as vd E.
  apply get_vdev_Done in E. rewrite E. simpl. congruence.
Qed.

Lemma mg_of_set_vdev s g vd g' :
  mg_of (set_vdev s g vd) g'
  = if decide (g = g' /\ (g < length (spa_vdevs s))%nat) then Some (vdev_mg vd)
    else mg_of s g'.
Proof.
  unfold mg_of, set_vdev. simpl. rewrite list_lookup_insert.
  destruct (decide _); reflexivity.
Qed.


Lemma rotor_at_set_class s c mc c' :
  rotor_at (set_class s c mc) c'
  = if decide (c = c' /\ (c < length (spa_classes s))%nat) then Some (mc_rotor mc)
    else rotor_at s c'.
Proof.
  unfold rotor_at, set_class. simpl. rewrite list_lookup_insert.
  destruct (decide _); reflexivity.
Qed.





(** ** Facts about chains of groups *)

Lemma chain_frame s s' a l z :
  (forall x, x ∈ a :: l -> nxt s' x = nxt s x) ->
  (forall x, x ∈ l ++ [z] -> prv s' x = prv s x) ->
  chain s a l z -> chain s' a l z.
Proof.
  revert a. induction l as [|b l IH]; intros a Hn Hp; simpl.
  - intros [H1 H2]. rewrite Hn, Hp by set_solver. done.
  - intros (H1 & H2 & H3). rewrite Hn, Hp by set_solver.
    split; [done|]. split; [done|].
    apply IH; [| |done]; intros x Hx; [apply Hn|apply Hp]; set_solver.
Qed.



Lemma chain_app s a l1 m l2 z :
  chain s a (l1 ++ m :: l2) z <-> chain s a l1 m /\ chain s m l2 z.
Proof.
  revert a. induction l1 as [|b l1 IH]; intros a; simpl.
  - tauto.
  - rewrite IH. tauto.
Qed.



Lemma ring_from_chain s fuel r a t :
  chain s a t r -> r ∉ t -> (length t < fuel)%nat ->
  ring_from s fuel r a = a :: t.
Proof.
  revert a fuel. induction t as [|b t IH]; intros a fuel Hc Hr Hf.
  - destruct fuel as [|fuel]; [simpl in Hf; lia|]. simpl.
    destruct Hc as [Hn _]. unfold nxt in Hn.
    destruct (mg_of s a) as [mg|]; [|done]. simpl in Hn. rewrite Hn.
    by rewrite bool_decide_true.
  - destruct fuel as [|fuel]; [simpl in Hf; lia|]. simpl.
    destruct Hc as (Hn & _ & Hc). unfold nxt in Hn.
    destruct (mg_of s a) as [mg|]; [|done]. simpl in Hn. rewrite Hn.
    rewrite bool_decide_false by set_solver.
    f_equal. apply IH; [done|set_solver|simpl in Hf; lia].
Qed.

(** ** The rotor invariant *)

Lemma mg_of_nxt s g mg : mg_of s g = Some mg -> nxt s g = mg_next mg.
Proof. unfold nxt. by intros ->. Qed.

Lemma mg_of_prv s g mg : mg_of s g = Some mg -> prv s g = mg_prev mg.
Proof. unfold prv. by intros ->. Qed.



Lemma class_of_view (s s' : spa) (g : nat) (mg' : metaslab_group) :
  (forall g', mg_class <$> mg_of s' g' = mg_class <$> mg_of s g') ->
  mg_of s' g = Some mg' -> exists mg, mg_of s g = Some mg /\ mg_class mg = mg_class mg'.
Proof.
  intros Hv Hmg. specialize (Hv g). rewrite Hmg in Hv. simpl in Hv.
  destruct (mg_of s g) as [mg|]; [|done]. exists mg. simpl in Hv. split; congruence.
Qed.

Lemma count_of_view (s s' : spa) (g : nat) (mg' : metaslab_group) (f : nat -> option Z) :
  (forall g', mg_activation_count <$> mg_of s' g' = f g') ->
  mg_of s' g = Some mg' -> f g = Some (mg_activation_count mg').
Proof. intros Hv Hmg. specialize (Hv g). rewrite Hmg in Hv. done. Qed.

Lemma ring_of_frame (s s' : spa) (c : nat) (l : list nat) :
  (forall g', mg_class <$> mg_of s' g' = mg_class <$> mg_of s g') ->
  rotor_at s' c = rotor_at s c ->
  (forall g' mg mg', mg_of s g' = Some mg -> mg_of s' g' = Some mg' ->
     mg_class mg = c ->
     (mg_activation_count mg' = mg_activation_count mg
      \/ (mg_activation_count mg <= 0 /\ mg_activation_count mg' <= 0))
     /\ mg_next mg' = mg_next mg /\ mg_prev mg' = mg_prev mg) ->
  ring_of s c l -> ring_of s' c l.
Proof.
  intros Hcv Hrot Hv (Hnd & Hr & Hmem & Hout & Hch).
  assert (Hx : forall g' mg, mg_of s g' = Some mg -> exists mg', mg_of s' g' = Some mg').
  { intros g' mg Hmg. specialize (Hcv g'). rewrite Hmg in Hcv.
    destruct (mg_of s' g'); [eauto|done]. }
  assert (Hnp : forall g', g' ∈ l -> nxt s' g' = nxt s g' /\ prv s' g' = prv s g').
  { intros g' Hin. destruct (Hmem g' Hin) as (mg & Hmg & Hc & _).
    destruct (Hx _ _ Hmg) as [mg' Hmg'].
    destruct (Hv _ _ _ Hmg Hmg' Hc) as (_ & ? & ?).
    rewrite (mg_of_nxt _ _ _ Hmg), (mg_of_nxt _ _ _ Hmg'),
      (mg_of_prv _ _ _ Hmg), (mg_of_prv _ _ _ Hmg'). done. }
  split; [done|]. split; [by rewrite Hrot|]. split; [|split].
  - intros g' Hin. destruct (Hmem g' Hin) as (mg & Hmg & Hc & Hcnt).
    destruct (Hx _ _ Hmg) as [mg' Hmg']. exists mg'. split; [done|].
    destruct (Hv _ _ _ Hmg Hmg' Hc) as (Hcn & _ & _).
    pose proof (Hcv g') as Hcl. rewrite Hmg, Hmg' in Hcl. simpl in Hcl.
    split; [congruence|lia].
  - intros g' mg' Hmg' Hc Hni.
    destruct (class_of_view _ _ _ _ Hcv Hmg') as (mg & Hmg & Hcl).
    destruct (Hv _ _ _ Hmg Hmg' ltac:(congruence)) as (Hcn & -> & ->).
    destruct (Hout _ _ Hmg ltac:(congruence) Hni) as (? & ? & ?).
    split; [lia|done].
  - destruct l as [|x t]; [done|].
    eapply chain_frame; [| |done]; intros y Hy; apply Hnp; set_solver.
Qed.


Lemma ring_rotate s (l : list nat) g :
  NoDup l -> match l with [] => True | x :: t => chain s x t x end -> g ∈ l ->
  exists t, NoDup (g :: t) /\ chain s g t g /\ (forall x, x ∈ t <-> x ∈ l /\ x <> g).
Proof.
  intros Hnd Hch Hin.
  apply list_elem_of_split in Hin as (l1 & l2 & ->).
  exists (l2 ++ l1).
  assert (Hnd' : NoDup (g :: l2 ++ l1)).
  { eapply NoDup_Permutation_proper; [|exact Hnd].
    rewrite <- Permutation_middle. constructor. apply Permutation_app_comm. }
  split; [done|]. split.
  - destruct l1 as [|a l1]; simpl in *.
    + by rewrite app_nil_r.
    + apply chain_app in Hch as [H1 H2]. apply chain_app. done.
  - intros x. apply NoDup_cons in Hnd' as [Hg _]. set_solver.
Qed.




Lemma NoDup_bounded_length (l : list nat) (n : nat) :
  NoDup l -> (forall x, x ∈ l -> (x < n)%nat) -> (length l <= n)%nat.
Proof.
  intros Hnd Hb.
  assert (length l <= length (seq 0 n))%nat as Hlen; [|by rewrite length_seq in Hlen].
  apply submseteq_length, NoDup_submseteq; [done|].
  intros x Hx. apply elem_of_seq. specialize (Hb x Hx). lia.
Qed.

Lemma class_ring_of s c l : ring_of s c l -> class_ring s c = l.
Proof.
  intros (Hnd & Hrot & Hmem & Hout & Hch). unfold class_ring.
  unfold rotor_at in Hrot. destruct (spa_classes s !! c) as [mc|]; [|done].
  simpl in Hrot. inversion Hrot as [Hr]. destruct l as [|x t]; [by rewrite Hr|].
  simpl in Hr. rewrite Hr.
  apply ring_from_chain; [done|by apply NoDup_cons in Hnd as [? _]|].
  assert (length (x :: t) <= length (spa_vdevs s))%nat; [|simpl in *; lia].
  apply NoDup_bounded_length; [done|]. intros y Hy.
  destruct (Hmem y Hy) as (mg & Hmg & _). unfold mg_of in Hmg.
  destruct (spa_vdevs s !! y) eqn:E; [|done]. by apply lookup_lt_Some in E.
Qed.


Lemma rotor_pool_fresh : fresh_pool rotor_pool.
Proof.
  split.
  - intros c mc H. destruct c as [|c]; simpl in H; [by inversion H|].
    by destruct c.
  - intros g mg H. destruct g as [|[|g]]; simpl in H; inversion H; subst; simpl; eauto.
Qed.


(** ** Trees in canonical form *)


Lemma sorted_from_sorted lo rt : sorted_from lo rt = true -> sorted rt = true.
Proof.
  destruct rt as [|r rt]; [done|]. intros H. unfold sorted.
  apply sorted_from_cons in H as (H1 & H2 & H3).
  apply sorted_from_cons. repeat split; [lia|done|done].
Qed.

Lemma sorted_sorted_from rt :
  sorted rt = true -> exists lo, forall lo', lo' <= lo -> sorted_from lo' rt = true.
Proof.
  destruct rt as [|r rt]; [by exists 0|]. unfold sorted. intros H.
  exists (rs_start r - 1). intros lo' Hl. eapply sorted_from_weaken; eauto.
Qed.

Lemma range_tree_add_spec rt s n rt' :
  sorted rt = true -> range_tree_add rt s n = Done rt' ->
  0 < n /\ sorted rt' = true
  /\ (forall x, covers rt' x = covers rt x || in_range s (s + n) x)
  /\ (forall x, s <= x < s + n -> covers rt x = false).
Proof.
  intros Hs H. unfold range_tree_add in H.
  destruct (n <=? 0) eqn:En; [discriminate|]. apply Z.leb_gt in En.
  apply of_option_Done in H.
  apply sorted_sorted_from in Hs as [lo Hlo].
  destruct (add_seg_spec rt (Z.min lo (s - 1)) s (s + n) rt') as (A & B & C);
    [apply Hlo; lia|lia|lia|done|].
  split; [done|]. split; [by eapply sorted_from_sorted|]. done.
Qed.

Lemma range_tree_remove_spec rt s n rt' :
  sorted rt = true -> range_tree_remove rt s n = Done rt' ->
  0 < n /\ sorted rt' = true
  /\ (forall x, covers rt' x = covers rt x && negb (in_range s (s + n) x))
  /\ (forall x, s <= x < s + n -> covers rt x = true).
Proof.
  intros Hs H. unfold range_tree_remove in H.
  destruct (n <=? 0) eqn:En; [discriminate|]. apply Z.leb_gt in En.
  apply of_option_Done in H.
  apply sorted_sorted_from in Hs as [lo Hlo].
  destruct (remove_seg_spec rt lo s (s + n) rt') as (A & B & C);
    [apply Hlo; lia|lia|done|].
  split; [done|]. split; [by eapply sorted_from_sorted|]. done.
Qed.

Lemma sorted_ext a b :
  sorted a = true -> sorted b = true -> (forall x, covers a x = covers b x) -> a = b.
Proof.
  intros Ha Hb H.
  apply sorted_sorted_from in Ha as [la Ha]. apply sorted_sorted_from in Hb as [lb Hb].
  apply (range_tree_ext a (Z.min la lb) b); [apply Ha; lia|apply Hb; lia|done].
Qed.

Lemma rs_size_end r : rs_start r + rs_size r = rs_end r.
Proof. unfold rs_size. lia. Qed.

Lemma vacate_into_spec src : forall dst dst',
  sorted dst = true -> vacate_into src dst = Done dst' ->
  sorted dst' = true
  /\ (forall x, covers dst' x = covers dst x || covers src x)
  /\ (forall x, covers src x = true -> covers dst x = false).
Proof.
  induction src as [|r src IH]; intros dst dst' Hs H; simpl in H.
  - inversion H; subst. split; [done|]. split; [|done].
    intros x. simpl. by rewrite orb_false_r.
  - inv_bind H as d1 E.
    apply range_tree_add_spec in E as (Hn & Hs1 & Hc & Hd); [|done].
    rewrite rs_size_end in *.
    destruct (IH _ _ Hs1 H) as (A & B & C).
    split; [done|]. split.
    + intros x. rewrite B, Hc, covers_cons. by rewrite orb_assoc.
    + intros x. rewrite covers_cons. intros Hx. apply orb_true_iff in Hx as [Hx|Hx].
      * apply Hd. by apply in_range_true.
      * specialize (C x Hx). rewrite Hc in C. by apply orb_false_iff in C as [C _].
Qed.

Lemma walk_remove_spec src : forall dst dst',
  sorted dst = true -> walk_remove src dst = Done dst' ->
  sorted dst' = true
  /\ (forall x, covers dst' x = covers dst x && negb (covers src x)).
Proof.
  induction src as [|r src IH]; intros dst dst' Hs H; simpl in H.
  - inversion H; subst. split; [done|]. intros x. simpl. by rewrite andb_true_r.
  - inv_bind H as d1 E.
    apply range_tree_remove_spec in E as (Hn & Hs1 & Hc & Hd); [|done].
    rewrite rs_size_end in *.
    destruct (IH _ _ Hs1 H) as (A & B).
    split; [done|].
    intros x. rewrite B, Hc, covers_cons, negb_orb. by rewrite andb_assoc.
Qed.

Lemma ms_tree_add_Done m s n m' :
  ms_tree_add m s n = Done m' ->
  exists t, range_tree_add (ms_tree m) s n = Done t /\ m' = set_ms_tree t m
            /\ ms_condensing m = false.
Proof.
  unfold ms_tree_add, metaslab_rt_add. intros H. inv_bind H as t E.
  destruct (ms_condensing m); [discriminate|]. simpl in H. inversion H. eauto.
Qed.

Lemma ms_tree_remove_Done m s n m' :
  ms_tree_remove m s n = Done m' ->
  exists t, range_tree_remove (ms_tree m) s n = Done t /\ m' = set_ms_tree t m
            /\ ms_condensing m = false.
Proof.
  unfold ms_tree_remove, metaslab_rt_remove. intros H. inv_bind H as t E.
  destruct (ms_condensing m); [discriminate|]. simpl in H. inversion H. eauto.
Qed.

Lemma set_ms_tree_id m : set_ms_tree (ms_tree m) m = m.
Proof. by destruct m. Qed.

Lemma ms_tree_vacate_into_Done src : forall m m',
  ms_tree_vacate_into src m = Done m' ->
  exists t, vacate_into src (ms_tree m) = Done t /\ m' = set_ms_tree t m.
Proof.
  induction src as [|r src IH]; intros m m' H; simpl in H.
  - inversion H; subst. exists (ms_tree m'). by rewrite set_ms_tree_id.
  - inv_bind H as m1 E. apply ms_tree_add_Done in E as (t & E & -> & _).
    apply IH in H as (t' & H & ->). simpl in H.
    exists t'. simpl. rewrite E. simpl. done.
Qed.

Lemma ms_tree_walk_remove_Done src : forall m m',
  ms_tree_walk_remove src m = Done m' ->
  exists t, walk_remove src (ms_tree m) = Done t /\ m' = set_ms_tree t m.
Proof.
  induction src as [|r src IH]; intros m m' H; simpl in H.
  - inversion H; subst. exists (ms_tree m'). by rewrite set_ms_tree_id.
  - inv_bind H as m1 E. apply ms_tree_remove_Done in E as (t & E & -> & _).
    apply IH in H as (t' & H & ->). simpl in H.
    exists t'. simpl. rewrite E. simpl. done.
Qed.

(** ** The arenas *)


Lemma get_ms_Done vd i m : get_ms vd i = Done m -> vdev_ms vd !! i = Some m.
Proof. apply of_option_Done. Qed.



Lemma get_vdev_set_vdev s v vd v' :
  get_vdev (set_vdev s v vd) v'
  = if decide (v = v' /\ (v < length (spa_vdevs s))%nat) then Done vd
    else get_vdev s v'.
Proof.
  unfold get_vdev, set_vdev. simpl. rewrite list_lookup_insert.
  by destruct (decide _).
Qed.

Lemma get_ms_set_ms vd i m i' :
  get_ms (set_ms vd i m) i'
  = if decide (i = i' /\ (i < length (vdev_ms vd))%nat) then Done m
    else get_ms vd i'.
Proof.
  unfold get_ms, set_ms. simpl. rewrite list_lookup_insert.
  by destruct (decide _).
Qed.

Lemma get_msp_set s v vd0 vd i m0 m :
  spa_vdevs s !! v = Some vd0 -> vdev_ms vd !! i = Some m0 ->
  get_msp (set_vdev s v (set_ms vd i m)) (v, i) = Done m.
Proof.
  intros Hv Hi. unfold get_msp. simpl. rewrite get_vdev_set_vdev.
  apply lookup_lt_Some in Hv, Hi.
  rewrite decide_True by done. simpl. rewrite get_ms_set_ms.
  by rewrite decide_True.
Qed.

Lemma vdev_space_update_Done s v a d sp s' :
  vdev_space_update s v a d sp = Done s' ->
  exists vd mc,
    spa_vdevs s !! v = Some vd
    /\ spa_classes s !! mg_class (vdev_mg vd) = Some mc
    /\ s' = set_class
              (set_vdev s v (set_vdev_stat (vdev_stat_update (vdev_stat vd) a sp) vd))
              (mg_class (vdev_mg vd))
              (metaslab_class_space_update mc a d sp sp).
Proof.
  unfold vdev_space_update. intros H. inv_bind H as vd E. apply get_vdev_Done in E.
  inv_bind H as mc E1. apply get_class_Done in E1. simpl in E1.
  inversion H. eauto.
Qed.

Lemma tree_at_Done arr i t : tree_at arr i = Done t <-> arr !! i = Some (Some t).
Proof.
  unfold tree_at. destruct (arr !! i) as [[?|]|]; split; congruence.
Qed.

Lemma tree_is_null_false arr i :
  tree_is_null arr i = false <-> exists t, arr !! i = Some (Some t).
Proof.
  unfold tree_is_null. destruct (arr !! i) as [[?|]|]; split; try congruence; eauto.
  all: intros [? ?]; congruence.
Qed.

Lemma swap_slots_Done {A} (a : list A) i b j a' b' :
  swap_slots a i b j = Done (a', b') ->
  exists x y, a !! i = Some x /\ b !! j = Some y
              /\ a' = <[i := y]> a /\ b' = <[j := x]> b.
Proof.
  unfold swap_slots. intros H. inv_bind H as x Ex. inv_bind H as y Ey.
  apply of_option_Done in Ex, Ey. inversion H. eauto 8.
Qed.

Lemma swap_within_Done {A} (a : list A) i j a' :
  swap_within a i j = Done a' ->
  exists x y, a !! i = Some x /\ a !! j = Some y
              /\ a' = <[j := x]> (<[i := y]> a).
Proof.
  unfold swap_within. intros H. inv_bind H as x Ex. inv_bind H as y Ey.
  apply of_option_Done in Ex, Ey. inversion H. eauto 8.
Qed.

Lemma metaslab_weight_Done tun vd m w m' :
  metaslab_weight tun vd m = Done (w, m') ->
  m' = m \/ m' = set_ms_factor (metaslab_weight_factor vd m) m.
Proof.
  unfold metaslab_weight. destruct (vdev_removing vd).
  - intros H. inversion H. by left.
  - intros H. inv_bind H as q E. inversion H. by right.
Qed.

(** What [metaslab_sync_done] leaves of the metaslab it is called on. *)
Lemma metaslab_sync_done_effect tun s p txg s' vd m :
  metaslab_sync_done tun s p txg = Done s' ->
  spa_vdevs s !! p.1 = Some vd -> vdev_ms vd !! p.2 = Some m ->
  let cslot := txg_slot (TXG_CLEAN txg) in
  let dslot := defer_slot txg in
  let new := tree_is_null (ms_freetree m) cslot in
  let m1 := if new then metaslab_create_trees m else m in
  exists freed defer vd' m' mc,
    ms_freetree m1 !! cslot = Some (Some freed)
    /\ ms_defertree m1 !! dslot = Some (Some defer)
    /\ spa_vdevs s' !! p.1 = Some vd' /\ vdev_ms vd' !! p.2 = Some m'
    /\ spa_classes s !! mg_class (vdev_mg vd) = Some mc
    /\ let defer_delta := range_tree_space freed - range_tree_space defer in
       let alloc_delta := space_map_alloc_delta (ms_sm m) in
       vdev_stat vd'
       = vdev_stat_update
           (if new then vdev_stat_update (vdev_stat vd) 0 (ms_size m) else vdev_stat vd)
           (alloc_delta + defer_delta) 0
       /\ spa_classes s' !! mg_class (vdev_mg vd)
          = Some (metaslab_class_space_update
                    (if new
                     then metaslab_class_space_update mc 0 0 (ms_size m) (ms_size m)
                     else mc)
                    (alloc_delta + defer_delta) defer_delta 0 0)
       /\ ms_deferspace m' = ms_deferspace m + defer_delta
       /\ ms_alloctree m' = ms_alloctree m1
       /\ ms_freetree m' = <[cslot := Some []]> (ms_freetree m1)
       /\ ms_defertree m' = <[dslot := Some freed]> (ms_defertree m1)
       /\ ms_condensing m' = ms_condensing m
       /\ exists mid,
            (if ms_loaded m then vacate_into defer (ms_tree m) = Done mid
             else mid = ms_tree m)
            /\ ((ms_loaded m' = ms_loaded m /\ ms_tree m' = mid)
                \/ (ms_loaded m = true /\ ms_loaded m' = false /\ ms_tree m' = [])).
Proof.
  intros H Hvd Hm cslot dslot new m1.
  unfold metaslab_sync_done in H.
  unfold get_vdev in H. rewrite Hvd in H. simpl in H.
  unfold get_ms in H. rewrite Hm in H. simpl in H.
  fold cslot dslot new in H.
  inv_bind H as a Ea.
  inv_bind H as freed Ef. inv_bind H as defer Ed.
  inv_bind H as s2 E2. inv_bind H as u Eu. clear Eu u.
  inv_bind H as msp2 Ev. inv_bind H as sw Esw.
  inv_bind H as vd2 Evd2. inv_bind H as msp7 E7. inv_bind H as w Ew.
  assert (Ha : a.1 = m1 /\ exists vdA mc,
            spa_vdevs a.2 !! p.1 = Some vdA
            /\ vdev_ms vdA = vdev_ms vd /\ vdev_mg vdA = vdev_mg vd
            /\ vdev_stat vdA
               = (if new then vdev_stat_update (vdev_stat vd) 0 (ms_size m)
                  else vdev_stat vd)
            /\ spa_classes s !! mg_class (vdev_mg vd) = Some mc
            /\ spa_classes a.2 !! mg_class (vdev_mg vd)
               = Some (if new
                       then metaslab_class_space_update mc 0 0 (ms_size m) (ms_size m)
                       else mc)).
  { subst m1. destruct new.
    - inv_bind Ea as s1 E1.
      apply vdev_space_update_Done in E1 as (vd0 & mc & E1 & E3 & ->).
      rewrite Hvd in E1. inversion E1; subst vd0. inversion Ea. simpl.
      split; [done|]. eexists _, mc. 
      apply lookup_lt_Some in Hvd as Hl. apply lookup_lt_Some in E3 as Hl3.
      rewrite list_lookup_insert, decide_True by done.
      rewrite list_lookup_insert, decide_True by done. done.
    - inversion Ea; subst a. simpl in *. split; [done|].
      apply vdev_space_update_Done in E2 as (vd0 & mc & E1 & E3 & _).
      rewrite Hvd in E1. inversion E1; subst vd0. exists vd, mc. done. }
  destruct Ha as (Ha1 & vdA & mc & HvA & HmsA & HmgA & HstA & Hmc & HmcA).
  rewrite Ha1 in *. clear Ha1 Ea.
  apply vdev_space_update_Done in E2 as (vd0 & mc0 & E1 & E3 & ->).
  rewrite HvA in E1. inversion E1; subst vd0. clear E1.
  rewrite HmgA, HmcA in E3. inversion E3; subst mc0. clear E3.
  apply of_option_Done in Evd2. simpl in Evd2.
  apply lookup_lt_Some in HvA as HlA. apply lookup_lt_Some in HmcA as HlcA.
  rewrite list_lookup_insert, decide_True in Evd2 by done.
  inversion Evd2; subst vd2. clear Evd2.
  apply tree_at_Done in Ef, Ed.
  destruct sw as [fa da]. apply swap_slots_Done in Esw as (x & y & Ex & Ey & -> & ->).
  assert (Hm2 : exists mid,
    (if ms_loaded m then vacate_into defer (ms_tree m) = Done mid else mid = ms_tree m)
    /\ msp2 = set_ms_tree mid m1).
  { assert (Hl1 : ms_loaded m1 = ms_loaded m) by (subst m1; by destruct new).
    assert (Ht1 : ms_tree m1 = ms_tree m) by (subst m1; by destruct new).
    rewrite Hl1 in Ev. destruct (ms_loaded m).
    - apply ms_tree_vacate_into_Done in Ev as (t & Ev & ->). rewrite Ht1 in Ev. eauto.
    - inversion Ev. exists (ms_tree m). by rewrite <- Ht1, set_ms_tree_id. }
  destruct Hm2 as (mid & Hmid & ->). simpl in *.
  rewrite Ef in Ex. inversion Ex; subst x. clear Ex.
  unfold set_tree in Ey.
  apply lookup_lt_Some in Ed as Hld.
  rewrite list_lookup_insert, decide_True in Ey by done.
  inversion Ey; subst y. clear Ey.
  clear Ev.
  assert (Hl1 : ms_loaded m1 = ms_loaded m) by (subst m1; by destruct new).
  assert (Hsm1 : ms_sm m1 = ms_sm m) by (subst m1; by destruct new).
  assert (Hds1 : ms_deferspace m1 = ms_deferspace m) by (subst m1; by destruct new).
  assert (Hc1 : ms_condensing m1 = ms_condensing m) by (subst m1; by destruct new).
  rewrite Hsm1, Hds1 in *.
  set (dd := range_tree_space freed - range_tree_space defer) in *.
  set (m6 := set_ms_deferspace _ _) in *.
  set (vd3 := if negb (_ =? 0) then _ else _) in *.
  assert (H7 : msp7 = m6 \/ (ms_loaded m = true /\ msp7 = metaslab_unload m6)).
  { rewrite Hl1 in E7. destruct (ms_loaded m); [|inversion E7; by left].
    destruct (_ && _); [|inversion E7; by left].
    inv_bind E7 as a1 X1. inv_bind E7 as u1 X2. inv_bind E7 as a2 X3.
    inv_bind E7 as u2 X4. destruct (negb _); inversion E7; eauto. }
  destruct w as [w m8]. apply metaslab_weight_Done in Ew. simpl in H.
  inversion H; subst s'; clear H.
  assert (Hms3 : vdev_ms vd3 = vdev_ms vd) by (subst vd3; destruct (negb (_ =? 0)); exact HmsA).
  assert (Hst3 : vdev_stat vd3
                 = vdev_stat_update (vdev_stat vdA)
                     (space_map_alloc_delta (ms_sm m) + dd) 0)
    by (subst vd3; destruct (negb (_ =? 0)); reflexivity).
  exists freed, defer, (set_ms vd3 p.2 (metaslab_group_sort m8 w)),
    (metaslab_group_sort m8 w), mc.
  split; [done|]. split; [done|].
  split. { simpl. rewrite list_lookup_insert, decide_True; [done|].
           split; [done|]. by rewrite length_insert. }
  split. { simpl. rewrite Hms3. rewrite list_lookup_insert, decide_True; [done|].
           split; [done|]. by apply lookup_lt_Some in Hm. }
  split; [done|].
  simpl. rewrite Hst3, HstA, HmgA.
  split; [done|].
  split. { rewrite list_lookup_insert, decide_True; done. }
  assert (Hm8 : forall {A} (f : metaslab -> A),
            (forall x k, f (set_ms_factor k x) = f x) -> f m8 = f msp7).
  { intros A f Hf. destruct Ew as [->| ->]; [done|apply Hf]. }
  rewrite (Hm8 _ ms_deferspace), (Hm8 _ ms_alloctree), (Hm8 _ ms_freetree),
    (Hm8 _ ms_defertree), (Hm8 _ ms_condensing), (Hm8 _ ms_loaded), (Hm8 _ ms_tree)
    by done.
  assert (Hdd : <[dslot:=Some freed]> (set_tree (ms_defertree m1) dslot [])
                = <[dslot:=Some freed]> (ms_defertree m1))
    by apply list_insert_insert_eq.
  destruct H7 as [->|[Hl ->]]; simpl; rewrite Hdd, Hc1.
  - repeat (split; [done|]). exists mid. split; [done|]. left. done.
  - repeat (split; [done|]). exists mid. split; [done|]. right. done.
Qed.

(** ** Syncing a metaslab *)


Ltac case_if :=
  match goal with |- context [if ?b then _ else _] => destruct b eqn:? end.

Ltac case_hyp H :=
  match type of H with context [if ?b then _ else _] => destruct b eqn:? end.

Lemma trees_sorted_lookup arr i t :
  trees_sorted arr = true -> arr !! i = Some (Some t) -> sorted t = true.
Proof.
  unfold trees_sorted. rewrite forallb_forall. intros H E.
  apply (H (Some t)). apply list_elem_of_In. by eapply list_elem_of_lookup_2.
Qed.

Lemma trees_sorted_insert arr i o :
  trees_sorted arr = true -> match o with Some t => sorted t | None => true end = true ->
  trees_sorted (<[i := o]> arr) = true.
Proof.
  unfold trees_sorted. rewrite !forallb_forall. intros H Ho x Hx.
  apply list_elem_of_In, list_elem_of_lookup_1 in Hx as [j Hj].
  rewrite list_lookup_insert in Hj. case_decide.
  - by inversion Hj; subst.
  - apply H, list_elem_of_In. by eapply list_elem_of_lookup_2.
Qed.

Lemma trees_exist_lookup n arr (i : nat) :
  trees_exist n arr = true -> (i < n)%nat -> exists t, arr !! i = Some (Some t).
Proof.
  unfold trees_exist. rewrite forallb_forall. intros H Hi.
  specialize (H i). rewrite in_seq in H.
  apply tree_is_null_false. apply negb_true_iff. apply H. lia.
Qed.

Lemma trees_exist_insert n arr i t :
  trees_exist n arr = true -> trees_exist n (<[i := Some t]> arr) = true.
Proof.
  unfold trees_exist. rewrite !forallb_forall. intros H j Hj.
  specialize (H j Hj). apply negb_true_iff in H. apply negb_true_iff.
  apply tree_is_null_false in H as [t' H]. apply tree_is_null_false.
  rewrite list_lookup_insert. case_decide; eauto.
Qed.

Lemma trees_exist_null n arr (i : nat) :
  trees_exist n arr = true -> (i < n)%nat -> tree_is_null arr i = false.
Proof.
  intros H Hi. destruct (trees_exist_lookup _ _ _ H Hi) as [t E].
  apply tree_is_null_false. eauto.
Qed.

Lemma txg_slot_lt txg : (txg_slot txg < Z.to_nat TXG_SIZE)%nat.
Proof.
  unfold txg_slot, TXG_SIZE.
  change TXG_MASK with (Z.ones 2). rewrite Z.land_ones by lia.
  pose proof (Z.mod_pos_bound txg (2 ^ 2) ltac:(lia)). lia.
Qed.




Lemma sorted_space_pos rt : forall lo,
  sorted_from lo rt = true -> rt <> [] -> 0 < range_tree_space rt.
Proof.
  induction rt as [|r rt IH]; intros lo H Hne; [done|].
  apply sorted_from_cons in H as (H1 & H2 & H3). simpl.
  destruct rt as [|r' rt']; [simpl; unfold rs_size; lia|].
  specialize (IH _ H3 ltac:(done)). unfold rs_size. lia.
Qed.

Lemma holds_space rt s e :
  sorted rt = true -> s < e -> holds rt s e -> range_tree_space rt <> 0.
Proof.
  intros Hs Hse H. apply sorted_sorted_from in Hs as [lo Hs].
  specialize (Hs lo ltac:(lia)).
  destruct rt as [|r rt]; [specialize (H s ltac:(lia)); done|].
  pose proof (sorted_space_pos _ _ Hs ltac:(done)). lia.
Qed.

Lemma metaslab_condense_Done m txg m' :
  metaslab_condense m txg = Done m' ->
  ms_tree m' = ms_tree m /\ ms_alloctree m' = ms_alloctree m
  /\ ms_freetree m' = ms_freetree m /\ ms_defertree m' = ms_defertree m
  /\ ms_loaded m' = ms_loaded m.
Proof.
  unfold metaslab_condense. intros H.
  repeat (let a := fresh "a" in let E := fresh "E" in inv_bind H as a E).
  inversion H. done.
Qed.

(** What [metaslab_sync] leaves of the metaslab it is called on. *)
Lemma metaslab_sync_effect tun s p txg s' vd m :
  metaslab_sync tun s p txg = Done s' ->
  spa_vdevs s !! p.1 = Some vd -> vdev_ms vd !! p.2 = Some m ->
  let slot := txg_slot txg in
  let cslot := txg_slot (TXG_CLEAN txg) in
  exists vd' m',
    spa_vdevs s' !! p.1 = Some vd' /\ vdev_ms vd' !! p.2 = Some m'
    /\ spa_sync_pass s' = spa_sync_pass s
    /\ ms_tree m' = ms_tree m /\ ms_defertree m' = ms_defertree m
    /\ ms_loaded m' = ms_loaded m
    /\ ((m' = m
         /\ (tree_is_null (ms_freetree m) slot = true
             \/ exists ft, ms_freetree m !! slot = Some (Some ft)
                           /\ range_tree_space ft = 0))
        \/ (ms_alloctree m' = set_tree (ms_alloctree m) slot []
            /\ exists freetree freed,
                 ms_freetree m !! slot = Some (Some freetree)
                 /\ ms_freetree m !! cslot = Some freed
                 /\ if spa_sync_pass s =? 1
                    then ms_freetree m'
                         = <[cslot := Some freetree]> (<[slot := freed]> (ms_freetree m))
                    else exists fd fd', freed = Some fd
                           /\ vacate_into freetree fd = Done fd'
                           /\ ms_freetree m'
                              = set_tree (set_tree (ms_freetree m) slot []) cslot fd')).
Proof.
  intros H Hvd Hm slot cslot.
  unfold metaslab_sync in H.
  unfold get_vdev in H. rewrite Hvd in H. simpl in H.
  unfold get_ms in H. rewrite Hm in H. simpl in H.
  fold slot cslot in H.
  destruct (tree_is_null (ms_freetree m) slot) eqn:En.
  { inversion H; subst s'. exists vd, m. repeat (split; [done|]). left. eauto. }
  inv_bind H as alloctree Ea. inv_bind H as freetree Ef.
  apply tree_at_Done in Ea, Ef.
  destruct (_ && _) eqn:Ez.
  { inversion H; subst s'. exists vd, m. repeat (split; [done|]). left.
    split; [done|]. right. exists freetree. split; [done|].
    apply andb_true_iff in Ez as [_ Ez]. by apply Z.eqb_eq in Ez. }
  inv_bind H as a Eobj.
  assert (Ha : ms_tree a.1 = ms_tree m /\ ms_alloctree a.1 = ms_alloctree m
               /\ ms_freetree a.1 = ms_freetree m /\ ms_defertree a.1 = ms_defertree m
               /\ ms_loaded a.1 = ms_loaded m
               /\ spa_vdevs a.2 = spa_vdevs s /\ spa_sync_pass a.2 = spa_sync_pass s).
  { destruct (ms_sm m).
    - inversion Eobj. done.
    - inv_bind Eobj as u Eu. inversion Eobj. done. }
  destruct a as [m1 s1]. simpl in *.
  destruct Ha as (At & Aa & Af & Ad & Al & Av & Ap).
  inv_bind H as sm Esm. inv_bind H as condense Ec. inv_bind H as msp2 E2.
  assert (H2 : ms_tree msp2 = ms_tree m /\ ms_alloctree msp2 = ms_alloctree m
               /\ ms_freetree msp2 = ms_freetree m /\ ms_defertree msp2 = ms_defertree m
               /\ ms_loaded msp2 = ms_loaded m).
  { destruct condense.
    - apply metaslab_condense_Done in E2 as (? & ? & ? & ? & ?). split_and!; congruence.
    - inversion E2. simpl. done. }
  destruct H2 as (Bt & Ba & Bf & Bd & Bl). clear E2 Ec.
  inv_bind H as sm3 Esm3. inv_bind H as msp5 E5. inv_bind H as vd1 Evd1.
  apply of_option_Done in Evd1. rewrite Av, Hvd in Evd1. inversion Evd1; subst vd1.
  inversion H; subst s'. clear H Evd1.
  set (vd2 := if negb (_ =? _) then _ else _).
  assert (Hms2 : vdev_ms vd2 = vdev_ms vd) by (subst vd2; case_if; reflexivity).
  exists (set_ms vd2 p.2 msp5), msp5.
  apply lookup_lt_Some in Hvd as Hlv. apply lookup_lt_Some in Hm as Hlm.
  split. { simpl. rewrite list_lookup_insert, decide_True; [done|]. by rewrite Av. }
  split. { simpl. rewrite Hms2, list_lookup_insert, decide_True; done. }
  split; [done|].
  set (m4 := if ms_loaded _ then _ else _) in E5.
  assert (H4 : ms_tree m4 = ms_tree m /\ ms_alloctree m4 = set_tree (ms_alloctree m) slot []
               /\ ms_freetree m4 = ms_freetree m /\ ms_defertree m4 = ms_defertree m
               /\ ms_loaded m4 = ms_loaded m).
  { subst m4. change (ms_loaded (set_ms_alloctree _ msp2)) with (ms_loaded msp2).
    rewrite <- Bl. destruct (ms_loaded msp2) eqn:El; simpl; rewrite ?Ba, ?El; split_and!; done. }
  destruct H4 as (Ct & Ca & Cf & Cd & Cl).
  rewrite Ap in E5. rewrite Cf in E5.
  destruct (spa_sync_pass s =? 1) eqn:Epass.
  - inv_bind E5 as ft Esw. inversion E5; subst msp5. simpl.
    apply swap_within_Done in Esw as (x & y & Ex & Ey & ->).
    rewrite Ef in Ex. inversion Ex; subst x.
    repeat (split; [done|]). right. split; [done|].
    exists freetree, y. done.
  - inv_bind E5 as fd Efd. inv_bind E5 as fd' Ev. inversion E5; subst msp5. simpl.
    apply tree_at_Done in Efd.
    repeat (split; [done|]). right. split; [done|].
    exists freetree, (Some fd). split; [done|]. split; [done|].
    eauto.
Qed.


Lemma ms_trees_ok_iff m :
  ms_trees_ok m = true <->
  sorted (ms_tree m) = true
  /\ trees_exist (Z.to_nat TXG_SIZE) (ms_alloctree m) = true
  /\ trees_sorted (ms_alloctree m) = true
  /\ trees_exist (Z.to_nat TXG_SIZE) (ms_freetree m) = true
  /\ trees_sorted (ms_freetree m) = true
  /\ trees_exist (Z.to_nat TXG_DEFER_SIZE) (ms_defertree m) = true
  /\ trees_sorted (ms_defertree m) = true.
Proof. unfold ms_trees_ok. rewrite !andb_true_iff. tauto. Qed.

Lemma metaslab_sync_step tun s p txg s' vd m :
  metaslab_sync tun s p txg = Done s' ->
  spa_vdevs s !! p.1 = Some vd -> vdev_ms vd !! p.2 = Some m ->
  ms_trees_ok m = true ->
  exists vd' m',
    spa_vdevs s' !! p.1 = Some vd' /\ vdev_ms vd' !! p.2 = Some m'
    /\ ms_trees_ok m' = true
    /\ ms_tree m' = ms_tree m /\ ms_defertree m' = ms_defertree m
    /\ ms_loaded m' = ms_loaded m
    /\ forall a b, a < b ->
         slot_holds (ms_freetree m) (txg_slot txg) a b ->
         slot_holds (ms_freetree m') (txg_slot (TXG_CLEAN txg)) a b.
Proof.
  intros H Hvd Hm Hok.
  destruct (metaslab_sync_effect _ _ _ _ _ _ _ H Hvd Hm)
    as (vd' & m' & A1 & A2 & A3 & A4 & A5 & A6 & A7).
  apply ms_trees_ok_iff in Hok as (O1 & O2 & O3 & O4 & O5 & O6 & O7).
  exists vd', m'. do 2 (split; [done|]).
  destruct A7 as [[-> Hq]|(Ha & freetree & freed & Ef & Ec & Hf)].
  - split; [apply ms_trees_ok_iff; done|]. do 3 (split; [done|]).
    intros a b Hab (t & Et & Ht). exfalso.
    destruct Hq as [Hq|(ft & Eft & Hz)].
    + assert (X : tree_is_null (ms_freetree m) (txg_slot txg) = false)
        by (apply tree_is_null_false; eauto).
      congruence.
    + rewrite Et in Eft. inversion Eft; subst ft.
      assert (Hst : sorted t = true) by exact (trees_sorted_lookup _ _ _ O5 Et).
      by pose proof (holds_space t a b Hst Hab Ht).
  - assert (Hsf : sorted freetree = true) by exact (trees_sorted_lookup _ _ _ O5 Ef).
    assert (Hfree : trees_exist (Z.to_nat TXG_SIZE) (ms_freetree m') = true
                    /\ trees_sorted (ms_freetree m') = true
                    /\ forall a b, holds freetree a b ->
                         slot_holds (ms_freetree m') (txg_slot (TXG_CLEAN txg)) a b).
    { destruct (trees_exist_lookup _ _ _ O4 (txg_slot_lt (TXG_CLEAN txg)))
        as [fd Efd].
      rewrite Efd in Ec. inversion Ec; subst freed. clear Ec.
      apply lookup_lt_Some in Efd as Hl.
      assert (Hsd : sorted fd = true) by exact (trees_sorted_lookup _ _ _ O5 Efd).
      destruct (spa_sync_pass s =? 1).
      - rewrite Hf. split; [by do 2 apply trees_exist_insert|].
        split; [apply trees_sorted_insert; [apply trees_sorted_insert|]; done|].
        intros a b Hh. exists freetree. split; [|done].
        rewrite list_lookup_insert, decide_True; [done|].
        split; [done|]. by rewrite length_insert.
      - destruct Hf as (fd0 & fd' & E0 & Ev & ->). inversion E0; subst fd0.
        apply vacate_into_spec in Ev as (B1 & B2 & _); [|done].
        unfold set_tree.
        split; [by do 2 apply trees_exist_insert|].
        split; [apply trees_sorted_insert; [apply trees_sorted_insert|]; done|].
        intros a b Hh. exists fd'. split.
        + rewrite list_lookup_insert, decide_True; [done|].
          split; [done|]. by rewrite length_insert.
        + intros x Hx. rewrite B2, (Hh x Hx). apply orb_true_r. }
    destruct Hfree as (F1 & F2 & F3).
    split.
    { apply ms_trees_ok_iff. rewrite A4, A5, Ha. unfold set_tree.
      split_and!; try done.
      - by apply trees_exist_insert.
      - by apply trees_sorted_insert. }
    do 3 (split; [done|]).
    intros a b Hab (t & Et & Ht). rewrite Et in Ef. inversion Ef; subst t.
    by apply F3.
Qed.

Lemma metaslab_sync_done_step tun s p txg s' vd m :
  metaslab_sync_done tun s p txg = Done s' ->
  spa_vdevs s !! p.1 = Some vd -> vdev_ms vd !! p.2 = Some m ->
  ms_trees_ok m = true ->
  exists vd' m' freed defer,
    spa_vdevs s' !! p.1 = Some vd' /\ vdev_ms vd' !! p.2 = Some m'
    /\ ms_trees_ok m' = true
    /\ ms_freetree m !! txg_slot (TXG_CLEAN txg) = Some (Some freed)
    /\ ms_defertree m !! defer_slot txg = Some (Some defer)
    /\ ms_defertree m' = <[defer_slot txg := Some freed]> (ms_defertree m)
    /\ ((ms_loaded m = true /\ ms_loaded m' = true
         /\ forall x, covers (ms_tree m') x = covers (ms_tree m) x || covers defer x)
        \/ (ms_loaded m' = false /\ (ms_tree m' = [] \/ ms_tree m' = ms_tree m))).
Proof.
  intros H Hvd Hm Hok.
  destruct (metaslab_sync_done_effect _ _ _ _ _ _ _ H Hvd Hm)
    as (freed & defer & vd' & m' & mc & A1 & A2 & A3 & A4 & A5 & A6 & A7 & A8
        & A9 & A10 & A11 & A12 & mid & Hmid & Hend).
  apply ms_trees_ok_iff in Hok as (O1 & O2 & O3 & O4 & O5 & O6 & O7).
  rewrite (trees_exist_null _ _ _ O4 (txg_slot_lt (TXG_CLEAN txg))) in *.
  exists vd', m', freed, defer. do 2 (split; [done|]).
  assert (Hsf : sorted freed = true) by exact (trees_sorted_lookup _ _ _ O5 A1).
  assert (Hmid' : sorted mid = true
                  /\ (ms_loaded m = true ->
                      forall x, covers mid x = covers (ms_tree m) x || covers defer x)
                  /\ (ms_loaded m = false -> mid = ms_tree m)).
  { destruct (ms_loaded m).
    - apply vacate_into_spec in Hmid as (B1 & B2 & _); done.
    - subst mid. done. }
  destruct Hmid' as (M1 & M2 & M3).
  split.
  { apply ms_trees_ok_iff. rewrite A9, A10, A11.
    split_and!; try done.
    - destruct Hend as [[_ ->]|(_ & _ & ->)]; done.
    - by apply trees_exist_insert.
    - by apply trees_sorted_insert.
    - by apply trees_exist_insert.
    - by apply trees_sorted_insert. }
  do 3 (split; [done|]).
  destruct Hend as [[E1 E2]|(E0 & E1 & E2)].
  - destruct (ms_loaded m) eqn:El.
    + left. rewrite E2. auto.
    + right. rewrite E2, M3 by done. auto.
  - right. auto.
Qed.

Lemma txg_not_frozen s txg : txg <= spa_freeze_txg s -> (spa_freeze_txg s <? txg) = false.
Proof. intros. by apply Z.ltb_ge. Qed.


Lemma msop_alloc_tree tun m n o m' :
  msop_alloc tun m n = Done (o, m') -> ms_tree m' = ms_tree m.
Proof.
  unfold msop_alloc. destruct (ms_ops m).
  - unfold metaslab_ff_alloc. intros H. inv_bind H as c Ec. by inversion H.
  - unfold metaslab_df_alloc. intros H. inv_bind H as c Ec.
    repeat case_hyp H; by inversion H.
  - unfold metaslab_cf_alloc. intros H. inv_bind H as c Ec. inv_bind H as c' Ec'.
    case_hyp H; [|by inversion H].
    destruct (avl_last _); [|by inversion H].
    case_hyp H; by inversion H.
  - unfold metaslab_ndf_alloc. intros H. inv_bind H as c Ec.
    case_hyp H; [by inversion H|]. inv_bind H as rs Ers.
    case_hyp H; by inversion H.
Qed.

(** A block handed out by [metaslab_block_alloc] lay in the free tree. *)
Lemma metaslab_block_alloc_holds tun vd m n o m' :
  metaslab_block_alloc tun vd m n = Done (o, m') -> o <> U64_MAX ->
  0 < n /\ holds (ms_tree m) o (o + n).
Proof.
  unfold metaslab_block_alloc. intros H Ho.
  destruct (ms_condensing m); [done|]. inv_bind H as r Er.
  destruct r as [o1 m1]. simpl in H.
  destruct (o1 =? U64_MAX) eqn:E1.
  { apply Z.eqb_eq in E1. inversion H. congruence. }
  inv_bind H as u1 V1. inv_bind H as u2 V2. inv_bind H as u3 V3.
  inv_bind H as m2 Erm. inversion H; subst.
  apply msop_alloc_tree in Er.
  apply ms_tree_remove_Done in Erm as (t & Erm & _ & _). rewrite Er in Erm.
  unfold range_tree_remove in Erm. destruct (n <=? 0) eqn:En; [done|].
  apply Z.leb_gt in En. apply of_option_Done in Erm.
  apply remove_seg_contains in Erm; [|lia].
  replace (o + n - o) with n in Erm by lia.
  split; [done|]. intros x Hx. by eapply range_tree_contains_covers.
Qed.


Lemma lacks_block_alloc tun vd m n o m' a b :
  a < b -> lacks (ms_tree m) a b ->
  metaslab_block_alloc tun vd m n = Done (o, m') -> o <> U64_MAX ->
  o + n <= a \/ b <= o.
Proof.
  intros Hab Hl H Ho. apply metaslab_block_alloc_holds in H as [Hn Hh]; [|done].
  destruct (Z_le_gt_dec (o + n) a) as [|H1]; [by left|].
  destruct (Z_le_gt_dec b o) as [|H2]; [by right|]. exfalso.
  specialize (Hl (Z.max o a) ltac:(lia)). specialize (Hh (Z.max o a) ltac:(lia)).
  congruence.
Qed.



(** ** Allocation and condensing *)


Ltac case_goal :=
  match goal with |- context [match ?x with _ => _ end] => destruct x eqn:? end.

Lemma passes_Done {A} (a : A) : passes (Done a).
Proof. done. Qed.

Lemma passes_Fault {A} f : f <> FAllocCondensing -> passes (@Fault A f).
Proof. intros H E. inversion E. done. Qed.

Lemma passes_bind {A B} (m : outcome A) (k : A -> outcome B) :
  passes m -> (forall a, m = Done a -> passes (k a)) -> passes (m ≫= k).
Proof.
  destruct m as [a|f]; intros H1 H2.
  - exact (H2 a eq_refl).
  - intros E. apply H1. inversion E. reflexivity.
Qed.

Lemma passes_of_option {A} f (o : option A) :
  f <> FAllocCondensing -> passes (of_option f o).
Proof. destruct o; simpl; [done|apply passes_Fault]. Qed.

Lemma passes_verify b : passes (verify b).
Proof. by destruct b. Qed.

Lemma passes_tree_at arr i : passes (tree_at arr i).
Proof. unfold tree_at. by repeat case_goal. Qed.

Lemma passes_range_tree_add rt s n : passes (range_tree_add rt s n).
Proof. unfold range_tree_add. case_goal; [done|]. by apply passes_of_option. Qed.

Lemma passes_range_tree_remove rt s n : passes (range_tree_remove rt s n).
Proof. unfold range_tree_remove. case_goal; [done|]. by apply passes_of_option. Qed.

Lemma passes_rt_add m : passes (metaslab_rt_add m).
Proof. unfold metaslab_rt_add. by case_goal. Qed.

Lemma passes_rt_remove m : passes (metaslab_rt_remove m).
Proof. unfold metaslab_rt_remove. by case_goal. Qed.

Ltac pdone := solve [intros; first [done | unfold passes; done | apply passes_Done]].

Ltac passes_step :=
  first
    [ apply passes_Done
    | apply passes_verify
    | apply passes_tree_at
    | apply passes_range_tree_add
    | apply passes_range_tree_remove
    | apply passes_rt_add
    | apply passes_rt_remove
    | apply passes_of_option; discriminate
    | apply passes_Fault; discriminate
    | apply passes_bind; [|intros ? ?] ].

Lemma passes_ms_tree_add m s n : passes (ms_tree_add m s n).
Proof. unfold ms_tree_add. repeat passes_step. Qed.

Lemma passes_ms_tree_remove m s n : passes (ms_tree_remove m s n).
Proof. unfold ms_tree_remove. repeat passes_step. Qed.

Lemma passes_walk_remove src : forall m, passes (ms_tree_walk_remove src m).
Proof.
  induction src as [|r src IH]; intros m; simpl; [pdone|].
  apply passes_bind; [apply passes_ms_tree_remove|]. intros; apply IH.
Qed.

Lemma passes_sm_replay recs mt : forall rt, passes (sm_replay recs mt rt).
Proof.
  induction recs as [|r recs IH]; intros rt; simpl; [pdone|].
  apply passes_bind; [|intros; apply IH].
  repeat case_goal; passes_step.
Qed.

Lemma passes_space_map_load sm rt : passes (space_map_load sm rt).
Proof.
  unfold space_map_load. case_goal; [pdone|].
  apply passes_bind; [passes_step|intros ? ?].
  apply passes_bind; [apply passes_sm_replay|intros ? ?]. pdone.
Qed.

Lemma passes_metaslab_load m : passes (metaslab_load m).
Proof.
  unfold metaslab_load. apply passes_bind.
  - simpl. case_goal.
    + apply passes_bind; [apply passes_space_map_load|intros ? ?].
      apply passes_bind; [case_goal; passes_step|intros ? ?]. pdone.
    + apply passes_bind; [apply passes_ms_tree_add|intros ? ?]. pdone.
  - intros r Hr. apply passes_bind; [|pdone].
    case_goal; [|pdone].
    apply passes_bind; [passes_step|intros ? ?].
    apply passes_bind; [apply passes_walk_remove|intros ? ?].
    apply passes_bind; [passes_step|intros ? ?].
    apply passes_walk_remove.
Qed.

Lemma passes_metaslab_activate m w : passes (metaslab_activate m w).
Proof.
  unfold metaslab_activate. case_goal; [|pdone].
  apply passes_bind; [unfold metaslab_load_wait; case_goal; pdone|intros ? ?].
  apply passes_bind; [case_goal; [apply passes_metaslab_load|pdone]|intros ? ?].
  case_goal; pdone.
Qed.

Lemma passes_lbas_get m i : passes (lbas_get m i).
Proof. unfold lbas_get. case_goal; [pdone|]. apply passes_of_option; discriminate. Qed.

Lemma passes_msop_alloc tun m n : passes (msop_alloc tun m n).
Proof.
  unfold msop_alloc. destruct (ms_ops m).
  - unfold metaslab_ff_alloc. apply passes_bind; [apply passes_lbas_get|pdone].
  - unfold metaslab_df_alloc. apply passes_bind; [apply passes_lbas_get|intros ? ?].
    repeat case_goal; pdone.
  - unfold metaslab_cf_alloc. apply passes_bind; [apply passes_lbas_get|intros ? ?].
    apply passes_bind; [apply passes_lbas_get|intros ? ?].
    repeat case_goal; pdone.
  - unfold metaslab_ndf_alloc. apply passes_bind; [apply passes_lbas_get|intros ? ?].
    case_goal; [pdone|].
    apply passes_bind; [|intros; case_goal; pdone].
    repeat case_goal; try pdone; apply passes_of_option; discriminate.
Qed.

(** The check of [metaslab_block_alloc] fails for a condensing metaslab and
    for no other. *)
Lemma metaslab_block_alloc_passes tun vd m n :
  passes (metaslab_block_alloc tun vd m n) <-> ms_condensing m = false.
Proof.
  unfold metaslab_block_alloc. destruct (ms_condensing m); split; try pdone.
  intros _. apply passes_bind; [apply passes_msop_alloc|intros ? ?].
  case_goal; [pdone|].
  repeat (apply passes_bind; [apply passes_verify|intros ? ?]).
  apply passes_bind; [apply passes_ms_tree_remove|pdone].
Qed.

Lemma passes_group_alloc_locked tun vd m asize aw wa :
  passes (group_alloc_locked tun vd m asize aw wa).
Proof.
  unfold group_alloc_locked. case_goal; [pdone|]. case_goal; [pdone|].
  apply passes_bind; [apply passes_metaslab_activate|intros a Ha].
  case_goal; [pdone|]. destruct (ms_condensing a.2) eqn:Ec; [pdone|].
  apply passes_bind; [apply metaslab_block_alloc_passes; pdone|intros ? ?].
  case_goal; pdone.
Qed.

Lemma passes_metaslab_group_alloc tun env fuel :
  forall s g psize asize txg min_distance dva d,
  passes (metaslab_group_alloc tun env fuel s g psize asize txg min_distance dva d).
Proof.
  induction fuel as [|fuel IH]; intros; simpl; [pdone|].
  apply passes_bind; [apply passes_of_option; discriminate|intros vd Hvd].
  case_goal; try pdone.
  apply passes_bind; [apply passes_of_option; discriminate|intros vd1 Hvd1].
  apply passes_bind; [apply passes_of_option; discriminate|intros msp Hmsp].
  apply passes_bind; [apply passes_group_alloc_locked|intros r Hr].
  destruct r as [msp'|offset msp']; [apply IH|].
  apply passes_bind; [apply passes_tree_at|intros ? ?].
  apply passes_bind; [apply passes_range_tree_add|pdone].
Qed.


Lemma metaslab_load_condensing m e m' :
  ms_condensing m = true -> metaslab_load m = Done (e, m') -> condensing_as m m'.
Proof.
  intros Hc H. unfold metaslab_load in H. inv_bind H as r Er.
  assert (Hr : r.1 <> 0 /\ condensing_as m r.2).
  { simpl in Er. destruct (ms_sm m) as [sm|].
    - inv_bind Er as l El. inv_bind Er as u Eu. inversion Er; subst r. simpl.
      destruct (l.1 =? 0) eqn:E0.
      { unfold metaslab_rt_add in Eu. simpl in Eu. by rewrite Hc in Eu. }
      apply Z.eqb_neq in E0. split; [done|].
      unfold space_map_load in El. case_hyp El.
      + inversion El. done.
      + inv_bind El as rt1 E1. inv_bind El as rt2 E2. inversion El; subst l. done.
    - inv_bind Er as m1 E1. apply ms_tree_add_Done in E1 as (_ & _ & _ & E1).
      simpl in E1. congruence. }
  destruct Hr as [Hne (C1 & C2 & C3)]. apply Z.eqb_neq in Hne.
  simpl in H. rewrite Hne in H. simpl in H. inversion H; subst. done.
Qed.

Lemma metaslab_activate_condensing m w e m' :
  ms_condensing m = true -> metaslab_activate m w = Done (e, m') -> condensing_as m m'.
Proof.
  intros Hc H. unfold metaslab_activate in H.
  case_hyp H; [|inversion H; by subst].
  inv_bind H as u Eu. inv_bind H as r Er.
  assert (Hr : condensing_as m r.2).
  { destruct (negb (ms_loaded m)).
    - destruct r. by eapply metaslab_load_condensing.
    - inversion Er. done. }
  destruct Hr as (C1 & C2 & C3).
  case_hyp H; inversion H; subst; done.
Qed.

(** Under [ms_lock] a condensing metaslab is given up: the pass ends in
    [continue] with the trees of the metaslab as they were. *)
Lemma group_alloc_locked_condensing tun vd m asize aw wa r :
  ms_condensing m = true ->
  group_alloc_locked tun vd m asize aw wa = Done r ->
  exists m', r = Retry m' /\ condensing_as m m'.
Proof.
  intros Hc H. unfold group_alloc_locked in H.
  case_hyp H; [inversion H; by eexists|].
  case_hyp H; [inversion H; by eexists|].
  inv_bind H as a Ea. destruct a as [e m1].
  apply metaslab_activate_condensing in Ea as (C1 & C2 & C3); [|done].
  simpl in H. case_hyp H; [inversion H; by eexists|].
  rewrite C1 in H. inversion H. by eexists.
Qed.

Lemma condensing_as_refl m : ms_condensing m = true -> condensing_as m m.
Proof. done. Qed.

Lemma condensing_as_trans m1 m2 m3 :
  condensing_as m1 m2 -> condensing_as m2 m3 -> condensing_as m1 m3.
Proof. intros (A1 & A2 & A3) (B1 & B2 & B3). split_and!; congruence. Qed.

Lemma metaslab_group_alloc_condensing tun fuel :
  forall s g psize asize txg min_distance dva d r,
  metaslab_group_alloc tun no_env fuel s g psize asize txg min_distance dva d = Done r ->
  forall v vd i m,
    spa_vdevs s !! v = Some vd -> vdev_ms vd !! i = Some m -> ms_condensing m = true ->
    exists vd' m',
      spa_vdevs r.2 !! v = Some vd' /\ vdev_ms vd' !! i = Some m'
      /\ condensing_as m m'.
Proof.
  induction fuel as [|fuel IH]; intros s g psize asize txg min_distance dva d r H;
    simpl in H; [done|].
  intros v vd i m Hv Hi Hc.
  inv_bind H as vdg Eg. apply get_vdev_Done in Eg.
  destruct (group_pick _ _ _ _ _ _) as [| |j wa] eqn:Ep.
  1,2: inversion H; subst r; by exists vd, m.
  change (no_env fuel s) with s in H.
  unfold get_vdev in H. rewrite Eg in H. simpl in H.
  inv_bind H as msp Em. apply get_ms_Done in Em.
  inv_bind H as r0 Er.
  assert (Hl : (g < length (spa_vdevs s))%nat) by (by apply lookup_lt_Some in Eg).
  assert (Hlj : (j < length (vdev_ms vdg))%nat) by (by apply lookup_lt_Some in Em).
  assert (Hstep : forall vd2 msp2,
            vdev_ms vd2 = vdev_ms vdg ->
            (v = g -> i = j -> condensing_as m msp2) ->
            exists vd' m',
              spa_vdevs (set_vdev s g (set_ms vd2 j msp2)) !! v = Some vd'
              /\ vdev_ms vd' !! i = Some m' /\ condensing_as m m').
  { intros vd2 msp2 Hms Hsame. simpl. rewrite list_lookup_insert.
    case_decide as Hd.
    - destruct Hd as [<- _]. rewrite Eg in Hv. inversion Hv; subst vdg.
      exists (set_ms vd2 j msp2). simpl. rewrite Hms, list_lookup_insert.
      case_decide as Hd2.
      + destruct Hd2 as [<- _]. exists msp2. split; [done|]. split; [done|].
        by apply Hsame.
      + exists m. split; [done|]. split; [done|]. by apply condensing_as_refl.
    - exists vd, m. split; [done|]. split; [done|]. by apply condensing_as_refl. }
  destruct r0 as [msp'|offset msp'].
  - destruct (Hstep vdg msp' eq_refl) as (vd1 & m1 & V1 & M1 & C1).
    { intros -> ->. rewrite Eg in Hv. inversion Hv; subst vdg.
      rewrite Em in Hi. inversion Hi; subst msp.
      apply group_alloc_locked_condensing in Er as (m2 & E2 & C2); [|done].
      by inversion E2; subst. }
    destruct (IH _ _ _ _ _ _ _ _ _ H v vd1 i m1 V1 M1 (proj1 C1))
      as (vd' & m' & V' & M' & C').
    exists vd', m'. split; [done|]. split; [done|]. by eapply condensing_as_trans.
  - inv_bind H as at0 Eat. inv_bind H as at1 Eadd. inversion H; subst r. simpl.
    apply Hstep.
    + by case_if.
    + intros -> ->. rewrite Eg in Hv. inversion Hv; subst vdg.
      rewrite Em in Hi. inversion Hi; subst msp.
      apply group_alloc_locked_condensing in Er as (m2 & E2 & C2); [|done].
      done.
Qed.


(** ** Frames and claims *)


Lemma vdev_alike_refl vd : vdev_alike vd vd.
Proof. by repeat split. Qed.

Lemma vdev_alike_trans a b c : vdev_alike a b -> vdev_alike b c -> vdev_alike a c.
Proof.
  intros (A1 & A2 & A3 & A4 & A5 & A6) (B1 & B2 & B3 & B4 & B5 & B6).
  repeat split; congruence.
Qed.

Lemma pool_frame_refl (R : nat -> nat -> metaslab -> metaslab -> Prop) s :
  (forall v i m, R v i m m) -> pool_frame R s s.
Proof.
  intros HR. repeat split. intros v vd Hv. exists vd. split; [done|].
  split; [apply vdev_alike_refl|]. intros i m Hm. exists m. split; [done|apply HR].
Qed.

Lemma pool_frame_trans (R1 R2 R3 : nat -> nat -> metaslab -> metaslab -> Prop)
    (s1 s2 s3 : spa) :
  (forall v i a b c, R1 v i a b -> R2 v i b c -> R3 v i a c) ->
  pool_frame R1 s1 s2 -> pool_frame R2 s2 s3 -> pool_frame R3 s1 s3.
Proof.
  intros HR (A1 & A2 & A3 & A4) (B1 & B2 & B3 & B4).
  split; [congruence|]. split; [congruence|]. split; [congruence|].
  intros v vd Hv. destruct (A4 v vd Hv) as (vd2 & Hv2 & Hal2 & Hm2).
  destruct (B4 v vd2 Hv2) as (vd3 & Hv3 & Hal3 & Hm3).
  exists vd3. split; [done|]. split; [by eapply vdev_alike_trans|].
  intros i m Hm. destruct (Hm2 i m Hm) as (m2 & E2 & R12).
  destruct (Hm3 i m2 E2) as (m3 & E3 & R23). exists m3. split; [done|].
  by eapply HR.
Qed.

Lemma pool_frame_weaken (R R' : nat -> nat -> metaslab -> metaslab -> Prop) s s' :
  (forall v i a b, R v i a b -> R' v i a b) -> pool_frame R s s' -> pool_frame R' s s'.
Proof.
  intros HR (A1 & A2 & A3 & A4). repeat split; try done.
  intros v vd Hv. destruct (A4 v vd Hv) as (vd2 & Hv2 & Hal2 & Hm2).
  exists vd2. split; [done|]. split; [done|]. intros i m Hm.
  destruct (Hm2 i m Hm) as (m2 & E2 & R12). exists m2. split; [done|]. by apply HR.
Qed.

(** One metaslab is replaced, in a record of the same device. *)
Lemma pool_frame_set_ms (R : nat -> nat -> metaslab -> metaslab -> Prop)
    s v vd vd1 i m m' :
  spa_vdevs s !! v = Some vd -> vdev_ms vd !! i = Some m ->
  vdev_alike vd vd1 -> vdev_ms vd1 = vdev_ms vd ->
  R v i m m' -> (forall v' i' x, R v' i' x x) ->
  pool_frame R s (set_vdev s v (set_ms vd1 i m')).
Proof.
  intros Hv Hm Hal Hms HR Hrefl. split; [done|]. split; [done|].
  split; [simpl; by rewrite length_insert|].
  intros v' vd' Hv'. simpl. rewrite list_lookup_insert. case_decide as Hd.
  - destruct Hd as [<- _]. rewrite Hv in Hv'. inversion Hv'; subst vd'.
    eexists. split; [done|]. split.
    { destruct Hal as (A1 & A2 & A3 & A4 & A5 & A6). repeat split; try done.
      simpl. by rewrite length_insert. }
    intros i' m0 Hm0. simpl. rewrite Hms, list_lookup_insert. case_decide as Hd.
    + destruct Hd as [<- _]. rewrite Hm in Hm0. inversion Hm0; subst m0. eauto.
    + eauto.
  - exists vd'. split; [done|]. split; [apply vdev_alike_refl|]. eauto.
Qed.

Lemma vdev_lookup_top_Some s id v vd :
  vdev_lookup_top s id = Some (v, vd) ->
  0 <= id /\ v = Z.to_nat id /\ spa_vdevs s !! v = Some vd.
Proof.
  unfold vdev_lookup_top. destruct (id <? 0) eqn:E; [done|]. apply Z.ltb_ge in E.
  destruct (spa_vdevs s !! Z.to_nat id) eqn:E1; [|done]. intros H.
  inversion H; subst. done.
Qed.

Lemma vdev_lookup_top_frame R s s' id v vd :
  pool_frame R s s' -> vdev_lookup_top s id = Some (v, vd) ->
  exists vd', vdev_lookup_top s' id = Some (v, vd') /\ spa_vdevs s' !! v = Some vd'
    /\ vdev_alike vd vd'
    /\ forall i m, vdev_ms vd !! i = Some m ->
         exists m', vdev_ms vd' !! i = Some m' /\ R v i m m'.
Proof.
  intros (_ & _ & _ & HF) H.
  apply vdev_lookup_top_Some in H as (H0 & -> & Hv).
  destruct (HF _ _ Hv) as (vd' & Hv' & Hal & Hm). exists vd'.
  unfold vdev_lookup_top. destruct (id <? 0) eqn:E; [apply Z.ltb_lt in E; lia|].
  rewrite Hv'. done.
Qed.

Lemma dva_target_Some s dv v vd i m :
  dva_target s dv = Some (v, vd, i, m) ->
  vdev_lookup_top s (dva_vdev dv) = Some (v, vd)
  /\ (vdev_ms_count vd <=? Z.shiftr (dva_offset dv) (vdev_ms_shift vd)) = false
  /\ i = Z.to_nat (Z.shiftr (dva_offset dv) (vdev_ms_shift vd))
  /\ vdev_ms vd !! i = Some m.
Proof.
  unfold dva_target. destruct (vdev_lookup_top s (dva_vdev dv)) as [[v0 vd0]|]; [|done].
  simpl. destruct (_ <=? _) eqn:Ec; [done|].
  destruct (vdev_ms vd0 !! _) eqn:E; [|done]. intros H. inversion H; subst.
  split_and!; done.
Qed.

Lemma dva_target_frame R s s' dv v vd i m :
  pool_frame R s s' -> dva_target s dv = Some (v, vd, i, m) ->
  exists vd' m', dva_target s' dv = Some (v, vd', i, m')
    /\ vdev_alike vd vd' /\ R v i m m'.
Proof.
  intros HF H. apply dva_target_Some in H as (H1 & H2 & H3 & H4).
  destruct (vdev_lookup_top_frame _ _ _ _ _ _ HF H1) as (vd' & L & _ & Hal & Hm).
  destruct (Hm _ _ H4) as (m' & E & HR). exists vd', m'.
  split; [|done]. unfold dva_target. rewrite L. simpl.
  destruct Hal as (A1 & A2 & A3 & A4 & A5 & A6). rewrite A2, A3, H2, <- H3, E. done.
Qed.

Lemma dva_range_frame R asize s s' dv :
  asize_stable asize -> pool_frame R s s' ->
  dva_range asize s' dv = dva_range asize s dv.
Proof.
  intros Hst HF. unfold dva_range.
  destruct (vdev_lookup_top s (dva_vdev dv)) as [[v vd]|] eqn:E.
  - destruct (vdev_lookup_top_frame _ _ _ _ _ _ HF E) as (vd' & L & _ & Hal & _).
    rewrite L. destruct Hal as (A1 & A2 & A3 & A4 & A5 & A6).
    unfold dva_size. by rewrite (Hst vd vd' _ A4 A5).
  - destruct HF as (_ & _ & Hlen & _). unfold vdev_lookup_top in *.
    destruct (dva_vdev dv <? 0); [done|].
    destruct (spa_vdevs s !! _) eqn:E1; [done|].
    apply lookup_ge_None in E1. rewrite <- Hlen in E1.
    apply lookup_ge_None in E1. by rewrite E1.
Qed.

Lemma forallb_pointwise {A} (f g : A -> bool) l :
  (forall x, f x = g x) -> forallb f l = forallb g l.
Proof. intros H. induction l as [|x l IH]; simpl; [done|]. by rewrite H, IH. Qed.

Lemma copies_apart_frame R asize s s' dvas :
  asize_stable asize -> pool_frame R s s' ->
  copies_apart asize s' dvas = copies_apart asize s dvas.
Proof.
  intros Hst HF. induction dvas as [|dv rest IH]; [done|]. simpl.
  rewrite IH. f_equal. apply forallb_pointwise. intros dv'.
  by rewrite !(dva_range_frame R asize s s').
Qed.


Lemma ms_alike_refl a : ms_alike a a.
Proof. by repeat split. Qed.

Lemma ms_alike_trans a b c : ms_alike a b -> ms_alike b c -> ms_alike a c.
Proof.
  intros (A1 & A2 & A3 & A4 & A5 & A6 & A7 & A8 & A9)
    (B1 & B2 & B3 & B4 & B5 & B6 & B7 & B8 & B9).
  repeat split; congruence.
Qed.

Lemma ms_tree_walk_remove_alike src : forall m m',
  ms_tree_walk_remove src m = Done m' ->
  ms_alike m m' /\ ms_loaded m' = ms_loaded m /\ ms_loading m' = ms_loading m
  /\ ms_weight m' = ms_weight m.
Proof.
  intros m m' H. apply ms_tree_walk_remove_Done in H as (t & _ & ->).
  split; [by repeat split|done].
Qed.

Lemma metaslab_load_effect m e m' :
  metaslab_load m = Done (e, m') ->
  ms_alike m m' /\ ms_loaded m' = (e =? 0) /\ ms_weight m' = ms_weight m.
Proof.
  intros H. unfold metaslab_load in H. inv_bind H as r Er.
  assert (Hr : ms_alike m r.2 /\ ms_weight r.2 = ms_weight m).
  { simpl in Er. destruct (ms_sm m) as [sm|].
    - inv_bind Er as l El. inv_bind Er as u Eu. inversion Er; subst r. simpl.
      split; [by repeat split|done].
    - inv_bind Er as m1 E1. apply ms_tree_add_Done in E1 as (t & _ & -> & _).
      inversion Er; subst r. simpl. split; [by repeat split|done]. }
  destruct Hr as [Hal Hw]. inv_bind H as m3 E3. inversion H; subst e m3. clear H.
  simpl in E3. destruct (r.1 =? 0) eqn:E0.
  - inv_bind E3 as d0 Ed0. inv_bind E3 as m0 Em0. inv_bind E3 as d1 Ed1.
    apply ms_tree_walk_remove_alike in Em0 as (A1 & A2 & A3 & A4).
    apply ms_tree_walk_remove_alike in E3 as (B1 & B2 & B3 & B4).
    split.
    { eapply ms_alike_trans; [|exact B1]. eapply ms_alike_trans; [|exact A1].
      destruct Hal as (C1 & C2 & C3 & C4 & C5 & C6 & C7 & C8 & C9).
      by repeat split. }
    split; [rewrite B2, A2; done|].
    rewrite B4, A4. done.
  - inversion E3; subst m'. simpl. split; [|done].
    destruct Hal as (C1 & C2 & C3 & C4 & C5 & C6 & C7 & C8 & C9).
    by repeat split.
Qed.

Lemma metaslab_activate_effect m w e m' :
  metaslab_activate m w = Done (e, m') ->
  ms_alike m m'
  /\ (ms_ready m = true -> e = 0 /\ ms_tree m' = ms_tree m)
  /\ (e = 0 -> ms_ready m' = true)
  /\ (e = 0 -> ms_loaded m = true \/ Z.land (ms_weight m) METASLAB_ACTIVE_MASK = 0 ->
      ms_loaded m' = true).
Proof.
  intros H. unfold metaslab_activate in H.
  destruct (Z.land (ms_weight m) METASLAB_ACTIVE_MASK =? 0) eqn:Em.
  2: { inversion H; subst. split; [apply ms_alike_refl|]. split; [done|].
       split.
       - intros _. unfold ms_ready. rewrite Em. apply orb_true_r.
       - intros _ [Hl|Hz]; [done|]. apply Z.eqb_neq in Em. done. }
  inv_bind H as u Eu. inv_bind H as r Er.
  assert (Hr : ms_alike m r.2 /\ ms_loaded r.2 = (r.1 =? 0)
               /\ (ms_loaded m = true -> r.1 = 0 /\ ms_tree r.2 = ms_tree m)).
  { destruct (ms_loaded m) eqn:El; simpl in Er.
    - inversion Er; subst r. simpl. split; [apply ms_alike_refl|]. done.
    - destruct r as [e1 m1]. apply metaslab_load_effect in Er as (A1 & A2 & A3).
      done. }
  destruct Hr as (Hal & Hld & Hkeep).
  assert (Hrd : ms_ready m = ms_loaded m).
  { unfold ms_ready. rewrite Em. apply orb_false_r. }
  rewrite Hrd.
  destruct (r.1 =? 0) eqn:E0; simpl in H; inversion H; subst e m'; clear H.
  - split. { destruct Hal as (C1 & C2 & C3 & C4 & C5 & C6 & C7 & C8 & C9).
             by repeat split. }
    split; [intros Hl; split; [done|by apply Hkeep]|].
    split; [intros _; unfold ms_ready; simpl; by rewrite Hld|].
    intros _ _. done.
  - apply Z.eqb_neq in E0.
    split. { destruct Hal as (C1 & C2 & C3 & C4 & C5 & C6 & C7 & C8 & C9).
             by repeat split. }
    split; [intros Hl; by destruct (Hkeep Hl)|]. split; done.
Qed.

(** A range that was in the tree and does not meet the removed one is in the
    tree still. *)
Lemma remove_seg_keeps_contains rt : forall s e rt' s2 n2,
  remove_seg rt s e = Some rt' ->
  range_tree_contains rt s2 n2 = true -> s2 + n2 <= s \/ e <= s2 ->
  range_tree_contains rt' s2 n2 = true.
Proof.
  unfold range_tree_contains.
  induction rt as [|r rt IH]; intros s e rt' s2 n2 H Hc Hd; simpl in H; [done|].
  apply andb_true_iff in Hc as [Hn Hc]. apply Z.ltb_lt in Hn.
  apply andb_true_iff. split; [by apply Z.ltb_lt|].
  simpl in Hc.
  destruct ((rs_start r <=? s) && (e <=? rs_end r)) eqn:E1.
  - inversion H; subst rt'; clear H. apply andb_true_iff in E1 as [E1 E2].
    apply Z.leb_le in E1, E2.
    rewrite !existsb_app. apply orb_true_iff in Hc as [Hc|Hc].
    + apply andb_true_iff in Hc as [H1 H2]. apply Z.leb_le in H1, H2.
      destruct Hd as [Hd|Hd].
      * apply orb_true_iff. left.
        destruct (rs_start r <? s) eqn:E3; [|apply Z.ltb_ge in E3; lia].
        simpl. apply orb_true_iff. left. apply andb_true_iff.
        rewrite !Z.leb_le. lia.
      * apply orb_true_iff. right. apply orb_true_iff. left.
        destruct (e <? rs_end r) eqn:E3; [|apply Z.ltb_ge in E3; lia].
        simpl. apply orb_true_iff. left. apply andb_true_iff.
        rewrite !Z.leb_le. lia.
    + rewrite Hc. by rewrite !orb_true_r.
  - destruct (rs_end r <=? s) eqn:E2; [|done].
    destruct (remove_seg rt s e) as [rest'|] eqn:Er; [|done].
    inversion H; subst rt'; clear H. simpl.
    apply orb_true_iff in Hc as [Hc|Hc]; [by rewrite Hc|].
    apply orb_true_iff. right.
    assert (X : (0 <? n2) && existsb
               (fun r0 => (rs_start r0 <=? s2) && (s2 + n2 <=? rs_end r0)) rt = true).
    { apply andb_true_iff. split; [by apply Z.ltb_lt|done]. }
    specialize (IH s e rest' s2 n2 Er X Hd).
    by apply andb_true_iff in IH as [_ IH].
Qed.

(** The DVA names no metaslab of the pool: [ENXIO], and nothing is touched. *)
Lemma metaslab_claim_dva_none asize s dv txg r :
  metaslab_claim_dva asize s dv txg = Done r -> dva_target s dv = None ->
  r = (ENXIO, s).
Proof.
  unfold metaslab_claim_dva, dva_target. intros H Hn.
  destruct (vdev_lookup_top s (dva_vdev dv)) as [[v vd]|]; [|by inversion H].
  simpl in Hn. destruct (_ <=? _); [by inversion H|].
  unfold get_ms in H. destruct (vdev_ms vd !! _); [done|]. done.
Qed.

Lemma metaslab_claim_dva_some asize s dv txg e s' v vd i m :
  metaslab_claim_dva asize s dv txg = Done (e, s') ->
  dva_target s dv = Some (v, vd, i, m) ->
  exists ea m1,
    claim_activate s m txg = Done (ea, m1)
    /\ let offset := dva_offset dv in
       let size := dva_size asize vd dv in
       let error := if (ea =? 0) && negb (range_tree_contains (ms_tree m1) offset size)
                    then ENOENT else ea in
       if negb (error =? 0) || (txg =? 0)
       then e = error /\ s' = set_vdev s v (set_ms vd i m1)
       else e = 0
            /\ exists t vd1 m2,
                 range_tree_remove (ms_tree m1) offset size = Done t
                 /\ vdev_alike vd vd1 /\ vdev_ms vd1 = vdev_ms vd
                 /\ ms_tree m2 = t /\ ms_loaded m2 = ms_loaded m1
                 /\ ms_weight m2 = ms_weight m1
                 /\ s' = set_vdev s v (set_ms vd1 i m2).
Proof.
  intros H Ht. apply dva_target_Some in Ht as (L & Hc & Hi & Hm).
  unfold metaslab_claim_dva in H. rewrite L, Hc in H. rewrite <- Hi in H.
  unfold get_ms in H. rewrite Hm in H. simpl in H.
  fold (claim_activate s m txg) in H. fold (dva_size asize vd dv) in H.
  inv_bind H as a Ea. destruct a as [ea m1]. exists ea, m1. split; [done|].
  simpl in H. intros offset size error. fold offset size in H. fold error in H.
  destruct (negb (error =? 0) || (txg =? 0)) eqn:Eb.
  { inversion H. done. }
  inv_bind H as u1 U1. inv_bind H as u2 U2. inv_bind H as u3 U3. inv_bind H as u4 U4.
  inv_bind H as m2 Er. apply ms_tree_remove_Done in Er as (t & Er & -> & _).
  apply orb_false_iff in Eb as [Eb _]. apply negb_false_iff, Z.eqb_eq in Eb.
  destruct (spa_writeable s).
  - inv_bind H as at0 Eat. inv_bind H as at1 Eadd. inversion H; subst e s'.
    split; [done|]. eexists t, _, _. split; [done|].
    split; [|split; [|split; [|split; [|split; [|reflexivity]]]]]; try done.
    + case_if; by repeat split.
    + by case_if.
  - inversion H; subst e s'. split; [done|]. eexists t, vd, _. split; [done|].
    split; [apply vdev_alike_refl|]. split; [done|].
    split; [|split; [|split; [|reflexivity]]]; done.
Qed.


Lemma claim_keeps_refl m : claim_keeps m m.
Proof. by split. Qed.

Lemma claim_keeps_trans a b c : claim_keeps a b -> claim_keeps b c -> claim_keeps a c.
Proof.
  intros [A1 A2] [B1 B2]. split; [congruence|]. intros Hr.
  destruct (A2 Hr) as [A3 A4]. destruct (B2 A3) as [B3 B4]. split; congruence.
Qed.

Lemma dva_size_alike asize vd vd' dv :
  asize_stable asize -> vdev_alike vd vd' -> dva_size asize vd' dv = dva_size asize vd dv.
Proof.
  intros Hst (A1 & A2 & A3 & A4 & A5 & A6). unfold dva_size.
  by rewrite (Hst vd vd' _ A4 A5).
Qed.

Lemma dva_target_set s v vd vd1 i m m2 dv v' vd' i' m' :
  spa_vdevs s !! v = Some vd -> vdev_ms vd !! i = Some m ->
  vdev_alike vd vd1 -> vdev_ms vd1 = vdev_ms vd ->
  dva_target s dv = Some (v', vd', i', m') ->
  exists vd2 m3,
    dva_target (set_vdev s v (set_ms vd1 i m2)) dv = Some (v', vd2, i', m3)
    /\ vdev_alike vd' vd2
    /\ (if decide (v' = v /\ i' = i) then m3 = m2 /\ m' = m else m3 = m').
Proof.
  intros Hv Hm Hal Hms Ht.
  assert (HF : pool_frame (fun a b x y => if decide (a = v /\ b = i) then y = m2 /\ x = m
                                          else y = x)
                 s (set_vdev s v (set_ms vd1 i m2))).
  { split; [done|]. split; [done|]. split; [simpl; by rewrite length_insert|].
    intros v0 vd0 Hv0. simpl. rewrite list_lookup_insert. case_decide as Hd.
    - destruct Hd as [<- _]. rewrite Hv in Hv0. inversion Hv0; subst vd0.
      eexists. split; [done|]. split.
      { destruct Hal as (A1 & A2 & A3 & A4 & A5 & A6). repeat split; try done.
        simpl. by rewrite length_insert. }
      intros i0 m0 Hm0. simpl. rewrite Hms, list_lookup_insert. case_decide as Hd.
      + destruct Hd as [<- _]. rewrite Hm in Hm0. inversion Hm0; subst m0.
        exists m2. split; [done|]. by rewrite decide_True.
      + exists m0. split; [done|]. rewrite decide_False; [done|]. intros [_ ->].
        apply Hd. split; [done|]. by apply lookup_lt_Some in Hm0.
    - exists vd0. split; [done|]. split; [apply vdev_alike_refl|].
      intros i0 m0 Hm0. exists m0. split; [done|]. rewrite decide_False; [done|].
      intros [-> _]. apply Hd. split; [done|]. by apply lookup_lt_Some in Hv. }
  destruct (dva_target_frame _ _ _ _ _ _ _ _ HF Ht) as (vd2 & m3 & T & A & B).
  exists vd2, m3. done.
Qed.

Lemma claim_ready_frame asize s s' dv :
  asize_stable asize -> pool_frame (fun _ _ => claim_keeps) s s' ->
  claim_ready asize s dv = true -> claim_ready asize s' dv = true.
Proof.
  intros Hst HF H. unfold claim_ready in *.
  destruct (dva_target s dv) as [[[[v vd] i] m]|] eqn:Et; [|done].
  destruct (dva_target_frame _ _ _ _ _ _ _ _ HF Et) as (vd' & m' & T & A & [B1 B2]).
  rewrite T. apply andb_true_iff in H as [H1 H2]. destruct (B2 H1) as [B3 B4].
  rewrite B3, B4, (dva_size_alike _ _ _ _ Hst A). done.
Qed.

Lemma claim_activate_effect s m txg ea m1 :
  claim_activate s m txg = Done (ea, m1) ->
  claim_keeps m m1
  /\ (ms_ready m = true -> ea = 0 /\ ms_tree m1 = ms_tree m)
  /\ (ea = 0 -> ms_ready m1 = true).
Proof.
  unfold claim_activate. intros H.
  destruct ((negb (txg =? 0) && spa_writeable s) || negb (ms_loaded m)) eqn:Ec.
  - apply metaslab_activate_effect in H as (A1 & A2 & A3 & _).
    split; [|done]. split; [apply A1|]. intros Hr. split; [by apply A3, A2|by apply A2].
  - inversion H; subst. split; [apply claim_keeps_refl|]. split; [done|].
    intros _. apply orb_false_iff in Ec as [_ Ec]. apply negb_false_iff in Ec.
    unfold ms_ready. by rewrite Ec.
Qed.

(** The dry run: nothing is committed, and if it succeeds every copy is
    ready to be claimed. *)
Lemma claim_copies_dry asize dvas : forall s e s',
  asize_stable asize ->
  claim_copies asize s dvas 0 = Done (e, s') ->
  pool_frame (fun _ _ => claim_keeps) s s'
  /\ (e = 0 -> Forall (fun dv => claim_ready asize s' dv = true) dvas).
Proof.
  induction dvas as [|dv rest IH]; intros s e s' Hst H; simpl in H.
  { inversion H; subst. split; [apply pool_frame_refl; intros; apply claim_keeps_refl|].
    by intros _. }
  inv_bind H as r Er. destruct r as [e1 s1].
  assert (H1 : pool_frame (fun _ _ => claim_keeps) s s1
               /\ (e1 = 0 -> claim_ready asize s1 dv = true)).
  { destruct (dva_target s dv) as [[[[v vd] i] m]|] eqn:Et.
    - destruct (metaslab_claim_dva_some _ _ _ _ _ _ _ _ _ _ Er Et)
        as (ea & m1 & Ea & Hres).
      simpl in Hres. rewrite orb_true_r in Hres. destruct Hres as [-> ->].
      apply claim_activate_effect in Ea as (K & K1 & K2).
      apply dva_target_Some in Et as Et'. destruct Et' as (L & _ & _ & Hm).
      apply vdev_lookup_top_Some in L as (_ & _ & Hv).
      split.
      + apply pool_frame_set_ms with (m := m) (vd := vd);
          first [done | apply vdev_alike_refl | intros; apply claim_keeps_refl].
      + intros He.
        destruct (dva_target_set s v vd vd i m m1 dv _ _ _ _ Hv Hm
                    (vdev_alike_refl vd) eq_refl Et) as (vd2 & m3 & T & A & B).
        rewrite decide_True in B by done. destruct B as [-> _].
        unfold claim_ready. rewrite T. rewrite (dva_size_alike _ _ _ _ Hst A).
        destruct (ea =? 0) eqn:E0.
        * apply Z.eqb_eq in E0. rewrite (K2 E0). simpl in *.
          destruct (range_tree_contains _ _ _); [done|]. simpl in He. done.
        * simpl in He. apply Z.eqb_neq in E0. done.
    - apply metaslab_claim_dva_none in Er; [|done]. inversion Er; subst.
      split; [apply pool_frame_refl; intros; apply claim_keeps_refl|].
      intros He. done. }
  destruct H1 as [F1 R1]. simpl in H.
  destruct (e1 =? 0) eqn:E1; simpl in H.
  - apply Z.eqb_eq in E1. destruct (IH _ _ _ Hst H) as [F2 R2].
    split.
    + eapply pool_frame_trans; [|exact F1|exact F2]. intros. by eapply claim_keeps_trans.
    + intros He. constructor; [|by apply R2].
      eapply claim_ready_frame; [done|exact F2|by apply R1].
  - inversion H; subst. split; [done|]. intros ->. done.
Qed.

(** The real run after a dry run that succeeded: no copy fails. *)
Lemma claim_copies_wet asize txg dvas : forall s e s',
  txg <> 0 -> asize_stable asize ->
  claim_copies asize s dvas txg = Done (e, s') ->
  copies_apart asize s dvas = true ->
  Forall (fun dv => claim_ready asize s dv = true) dvas ->
  e = 0.
Proof.
  induction dvas as [|dv rest IH]; intros s e s' Htxg Hst H Hap Hrd; simpl in H.
  { by inversion H. }
  inv_bind H as r Er. destruct r as [e1 s1].
  inversion Hrd as [|? ? Hdv Hrest]; subst.
  simpl in Hap. apply andb_true_iff in Hap as [Hap1 Hap2].
  unfold claim_ready in Hdv.
  destruct (dva_target s dv) as [[[[v vd] i] m]|] eqn:Et; [|done].
  apply andb_true_iff in Hdv as [Hr Hc].
  destruct (metaslab_claim_dva_some _ _ _ _ _ _ _ _ _ _ Er Et) as (ea & m1 & Ea & Hres).
  apply claim_activate_effect in Ea as (K & K1 & K2).
  destruct (K1 Hr) as [-> Kt]. simpl in Hres. rewrite Kt, Hc in Hres. simpl in Hres.
  apply Z.eqb_neq in Htxg as Htxg'. rewrite Htxg' in Hres.
  destruct Hres as (-> & t & vd1 & m2 & Erm & Hal & Hms & Ht2 & Hl2 & Hw2 & ->).
  simpl in H.
  apply dva_target_Some in Et as Et'. destruct Et' as (L & _ & _ & Hm).
  apply vdev_lookup_top_Some in L as L'. destruct L' as (_ & _ & Hv).
  assert (HF : pool_frame (fun _ _ _ _ => True) s (set_vdev s v (set_ms vd1 i m2))).
  { by apply pool_frame_set_ms with (m := m) (vd := vd). }
  eapply IH; [done|done|exact H| |].
  { by rewrite (copies_apart_frame _ _ _ _ _ Hst HF). }
  apply Forall_forall. intros dv' Hin.
  rewrite Forall_forall in Hrest. specialize (Hrest dv' Hin).
  rewrite forallb_forall in Hap1.
  specialize (Hap1 dv' (proj1 (list_elem_of_In _ _) Hin)).
  unfold claim_ready in *.
  destruct (dva_target s dv') as [[[[v' vd'] i'] m']|] eqn:Et'; [|done].
  destruct (dva_target_set s v vd vd1 i m m2 dv' _ _ _ _ Hv Hm Hal Hms Et')
    as (vd2 & m3 & T & A & B).
  rewrite T, (dva_size_alike _ _ _ _ Hst A).
  apply andb_true_iff in Hrest as [Hr' Hc'].
  case_decide as Hd; [|by rewrite B, Hr', Hc'].
  destruct Hd as [-> ->]. destruct B as [-> ->].
  assert (Hr2 : ms_ready m2 = true).
  { unfold ms_ready. rewrite Hl2, Hw2. by apply K2. }
  rewrite Hr2. simpl. rewrite Ht2.
  unfold range_tree_remove in Erm. case_hyp Erm; [done|]. apply of_option_Done in Erm.
  eapply remove_seg_keeps_contains; [exact Erm|exact Hc'|].
  apply dva_target_Some in Et' as (L' & _).
  unfold dva_range in Hap1. rewrite L, L' in Hap1. simpl in Hap1.
  rewrite Nat.eqb_refl in Hap1. simpl in Hap1.
  apply orb_true_iff in Hap1 as [E|E]; apply Z.leb_le in E; lia.
Qed.


Lemma set_vdev_ms_id vd : set_vdev_ms (vdev_ms vd) vd = vd.
Proof. by destruct vd. Qed.

Lemma set_spa_vdevs_id s : set_spa_vdevs (spa_vdevs s) s = s.
Proof. by destruct s. Qed.

Lemma set_msp_id s v vd i m :
  spa_vdevs s !! v = Some vd -> vdev_ms vd !! i = Some m ->
  set_vdev s v (set_ms vd i m) = s.
Proof.
  intros Hv Hm. unfold set_vdev, set_ms.
  rewrite (list_insert_id _ _ _ Hm), set_vdev_ms_id, (list_insert_id _ _ _ Hv).
  apply set_spa_vdevs_id.
Qed.

Lemma asize_example_stable : asize_stable asize_example.
Proof. intros vd vd' x Ha _. unfold asize_example. by rewrite Ha. Qed.

(** With every copy in a loaded metaslab the dry run touches nothing, and
    ends at the first copy that is not free. *)
Lemma claim_copies_dry_loaded asize dvas : forall s,
  Forall (fun dv => copy_loaded s dv = true) dvas ->
  claim_copies asize s dvas 0
  = Done (if forallb (copy_free asize s) dvas then 0 else ENOENT, s).
Proof.
  induction dvas as [|dv rest IH]; intros s Hl; [done|].
  inversion Hl as [|? ? Hdv Hrest]; subst. simpl.
  unfold copy_loaded in Hdv. unfold copy_free at 1.
  destruct (dva_target s dv) as [[[[v vd] i] m]|] eqn:Et; [|done].
  apply dva_target_Some in Et as (L & Hc & Hi & Hm).
  apply vdev_lookup_top_Some in L as L'. destruct L' as (_ & _ & Hv).
  unfold metaslab_claim_dva. rewrite L, Hc, <- Hi. unfold get_ms. rewrite Hm. simpl.
  rewrite Hdv. simpl. fold (dva_size asize vd dv).
  rewrite (set_msp_id _ _ _ _ _ Hv Hm).
  destruct (range_tree_contains _ _ _); simpl; [|done].
  by apply IH.
Qed.


(** ** Allocation and its unwinding *)


Lemma forallb_imap_lookup {A} (f : nat -> A -> bool) (l : list A) :
  forallb (fun x => x) (imap f l) = true <->
  forall i x, l !! i = Some x -> f i x = true.
Proof.
  rewrite forallb_forall. split.
  - intros H i x Hi. apply H. apply list_elem_of_In.
    apply elem_of_lookup_imap. eauto.
  - intros H b Hb. apply list_elem_of_In, elem_of_lookup_imap in Hb
      as (i & x & -> & Hi). eauto.
Qed.

Lemma pool_ok_lookup s :
  pool_ok s = true <->
  forall v vd, spa_vdevs s !! v = Some vd ->
    vdev_id vd = Z.of_nat v /\ 0 <= vdev_ms_shift vd
    /\ Z.of_nat (length (vdev_ms vd)) <= vdev_ms_count vd
    /\ forall i m, vdev_ms vd !! i = Some m -> ms_ok (vdev_ms_shift vd) i m = true.
Proof.
  unfold pool_ok. rewrite forallb_imap_lookup. split; intros H v vd Hv.
  - specialize (H v vd Hv). unfold vdev_ok in H.
    rewrite !andb_true_iff, Z.eqb_eq, !Z.leb_le, forallb_imap_lookup in H. tauto.
  - specialize (H v vd Hv). unfold vdev_ok.
    rewrite !andb_true_iff, Z.eqb_eq, !Z.leb_le, forallb_imap_lookup. tauto.
Qed.

Lemma ms_ok_iff shift i m :
  ms_ok shift i m = true <->
  ms_start m = Z.of_nat i * 2 ^ shift /\ ms_size m = 2 ^ shift
  /\ sorted (ms_tree m) = true
  /\ tree_within (ms_tree m) (ms_start m) (ms_start m + ms_size m) = true
  /\ trees_sorted (ms_alloctree m) = true
  /\ sm_ok m = true
  /\ (ms_loaded m = false -> Z.land (ms_weight m) METASLAB_ACTIVE_MASK = 0).
Proof.
  unfold ms_ok. rewrite !andb_true_iff, !Z.eqb_eq, orb_true_iff, Z.eqb_eq.
  destruct (ms_loaded m); intuition congruence.
Qed.

(** Within, in terms of the offsets of the tree. *)
Lemma tree_within_covers rt lo hi :
  tree_within rt lo hi = true -> forall x, covers rt x = true -> lo <= x < hi.
Proof.
  unfold tree_within, covers. rewrite forallb_forall. intros H x Hx.
  apply existsb_exists in Hx as (r & Hin & Hr). specialize (H r Hin).
  unfold seg_has in Hr. zb. lia.
Qed.

Lemma covers_tree_within rt : forall l lo hi,
  sorted_from l rt = true -> (forall x, covers rt x = true -> lo <= x < hi) ->
  tree_within rt lo hi = true.
Proof.
  induction rt as [|r rt IH]; intros l lo hi Hs H; [done|].
  apply sorted_from_cons in Hs as (H1 & H2 & H3). simpl.
  apply andb_true_iff. split.
  - pose proof (H (rs_start r)) as X. pose proof (H (rs_end r - 1)) as Y.
    rewrite covers_cons in X, Y.
    rewrite (proj2 (in_range_true _ _ _)) in X by lia.
    rewrite (proj2 (in_range_true _ _ _)) in Y by lia.
    specialize (X eq_refl). specialize (Y eq_refl).
    apply andb_true_iff. rewrite !Z.leb_le. lia.
  - eapply IH; [exact H3|]. intros x Hx. apply H. rewrite covers_cons, Hx.
    apply orb_true_r.
Qed.

Lemma sorted_within rt lo hi :
  sorted rt = true -> (forall x, covers rt x = true -> lo <= x < hi) ->
  tree_within rt lo hi = true.
Proof.
  intros Hs H. apply sorted_sorted_from in Hs as [l Hs].
  eapply covers_tree_within; [apply (Hs l); lia|done].
Qed.


Lemma tree_fits_add rt lo hi s n rt' :
  tree_fits rt lo hi -> range_tree_add rt s n = Done rt' -> lo <= s -> s + n <= hi ->
  tree_fits rt' lo hi.
Proof.
  intros [Hs Hw] H Hlo Hhi.
  apply range_tree_add_spec in H as (Hn & Hs' & Hc & _); [|done].
  split; [done|]. apply sorted_within; [done|]. intros x Hx. rewrite Hc in Hx.
  apply orb_true_iff in Hx as [Hx|Hx].
  - by eapply tree_within_covers.
  - apply in_range_true in Hx. lia.
Qed.

Lemma tree_fits_remove rt lo hi s n rt' :
  tree_fits rt lo hi -> range_tree_remove rt s n = Done rt' ->
  tree_fits rt' lo hi /\ 0 < n /\ lo <= s /\ s + n <= hi.
Proof.
  intros [Hs Hw] H.
  apply range_tree_remove_spec in H as (Hn & Hs' & Hc & Hin); [|done].
  split; [split; [done|]|].
  - apply sorted_within; [done|]. intros x Hx. rewrite Hc in Hx.
    apply andb_true_iff in Hx as [Hx _]. by eapply tree_within_covers.
  - split; [done|].
    pose proof (tree_within_covers _ _ _ Hw s (Hin s ltac:(lia))).
    pose proof (tree_within_covers _ _ _ Hw (s + n - 1) (Hin (s + n - 1) ltac:(lia))).
    lia.
Qed.

Lemma tree_fits_walk_remove src : forall rt lo hi rt',
  tree_fits rt lo hi -> walk_remove src rt = Done rt' -> tree_fits rt' lo hi.
Proof.
  induction src as [|r src IH]; intros rt lo hi rt' Hf H; simpl in H.
  - by inversion H; subst.
  - inv_bind H as rt1 E. apply (tree_fits_remove _ lo hi) in E as (F & _); [|done].
    by eapply IH.
Qed.

Lemma tree_fits_replay recs : forall rt lo hi rt',
  tree_fits rt lo hi ->
  forallb (fun r => (lo <=? smr_offset r) && (smr_offset r + smr_size r <=? hi)) recs
  = true ->
  sm_replay recs SM_FREE rt = Done rt' -> tree_fits rt' lo hi.
Proof.
  induction recs as [|r recs IH]; intros rt lo hi rt' Hf Hr H; simpl in H.
  - by inversion H; subst.
  - simpl in Hr. apply andb_true_iff in Hr as [Hr1 Hr2].
    apply andb_true_iff in Hr1 as [Hlo Hhi]. apply Z.leb_le in Hlo, Hhi.
    inv_bind H as rt1 E.
    assert (F : tree_fits rt1 lo hi).
    { destruct (smr_type r).
      - by apply (tree_fits_remove _ lo hi) in E as (F & _).
      - by eapply tree_fits_add. }
    by eapply IH.
Qed.

Lemma ms_fits shift i m :
  ms_ok shift i m = true ->
  tree_fits (ms_tree m) (ms_start m) (ms_start m + ms_size m).
Proof. intros H. apply ms_ok_iff in H. split; tauto. Qed.

(** Loading keeps the free tree inside the metaslab. *)
Lemma metaslab_load_fits shift i m e m' :
  ms_ok shift i m = true -> metaslab_load m = Done (e, m') ->
  tree_fits (ms_tree m') (ms_start m) (ms_start m + ms_size m).
Proof.
  intros Hok H. pose proof (ms_fits _ _ _ Hok) as Hf.
  apply ms_ok_iff in Hok as (O1 & O2 & O3 & O4 & O5 & O6 & O7).
  unfold metaslab_load in H. inv_bind H as r Er.
  assert (Hr : tree_fits (ms_tree r.2) (ms_start m) (ms_start m + ms_size m)).
  { simpl in Er. unfold sm_ok in O6. destruct (ms_sm m) as [sm|].
    - apply andb_true_iff in O6 as [O6 O8]. apply andb_true_iff in O6 as [O6 O9].
      apply Z.eqb_eq in O6, O9.
      inv_bind Er as l El. inv_bind Er as u Eu. inversion Er; subst r. simpl.
      unfold space_map_load in El. case_hyp El.
      + by inversion El; subst.
      + inv_bind El as rt1 E1. inv_bind El as rt2 E2. inversion El; subst l. simpl.
        eapply tree_fits_replay; [|exact O8|exact E2].
        eapply tree_fits_add; [exact Hf|exact E1|lia|lia].
    - inv_bind Er as m1 E1. apply ms_tree_add_Done in E1 as (t & E1 & -> & _).
      inversion Er; subst r. simpl. simpl in E1.
      eapply tree_fits_add; [exact Hf|exact E1|lia|lia]. }
  inv_bind H as m3 E3. inversion H; subst e m3. clear H.
  simpl in E3. destruct (r.1 =? 0).
  - inv_bind E3 as d0 Ed0. inv_bind E3 as m0 Em0. inv_bind E3 as d1 Ed1.
    apply ms_tree_walk_remove_Done in Em0 as (t0 & W0 & ->).
    apply ms_tree_walk_remove_Done in E3 as (t1 & W1 & ->). simpl in *.
    eapply tree_fits_walk_remove; [|exact W1].
    eapply tree_fits_walk_remove; [|exact W0]. done.
  - by inversion E3; subst.
Qed.

Lemma sm_ok_alike a b : ms_alike a b -> sm_ok b = sm_ok a.
Proof.
  intros (A1 & A2 & A3 & A4 & A5 & A6 & A7 & A8 & A9). unfold sm_ok.
  by rewrite A2, A3, A4.
Qed.

Lemma land_zero_mask : Z.land 0 METASLAB_ACTIVE_MASK = 0.
Proof. reflexivity. Qed.

(** Activation: the metaslab is kept, and loaded on success. *)
Lemma metaslab_activate_keeps i m w e m' :
  metaslab_activate m w = Done (e, m') ->
  alloc_keeps i m m'
  /\ ms_condensing m' = ms_condensing m
  /\ ms_ops m' = ms_ops m
  /\ (forall shift, ms_ok shift i m = true -> e = 0 -> ms_loaded m' = true).
Proof.
  intros H. pose proof (metaslab_activate_effect _ _ _ _ H) as (Hal & Hrd & _ & Hld).
  pose proof Hal as (A1 & A2 & A3 & A4 & A5 & A6 & A7 & A8 & A9).
  split; [|split; [done|split; [done|]]].
  2: { intros shift Hok He. apply Hld; [done|]. apply ms_ok_iff in Hok.
       destruct (ms_loaded m); [by left|right; tauto]. }
  unfold alloc_keeps. do 3 (split; [done|]). split.
  { intros Hl. assert (Hr : ms_ready m = true) by (unfold ms_ready; by rewrite Hl).
    destruct (Hrd Hr) as [-> Ht]. split; [|done]. apply Hld; [done|by left]. }
  intros shift Hok. pose proof (ms_fits _ _ _ Hok) as Hf.
  pose proof Hok as Hok'.
  apply ms_ok_iff in Hok' as (O1 & O2 & O3 & O4 & O5 & O6 & O7).
  assert (Hfit : tree_fits (ms_tree m') (ms_start m) (ms_start m + ms_size m)
                 /\ (ms_loaded m' = false ->
                     Z.land (ms_weight m') METASLAB_ACTIVE_MASK = 0)).
  { unfold metaslab_activate in H.
    destruct (Z.land (ms_weight m) METASLAB_ACTIVE_MASK =? 0) eqn:Em.
    2: { inversion H; subst. split; [done|]. done. }
    inv_bind H as u Eu. inv_bind H as r Er.
    assert (Hr : tree_fits (ms_tree r.2) (ms_start m) (ms_start m + ms_size m)
                 /\ ms_loaded r.2 = (r.1 =? 0)).
    { destruct (ms_loaded m) eqn:El; simpl in Er.
      - inversion Er; subst r. simpl. done.
      - destruct r as [e1 m1]. split; [by eapply metaslab_load_fits|].
        by apply metaslab_load_effect in Er as (_ & ? & _). }
    destruct Hr as [Hr1 Hr2].
    destruct (r.1 =? 0) eqn:E0; simpl in H; inversion H; subst e m'; clear H; simpl.
    - split; [done|]. rewrite Hr2. done.
    - split; [done|]. intros _. apply land_zero_mask. }
  destruct Hfit as [[F1 F2] F3].
  apply ms_ok_iff. rewrite A2, A3, A5, (sm_ok_alike _ _ Hal). split_and!; done.
Qed.

Lemma metaslab_passivate_keeps i m size :
  ms_loaded m = true -> alloc_keeps i m (metaslab_passivate m size).
Proof.
  intros Hl. unfold metaslab_passivate, metaslab_group_sort, alloc_keeps. simpl.
  do 4 (split; [done|]). intros shift Hok.
  apply ms_ok_iff in Hok as (O1 & O2 & O3 & O4 & O5 & O6 & O7).
  apply ms_ok_iff. simpl. split_and!; try done. congruence.
Qed.

Lemma alloc_keeps_refl i m : alloc_keeps i m m.
Proof. by repeat split. Qed.

Lemma alloc_keeps_trans i a b c :
  alloc_keeps i a b -> alloc_keeps i b c -> alloc_keeps i a c.
Proof.
  intros (A1 & A2 & A3 & A4 & A5) (B1 & B2 & B3 & B4 & B5).
  split; [congruence|]. split; [congruence|]. split; [congruence|]. split.
  - intros Hl. destruct (A4 Hl) as [A6 A7]. destruct (B4 A6) as [B6 B7].
    split; congruence.
  - intros shift Hok. by apply B5, A5.
Qed.

(** The block allocators move cursors only. *)
Lemma msop_alloc_lbas tun m n o m' :
  msop_alloc tun m n = Done (o, m') -> exists l, m' = set_ms_lbas l m.
Proof.
  assert (Hid : m = set_ms_lbas (ms_lbas m) m) by (by destruct m).
  unfold msop_alloc. destruct (ms_ops m).
  - unfold metaslab_ff_alloc. intros H. inv_bind H as c Ec. inversion H; subst; subst.
    unfold lbas_set. eauto.
  - unfold metaslab_df_alloc. intros H. inv_bind H as c Ec.
    repeat case_hyp H; inversion H; subst; unfold lbas_set; eauto.
  - unfold metaslab_cf_alloc. intros H. inv_bind H as c Ec. inv_bind H as c' Ec'.
    case_hyp H; [|inversion H; subst; unfold lbas_set; eauto].
    destruct (avl_last _); [|inversion H; subst; eauto].
    case_hyp H; inversion H; subst; unfold lbas_set; simpl; eauto.
  - unfold metaslab_ndf_alloc. intros H. inv_bind H as c Ec.
    case_hyp H; [inversion H; subst; eauto|]. inv_bind H as rs Ers.
    case_hyp H; inversion H; subst; unfold lbas_set; eauto.
Qed.

Lemma metaslab_block_alloc_effect tun vd m n o m' :
  metaslab_block_alloc tun vd m n = Done (o, m') ->
  exists l,
    if o =? U64_MAX then m' = set_ms_lbas l m
    else exists t, range_tree_remove (ms_tree m) o n = Done t
                   /\ m' = set_ms_tree t (set_ms_lbas l m).
Proof.
  unfold metaslab_block_alloc. intros H.
  destruct (ms_condensing m); [done|]. inv_bind H as r Er.
  destruct r as [o1 m1]. apply msop_alloc_lbas in Er as [l ->]. exists l.
  simpl in H. destruct (o1 =? U64_MAX) eqn:E1.
  { inversion H; subst. by rewrite E1. }
  inv_bind H as u1 V1. inv_bind H as u2 V2. inv_bind H as u3 V3.
  inv_bind H as m2 Erm. inversion H; subst. rewrite E1.
  apply ms_tree_remove_Done in Erm as (t & Erm & -> & _). eauto.
Qed.

Lemma lbas_keeps i l m : alloc_keeps i m (set_ms_lbas l m).
Proof. by repeat split. Qed.

Lemma secondary_active w :
  Z.land w METASLAB_ACTIVE_MASK = 0 -> Z.land w METASLAB_WEIGHT_SECONDARY = 0.
Proof.
  intros H.
  change METASLAB_WEIGHT_SECONDARY
    with (Z.land METASLAB_ACTIVE_MASK METASLAB_WEIGHT_SECONDARY).
  by rewrite Z.land_assoc, H.
Qed.

(** One pass under [ms_lock]. *)
Lemma group_alloc_locked_effect tun vd shift i m asize aw wa r :
  ms_ok shift i m = true ->
  group_alloc_locked tun vd m asize aw wa = Done r ->
  match r with
  | Retry m' => alloc_keeps i m m'
  | Allocated o m' =>
      exists ma l t,
        (o =? U64_MAX) = false
        /\ alloc_keeps i m ma /\ ms_loaded ma = true
        /\ range_tree_remove (ms_tree ma) o asize = Done t
        /\ m' = set_ms_tree t (set_ms_lbas l ma)
  end.
Proof.
  intros Hok H. unfold group_alloc_locked in H.
  case_hyp H; [inversion H; apply alloc_keeps_refl|].
  case_hyp H.
  { inversion H. apply metaslab_passivate_keeps.
    apply ms_ok_iff in Hok as (_ & _ & _ & _ & _ & _ & O7).
    destruct (ms_loaded m); [done|]. exfalso.
    apply andb_true_iff in Heqb0 as [X _]. apply negb_true_iff, Z.eqb_neq in X.
    apply X, secondary_active, O7. done. }
  inv_bind H as a Ea. destruct a as [e ma].
  apply (metaslab_activate_keeps i) in Ea as (K & Kc & Ko & Kl). simpl in H.
  case_hyp H; [by inversion H|].
  apply negb_false_iff, Z.eqb_eq in Heqb1. subst e.
  specialize (Kl shift Hok eq_refl).
  case_hyp H; [by inversion H|].
  inv_bind H as b Eb. destruct b as [o mb].
  apply metaslab_block_alloc_effect in Eb as [l Eb]. simpl in H.
  destruct (o =? U64_MAX) eqn:Eo; simpl in H; inversion H; subst; clear H.
  - eapply alloc_keeps_trans; [exact K|].
    eapply alloc_keeps_trans; [apply lbas_keeps|].
    by apply metaslab_passivate_keeps.
  - destruct Eb as (t & Erm & ->). eauto 10.
Qed.


Lemma pool_ok_frame (R : nat -> nat -> metaslab -> metaslab -> Prop) s s' :
  pool_ok s = true -> pool_frame R s s' ->
  (forall v i m m' shift, R v i m m' -> ms_ok shift i m = true -> ms_ok shift i m' = true) ->
  pool_ok s' = true.
Proof.
  intros Hok (_ & _ & Hlen & HF) HR.
  rewrite pool_ok_lookup in Hok. apply pool_ok_lookup. intros v vd' Hv'.
  assert (Hlt : (v < length (spa_vdevs s))%nat)
    by (rewrite <- Hlen; by apply lookup_lt_Some in Hv').
  apply lookup_lt_is_Some in Hlt as [vd Hv].
  destruct (HF v vd Hv) as (vd2 & Hv2 & (A1 & A2 & A3 & A4 & A5 & A6) & Hms).
  rewrite Hv' in Hv2. inversion Hv2; subst vd2.
  destruct (Hok v vd Hv) as (O1 & O2 & O3 & O4).
  rewrite A1, A2, A3, A6. do 3 (split; [done|]).
  intros i m' Hm'.
  assert (Hlt : (i < length (vdev_ms vd))%nat)
    by (rewrite <- A6; by apply lookup_lt_Some in Hm').
  apply lookup_lt_is_Some in Hlt as [m Hm].
  destruct (Hms i m Hm) as (m2 & Hm2 & HRm). rewrite Hm' in Hm2.
  inversion Hm2; subst m2. eapply HR; [exact HRm|]. by apply O4.
Qed.

Lemma pool_ok_keeps s s' : pool_ok s = true -> pool_frame keeps s s' -> pool_ok s' = true.
Proof.
  intros Hok HF. eapply pool_ok_frame; [exact Hok|exact HF|].
  intros v i m m' shift (_ & _ & _ & _ & K). apply K.
Qed.

Lemma alloc_at_ok v0 i0 o n slot v i m m' shift :
  alloc_at v0 i0 o n slot v i m m' -> ms_ok shift i m = true -> ms_ok shift i m' = true.
Proof.
  unfold alloc_at. case_decide.
  - intros (_ & _ & _ & _ & _ & _ & _ & K). apply K.
  - intros (_ & _ & _ & _ & K). apply K.
Qed.

(** One metaslab is replaced, in a record of the same device; [R] need hold
    of the others only as they are. *)
Lemma pool_frame_set_at (R : nat -> nat -> metaslab -> metaslab -> Prop)
    s v vd vd1 i m m' :
  spa_vdevs s !! v = Some vd -> vdev_ms vd !! i = Some m ->
  vdev_alike vd vd1 -> vdev_ms vd1 = vdev_ms vd ->
  R v i m m' -> (forall v' i' x, ~ (v' = v /\ i' = i) -> R v' i' x x) ->
  pool_frame R s (set_vdev s v (set_ms vd1 i m')).
Proof.
  intros Hv Hm Hal Hms HR Hrefl. split; [done|]. split; [done|].
  split; [simpl; by rewrite length_insert|].
  intros v' vd' Hv'. simpl. rewrite list_lookup_insert. case_decide as Hd.
  - destruct Hd as [<- _]. rewrite Hv in Hv'. inversion Hv'; subst vd'.
    eexists. split; [done|]. split.
    { destruct Hal as (A1 & A2 & A3 & A4 & A5 & A6). repeat split; try done.
      simpl. by rewrite length_insert. }
    intros i' m0 Hm0. simpl. rewrite Hms, list_lookup_insert. case_decide as Hd.
    + destruct Hd as [<- _]. rewrite Hm in Hm0. inversion Hm0; subst m0. eauto.
    + exists m0. split; [done|]. apply Hrefl. intros [_ ->]. apply Hd.
      split; [done|]. by apply lookup_lt_Some in Hm0.
  - exists vd'. split; [done|]. split; [apply vdev_alike_refl|].
    intros i' m0 Hm0. exists m0. split; [done|]. apply Hrefl. intros [-> _].
    apply Hd. split; [done|]. by apply lookup_lt_Some in Hv.
Qed.

(** The devices are replaced by records of the same devices with the same
    metaslabs. *)
Lemma pool_frame_same (R : nat -> nat -> metaslab -> metaslab -> Prop) s s' :
  spa_writeable s' = spa_writeable s -> spa_freeze_txg s' = spa_freeze_txg s ->
  spa_vdevs s' = spa_vdevs s -> (forall v i m, R v i m m) -> pool_frame R s s'.
Proof.
  intros H1 H2 H3 HR. split; [done|]. split; [done|]. rewrite H3. split; [done|].
  intros v vd Hv. exists vd. split; [done|]. split; [apply vdev_alike_refl|].
  intros i m Hm. exists m. split; [done|]. apply HR.
Qed.

Lemma pool_frame_set_vdev (R : nat -> nat -> metaslab -> metaslab -> Prop) s v vd vd' :
  spa_vdevs s !! v = Some vd -> vdev_alike vd vd' -> vdev_ms vd' = vdev_ms vd ->
  (forall v i m, R v i m m) -> pool_frame R s (set_vdev s v vd').
Proof.
  intros Hv Hal Hms HR. split; [done|]. split; [done|].
  split; [simpl; by rewrite length_insert|].
  intros v0 vd0 Hv0. simpl. rewrite list_lookup_insert. case_decide as Hd.
  - destruct Hd as [<- _]. rewrite Hv in Hv0. inversion Hv0; subst vd0.
    exists vd'. split; [done|]. split; [done|]. rewrite Hms.
    intros i m Hm. exists m. split; [done|]. apply HR.
  - exists vd0. split; [done|]. split; [apply vdev_alike_refl|].
    intros i m Hm. exists m. split; [done|]. apply HR.
Qed.

Lemma keeps_refl v i m : keeps v i m m.
Proof. apply alloc_keeps_refl. Qed.

Lemma keeps_trans v i a b c : keeps v i a b -> keeps v i b c -> keeps v i a c.
Proof. apply alloc_keeps_trans. Qed.

(** A kept metaslab may be allocated from. *)
Lemma alloc_moves_after o n slot i a b c :
  alloc_keeps i a b -> alloc_moves o n slot i b c -> alloc_moves o n slot i a c.
Proof.
  intros (A1 & A2 & A3 & A4 & A5)
    (B1 & B2 & (A & A' & B3 & B4 & B5) & B6 & (T & B7 & B8 & B9) & B10 & B11 & B12).
  split; [congruence|]. split; [congruence|].
  split; [exists A, A'; rewrite <- A3; done|]. split; [done|].
  split. { exists T. split; [|done]. intros Hl. destruct (A4 Hl) as [A6 A7].
           rewrite <- A7. by apply B7. }
  split; [congruence|]. split; [congruence|].
  intros shift Hok. by apply B12, A5.
Qed.

Lemma alloc_at_after v0 i0 o n slot v i a b c :
  keeps v i a b -> alloc_at v0 i0 o n slot v i b c -> alloc_at v0 i0 o n slot v i a c.
Proof.
  unfold alloc_at, keeps. case_decide.
  - apply alloc_moves_after.
  - apply alloc_keeps_trans.
Qed.

Lemma metaslab_group_alloc_effect tun fuel :
  forall s g psize asize txg min_distance dva d o s',
  pool_ok s = true ->
  metaslab_group_alloc tun no_env fuel s g psize asize txg min_distance dva d
  = Done (o, s') ->
  if o =? U64_MAX then pool_frame keeps s s'
  else exists i vd,
         spa_vdevs s !! g = Some vd /\ is_Some (vdev_ms vd !! i)
         /\ pool_frame (alloc_at g i o asize (txg_slot txg)) s s'.
Proof.
  induction fuel as [|fuel IH]; intros s g psize asize txg min_distance dva d o s'
    Hok H; simpl in H; [done|].
  inv_bind H as vd Eg. apply get_vdev_Done in Eg.
  destruct (group_pick _ _ _ _ _ _) as [| |i wa] eqn:Ep.
  1,2: inversion H; subst; simpl; apply pool_frame_refl; intros; apply keeps_refl.
  change (no_env fuel s) with s in H.
  unfold get_vdev in H. rewrite Eg in H. simpl in H.
  inv_bind H as msp Em. apply get_ms_Done in Em.
  inv_bind H as r Er.
  pose proof Hok as Hok'. rewrite pool_ok_lookup in Hok'.
  destruct (Hok' g vd Eg) as (O1 & O2 & O3 & O4). specialize (O4 i msp Em).
  apply (group_alloc_locked_effect _ _ _ i _ _ _ _ _ O4) in Er.
  destruct r as [msp'|off msp'].
  - assert (HF : pool_frame keeps s (set_vdev s g (set_ms vd i msp'))).
    { apply pool_frame_set_ms with (vd := vd) (m := msp);
        first [done | apply vdev_alike_refl | intros; apply keeps_refl]. }
    specialize (IH _ _ _ _ _ _ _ _ _ _ (pool_ok_keeps _ _ Hok HF) H).
    destruct (o =? U64_MAX).
    + eapply pool_frame_trans; [|exact HF|exact IH]. intros; by eapply keeps_trans.
    + destruct IH as (i0 & vd0 & Hv0 & Hi0 & IH). exists i0, vd.
      split; [done|]. split.
      { simpl in Hv0. rewrite list_lookup_insert, decide_True in Hv0
          by (split; [done|by apply lookup_lt_Some in Eg]).
        inversion Hv0; subst vd0. simpl in Hi0.
        apply lookup_lt_is_Some in Hi0. rewrite length_insert in Hi0.
        by apply lookup_lt_is_Some. }
      eapply pool_frame_trans; [|exact HF|exact IH]. intros; by eapply alloc_at_after.
  - destruct Er as (ma & l & t & Eo & K & Hl & Erm & ->).
    inv_bind H as A EA. inv_bind H as A' EA'. inversion H; subst o s'. clear H.
    rewrite Eo. exists i, vd. split; [done|]. split; [by eexists|].
    simpl in EA. apply tree_at_Done in EA.
    pose proof K as (K1 & K2 & K3 & K4 & K5).
    apply pool_frame_set_at with (vd := vd) (m := msp); try done.
    + case_if; by repeat split.
    + by case_if.
    + unfold alloc_at. rewrite decide_True by done.
      pose proof (K5 _ O4) as Oa. pose proof (ms_fits _ _ _ Oa) as Fa.
      destruct (tree_fits_remove _ _ _ _ _ _ Fa Erm) as (Ft & Hn & Hlo & Hhi).
      split; [done|]. split; [done|].
      split. { exists A, A'. rewrite <- K3. done. }
      split; [done|].
      split. { exists (ms_tree ma). split; [intros X; by apply K4|].
               split; [apply Fa|done]. }
      split; [lia|]. split; [lia|].
      intros shift Hs. specialize (K5 _ Hs).
      apply ms_ok_iff in K5 as (P1 & P2 & P3 & P4 & P5 & P6 & P7).
      apply ms_ok_iff. simpl. split_and!; try done.
      * apply Ft.
      * apply Ft.
      * unfold set_tree. apply trees_sorted_insert; [done|].
        apply range_tree_add_spec in EA' as (_ & SA' & _); [done|].
        by eapply trees_sorted_lookup.
    + intros v' i' x Hne. unfold alloc_at. rewrite decide_False by done.
      apply alloc_keeps_refl.
Qed.



Lemma asize_alike asize vd vd' x :
  asize_stable asize -> vdev_alike vd vd' -> asize vd' x = asize vd x.
Proof. intros Hst (A1 & A2 & A3 & A4 & A5 & A6). by apply Hst. Qed.

Lemma pool_frame_lookup_back R s s' v vd' :
  pool_frame R s s' -> spa_vdevs s' !! v = Some vd' ->
  exists vd, spa_vdevs s !! v = Some vd /\ vdev_alike vd vd'.
Proof.
  intros (_ & _ & Hlen & HF) Hv'.
  assert (Hlt : (v < length (spa_vdevs s))%nat)
    by (rewrite <- Hlen; by apply lookup_lt_Some in Hv').
  apply lookup_lt_is_Some in Hlt as [vd Hv].
  destruct (HF v vd Hv) as (vd2 & Hv2 & Hal & _). exists vd. split; [done|].
  congruence.
Qed.

Lemma dva_outcome_after asize s s1 psize dva d txg flags r :
  asize_stable asize -> pool_frame keeps s s1 ->
  dva_outcome asize s1 psize dva d txg flags r ->
  dva_outcome asize s psize dva d txg flags r.
Proof.
  intros Hst HF [(He & F & Hd)|(He & g & i & o & vd0 & F & Hv & Hi & Hd)].
  - left. split; [done|]. split; [|done].
    eapply pool_frame_trans; [|exact HF|exact F]. intros; by eapply keeps_trans.
  - right. split; [done|].
    destruct (pool_frame_lookup_back _ _ _ _ _ HF Hv) as (vd & Hv0 & Hal).
    exists g, i, o, vd. rewrite <- (asize_alike _ _ _ psize Hst Hal).
    split; [|split; [done|split]].
    + eapply pool_frame_trans; [|exact HF|exact F]. intros; by eapply alloc_at_after.
    + destruct Hal as (_ & _ & _ & _ & _ & A6). apply lookup_lt_is_Some.
      apply lookup_lt_is_Some in Hi. lia.
    + destruct Hal as (A1 & _). by rewrite <- A1.
Qed.

Lemma alloc_dva_walk_effect tun asize fuel :
  forall s mc psize dva d txg flags mg rotor dshift zio_lock all_zero r,
  pool_ok s = true -> asize_stable asize ->
  alloc_dva_walk tun asize no_env fuel s mc psize dva d txg flags mg rotor dshift
    zio_lock all_zero = Done r ->
  dva_outcome asize s psize dva d txg flags r.
Proof.
  induction fuel as [|fuel IH];
    intros s mc psize dva d txg flags mg rotor dshift zio_lock all_zero r Hok Hst H;
    [done|].
  cbn [alloc_dva_walk] in H.
  inv_bind H as g Emg. inv_bind H as vd Eg. apply get_vdev_Done in Eg.
  inv_bind H as alc Ealc.
  assert (Hnext : forall s1 az,
    pool_frame keeps s s1 ->
    (get_group s1 g
     ≫= λ mgr : metaslab_group,
          get_class s1 mc
          ≫= λ mcr : metaslab_class,
               if negb (bool_decide (mg_next mgr = rotor))
               then
                alloc_dva_walk tun asize no_env fuel
                  (set_class s1 mc (set_mc_aliquot 0 (set_mc_rotor (mg_next mgr) mcr)))
                  mc psize dva d txg flags (mg_next mgr) rotor dshift zio_lock az
               else
                if negb az
                then
                 alloc_dva_walk tun asize no_env fuel
                   (set_class s1 mc (set_mc_aliquot 0 (set_mc_rotor (mg_next mgr) mcr)))
                   mc psize dva d txg flags (mg_next mgr) rotor (dshift + 1) zio_lock
                   true
                else
                 if negb alc && negb zio_lock
                 then
                  alloc_dva_walk tun asize no_env fuel
                    (set_class s1 mc
                       (set_mc_aliquot 0 (set_mc_rotor (mg_next mgr) mcr)))
                    mc psize dva d txg flags (mg_next mgr) rotor 3 true true
                 else
                  Done
                    (ENOSPC, <[Z.to_nat d:=dva_zero]> dva,
                     set_class s1 mc
                       (set_mc_aliquot 0 (set_mc_rotor (mg_next mgr) mcr))))
    = Done r ->
    dva_outcome asize s psize dva d txg flags r).
  { intros s1 az F1 H1. inv_bind H1 as mgr Emgr. inv_bind H1 as mcr Emcr.
    set (s2 := set_class s1 mc _) in H1.
    assert (F2 : pool_frame keeps s s2).
    { eapply pool_frame_trans; [|exact F1|]; [intros; by eapply keeps_trans|].
      apply pool_frame_same; first [done | intros; apply keeps_refl]. }
    pose proof (pool_ok_keeps _ _ Hok F2) as Hok2.
    repeat case_hyp H1;
      try (eapply dva_outcome_after; [exact Hst|exact F2|]; by eapply IH).
    inversion H1; subst r. left. simpl. split; [done|]. split; [done|]. by right. }
  destruct alc.
  2: { apply (Hnext s all_zero); [|exact H]. apply pool_frame_refl.
       intros; apply keeps_refl. }
  change (negb true) with false in H. cbv iota in H.
  case_hyp H.
  { apply (Hnext s false); [|exact H]. apply pool_frame_refl. intros; apply keeps_refl. }
  inv_bind H as r0 Er0. destruct r0 as [o s1].
  apply metaslab_group_alloc_effect in Er0; [|done]. simpl in H.
  destruct (o =? U64_MAX) eqn:Eo; simpl in H.
  { eapply (Hnext s1); [exact Er0|exact H]. }
  destruct Er0 as (i & vd' & Hv' & Hi' & F).
  rewrite Eg in Hv'. inversion Hv'; subst vd'.
  inv_bind H as vd1 Evd1. apply get_vdev_Done in Evd1.
  inv_bind H as mc1 Emc1. inversion H; subst r; clear H.
  right. simpl. split; [done|]. exists g, i, o, vd.
  destruct F as (F1 & F2 & F3 & F4).
  destruct (F4 g vd Eg) as (vd1' & Hv1 & Hal & Hms).
  rewrite Evd1 in Hv1. inversion Hv1; subst vd1'.
  split; [|split; [done|split; [done|]]].
  2: { destruct Hal as (A1 & _). by rewrite A1. }
  eapply pool_frame_trans with (R2 := fun _ _ m m' => m' = m) (s2 := s1);
    [|by repeat split|].
  { intros v0 i0 a b c Hab ->. exact Hab. }
  match goal with
  | |- pool_frame _ _ (set_class ?x _ _) =>
      eapply pool_frame_trans with (R2 := fun _ _ m m' => m' = m)
                                   (R1 := fun _ _ m m' => m' = m) (s2 := x)
  end.
  { intros v0 i0 a b c -> ->. reflexivity. }
  - apply pool_frame_set_vdev with (vd := vd1); done.
  - apply pool_frame_same; done.
Qed.


Lemma metaslab_alloc_dva_effect tun asize fuel s mc psize dva d hintdva txg flags lbolt r :
  pool_ok s = true -> asize_stable asize ->
  metaslab_alloc_dva tun asize no_env fuel s mc psize dva d hintdva txg flags lbolt
  = Done r ->
  dva_outcome asize s psize dva d txg flags r.
Proof.
  intros Hok Hst H. unfold metaslab_alloc_dva in H.
  case_hyp H.
  { inversion H; subst r. left. simpl. split; [done|].
    split; [apply pool_frame_refl; intros; apply keeps_refl|by left]. }
  inv_bind H as mcr Emcr. inv_bind H as mg0 Emg0. inv_bind H as g0 Eg0.
  inv_bind H as mgr Emgr. by eapply alloc_dva_walk_effect.
Qed.

Lemma pool_frame_comp (R1 R2 : nat -> nat -> metaslab -> metaslab -> Prop) s1 s2 s3 :
  pool_frame R1 s1 s2 -> pool_frame R2 s2 s3 ->
  pool_frame (fun v i a c => exists b, R1 v i a b /\ R2 v i b c) s1 s3.
Proof.
  intros (A1 & A2 & A3 & A4) (B1 & B2 & B3 & B4).
  split; [congruence|]. split; [congruence|]. split; [congruence|].
  intros v vd Hv. destruct (A4 v vd Hv) as (vd2 & Hv2 & Hal2 & Hm2).
  destruct (B4 v vd2 Hv2) as (vd3 & Hv3 & Hal3 & Hm3).
  exists vd3. split; [done|]. split; [by eapply vdev_alike_trans|].
  intros i m Hm. destruct (Hm2 i m Hm) as (m2 & E2 & R12).
  destruct (Hm3 i m2 E2) as (m3 & E3 & R23). exists m3. split; [done|]. eauto.
Qed.

Lemma pool_frame_weaken_at (R R' : nat -> nat -> metaslab -> metaslab -> Prop) s s' :
  (forall v vd i a b,
     spa_vdevs s !! v = Some vd -> vdev_ms vd !! i = Some a -> R v i a b -> R' v i a b) ->
  pool_frame R s s' -> pool_frame R' s s'.
Proof.
  intros HR (A1 & A2 & A3 & A4). repeat split; try done.
  intros v vd Hv. destruct (A4 v vd Hv) as (vd2 & Hv2 & Hal2 & Hm2).
  exists vd2. split; [done|]. split; [done|]. intros i m Hm.
  destruct (Hm2 i m Hm) as (m2 & E2 & R12). exists m2. split; [done|]. eauto.
Qed.

Lemma metaslab_free_dva_now asize s dv txg s' v vd i m :
  metaslab_free_dva asize s dv txg true = Done s' ->
  txg <= spa_freeze_txg s ->
  dva_target s dv = Some (v, vd, i, m) ->
  pool_frame (free_at v i (dva_offset dv) (dva_size asize vd dv) (txg_slot txg)) s s'.
Proof.
  intros H Hfz Ht. apply dva_target_Some in Ht as (L & Hc & Hi & Hm).
  unfold metaslab_free_dva in H. rewrite txg_not_frozen in H by done.
  rewrite L, Hc in H. rewrite <- Hi in H. unfold get_ms in H. rewrite Hm in H.
  simpl in H. fold (dva_size asize vd dv) in H.
  inv_bind H as A EA. apply tree_at_Done in EA. inv_bind H as A' EA'.
  inv_bind H as u0 U0. inv_bind H as u1 U1. inv_bind H as u2 U2.
  inv_bind H as u3 U3. inv_bind H as u4 U4. inv_bind H as u5 U5.
  inv_bind H as m2 Eadd. apply ms_tree_add_Done in Eadd as (t & Eadd & -> & _).
  inversion H; subst s'. clear H.
  apply vdev_lookup_top_Some in L as (_ & _ & Hv).
  apply pool_frame_set_at with (vd := vd) (m := m);
    [done|done|apply vdev_alike_refl|done| |].
  - unfold free_at. rewrite decide_True by done. exists A, A', t. done.
  - intros v' i' x Hne. unfold free_at. by rewrite decide_False.
Qed.

Lemma shiftr_index o n i shift :
  0 <= shift -> 0 < n -> Z.of_nat i * 2 ^ shift <= o ->
  o + n <= Z.of_nat i * 2 ^ shift + 2 ^ shift ->
  Z.shiftr o shift = Z.of_nat i.
Proof.
  intros Hs Hn Hlo Hhi. rewrite Z.shiftr_div_pow2 by done.
  assert (Hp : 0 < 2 ^ shift) by (apply Z.pow_pos_nonneg; lia).
  symmetry. apply (Z.div_unique o (2 ^ shift) (Z.of_nat i) (o - Z.of_nat i * 2 ^ shift));
    [left; lia|lia].
Qed.

(** A block taken from a metaslab and given back leaves the metaslab kept. *)
Lemma ms_undo shift i o n slot a b c d :
  ms_ok shift i a = true ->
  alloc_moves o n slot i a b -> alloc_keeps i b c -> free_moves o n slot c d ->
  alloc_keeps i a d.
Proof.
  intros Hok
    (B1 & B2 & (A & A' & B3 & B4 & B5) & B6 & (T & B7 & B8 & B9) & B10 & B11 & B12)
    (C1 & C2 & C3 & C4 & C5) (A1 & A1' & t & D1 & D2 & D3 & ->).
  pose proof Hok as Hok'.
  apply ms_ok_iff in Hok' as (O1 & O2 & O3 & O4 & O5 & O6 & O7).
  destruct (C4 B6) as [C6 C7].
  assert (HsA : sorted A = true) by (by eapply trees_sorted_lookup).
  pose proof (range_tree_add_spec _ _ _ _ HsA B4) as (Hn & HsA' & HcA' & HdA).
  assert (EA1 : A1 = A').
  { rewrite C3, B5 in D1. apply lookup_lt_Some in B3 as Hlt.
    rewrite list_lookup_insert, decide_True in D1 by done. congruence. }
  subst A1.
  pose proof (range_tree_remove_spec _ _ _ _ HsA' D2) as (_ & HsA1' & HcA1' & _).
  assert (EA : A1' = A).
  { apply sorted_ext; [done|done|]. intros x. rewrite HcA1', HcA'.
    destruct (in_range o (o + n) x) eqn:Ein; simpl.
    - rewrite andb_false_r. symmetry. apply HdA. by apply in_range_true.
    - by rewrite orb_false_r, andb_true_r. }
  subst A1'.
  assert (Halloc : set_tree (ms_alloctree c) slot A = ms_alloctree a).
  { unfold set_tree. rewrite C3, B5, list_insert_insert_eq.
    by apply list_insert_id. }
  pose proof (B12 _ Hok) as Okb. pose proof (C5 _ Okb) as Okc.
  pose proof (ms_fits _ _ _ Okc) as Fc.
  assert (Ft : tree_fits t (ms_start c) (ms_start c + ms_size c)).
  { eapply tree_fits_add; [exact Fc|exact D3| |]; lia. }
  split; [simpl; congruence|]. split; [simpl; congruence|].
  split; [simpl; done|]. split.
  - intros Hl. simpl. split; [done|]. specialize (B7 Hl). subst T.
    pose proof (range_tree_remove_spec _ _ _ _ B8 B9) as (_ & Hsb & Hcb & Hinb).
    pose proof (range_tree_add_spec _ _ _ _ (proj1 Fc) D3) as (_ & Hst & Hct & _).
    apply sorted_ext; [done|done|]. intros x. rewrite Hct, C7, Hcb.
    destruct (in_range o (o + n) x) eqn:Ein; simpl.
    + rewrite orb_true_r. symmetry. apply Hinb. by apply in_range_true.
    + by rewrite orb_false_r, andb_true_r.
  - intros shift' Hok2. pose proof (C5 _ (B12 _ Hok2)) as Okc2.
    apply ms_ok_iff in Okc2 as (P1 & P2 & P3 & P4 & P5 & P6 & P7).
    apply ms_ok_iff. simpl. rewrite Halloc. split_and!; try done.
    + apply Ft.
    + apply Ft.
Qed.


(** The allocation of a copy, undone by [metaslab_free_dva] at once, keeps
    every metaslab. *)
Lemma alloc_undo asize s s1 sm s2 g i o vd0 psize txg gang :
  pool_ok s = true -> asize_stable asize -> txg <= spa_freeze_txg s ->
  (gang = true -> psize = SPA_GANGBLOCKSIZE) ->
  pool_frame (alloc_at g i o (asize vd0 psize) (txg_slot txg)) s s1 ->
  spa_vdevs s !! g = Some vd0 -> is_Some (vdev_ms vd0 !! i) ->
  pool_frame keeps s1 sm ->
  metaslab_free_dva asize sm (mk_dva (vdev_id vd0) o (asize vd0 psize) gang) txg true
  = Done s2 ->
  pool_frame keeps s s2.
Proof.
  intros Hok Hst Hfz Hgang F1 Hv [m Hm] F2 Hfree.
  set (n := asize vd0 psize) in *.
  pose proof (pool_frame_comp _ _ _ _ _ F1 F2) as F12.
  pose proof Hok as Hok'. rewrite pool_ok_lookup in Hok'.
  destruct (Hok' g vd0 Hv) as (O1 & O2 & O3 & O4). pose proof (O4 i m Hm) as Okm.
  pose proof F12 as (G1 & G2 & G3 & G4).
  destruct (G4 g vd0 Hv) as (vdm & Hvm & Hal & Hms).
  destruct (Hms i m Hm) as (mm & Hmm & m1 & Ha & Hk).
  unfold alloc_at in Ha. rewrite decide_True in Ha by done.
  pose proof Ha as
    (B1 & B2 & (A & A' & B3 & B4 & B5) & B6 & (T & B7 & B8 & B9) & B10 & B11 & B12).
  pose proof Hal as (L1 & L2 & L3 & L4 & L5 & L6).
  assert (Hn : 0 < n).
  { unfold range_tree_add in B4. case_hyp B4; [done|]. by apply Z.leb_gt in Heqb. }
  pose proof Okm as Okm'.
  apply ms_ok_iff in Okm' as (P1 & P2 & _).
  assert (Hidx : Z.shiftr o (vdev_ms_shift vd0) = Z.of_nat i).
  { apply (shiftr_index o n); [done|done|lia|lia]. }
  set (dv := mk_dva (vdev_id vd0) o n gang) in *.
  assert (Ht : dva_target sm dv = Some (g, vdm, i, mm)).
  { unfold dva_target, vdev_lookup_top. simpl. rewrite O1.
    destruct (Z.of_nat g <? 0) eqn:E; [apply Z.ltb_lt in E; lia|].
    rewrite Nat2Z.id, Hvm. simpl. rewrite L2, L3, Hidx.
    apply lookup_lt_Some in Hm as Hlt.
    destruct (vdev_ms_count vd0 <=? Z.of_nat i) eqn:E1; [apply Z.leb_le in E1; lia|].
    by rewrite Nat2Z.id, Hmm. }
  assert (Hsz : dva_size asize vdm dv = n).
  { unfold dva_size. simpl. destruct gang; [|done].
    rewrite (asize_alike _ _ _ _ Hst Hal). subst n. by rewrite Hgang. }
  apply (metaslab_free_dva_now asize sm dv txg s2 g vdm i mm) in Hfree;
    [|congruence|done].
  rewrite Hsz in Hfree. simpl in Hfree.
  pose proof (pool_frame_comp _ _ _ _ _ F12 Hfree) as F.
  eapply pool_frame_weaken_at; [|exact F].
  intros v vd i' a d Hva Hia (c & (b & Hab & Hbc) & Hcd).
  unfold alloc_at in Hab. unfold free_at in Hcd. unfold keeps in *.
  case_decide as Hd.
  - destruct Hd as [-> ->].
    destruct (Hok' _ _ Hva) as (_ & _ & _ & Q4).
    eapply ms_undo; [by apply Q4|exact Hab|exact Hbc|exact Hcd].
  - subst d. by eapply alloc_keeps_trans.
Qed.

Lemma alloc_unwind_dva asize d : forall s dva txg dva' s',
  alloc_unwind asize s dva d txg = Done (dva', s') ->
  (d <= length dva)%nat
  /\ forall j, dva' !! j = if decide (j < d)%nat then Some dva_zero else dva !! j.
Proof.
  induction d as [|d IH]; intros s dva txg dva' s' H; simpl in H.
  { inversion H; subst. split; [lia|]. intros j. by rewrite decide_False by lia. }
  inv_bind H as dv Edv. apply of_option_Done in Edv. inv_bind H as s1 Es1.
  apply IH in H as [Hlen Hj]. apply lookup_lt_Some in Edv as Hlt.
  split; [lia|]. intros j. rewrite Hj. repeat case_decide; try done; try lia.
  - rewrite list_lookup_insert. case_decide; [done|]. lia.
  - rewrite list_lookup_insert. case_decide; [lia|done].
Qed.

Section Unwinding.

Variable tun : tunables.
Variable asize : vdev -> Z -> Z.
Variable fuel : nat.
Variable mc : nat.
Variable psize txg flags lbolt : Z.
Variable hintdva : option (list dva_t).

Hypothesis Hst : asize_stable asize.
Hypothesis Hgang :
  Z.land flags METASLAB_GANG_HEADER <> 0 -> psize = SPA_GANGBLOCKSIZE.

(** A failing [alloc_copies] ends in the unwinding, from a pool that keeps
    the metaslabs of the one it started in, of the copies it was given. *)
Lemma alloc_copies_unwinds n : forall s dva d r,
  pool_ok s = true -> txg <= spa_freeze_txg s ->
  alloc_copies tun asize no_env fuel s mc psize dva d n hintdva txg flags lbolt
  = Done r ->
  r.1.1 <> 0 ->
  exists sm dvam,
    pool_frame keeps s sm
    /\ (forall j, (j < d)%nat -> dvam !! j = dva !! j)
    /\ (forall j, dvam !! j = dva !! j \/ dvam !! j = Some dva_zero)
    /\ alloc_unwind asize sm dvam d txg = Done (r.1.2, r.2).
Proof.
  induction n as [|n IH]; intros s dva d r Hok Hfz H He; simpl in H.
  { inversion H; subst r. done. }
  inv_bind H as r1 E1.
  apply metaslab_alloc_dva_effect in E1; [|done|done].
  unfold dva_outcome in E1. rewrite !Nat2Z.id in E1.
  destruct E1 as [(He1 & F & Hd)|(He1 & g & i & o & vd0 & F & Hv & Hi & Hd)].
  - apply Z.eqb_neq in He1 as He1'. rewrite He1' in H. simpl in H.
    inv_bind H as u Eu. inversion H; subst r. simpl in *.
    exists r1.2, r1.1.2. split; [done|].
    destruct u as [u1 u2]. split; [|split; [|done]].
    + intros j Hj. destruct Hd as [->| ->]; [done|].
      by rewrite list_lookup_insert_ne by lia.
    + intros j. destruct Hd as [->| ->]; [by left|].
      rewrite list_lookup_insert. case_decide; [by right|by left].
  - rewrite He1 in H. simpl in H.
    assert (Hok1 : pool_ok r1.2 = true).
    { eapply pool_ok_frame; [exact Hok|exact F|]. intros. by eapply alloc_at_ok. }
    assert (Hfz1 : txg <= spa_freeze_txg r1.2).
    { destruct F as (_ & -> & _). done. }
    destruct (IH _ _ _ _ Hok1 Hfz1 H He) as (sm & dvam & F2 & I1 & I2 & Hu).
    simpl in Hu. inv_bind Hu as dv Edv. apply of_option_Done in Edv.
    inv_bind Hu as s2 Efree.
    rewrite (I1 d ltac:(lia)), Hd in Edv.
    apply lookup_lt_Some in Edv as Hlt. rewrite length_insert in Hlt.
    rewrite list_lookup_insert, decide_True in Edv by done.
    inversion Edv; subst dv. clear Edv.
    exists s2, (<[d := dva_zero]> dvam). split; [|split; [|split; [|done]]].
    + eapply alloc_undo; [exact Hok|exact Hst|exact Hfz| |exact F|exact Hv|exact Hi
                         |exact F2|exact Efree].
      intros Hg. apply Hgang. apply negb_true_iff, Z.eqb_neq in Hg. done.
    + intros j Hj. rewrite list_lookup_insert_ne by lia.
      rewrite (I1 j ltac:(lia)), Hd. by rewrite list_lookup_insert_ne by lia.
    + intros j. rewrite list_lookup_insert. case_decide as Hdj.
      * by right.
      * destruct (I2 j) as [E|E]; [|by right]. rewrite E, Hd.
        rewrite list_lookup_insert. case_decide as Hdj2; [|by left].
        destruct Hdj2 as [<- _]. exfalso. apply Hdj. split; [done|].
        assert (X : is_Some (dvam !! d)).
        { rewrite (I1 d ltac:(lia)), Hd. rewrite list_lookup_insert, decide_True by done.
          by eexists. }
        by apply lookup_lt_is_Some in X.
Qed.

End Unwinding.


Lemma ndvas_zero (l : list dva_t) :
  length (filter (fun d => DVA_IS_VALID d = true) l) = 0%nat <->
  forall j x, l !! j = Some x -> DVA_IS_VALID x = false.
Proof.
  induction l as [|a l IH].
  - split; [intros _ j x Hj; done|done].
  - rewrite filter_cons. destruct (decide (DVA_IS_VALID a = true)) as [Ha|Ha].
    + split; [done|]. intros H. specialize (H 0%nat a eq_refl). congruence.
    + rewrite IH. split.
      * intros H [|j] x Hj; [|by eapply H].
        inversion Hj; subst. by apply not_true_is_false.
      * intros H j x Hj. by apply (H (S j)).
Qed.

Lemma keeps_trees_kept s s' : pool_frame keeps s s' -> trees_kept s s'.
Proof.
  intros (_ & _ & _ & HF) v vd i m Hv Hm.
  destruct (HF v vd Hv) as (vd' & Hv' & _ & Hms).
  destruct (Hms i m Hm) as (m' & Hm' & K1 & K2 & K3 & K4 & K5).
  exists vd', m'. split; [done|]. split; [done|]. split; [done|].
  intros Hl. by apply K4.
Qed.


(** ** Facts for the further properties *)

Lemma metaslab_compare_zero a b :
  metaslab_compare a b = 0 <-> ms_weight a = ms_weight b /\ ms_start a = ms_start b.
Proof.
  unfold metaslab_compare.
  repeat match goal with |- context [?x <? ?y] => destruct (Z.ltb_spec x y) end;
    split; intros; try lia; try discriminate.
Qed.

Lemma metaslab_compare_opp a b : metaslab_compare b a = - metaslab_compare a b.
Proof.
  unfold metaslab_compare.
  repeat match goal with |- context [?x <? ?y] => destruct (Z.ltb_spec x y) end; lia.
Qed.

Lemma metaslab_compare_neg a b :
  metaslab_compare a b < 0
  <-> ms_weight b < ms_weight a
      \/ (ms_weight a = ms_weight b /\ ms_start a < ms_start b).
Proof.
  unfold metaslab_compare.
  repeat match goal with |- context [?x <? ?y] => destruct (Z.ltb_spec x y) end; lia.
Qed.

Lemma metaslab_compare_le a b :
  metaslab_compare a b <= 0
  <-> ms_weight b < ms_weight a
      \/ (ms_weight a = ms_weight b /\ ms_start a <= ms_start b).
Proof.
  unfold metaslab_compare.
  repeat match goal with |- context [?x <? ?y] => destruct (Z.ltb_spec x y) end; lia.
Qed.

Lemma weight_insert_ordered x t :
  weight_ordered t ->
  weight_ordered (avl_insert (fun a b : nat * metaslab => metaslab_compare a.2 b.2) x t).
Proof.
  induction t as [|y t IH]; simpl.
  - intros _. split; [intros z []|exact I].
  - intros [Hy Ht].
    destruct (Z.ltb_spec (metaslab_compare x.2 y.2) 0) as [Hlt|Hge].
    + simpl. split; [|split; assumption].
      intros z [<-|Hz]; [lia|].
      specialize (Hy z Hz).
      apply metaslab_compare_le. apply metaslab_compare_neg in Hlt.
      apply metaslab_compare_le in Hy. lia.
    + simpl. split; [|apply IH; assumption].
      intros z Hz. apply avl_insert_In in Hz as [->|Hz]; [|apply Hy; assumption].
      rewrite metaslab_compare_opp. lia.
Qed.

Lemma mg_metaslab_tree_ordered vd : weight_ordered (mg_metaslab_tree vd).
Proof.
  unfold mg_metaslab_tree, avl_of_nodes.
  induction (imap pair (vdev_ms vd)) as [|x l IH]; simpl; [exact I|].
  apply weight_insert_ordered, IH.
Qed.

Lemma In_imap_pair {A} (l : list A) i x :
  In (i, x) (imap pair l) <-> l !! i = Some x.
Proof.
  rewrite <- list_elem_of_In, list_elem_of_lookup. split.
  - intros [j Hj]. rewrite list_lookup_imap in Hj.
    destruct (l !! j) eqn:E; simpl in Hj; [|discriminate].
    injection Hj as <- <-. exact E.
  - intros H. exists i. rewrite list_lookup_imap, H. reflexivity.
Qed.






Lemma remove_seg_space rt : forall s e rt',
  remove_seg rt s e = Some rt' ->
  range_tree_space rt' = range_tree_space rt - (e - s).
Proof.
  induction rt as [|r rt IH]; intros s e rt' H; simpl in H; [discriminate|].
  destruct ((rs_start r <=? s) && (e <=? rs_end r)) eqn:E1.
  - injection H as <-. apply andb_true_iff in E1 as [H1 H2].
    apply Z.leb_le in H1, H2. unfold range_tree_space.
    rewrite !fold_right_app. simpl.
    destruct (Z.ltb_spec (rs_start r) s), (Z.ltb_spec e (rs_end r)); simpl;
      unfold rs_size; simpl; lia.
  - destruct (rs_end r <=? s); [|discriminate].
    destruct (remove_seg rt s e) as [rest|] eqn:E2; [|discriminate].
    injection H as <-. simpl. rewrite (IH _ _ _ E2). lia.
Qed.

Lemma add_seg_space rt : forall s e rt',
  add_seg rt s e = Some rt' ->
  range_tree_space rt' = range_tree_space rt + (e - s).
Proof.
  induction rt as [|r rt IH]; intros s e rt' H; simpl in H.
  - injection H as <-. simpl. unfold rs_size. simpl. lia.
  - destruct (e <? rs_start r).
    { injection H as <-. simpl. unfold rs_size. simpl. lia. }
    destruct (Z.eqb_spec e (rs_start r)).
    { injection H as <-. simpl. unfold rs_size. simpl. lia. }
    destruct (rs_end r <? s).
    { destruct (add_seg rt s e) as [rest|] eqn:E2; [|discriminate].
      injection H as <-. simpl. rewrite (IH _ _ _ E2). lia. }
    destruct (Z.eqb_spec (rs_end r) s); [|discriminate].
    destruct rt as [|r2 rest2].
    { injection H as <-. simpl. unfold rs_size. simpl. lia. }
    destruct (e <? rs_start r2).
    { injection H as <-. simpl. unfold rs_size. simpl. lia. }
    destruct (Z.eqb_spec e (rs_start r2)); [|discriminate].
    injection H as <-. simpl. unfold rs_size. simpl. lia.
Qed.

Lemma range_tree_remove_space rt s n rt' :
  range_tree_remove rt s n = Done rt' ->
  range_tree_space rt' = range_tree_space rt - n.
Proof.
  unfold range_tree_remove. destruct (n <=? 0); [discriminate|].
  intros H. apply of_option_Done in H. rewrite (remove_seg_space _ _ _ _ H). lia.
Qed.

Lemma range_tree_add_space rt s n rt' :
  range_tree_add rt s n = Done rt' ->
  range_tree_space rt' = range_tree_space rt + n.
Proof.
  unfold range_tree_add. destruct (n <=? 0); [discriminate|].
  intros H. apply of_option_Done in H. rewrite (add_seg_space _ _ _ _ H). lia.
Qed.










Lemma sorted_from_In lo rt r :
  sorted_from lo rt = true -> In r rt -> rs_start r < rs_end r.
Proof.
  revert lo. induction rt as [|y rt IH]; intros lo Hs Hin; [destruct Hin|].
  apply sorted_from_cons in Hs as (_ & Hy & Hs).
  destruct Hin as [->|Hin]; [exact Hy|]. eapply IH; eassumption.
Qed.

Lemma sorted_In rt r : sorted rt = true -> In r rt -> rs_start r < rs_end r.
Proof.
  intros Hs. destruct (sorted_sorted_from _ Hs) as [lo Hlo].
  apply (sorted_from_In lo). apply Hlo. lia.
Qed.

Lemma contains_intro rt r o n :
  In r rt -> 0 < n -> rs_start r <= o -> o + n <= rs_end r ->
  range_tree_contains rt o n = true.
Proof.
  intros Hin Hn H1 H2. unfold range_tree_contains.
  apply andb_true_iff. split; [apply Z.ltb_lt; exact Hn|].
  apply existsb_exists. exists r. split; [exact Hin|].
  apply andb_true_iff. split; apply Z.leb_le; assumption.
Qed.

Lemma tree_within_In rt lo hi r :
  tree_within rt lo hi = true -> In r rt -> lo <= rs_start r /\ rs_end r <= hi.
Proof.
  intros H Hin. unfold tree_within in H.
  rewrite forallb_forall in H. specialize (H r Hin).
  apply andb_true_iff in H as [H1 H2]. apply Z.leb_le in H1, H2. auto.
Qed.








Lemma sm_replay_sorted recs : forall mt rt rt',
  sorted rt = true -> sm_replay recs mt rt = Done rt' -> sorted rt' = true.
Proof.
  induction recs as [|r recs IH]; intros mt rt rt' Hs H; simpl in H.
  - injection H as <-. exact Hs.
  - inv_bind H as rt1 E1. apply (IH mt rt1); [|exact H].
    destruct (smr_type r), mt.
    + apply range_tree_add_spec in E1; tauto.
    + apply range_tree_remove_spec in E1; tauto.
    + apply range_tree_remove_spec in E1; tauto.
    + apply range_tree_add_spec in E1; tauto.
Qed.

Lemma space_map_load_sorted sm rt e rt' :
  sorted rt = true -> space_map_load sm rt = Done (e, rt') ->
  sorted rt' = true /\ (e <> 0 -> rt' = rt).
Proof.
  intros Hs H. unfold space_map_load in H.
  destruct (Z.eqb_spec (sm_io_error sm) 0) as [E0|E0]; simpl in H.
  - inv_bind H as rt1 E1. inv_bind H as rt2 E2. inversion H; subst.
    split; [|congruence].
    apply range_tree_add_spec in E1; [|exact Hs].
    eapply sm_replay_sorted; [|exact E2]. tauto.
  - inversion H; subst. auto.
Qed.

Lemma metaslab_load_source m e m' :
  metaslab_load m = Done (e, m') ->
  exists rt, load_source m = Done (e, rt)
    /\ ms_loading m' = false /\ ms_loaded m' = (e =? 0)
    /\ if e =? 0 then
         exists d0 d1 t0,
           ms_defertree m !! 0%nat = Some (Some d0)
           /\ ms_defertree m !! 1%nat = Some (Some d1)
           /\ walk_remove d0 rt = Done t0
           /\ walk_remove d1 t0 = Done (ms_tree m')
       else ms_tree m' = rt.
Proof.
  intros H. unfold metaslab_load in H.
  inv_bind H as r Hr. destruct r as [e1 m1]. simpl in H.
  assert (exists rt, load_source m = Done (e1, rt)
                     /\ m1 = set_ms_tree rt (set_ms_loading true m)) as (rt & Hsrc & ->).
  { unfold load_source. simpl in Hr. destruct (ms_sm m) as [sm|].
    - inv_bind Hr as l Hl. inv_bind Hr as u Hu. inversion Hr; subst.
      exists l.2. simpl in Hl. destruct l; simpl. auto.
    - inv_bind Hr as m2 Hm2. inversion Hr; subst.
      apply ms_tree_add_Done in Hm2 as (t & Ht & -> & _). simpl in Ht.
      exists t. rewrite Ht. auto. }
  inv_bind H as m3 H3. inversion H; subst. clear H.
  exists rt. split; [exact Hsrc|].
  change (ms_loaded (set_ms_loading false _)) with (e =? 0) in H3.
  destruct (e =? 0) eqn:E0.
  - inv_bind H3 as d0 Hd0. inv_bind H3 as m0 Hm0. inv_bind H3 as d1 Hd1.
    apply tree_at_Done in Hd0. simpl in Hd0.
    apply ms_tree_walk_remove_Done in Hm0 as (t0 & Ht0 & ->). simpl in Ht0.
    apply tree_at_Done in Hd1. simpl in Hd1.
    apply ms_tree_walk_remove_Done in H3 as (t1 & Ht1 & ->). simpl in Ht1.
    simpl. split; [reflexivity|]. split; [reflexivity|].
    exists d0, d1, t0. auto.
  - inversion H3; subst. simpl. auto.
Qed.

Lemma land_lor_activation x w :
  w = METASLAB_WEIGHT_PRIMARY \/ w = METASLAB_WEIGHT_SECONDARY ->
  Z.land (Z.lor x w) METASLAB_ACTIVE_MASK <> 0.
Proof.
  intros Hw. rewrite Z.land_lor_distr_l. intros E. apply Z.lor_eq_0_iff in E as [_ E].
  destruct Hw as [-> | ->]; vm_compute in E; discriminate.
Qed.

Lemma trees_space_insert arr : forall i old new,
  arr !! i = Some (Some old) ->
  trees_space (<[i := Some new]> arr)
  = trees_space arr - range_tree_space old + range_tree_space new.
Proof.
  induction arr as [|o arr IH]; intros i old new H; [discriminate|].
  destruct i as [|i]; simpl in *.
  - injection H as ->. lia.
  - rewrite (IH _ _ _ H). destruct o; lia.
Qed.

Lemma metaslab_sync_done_result tun s p txg s' vd m vd' m' :
  metaslab_sync_done tun s p txg = Done s' ->
  spa_vdevs s !! p.1 = Some vd -> vdev_ms vd !! p.2 = Some m ->
  spa_vdevs s' !! p.1 = Some vd' -> vdev_ms vd' !! p.2 = Some m' ->
  ms_access_txg m' = ms_access_txg m
  /\ ms_loaded m'
     = ms_loaded m
       && negb ((ms_access_txg m <? txg) && negb (metaslab_debug_unload tun))
  /\ (ms_loaded m = true -> ms_access_txg m < txg ->
      let m1 := if tree_is_null (ms_freetree m) (txg_slot (TXG_CLEAN txg))
                then metaslab_create_trees m else m in
      exists a1 a2,
        ms_alloctree m1 !! txg_slot (u64 (txg + 1)) = Some (Some a1)
        /\ range_tree_space a1 = 0
        /\ ms_alloctree m1 !! txg_slot (u64 (txg + 2)) = Some (Some a2)
        /\ range_tree_space a2 = 0).
Proof.
  intros H Hvd Hm Hvd' Hm'.
  unfold metaslab_sync_done in H.
  unfold get_vdev in H. rewrite Hvd in H. simpl in H.
  unfold get_ms in H. rewrite Hm in H. simpl in H.
  inv_bind H as a Ea.
  inv_bind H as freed Ef. inv_bind H as defer Ed.
  inv_bind H as s2 E2. inv_bind H as u Eu. clear Eu u.
  inv_bind H as msp2 Ev. inv_bind H as sw Esw.
  inv_bind H as vd2 Evd2. inv_bind H as msp7 E7. inv_bind H as w Ew.
  injection H as <-.
  apply get_vdev_Done in Evd2. apply lookup_lt_Some in Evd2 as Hl2.
  simpl in Hvd'. rewrite list_lookup_insert, decide_True in Hvd' by done.
  injection Hvd' as <-. simpl in Hm'.
  apply lookup_lt_Some in Hm' as Hli. rewrite length_insert in Hli.
  rewrite list_lookup_insert, decide_True in Hm' by done.
  injection Hm' as <-.
  set (m1 := if tree_is_null (ms_freetree m) (txg_slot (TXG_CLEAN txg))
             then metaslab_create_trees m else m) in *.
  assert (a.1 = m1) as Ha.
  { subst m1. destruct (tree_is_null _ _).
    - inv_bind Ea as s1 E1. by inversion Ea.
    - by inversion Ea. }
  rewrite Ha in *. clear Ea Ha.
  assert (ms_loaded m1 = ms_loaded m /\ ms_access_txg m1 = ms_access_txg m) as [Hl1 Ha1].
  { subst m1. by destruct (tree_is_null _ _). }
  assert (exists t, msp2 = set_ms_tree t m1) as [t ->].
  { destruct (ms_loaded m1).
    - apply ms_tree_vacate_into_Done in Ev as (t & _ & ->). eauto.
    - inversion Ev. exists (ms_tree m1). by rewrite set_ms_tree_id. }
  set (m6 := set_ms_deferspace _ _) in *.
  assert (ms_loaded m6 = ms_loaded m /\ ms_access_txg m6 = ms_access_txg m
          /\ ms_alloctree m6 = ms_alloctree m1) as (Hl6 & Ha6 & Hal6).
  { subst m6. simpl. auto. }
  assert (ms_loaded w.2 = ms_loaded msp7 /\ ms_access_txg w.2 = ms_access_txg msp7)
    as [Hlw Haw].
  { destruct w as [w0 mw]. apply metaslab_weight_Done in Ew as [->| ->]; auto. }
  unfold metaslab_group_sort. simpl. rewrite Hlw, Haw. clear Ew Hlw Haw.
  change (ms_loaded (set_ms_tree t m1)) with (ms_loaded m1) in E7.
  change (ms_access_txg (set_ms_tree t m1)) with (ms_access_txg m1) in E7.
  change (ms_alloctree (set_ms_tree t m1)) with (ms_alloctree m1) in E7.
  rewrite Hl1, Ha1 in E7.
  destruct (ms_loaded m) eqn:El; simpl in E7 |- *.
  - destruct (Z.ltb_spec (ms_access_txg m) txg) as [Hlt|Hge]; simpl in E7 |- *.
    + inv_bind E7 as a1 E71. inv_bind E7 as u1 Eu1. inv_bind E7 as a2 E72.
      inv_bind E7 as u2 Eu2. injection E7 as <-.
      apply tree_at_Done in E71, E72.
      unfold verify in Eu1, Eu2.
      destruct (Z.eqb_spec (range_tree_space a1) 0); [|discriminate].
      destruct (Z.eqb_spec (range_tree_space a2) 0); [|discriminate].
      split; [by destruct (metaslab_debug_unload tun)|].
      split; [destruct (metaslab_debug_unload tun); simpl; [exact Hl6|reflexivity]|].
      intros _ _. exists a1, a2. auto.
    + injection E7 as <-. split; [exact Ha6|]. split; [exact Hl6|]. intros _ ?. lia.
  - injection E7 as <-. split; [exact Ha6|]. split; [exact Hl6|]. discriminate.
Qed.

Lemma range_tree_add_pos rt s n rt' : range_tree_add rt s n = Done rt' -> 0 < n.
Proof.
  unfold range_tree_add. destruct (Z.leb_spec n 0); [discriminate|]. intros _. lia.
Qed.

(** What [alloc_moves] says of the block in terms of the offsets held. *)
Lemma alloc_moves_block shift o n slot i m m' :
  ms_ok shift i m = true -> alloc_moves o n slot i m m' ->
  0 < n /\ ms_start m <= o /\ o + n <= ms_start m + ms_size m
  /\ ms_loaded m' = true /\ sorted (ms_tree m') = true
  /\ lacks (ms_tree m') o (o + n)
  /\ slot_holds (ms_alloctree m') slot o (o + n)
  /\ (forall j, j <> slot -> ms_alloctree m' !! j = ms_alloctree m !! j)
  /\ (ms_loaded m = true ->
      holds (ms_tree m) o (o + n)
      /\ forall x, covers (ms_tree m') x
                   = covers (ms_tree m) x && negb (in_range o (o + n) x)).
Proof.
  intros Hok
    (B1 & B2 & (A & A' & B3 & B4 & B5) & B6 & (T & B7 & B8 & B9) & B10 & B11 & B12).
  apply ms_ok_iff in Hok as (O1 & O2 & O3 & O4 & O5 & O6 & O7).
  assert (HsA : sorted A = true) by (by eapply trees_sorted_lookup).
  pose proof (range_tree_add_spec _ _ _ _ HsA B4) as (Hn & HsA' & HcA' & HdA).
  pose proof (range_tree_remove_spec _ _ _ _ B8 B9) as (_ & Hsb & Hcb & Hinb).
  split; [exact Hn|]. split; [exact B10|]. split; [exact B11|].
  split; [exact B6|]. split; [exact Hsb|]. split.
  { intros x Hx. rewrite Hcb, (proj2 (in_range_true _ _ _) Hx). apply andb_false_r. }
  split.
  { exists A'. split.
    - rewrite B5. apply lookup_lt_Some in B3.
      rewrite list_lookup_insert, decide_True by done. reflexivity.
    - intros x Hx. rewrite HcA', (proj2 (in_range_true _ _ _) Hx). apply orb_true_r. }
  split.
  { intros j Hj. rewrite B5. by rewrite list_lookup_insert_ne. }
  intros Hl. specialize (B7 Hl). subst T. split; [exact Hinb|exact Hcb].
Qed.

Lemma alloc_moves_pos o n slot i m m' : alloc_moves o n slot i m m' -> 0 < n.
Proof.
  intros (_ & _ & (A & A' & _ & B4 & _) & _). by eapply range_tree_add_pos.
Qed.

Lemma filter_valid_none (l : list dva_t) :
  (forall j x, l !! j = Some x -> DVA_IS_VALID x = false) ->
  filter (fun d => DVA_IS_VALID d = true) l = [].
Proof.
  induction l as [|x l IH]; intros H; [reflexivity|].
  rewrite filter_cons. pose proof (H 0%nat x eq_refl) as Hx.
  rewrite decide_False by (rewrite Hx; discriminate).
  apply IH. intros j y Hj. apply (H (S j) y Hj).
Qed.

Lemma dva_taken_new s s1 g i o n slot vd0 gb :
  pool_ok s = true ->
  pool_frame (alloc_at g i o n slot) s s1 ->
  spa_vdevs s !! g = Some vd0 -> is_Some (vdev_ms vd0 !! i) ->
  dva_taken s1 (mk_dva (vdev_id vd0) o n gb).
Proof.
  intros Hok F Hv [m Hm].
  pose proof (proj1 (pool_ok_lookup s) Hok g vd0 Hv) as (O1 & _ & _ & O4).
  destruct F as (_ & _ & _ & F4).
  destruct (F4 g vd0 Hv) as (vd1 & Hv1 & _ & Hms).
  destruct (Hms i m Hm) as (m1 & Hm1 & Ha).
  unfold alloc_at in Ha. rewrite decide_True in Ha by done.
  destruct Ha as
    (B1 & B2 & (A & A' & B3 & B4 & B5) & B6 & (T & B7 & B8 & B9) & B10 & B11 & B12).
  pose proof (range_tree_remove_spec _ _ _ _ B8 B9) as (Hn & _ & Hcb & _).
  exists g, vd1, i, m1. simpl. split; [done|]. split; [done|]. split; [done|].
  split; [done|]. split; [done|]. split; [lia|]. split; [lia|].
  intros x Hx. rewrite Hcb, (proj2 (in_range_true _ _ _) Hx). apply andb_false_r.
Qed.

Lemma dva_taken_step s s1 g i o n slot vd0 gb a :
  pool_ok s = true ->
  pool_frame (alloc_at g i o n slot) s s1 ->
  spa_vdevs s !! g = Some vd0 -> is_Some (vdev_ms vd0 !! i) ->
  dva_taken s a ->
  dva_taken s1 a /\ dva_apart a (mk_dva (vdev_id vd0) o n gb).
Proof.
  intros Hok F Hv [mi Hmi] (v & vd & j & m & Tv & Tid & Tm & Tl & Tn & Tlo & Thi & Tlk).
  pose proof (proj1 (pool_ok_lookup s) Hok g vd0 Hv) as (O1 & O2 & _ & O4).
  destruct F as (_ & _ & _ & F4).
  destruct (F4 g vd0 Hv) as (vd1 & Hv1 & _ & Hms).
  destruct (Hms i mi Hmi) as (mi1 & Hmi1 & Ha).
  unfold alloc_at in Ha. rewrite decide_True in Ha by done.
  destruct Ha as
    (B1 & B2 & (A & A' & B3 & B4 & B5) & B6 & (T & B7 & B8 & B9) & B10 & B11 & B12).
  pose proof (range_tree_remove_spec _ _ _ _ B8 B9) as (Hn & _ & Hcb & Hheld).
  destruct (F4 v vd Tv) as (vd2 & Hv2 & _ & Hms2).
  destruct (Hms2 j m Tm) as (m2 & Hm2 & Hk).
  unfold alloc_at in Hk. unfold dva_apart. simpl.
  destruct (decide (v = g /\ j = i)) as [[-> ->]|Hne].
  - assert (vd = vd0) as -> by congruence. assert (m = mi) as -> by congruence.
    assert (mi1 = m2) as -> by congruence.
    specialize (B7 Tl). subst T. split.
    + exists g, vd2, i, m2. split; [done|]. split; [done|]. split; [done|].
      split; [done|]. split; [done|]. split; [lia|]. split; [lia|].
      intros x Hx. rewrite Hcb, (Tlk x Hx). reflexivity.
    + right.
      destruct (Z_le_gt_dec (dva_offset a + dva_asize a) o) as [|H1]; [by left|].
      destruct (Z_le_gt_dec (o + n) (dva_offset a)) as [|H2]; [by right|].
      exfalso. set (x := Z.max (dva_offset a) o).
      assert (covers (ms_tree mi) x = true) by (apply Hheld; lia).
      assert (covers (ms_tree mi) x = false) by (apply Tlk; lia).
      congruence.
  - destruct Hk as (K1 & K2 & _ & K4 & _). destruct (K4 Tl) as [K5 K6]. split.
    + exists v, vd2, j, m2. split; [done|]. split; [done|]. split; [done|].
      split; [done|]. split; [done|]. split; [lia|]. split; [lia|].
      by rewrite K6.
    + destruct (decide (v = g)) as [->|Hvg]; [|left; lia].
      assert (vd = vd0) as -> by congruence.
      assert (j <> i) as Hji by (intros ->; by apply Hne).
      right.
      pose proof (O4 j m Tm) as Okj. pose proof (O4 i mi Hmi) as Oki.
      apply ms_ok_iff in Okj as (P1 & P2 & _). apply ms_ok_iff in Oki as (Q1 & Q2 & _).
      assert (0 < 2 ^ vdev_ms_shift vd0) by (apply Z.pow_pos_nonneg; lia).
      rewrite P1, P2 in *. rewrite Q1, Q2 in *.
      destruct (Nat.lt_total j i) as [Hlt|[->|Hgt]]; [left|done|right]; nia.
Qed.

Section Copies.

Variable tun : tunables.
Variable asize : vdev -> Z -> Z.
Variable fuel : nat.
Variable mc : nat.
Variable psize txg flags lbolt : Z.
Variable hintdva : option (list dva_t).
Hypothesis Hst : asize_stable asize.

Lemma alloc_copies_apart n : forall s dva d r,
  pool_ok s = true ->
  (forall j a, (j < d)%nat -> dva !! j = Some a -> dva_taken s a) ->
  (forall j k a b, (j < k < d)%nat -> dva !! j = Some a -> dva !! k = Some b ->
     dva_apart a b) ->
  alloc_copies tun asize no_env fuel s mc psize dva d n hintdva txg flags lbolt
  = Done r ->
  r.1.1 = 0 ->
  pool_ok r.2 = true
  /\ (forall j a, (j < d + n)%nat -> r.1.2 !! j = Some a -> dva_taken r.2 a)
  /\ (forall j k a b, (j < k < d + n)%nat ->
        r.1.2 !! j = Some a -> r.1.2 !! k = Some b -> dva_apart a b).
Proof.
  induction n as [|n IH]; intros s dva d r Hok Ht Ha H He; simpl in H.
  { inversion H; subst r. simpl. rewrite Nat.add_0_r. split_and!; assumption. }
  inv_bind H as r1 E1.
  apply metaslab_alloc_dva_effect in E1; [|done|done].
  unfold dva_outcome in E1. rewrite !Nat2Z.id in E1.
  destruct E1 as [(He1 & F & Hd)|(He1 & g & i & o & vd0 & F & Hv & Hi & Hd)].
  - apply Z.eqb_neq in He1 as He1'. rewrite He1' in H. simpl in H.
    inv_bind H as u Eu. inversion H; subst r. simpl in He. done.
  - rewrite He1 in H. simpl in H.
    set (dv := mk_dva _ _ _ _) in Hd.
    assert (pool_ok r1.2 = true) as Hok1.
    { eapply pool_ok_frame; [exact Hok|exact F|]. intros. by eapply alloc_at_ok. }
    apply IH in H; [|exact Hok1| | |exact He].
    + replace (d + S n)%nat with (S d + n)%nat by lia. exact H.
    + intros j a Hj Hl. rewrite Hd in Hl.
      rewrite list_lookup_insert in Hl. case_decide as Hdec.
      * injection Hl as <-. exact (dva_taken_new _ _ _ _ _ _ _ _ _ Hok F Hv Hi).
      * assert (j < d)%nat as Hjd.
        { destruct (decide (j = d)) as [->|]; [|lia].
          exfalso. apply Hdec. split; [done|]. by eapply lookup_lt_Some. }
        exact (proj1 (dva_taken_step _ _ _ _ _ _ _ _ (dva_gang dv) a Hok F Hv Hi
                        (Ht j a Hjd Hl))).
    + intros j k a b Hjk Hl1 Hl2. rewrite Hd in Hl1, Hl2.
      rewrite list_lookup_insert_ne in Hl1 by lia.
      rewrite list_lookup_insert in Hl2. case_decide as Hdec.
      * injection Hl2 as <-.
        exact (proj2 (dva_taken_step _ _ _ _ _ _ _ _ (dva_gang dv) a Hok F Hv Hi
                        (Ht j a ltac:(lia) Hl1))).
      * assert (k < d)%nat as Hkd.
        { destruct (decide (k = d)) as [->|]; [|lia].
          exfalso. apply Hdec. split; [done|]. by eapply lookup_lt_Some. }
        apply (Ha j k); [lia|done|done].
Qed.

End Copies.

Lemma range_tree_add_again rt s n rt' :
  sorted rt = true -> range_tree_add rt s n = Done rt' ->
  range_tree_add rt' s n = Fault FOverlap.
Proof.
  intros Hs H.
  destruct (range_tree_add_spec _ _ _ _ Hs H) as (Hn & Hs' & Hc & _).
  unfold range_tree_add. destruct (Z.leb_spec n 0); [lia|].
  destruct (add_seg rt' s (s + n)) as [rt2|] eqn:E; [|reflexivity].
  exfalso. destruct (sorted_sorted_from _ Hs') as [lo Hlo].
  destruct (add_seg_spec rt' (Z.min lo (s - 1)) s (s + n) rt2) as (_ & _ & Hl);
    [apply Hlo; lia|lia|lia|exact E|].
  specialize (Hl s ltac:(lia)). rewrite Hc in Hl.
  rewrite (proj2 (in_range_true s (s + n) s)) in Hl by lia.
  rewrite orb_true_r in Hl. discriminate.
Qed.

Lemma range_tree_remove_again rt s n rt' :
  sorted rt = true -> range_tree_remove rt s n = Done rt' ->
  range_tree_remove rt' s n = Fault FMissing.
Proof.
  intros Hs H.
  destruct (range_tree_remove_spec _ _ _ _ Hs H) as (Hn & Hs' & Hc & _).
  unfold range_tree_remove. destruct (Z.leb_spec n 0); [lia|].
  destruct (remove_seg rt' s (s + n)) as [rt2|] eqn:E; [|reflexivity].
  exfalso. destruct (sorted_sorted_from _ Hs') as [lo Hlo].
  destruct (remove_seg_spec rt' lo s (s + n) rt2) as (_ & _ & Hl);
    [apply Hlo; lia|lia|exact E|].
  specialize (Hl s ltac:(lia)). rewrite Hc in Hl.
  rewrite (proj2 (in_range_true s (s + n) s)) in Hl by lia.
  rewrite andb_false_r in Hl. discriminate.
Qed.

Lemma lacks_not_contains rt o n :
  lacks rt o (o + n) -> range_tree_contains rt o n = false.
Proof.
  intros Hl. destruct (range_tree_contains rt o n) eqn:E; [|reflexivity].
  pose proof (range_tree_contains_nonempty _ _ _ E) as Hn.
  pose proof (range_tree_contains_covers _ _ _ o E ltac:(lia)) as Hc.
  rewrite (Hl o ltac:(lia)) in Hc. discriminate.
Qed.

Lemma claim_activate_ok shift i s m txg ea m1 :
  ms_ok shift i m = true -> claim_activate s m txg = Done (ea, m1) ->
  ms_ok shift i m1 = true.
Proof.
  intros Hok H. unfold claim_activate in H.
  destruct (_ || _).
  - apply (metaslab_activate_keeps i) in H as ((_ & _ & _ & _ & Hk) & _). by apply Hk.
  - by inversion H; subst.
Qed.

Lemma metaslab_group_alloc_stamped tun fuel :
  forall s g psize asize txg min_distance dva d o s',
  pool_ok s = true ->
  metaslab_group_alloc tun no_env fuel s g psize asize txg min_distance dva d
  = Done (o, s') ->
  o <> U64_MAX ->
  exists i vd,
    spa_vdevs s !! g = Some vd /\ is_Some (vdev_ms vd !! i)
    /\ pool_frame (alloc_stamped g i o asize (txg_slot txg)
                     (u64 (txg + metaslab_unload_delay tun))) s s'.
Proof.
  induction fuel as [|fuel IH]; intros s g psize asize txg min_distance dva d o s'
    Hok H Ho; simpl in H; [done|].
  inv_bind H as vd Eg. apply get_vdev_Done in Eg.
  destruct (group_pick _ _ _ _ _ _) as [| |i wa] eqn:Ep.
  1,2: inversion H; subst; done.
  change (no_env fuel s) with s in H.
  unfold get_vdev in H. rewrite Eg in H. simpl in H.
  inv_bind H as msp Em. apply get_ms_Done in Em.
  inv_bind H as r Er.
  pose proof Hok as Hok'. rewrite pool_ok_lookup in Hok'.
  destruct (Hok' g vd Eg) as (O1 & O2 & O3 & O4). specialize (O4 i msp Em).
  apply (group_alloc_locked_effect _ _ _ i _ _ _ _ _ O4) in Er.
  destruct r as [msp'|off msp'].
  - assert (HF : pool_frame keeps s (set_vdev s g (set_ms vd i msp'))).
    { apply pool_frame_set_ms with (vd := vd) (m := msp);
        first [done | apply vdev_alike_refl | intros; apply keeps_refl]. }
    destruct (IH _ _ _ _ _ _ _ _ _ _ (pool_ok_keeps _ _ Hok HF) H Ho)
      as (i0 & vd0 & Hv0 & Hi0 & F).
    exists i0, vd. split; [done|]. split.
    { simpl in Hv0. rewrite list_lookup_insert, decide_True in Hv0
        by (split; [done|by apply lookup_lt_Some in Eg]).
      inversion Hv0; subst vd0. simpl in Hi0.
      apply lookup_lt_is_Some in Hi0. rewrite length_insert in Hi0.
      by apply lookup_lt_is_Some. }
    eapply pool_frame_trans; [|exact HF|exact F].
    intros v j a b c Hab [Hbc Hst]. split; [by eapply alloc_at_after|exact Hst].
  - destruct Er as (ma & l & t & Eo & K & Hl & Erm & ->).
    inv_bind H as A EA. inv_bind H as A' EA'. inversion H; subst o s'. clear H.
    exists i, vd. split; [done|]. split; [by eexists|].
    simpl in EA. apply tree_at_Done in EA.
    pose proof K as (K1 & K2 & K3 & K4 & K5).
    apply pool_frame_set_at with (vd := vd) (m := msp); try done.
    + case_if; by repeat split.
    + by case_if.
    + split; [|intros _; reflexivity].
      unfold alloc_at. rewrite decide_True by done.
      pose proof (K5 _ O4) as Oa. pose proof (ms_fits _ _ _ Oa) as Fa.
      destruct (tree_fits_remove _ _ _ _ _ _ Fa Erm) as (Ft & Hn & Hlo & Hhi).
      split; [done|]. split; [done|].
      split. { exists A, A'. rewrite <- K3. done. }
      split; [done|].
      split. { exists (ms_tree ma). split; [intros X; by apply K4|].
               split; [apply Fa|done]. }
      split; [lia|]. split; [lia|].
      intros shift Hs. specialize (K5 _ Hs).
      apply ms_ok_iff in K5 as (P1 & P2 & P3 & P4 & P5 & P6 & P7).
      apply ms_ok_iff. simpl. split_and!; try done.
      * apply Ft.
      * apply Ft.
      * unfold set_tree. apply trees_sorted_insert; [done|].
        apply range_tree_add_spec in EA' as (_ & SA' & _); [done|].
        by eapply trees_sorted_lookup.
    + intros v' i' x Hne. split; [|intros X; done].
      unfold alloc_at. rewrite decide_False by done.
      apply alloc_keeps_refl.
Qed.

Lemma group_pick_first vd asize aw md dva t :
  match group_pick vd t asize aw md dva with
  | Pick i wa =>
      exists t1 m t2,
        t = t1 ++ (i, m) :: t2
        /\ asize <= ms_weight m /\ pick_eligible vd aw md dva m = true
        /\ wa = negb (to_int (Z.land (ms_weight m) METASLAB_ACTIVE_MASK) =? 0)
        /\ forall x, In x t1 -> pick_eligible vd aw md dva x.2 = false
  | PickNone => forall x, In x t -> pick_eligible vd aw md dva x.2 = false
  | PickGiveUp =>
      exists t1 x t2,
        t = t1 ++ x :: t2 /\ ms_weight x.2 < asize
        /\ forall y, In y t1 -> pick_eligible vd aw md dva y.2 = false
  end.
Proof.
  induction t as [|[i m] t IH]; simpl; [intros x []|].
  destruct (Z.ltb_spec (ms_weight m) asize) as [Hlt|Hge].
  { exists [], (i, m), t. split; [reflexivity|]. split; [exact Hlt|]. intros y []. }
  assert (Hskip : pick_eligible vd aw md dva m = false ->
    match group_pick vd t asize aw md dva with
    | Pick i0 wa =>
        exists t1 m0 t2,
          (i, m) :: t = t1 ++ (i0, m0) :: t2
          /\ asize <= ms_weight m0 /\ pick_eligible vd aw md dva m0 = true
          /\ wa = negb (to_int (Z.land (ms_weight m0) METASLAB_ACTIVE_MASK) =? 0)
          /\ forall x, In x t1 -> pick_eligible vd aw md dva x.2 = false
    | PickNone => forall x, In x ((i, m) :: t) -> pick_eligible vd aw md dva x.2 = false
    | PickGiveUp =>
        exists t1 x t2,
          (i, m) :: t = t1 ++ x :: t2 /\ ms_weight x.2 < asize
          /\ forall y, In y t1 -> pick_eligible vd aw md dva y.2 = false
    end).
  { intros Hne. destruct (group_pick vd t asize aw md dva) as [| |i0 wa].
    - destruct IH as (t1 & x & t2 & -> & Hx & Hb).
      exists ((i, m) :: t1), x, t2. split; [reflexivity|]. split; [exact Hx|].
      intros y [<-|Hy]; [exact Hne|by apply Hb].
    - intros x [<-|Hx]; [exact Hne|by apply IH].
    - destruct IH as (t1 & m0 & t2 & -> & H1 & H2 & H3 & Hb).
      exists ((i, m) :: t1), m0, t2. split; [reflexivity|]. do 3 (split; [assumption|]).
      intros y [<-|Hy]; [exact Hne|by apply Hb]. }
  destruct (ms_condensing m) eqn:Ec.
  { apply Hskip. unfold pick_eligible. by rewrite Ec. }
  destruct (aw =? METASLAB_WEIGHT_PRIMARY) eqn:Ea.
  { exists [], m, t. split; [reflexivity|]. split; [lia|].
    split; [unfold pick_eligible; by rewrite Ec, Ea|]. split; [reflexivity|].
    intros x []. }
  destruct (forallb _ dva) eqn:Ef.
  { exists [], m, t. split; [reflexivity|]. split; [lia|].
    split; [unfold pick_eligible; by rewrite Ec, Ea, Ef|]. split; [reflexivity|].
    intros x []. }
  apply Hskip. unfold pick_eligible. by rewrite Ec, Ea, Ef.
Qed.

Lemma weight_ordered_app t1 x t2 y :
  weight_ordered (t1 ++ x :: t2) -> In y t2 -> metaslab_compare x.2 y.2 <= 0.
Proof.
  induction t1 as [|z t1 IH]; simpl.
  - intros [H _] Hy. by apply H.
  - intros [_ H] Hy. by apply IH.
Qed.




Lemma contains_elim rt o n :
  range_tree_contains rt o n = true ->
  0 < n /\ exists r, In r rt /\ rs_start r <= o /\ o + n <= rs_end r.
Proof.
  unfold range_tree_contains. rewrite andb_true_iff, existsb_exists.
  intros [Hn (r & Hin & Hr)]. apply Z.ltb_lt in Hn.
  apply andb_true_iff in Hr as [H1 H2]. apply Z.leb_le in H1, H2. eauto.
Qed.










Lemma filter_length_insert {A} (p : A -> bool) (l : list A) : forall i x y,
  l !! i = Some x ->
  Z.of_nat (length (List.filter p (<[i := y]> l)))
  = Z.of_nat (length (List.filter p l)) - Z.b2z (p x) + Z.b2z (p y).
Proof.
  induction l as [|a l IH]; intros i x y H; [discriminate|].
  destruct i as [|i]; simpl in *.
  - injection H as ->. destruct (p x), (p y); simpl; lia.
  - specialize (IH _ _ y H). destruct (p a); simpl; lia.
Qed.

Lemma filter_length_le {A} (p : A -> bool) (l : list A) :
  (length (List.filter p l) <= length l)%nat.
Proof. induction l as [|a l IH]; simpl; [lia|]. destruct (p a); simpl; lia. Qed.

Lemma filter_length_lt {A} (p : A -> bool) (l : list A) i x :
  l !! i = Some x -> p x = false -> (length (List.filter p l) < length l)%nat.
Proof.
  revert i. induction l as [|a l IH]; intros i H Hp; [discriminate|].
  destruct i as [|i]; simpl in *.
  - injection H as ->. rewrite Hp. pose proof (filter_length_le p l). lia.
  - specialize (IH _ H Hp). destruct (p a); simpl; lia.
Qed.

Lemma allocatable_count_set s g vd vd' c :
  spa_vdevs s !! g = Some vd ->
  allocatable_count (set_vdev s g vd') c
  = allocatable_count s c - Z.b2z (counts_for c (vdev_mg vd))
    + Z.b2z (counts_for c (vdev_mg vd')).
Proof.
  intros H. unfold allocatable_count. simpl.
  apply (filter_length_insert (fun vd => counts_for c (vdev_mg vd)) _ _ _ _ H).
Qed.

Lemma allocatable_count_same s g vd vd' c :
  spa_vdevs s !! g = Some vd ->
  mg_class (vdev_mg vd') = mg_class (vdev_mg vd) ->
  mg_allocatable (vdev_mg vd') = mg_allocatable (vdev_mg vd) ->
  allocatable_count (set_vdev s g vd') c = allocatable_count s c.
Proof.
  intros H Hc Ha. rewrite (allocatable_count_set _ _ _ _ _ H).
  unfold counts_for. rewrite Hc, Ha. lia.
Qed.

Lemma alloc_groups_ok_set_class s c mc mc' :
  spa_classes s !! c = Some mc -> mc_alloc_groups mc' = mc_alloc_groups mc ->
  alloc_groups_ok s -> alloc_groups_ok (set_class s c mc').
Proof.
  intros Hc Hg Hok c' m Hm. simpl in Hm.
  change (allocatable_count (set_class s c mc') c') with (allocatable_count s c').
  rewrite list_lookup_insert in Hm. case_decide as Hd.
  - destruct Hd as [<- _]. injection Hm as <-. rewrite Hg. by apply Hok.
  - by apply Hok.
Qed.

Lemma alloc_groups_ok_upd_group s g f s' :
  (forall mg, mg_class (f mg) = mg_class mg /\ mg_allocatable (f mg) = mg_allocatable mg) ->
  upd_group s g f = Done s' -> alloc_groups_ok s -> alloc_groups_ok s'.
Proof.
  intros Hf H Hok. unfold upd_group in H. inv_bind H as vd Ev.
  apply get_vdev_Done in Ev. injection H as <-.
  intros c mc Hc. simpl in Hc.
  rewrite (allocatable_count_same _ _ vd); [by apply Hok|done|apply Hf|apply Hf].
Qed.

Lemma alloc_update_counted tun s g s' :
  Z.of_nat (length (spa_vdevs s)) < U64_MOD ->
  metaslab_group_alloc_update tun s g = Done s' ->
  alloc_groups_ok s ->
  alloc_groups_ok s' /\ length (spa_vdevs s') = length (spa_vdevs s).
Proof.
  intros Hlen H Hok. unfold metaslab_group_alloc_update in H.
  inv_bind H as vd Ev. apply get_vdev_Done in Ev.
  inv_bind H as mc Emc. apply get_class_Done in Emc. simpl in Emc.
  set (mg := vdev_mg vd) in *.
  set (now := u64 (zfs_mg_noalloc_threshold tun) <? _) in H. clearbody now.
  set (mg1 := set_mg_allocatable now _) in H.
  set (s1 := set_vdev s g (set_vdev_mg mg1 vd)) in *.
  set (c0 := mg_class mg) in *.
  assert (Hcnt : forall c, allocatable_count s1 c
            = allocatable_count s c - Z.b2z (counts_for c mg) + Z.b2z (counts_for c mg1)).
  { intros c. unfold s1. by rewrite (allocatable_count_set _ _ vd). }
  assert (Hother : forall c, c <> c0 -> allocatable_count s1 c = allocatable_count s c).
  { intros c Hne. rewrite Hcnt. unfold counts_for.
    change (mg_class mg1) with c0. fold c0.
    destruct (Nat.eqb_spec c0 c); [congruence|]. simpl. lia. }
  assert (Hc0 : allocatable_count s1 c0
            = allocatable_count s c0 - Z.b2z (mg_allocatable mg) + Z.b2z now).
  { rewrite Hcnt. unfold counts_for. change (mg_class mg1) with c0. fold c0.
    rewrite Nat.eqb_refl. reflexivity. }
  assert (Hbound : 0 <= allocatable_count s c0 < U64_MOD
                   /\ (mg_allocatable mg = true -> 1 <= allocatable_count s c0)
                   /\ (mg_allocatable mg = false -> allocatable_count s c0 + 1 < U64_MOD)).
  { unfold allocatable_count.
    pose proof (filter_length_le (fun vd => counts_for c0 (vdev_mg vd)) (spa_vdevs s)).
    split; [lia|]. split.
    - intros Ha.
      pose proof (filter_length_insert (fun vd => counts_for c0 (vdev_mg vd))
                    (spa_vdevs s) g vd vd Ev) as E.
      rewrite list_insert_id in E by done.
      assert (counts_for c0 (vdev_mg vd) = true) as Hc.
      { unfold counts_for. fold mg. fold c0. by rewrite Nat.eqb_refl, Ha. }
      destruct (List.filter _ (spa_vdevs s)) as [|z l] eqn:Ef; simpl; [|lia].
      exfalso.
      assert (In vd (List.filter (fun vd => counts_for c0 (vdev_mg vd)) (spa_vdevs s))).
      { apply filter_In. split; [|exact Hc].
        apply list_elem_of_In. by eapply list_elem_of_lookup_2. }
      rewrite Ef in H1. destruct H1.
    - intros Ha.
      assert (counts_for c0 (vdev_mg vd) = false) as Hc.
      { unfold counts_for. fold mg. by rewrite Ha, andb_false_r. }
      pose proof (filter_length_lt (fun vd => counts_for c0 (vdev_mg vd)) _ _ _ Ev Hc).
      lia. }
  destruct Hbound as (Hb0 & Hb1 & Hb2).
  assert (Hfin : forall k,
            k = allocatable_count s1 c0 ->
            alloc_groups_ok (set_class s1 c0 (set_mc_alloc_groups k mc))).
  { intros k Hk c m Hm. simpl in Hm.
    change (allocatable_count (set_class s1 c0 (set_mc_alloc_groups k mc)) c)
      with (allocatable_count s1 c).
    rewrite list_lookup_insert in Hm. case_decide as Hd.
    - destruct Hd as [<- _]. injection Hm as <-. simpl. exact Hk.
    - destruct (decide (c = c0)) as [->|Hne].
      + exfalso. apply Hd. split; [done|]. by eapply lookup_lt_Some.
      + rewrite Hother by done. by apply Hok. }
  assert (Hmc : mc_alloc_groups mc = allocatable_count s c0) by (by apply Hok).
  split.
  2: { destruct (mg_allocatable mg), now; simpl in H; injection H as <-; simpl;
         by rewrite length_insert. }
  destruct (mg_allocatable mg) eqn:Ea, now eqn:En; simpl in H; injection H as <-.
  - intros c m Hm. simpl in Hm.
    destruct (decide (c = c0)) as [->|Hne].
    + rewrite Hc0. simpl. replace (allocatable_count s c0 - 1 + 1)
        with (allocatable_count s c0) by lia. by apply Hok.
    + rewrite Hother by done. by apply Hok.
  - apply Hfin. rewrite Hc0, Hmc. simpl. specialize (Hb1 eq_refl).
    rewrite u64_small by lia. lia.
  - apply Hfin. rewrite Hc0, Hmc. simpl. specialize (Hb2 eq_refl).
    rewrite u64_small by lia. lia.
  - intros c m Hm. simpl in Hm.
    destruct (decide (c = c0)) as [->|Hne].
    + rewrite Hc0. simpl. replace (allocatable_count s c0 - 0 + 0)
        with (allocatable_count s c0) by lia. by apply Hok.
    + rewrite Hother by done. by apply Hok.
Qed.

Lemma upd_group_counted s g f s' :
  upd_group s g f = Done s' ->
  alloc_groups_ok s ->
  (forall mg, mg_class (f mg) = mg_class mg /\ mg_allocatable (f mg) = mg_allocatable mg) ->
  alloc_groups_ok s' /\ length (spa_vdevs s') = length (spa_vdevs s).
Proof.
  intros H Hok Hf. split; [by eapply alloc_groups_ok_upd_group|].
  unfold upd_group in H. inv_bind H as vd Ev. injection H as <-.
  simpl. apply length_insert.
Qed.

Lemma activate_counted tun s g s' :
  Z.of_nat (length (spa_vdevs s)) < U64_MOD ->
  metaslab_group_activate tun s g = Done s' ->
  alloc_groups_ok s ->
  alloc_groups_ok s' /\ length (spa_vdevs s') = length (spa_vdevs s).
Proof.
  intros Hlen H Hok. unfold metaslab_group_activate in H.
  inv_bind H as mg Emg.
  inv_bind H as s1 E1. apply upd_group_counted in E1 as [Hok1 Hlen1]; [|done|by intros].
  destruct (mg_activation_count mg + 1 <=? 0).
  { injection H as <-. split; assumption. }
  inv_bind H as vd Evd.
  inv_bind H as s2 E2. apply upd_group_counted in E2 as [Hok2 Hlen2]; [|done|by intros].
  inv_bind H as s3 E3.
  apply alloc_update_counted in E3 as [Hok3 Hlen3]; [|lia|done].
  inv_bind H as mc Emc.
  inv_bind H as s4 E4.
  assert (alloc_groups_ok s4 /\ length (spa_vdevs s4) = length (spa_vdevs s3))
    as [Hok4 Hlen4].
  { destruct (mc_rotor mc) as [mgprev|].
    - inv_bind E4 as prev Eprev. inv_bind E4 as mgnext Enext.
      inv_bind E4 as sa Ea.
      apply upd_group_counted in Ea as [Hoka Hlena]; [|done|by intros].
      inv_bind E4 as sb Eb.
      apply upd_group_counted in Eb as [Hokb Hlenb]; [|done|by intros].
      apply upd_group_counted in E4 as [Hokc Hlenc]; [|done|by intros].
      split; [done|lia].
    - by apply upd_group_counted in E4. }
  inv_bind H as mc4 Emc4. apply get_class_Done in Emc4. injection H as <-.
  split; [|simpl; lia].
  by apply (alloc_groups_ok_set_class _ _ mc4).
Qed.

Lemma passivate_counted s g s' :
  metaslab_group_passivate s g = Done s' ->
  alloc_groups_ok s ->
  alloc_groups_ok s' /\ length (spa_vdevs s') = length (spa_vdevs s).
Proof.
  intros H Hok. unfold metaslab_group_passivate in H.
  inv_bind H as mg Emg.
  inv_bind H as s1 E1. apply upd_group_counted in E1 as [Hok1 Hlen1]; [|done|by intros].
  destruct (negb (mg_activation_count mg - 1 =? 0)).
  { injection H as <-. split; assumption. }
  inv_bind H as mc Emc. apply get_class_Done in Emc.
  inv_bind H as s2 E2.
  assert (alloc_groups_ok s2 /\ length (spa_vdevs s2) = length (spa_vdevs s1))
    as [Hok2 Hlen2].
  { destruct (bool_decide _).
    - injection E2 as <-. split; [|reflexivity].
      by apply (alloc_groups_ok_set_class _ _ mc).
    - inv_bind E2 as p Ep.
      assert (alloc_groups_ok (set_class s1 (mg_class mg) (set_mc_rotor (mg_next mg) mc)))
        as Hoka by (by apply (alloc_groups_ok_set_class _ _ mc)).
      inv_bind E2 as sb Eb.
      apply upd_group_counted in Eb as [Hokb Hlenb]; [|done|by intros].
      inv_bind E2 as n En.
      apply upd_group_counted in E2 as [Hokc Hlenc]; [|done|by intros].
      split; [done|]. rewrite Hlenc, Hlenb. reflexivity. }
  apply upd_group_counted in H as [Hok3 Hlen3]; [|done|by intros].
  split; [done|lia].
Qed.

Lemma rotor_calls_counted tun calls : forall s s',
  Z.of_nat (length (spa_vdevs s)) < U64_MOD ->
  rotor_calls tun s calls = Done s' ->
  alloc_groups_ok s ->
  alloc_groups_ok s' /\ length (spa_vdevs s') = length (spa_vdevs s).
Proof.
  induction calls as [|call calls IH]; intros s s' Hlen H Hok; simpl in H.
  { injection H as <-. auto. }
  inv_bind H as s1 E1.
  assert (alloc_groups_ok s1 /\ length (spa_vdevs s1) = length (spa_vdevs s))
    as [Hok1 Hlen1].
  { destruct call as [g|g]; simpl in E1.
    - by eapply activate_counted.
    - by eapply passivate_counted. }
  destruct (IH s1 s') as [Hok2 Hlen2]; [lia|done|done|].
  split; [done|lia].
Qed.

(** ** What [metaslab_sync_done] never touches *)

Lemma metaslab_sync_done_static tun s p txg s' vd m vd' m' :
  metaslab_sync_done tun s p txg = Done s' ->
  spa_vdevs s !! p.1 = Some vd -> vdev_ms vd !! p.2 = Some m ->
  spa_vdevs s' !! p.1 = Some vd' -> vdev_ms vd' !! p.2 = Some m' ->
  ms_id m' = ms_id m /\ ms_start m' = ms_start m /\ ms_size m' = ms_size m
  /\ ms_ops m' = ms_ops m /\ ms_sm m' = space_map_update (ms_sm m)
  /\ ms_lbas m' = ms_lbas m /\ ms_loading m' = ms_loading m.
Proof.
  intros H Hvd Hm Hvd' Hm'.
  unfold metaslab_sync_done in H.
  unfold get_vdev in H. rewrite Hvd in H. simpl in H.
  unfold get_ms in H. rewrite Hm in H. simpl in H.
  inv_bind H as a Ea.
  inv_bind H as freed Ef. inv_bind H as defer Ed.
  inv_bind H as s2 E2. inv_bind H as u Eu. clear Eu u.
  inv_bind H as msp2 Ev. inv_bind H as sw Esw.
  inv_bind H as vd2 Evd2. inv_bind H as msp7 E7. inv_bind H as w Ew.
  injection H as <-.
  apply get_vdev_Done in Evd2. apply lookup_lt_Some in Evd2 as Hl2.
  simpl in Hvd'. rewrite list_lookup_insert, decide_True in Hvd' by done.
  injection Hvd' as <-. simpl in Hm'.
  apply lookup_lt_Some in Hm' as Hli. rewrite length_insert in Hli.
  rewrite list_lookup_insert, decide_True in Hm' by done.
  injection Hm' as <-.
  set (m1 := if tree_is_null (ms_freetree m) (txg_slot (TXG_CLEAN txg))
             then metaslab_create_trees m else m) in *.
  assert (a.1 = m1) as Ha.
  { subst m1. destruct (tree_is_null _ _).
    - inv_bind Ea as s1 E1. by inversion Ea.
    - by inversion Ea. }
  rewrite Ha in *. clear Ea Ha.
  assert (ms_id m1 = ms_id m /\ ms_start m1 = ms_start m /\ ms_size m1 = ms_size m
          /\ ms_ops m1 = ms_ops m /\ ms_sm m1 = ms_sm m /\ ms_lbas m1 = ms_lbas m
          /\ ms_loading m1 = ms_loading m) as (I1 & I2 & I3 & I4 & I5 & I6 & I7).
  { subst m1. by destruct (tree_is_null _ _). }
  assert (exists t, msp2 = set_ms_tree t m1) as [t ->].
  { destruct (ms_loaded m1).
    - apply ms_tree_vacate_into_Done in Ev as (t & _ & ->). eauto.
    - inversion Ev. exists (ms_tree m1). by rewrite set_ms_tree_id. }
  set (m6 := set_ms_deferspace _ _) in *.
  assert (ms_id m6 = ms_id m /\ ms_start m6 = ms_start m /\ ms_size m6 = ms_size m
          /\ ms_ops m6 = ms_ops m /\ ms_sm m6 = space_map_update (ms_sm m)
          /\ ms_lbas m6 = ms_lbas m /\ ms_loading m6 = ms_loading m) as H6.
  { subst m6. simpl. split_and!; congruence. }
  assert (msp7 = m6 \/ msp7 = metaslab_unload m6) as H7.
  { destruct (_ && _); [|injection E7 as <-; by left].
    inv_bind E7 as a1 E71. inv_bind E7 as u1 Eu1. inv_bind E7 as a2 E72.
    inv_bind E7 as u2 Eu2. injection E7 as <-.
    destruct (metaslab_debug_unload tun); simpl; [by left|by right]. }
  assert (ms_id msp7 = ms_id m /\ ms_start msp7 = ms_start m /\ ms_size msp7 = ms_size m
          /\ ms_ops msp7 = ms_ops m /\ ms_sm msp7 = space_map_update (ms_sm m)
          /\ ms_lbas msp7 = ms_lbas m /\ ms_loading msp7 = ms_loading m) as H7'.
  { destruct H7 as [-> | ->]; [exact H6|]. unfold metaslab_unload. simpl. exact H6. }
  destruct w as [w0 mw]. apply metaslab_weight_Done in Ew as [->| ->];
    unfold metaslab_group_sort; simpl; exact H7'.
Qed.

(** ** The two ways through [metaslab_sync] *)

Lemma metaslab_sync_quiet_or_busy tun s p txg s' vd m :
  metaslab_sync tun s p txg = Done s' ->
  spa_vdevs s !! p.1 = Some vd -> vdev_ms vd !! p.2 = Some m ->
  let slot := txg_slot txg in
  let cslot := txg_slot (TXG_CLEAN txg) in
  exists vd' m',
    spa_vdevs s' !! p.1 = Some vd' /\ vdev_ms vd' !! p.2 = Some m'
    /\ spa_sync_pass s' = spa_sync_pass s
    /\ ms_tree m' = ms_tree m /\ ms_defertree m' = ms_defertree m
    /\ ms_loaded m' = ms_loaded m
    /\ ((m' = m
         /\ (tree_is_null (ms_freetree m) slot = true
             \/ exists ft at0, ms_freetree m !! slot = Some (Some ft)
                               /\ range_tree_space ft = 0
                               /\ ms_alloctree m !! slot = Some (Some at0)
                               /\ range_tree_space at0 = 0))
        \/ (ms_alloctree m' = set_tree (ms_alloctree m) slot []
            /\ exists freetree freed,
                 ms_freetree m !! slot = Some (Some freetree)
                 /\ ms_freetree m !! cslot = Some freed
                 /\ if spa_sync_pass s =? 1
                    then ms_freetree m'
                         = <[cslot := Some freetree]> (<[slot := freed]> (ms_freetree m))
                    else exists fd fd', freed = Some fd
                           /\ vacate_into freetree fd = Done fd'
                           /\ ms_freetree m'
                              = set_tree (set_tree (ms_freetree m) slot []) cslot fd')).
Proof.
  intros H Hvd Hm slot cslot.
  unfold metaslab_sync in H.
  unfold get_vdev in H. rewrite Hvd in H. simpl in H.
  unfold get_ms in H. rewrite Hm in H. simpl in H.
  fold slot cslot in H.
  destruct (tree_is_null (ms_freetree m) slot) eqn:En.
  { inversion H; subst s'. exists vd, m. repeat (split; [done|]). left. eauto. }
  inv_bind H as alloctree Ea. inv_bind H as freetree Ef.
  apply tree_at_Done in Ea, Ef.
  destruct (_ && _) eqn:Ez.
  { inversion H; subst s'. exists vd, m. repeat (split; [done|]). left.
    split; [done|]. right. exists freetree, alloctree.
    apply andb_true_iff in Ez as [Ez1 Ez2]. apply Z.eqb_eq in Ez1, Ez2. done. }
  inv_bind H as a Eobj.
  assert (Ha : ms_tree a.1 = ms_tree m /\ ms_alloctree a.1 = ms_alloctree m
               /\ ms_freetree a.1 = ms_freetree m /\ ms_defertree a.1 = ms_defertree m
               /\ ms_loaded a.1 = ms_loaded m
               /\ spa_vdevs a.2 = spa_vdevs s /\ spa_sync_pass a.2 = spa_sync_pass s).
  { destruct (ms_sm m).
    - inversion Eobj. done.
    - inv_bind Eobj as u Eu. inversion Eobj. done. }
  destruct a as [m1 s1]. simpl in *.
  destruct Ha as (At & Aa & Af & Ad & Al & Av & Ap).
  inv_bind H as sm Esm. inv_bind H as condense Ec. inv_bind H as msp2 E2.
  assert (H2 : ms_tree msp2 = ms_tree m /\ ms_alloctree msp2 = ms_alloctree m
               /\ ms_freetree msp2 = ms_freetree m /\ ms_defertree msp2 = ms_defertree m
               /\ ms_loaded msp2 = ms_loaded m).
  { destruct condense.
    - apply metaslab_condense_Done in E2 as (? & ? & ? & ? & ?). split_and!; congruence.
    - inversion E2. simpl. done. }
  destruct H2 as (Bt & Ba & Bf & Bd & Bl). clear E2 Ec.
  inv_bind H as sm3 Esm3. inv_bind H as msp5 E5. inv_bind H as vd1 Evd1.
  apply of_option_Done in Evd1. rewrite Av, Hvd in Evd1. inversion Evd1; subst vd1.
  inversion H; subst s'. clear H Evd1.
  set (vd2 := if negb (_ =? _) then _ else _).
  assert (Hms2 : vdev_ms vd2 = vdev_ms vd) by (subst vd2; case_if; reflexivity).
  exists (set_ms vd2 p.2 msp5), msp5.
  apply lookup_lt_Some in Hvd as Hlv. apply lookup_lt_Some in Hm as Hlm.
  split. { simpl. rewrite list_lookup_insert, decide_True; [done|]. by rewrite Av. }
  split. { simpl. rewrite Hms2, list_lookup_insert, decide_True; done. }
  split; [done|].
  set (m4 := if ms_loaded _ then _ else _) in E5.
  assert (H4 : ms_tree m4 = ms_tree m /\ ms_alloctree m4 = set_tree (ms_alloctree m) slot []
               /\ ms_freetree m4 = ms_freetree m /\ ms_defertree m4 = ms_defertree m
               /\ ms_loaded m4 = ms_loaded m).
  { subst m4. change (ms_loaded (set_ms_alloctree _ msp2)) with (ms_loaded msp2).
    rewrite <- Bl. destruct (ms_loaded msp2) eqn:El; simpl; rewrite ?Ba, ?El; split_and!; done. }
  destruct H4 as (Ct & Ca & Cf & Cd & Cl).
  rewrite Ap in E5. rewrite Cf in E5.
  destruct (spa_sync_pass s =? 1) eqn:Epass.
  - inv_bind E5 as ft Esw. inversion E5; subst msp5. simpl.
    apply swap_within_Done in Esw as (x & y & Ex & Ey & ->).
    rewrite Ef in Ex. inversion Ex; subst x.
    repeat (split; [done|]). right. split; [done|].
    exists freetree, y. done.
  - inv_bind E5 as fd Efd. inv_bind E5 as fd' Ev. inversion E5; subst msp5. simpl.
    apply tree_at_Done in Efd.
    repeat (split; [done|]). right. split; [done|].
    exists freetree, (Some fd). split; [done|]. split; [done|].
    eauto.
Qed.

Lemma sorted_space_zero rt : sorted rt = true -> range_tree_space rt = 0 -> rt = [].
Proof.
  intros Hs Hz. destruct rt as [|r rt]; [reflexivity|exfalso].
  destruct (sorted_sorted_from _ Hs) as [lo Hlo].
  pose proof (sorted_space_pos (r :: rt) lo (Hlo lo ltac:(lia)) ltac:(discriminate)). lia.
Qed.

Lemma txg_slot_clean txg :
  0 <= txg < U64_MOD -> txg_slot (TXG_CLEAN txg) <> txg_slot txg.
Proof.
  intros Ht. unfold txg_slot, TXG_CLEAN, u64, U64_MOD.
  change TXG_MASK with (Z.ones 2). rewrite !Z.land_ones by lia.
  change (2 ^ 64) with (2 ^ 2 * 2 ^ 62).
  rewrite Z.rem_mul_r by lia.
  rewrite Z.mul_comm, Z_mod_plus_full, Z.mod_mod by lia.
  pose proof (Z.mod_pos_bound txg (2 ^ 2) ltac:(lia)).
  pose proof (Z.mod_pos_bound (txg - 1) (2 ^ 2) ltac:(lia)).
  intros E. apply Z2Nat.inj in E; [|lia|lia].
  pose proof (Z.div_mod txg (2 ^ 2) ltac:(lia)).
  pose proof (Z.div_mod (txg - 1) (2 ^ 2) ltac:(lia)).
  lia.
Qed.

Lemma vacate_into_nil src : sorted src = true -> vacate_into src [] = Done src \/ exists f, vacate_into src [] = Fault f.
Proof.
  intros Hs. destruct (vacate_into src []) as [dst|f] eqn:E; [left|right; eauto].
  f_equal. destruct (vacate_into_spec src [] dst eq_refl E) as (Hd & Hc & _).
  apply sorted_ext; [done|done|]. intros x. by rewrite Hc.
Qed.

(** ** Frees only grow the free trees *)

Lemma holds_contains rt o n :
  sorted rt = true -> 0 < n -> holds rt o (o + n) -> range_tree_contains rt o n = true.
Proof.
  intros Hs Hn Hh. destruct (sorted_sorted_from _ Hs) as [lo Hlo].
  destruct (remove_seg_total rt lo o (o + n) (Hlo lo ltac:(lia)) ltac:(lia) Hh)
    as [rt' E].
  pose proof (remove_seg_contains rt o (o + n) rt' ltac:(lia) E) as C.
  by replace (o + n - o) with n in C by lia.
Qed.

Lemma tree_grows_refl t : tree_grows t t.
Proof. by intros Hs. Qed.

Lemma tree_grows_trans a b c : tree_grows a b -> tree_grows b c -> tree_grows a c.
Proof.
  intros H1 H2 Hs. destruct (H1 Hs) as [Hb Hab]. destruct (H2 Hb) as [Hc Hbc]. auto.
Qed.

Lemma tree_grows_add t o n t' :
  range_tree_add t o n = Done t' -> tree_grows t t'.
Proof.
  intros H Hs. destruct (range_tree_add_spec _ _ _ _ Hs H) as (_ & Hs' & Hc & _).
  split; [done|]. intros x Hx. rewrite Hc, Hx. done.
Qed.

Lemma slot_grows_trans a b c : slot_grows a b -> slot_grows b c -> slot_grows a c.
Proof.
  intros [->|(t & t' & -> & -> & H1)] [->|(u & u' & E & -> & H2)].
  - by left.
  - right. eauto.
  - right. exists t, t'. done.
  - injection E as <-. right. exists t, u'. split; [done|]. split; [done|].
    by eapply tree_grows_trans.
Qed.

Lemma free_grows_refl v i m : free_grows v i m m.
Proof. split; [done|]. split; [apply tree_grows_refl|]. intros j. by left. Qed.

Lemma free_grows_trans v i a b c :
  free_grows v i a b -> free_grows v i b c -> free_grows v i a c.
Proof.
  intros (A1 & A2 & A3) (B1 & B2 & B3). split; [congruence|].
  split; [by eapply tree_grows_trans|]. intros j. by eapply slot_grows_trans.
Qed.

Lemma vdev_dirty_alike vd ms txg : vdev_alike vd (vdev_dirty vd ms txg).
Proof. by repeat split. Qed.

Lemma metaslab_free_dva_grows asize s dv txg now s' :
  metaslab_free_dva asize s dv txg now = Done s' -> pool_frame free_grows s s'.
Proof.
  intros H. unfold metaslab_free_dva in H.
  assert (Hrefl : pool_frame free_grows s s).
  { apply pool_frame_refl. intros. apply free_grows_refl. }
  destruct (spa_freeze_txg s <? txg); [by inversion H; subst|].
  destruct (vdev_lookup_top s (dva_vdev dv)) as [[v vd]|] eqn:L;
    [|by inversion H; subst].
  destruct (vdev_ms_count vd <=? _); [by inversion H; subst|].
  apply vdev_lookup_top_Some in L as (_ & _ & Hv).
  inv_bind H as m Em. apply of_option_Done in Em.
  destruct now.
  - inv_bind H as A EA. inv_bind H as A' EA'.
    inv_bind H as u0 U0. inv_bind H as u1 U1. inv_bind H as u2 U2.
    inv_bind H as u3 U3. inv_bind H as u4 U4. inv_bind H as u5 U5.
    inv_bind H as m2 Eadd. apply ms_tree_add_Done in Eadd as (t & Eadd & -> & _).
    inversion H; subst s'. clear H.
    apply pool_frame_set_ms with (vd := vd) (m := m);
      [done|done|apply vdev_alike_refl|done| |intros; apply free_grows_refl].
    split; [done|]. split; [|intros j; by left].
    simpl in Eadd. simpl. by eapply tree_grows_add.
  - inv_bind H as F EF. apply tree_at_Done in EF. inv_bind H as F' EF'.
    inversion H; subst s'. clear H.
    apply pool_frame_set_ms with (vd := vd) (m := m);
      [done|done| |by destruct (_ =? _)| |intros; apply free_grows_refl].
    { destruct (_ =? _); [apply vdev_dirty_alike|apply vdev_alike_refl]. }
    split; [done|]. split; [apply tree_grows_refl|]. intros j. simpl.
    unfold set_tree. rewrite list_lookup_insert. case_decide as Hd; [|by left].
    destruct Hd as [<- _]. right. exists F, F'. split; [done|]. split; [done|].
    by eapply tree_grows_add.
Qed.

Lemma free_ready_frame s s' dv :
  pool_frame free_grows s s' -> free_ready s dv -> free_ready s' dv.
Proof.
  intros HF (v & vd & i & m & Ht & Hs & Hfs).
  destruct (dva_target_frame _ _ _ _ _ _ _ _ HF Ht) as (vd' & m' & Ht' & _ & G1 & G2 & G3).
  exists v, vd', i, m'. split; [done|]. split; [by apply G2|].
  intros j t' E'. destruct (G3 j) as [E|(t & u & E1 & E2 & G)].
  - rewrite E in E'. eauto.
  - rewrite E2 in E'. injection E' as <-. apply G. eauto.
Qed.

Lemma freed_block_frame s s' dv now slot :
  pool_frame free_grows s s' -> freed_block s dv now slot -> freed_block s' dv now slot.
Proof.
  intros HF (v & vd & i & m & Ht & Hn & Hb).
  destruct (dva_target_frame _ _ _ _ _ _ _ _ HF Ht) as (vd' & m' & Ht' & _ & G1 & G2 & G3).
  exists v, vd', i, m'. split; [done|]. split; [done|].
  destruct now.
  - destruct Hb as (Hl & Hs & Hh). destruct (G2 Hs) as [Hs' Hc].
    split; [congruence|]. split; [done|]. intros x Hx. apply Hc, Hh, Hx.
  - destruct Hb as (t & E & Hs & Hh). destruct (G3 slot) as [E'|(t0 & u & E1 & E2 & G)].
    + exists t. rewrite E'. done.
    + rewrite E in E1. injection E1 as <-. destruct (G Hs) as [Hs' Hc].
      exists u. split; [done|]. split; [done|]. intros x Hx. apply Hc, Hh, Hx.
Qed.

Lemma metaslab_free_dva_freed asize s dv txg now s' :
  metaslab_free_dva asize s dv txg now = Done s' ->
  txg <= spa_freeze_txg s -> dva_gang dv = false ->
  free_ready s dv ->
  (now = true -> exists v vd i m, dva_target s dv = Some (v, vd, i, m)
                                  /\ ms_loaded m = true) ->
  freed_block s' dv now (txg_slot txg).
Proof.
  intros H Hfz Hg (v & vd & i & m & Ht & Hs & Hfs) Hld.
  pose proof Ht as Ht0.
  apply dva_target_Some in Ht as (L & Hc & Hi & Hm).
  unfold metaslab_free_dva in H. rewrite txg_not_frozen in H by done.
  rewrite L, Hc in H. rewrite <- Hi in H. unfold get_ms in H. rewrite Hm in H.
  simpl in H. rewrite Hg in H.
  apply vdev_lookup_top_Some in L as (Hid & Hvid & Hv).
  apply lookup_lt_Some in Hv as Hlv. apply lookup_lt_Some in Hm as Hlm.
  assert (Htgt : forall vd1 m1, vdev_alike vd vd1 -> vdev_ms vd1 = vdev_ms vd ->
            dva_target (set_vdev s v (set_ms vd1 i m1)) dv = Some (v, set_ms vd1 i m1, i, m1)).
  { intros vd1 m1 (A1 & A2 & A3 & _) Hms. unfold dva_target, vdev_lookup_top.
    destruct (Z.ltb_spec (dva_vdev dv) 0); [lia|]. rewrite <- Hvid. simpl.
    rewrite list_lookup_insert, decide_True by done.
    simpl. rewrite A2, A3, Hc, <- Hi, Hms.
    by rewrite list_lookup_insert, decide_True. }
  destruct now.
  - inv_bind H as A EA. inv_bind H as A' EA'.
    inv_bind H as u0 U0. inv_bind H as u1 U1. inv_bind H as u2 U2.
    inv_bind H as u3 U3. inv_bind H as u4 U4. inv_bind H as u5 U5.
    inv_bind H as m2 Eadd. apply ms_tree_add_Done in Eadd as (t & Eadd & -> & _).
    inversion H; subst s'. clear H. simpl in Eadd.
    destruct (range_tree_add_spec _ _ _ _ Hs Eadd) as (Hn & Hs' & Hcov & _).
    eexists v, _, i, _. split; [apply Htgt; [apply vdev_alike_refl|done]|].
    split; [done|]. simpl.
    destruct (Hld eq_refl) as (v0 & vd0 & i0 & m0 & Ht1 & Hl1).
    rewrite Ht0 in Ht1. inversion Ht1; subst m0.
    split; [done|]. split; [done|]. intros x Hx. rewrite Hcov.
    rewrite (proj2 (in_range_true _ _ x)) by lia. apply orb_true_r.
  - inv_bind H as F EF. apply tree_at_Done in EF. inv_bind H as F' EF'.
    inversion H; subst s'. clear H.
    destruct (range_tree_add_spec _ _ _ _ (Hfs _ _ EF) EF') as (Hn & Hs' & Hcov & _).
    eexists v, _, i, _. split.
    { apply Htgt; [|by destruct (_ =? _)].
      destruct (_ =? _); [apply vdev_dirty_alike|apply vdev_alike_refl]. }
    split; [done|]. simpl. exists F'. split.
    { unfold set_tree. apply lookup_lt_Some in EF.
      by rewrite list_lookup_insert, decide_True. }
    split; [done|]. intros x Hx. rewrite Hcov.
    rewrite (proj2 (in_range_true _ _ x)) by lia. apply orb_true_r.
Qed.

Lemma free_copies_grows asize txg now l : forall s s',
  free_copies asize s l txg now = Done s' -> pool_frame free_grows s s'.
Proof.
  induction l as [|d l IH]; intros s s' H; simpl in H.
  - inversion H; subst. apply pool_frame_refl. intros. apply free_grows_refl.
  - inv_bind H as s1 E1. apply metaslab_free_dva_grows in E1. apply IH in H.
    eapply pool_frame_trans; [|exact E1|exact H].
    intros. by eapply free_grows_trans.
Qed.

Lemma free_copies_freed asize txg now dv l : forall s s',
  free_copies asize s l txg now = Done s' ->
  txg <= spa_freeze_txg s -> dva_gang dv = false -> In dv l ->
  free_ready s dv ->
  (now = true -> exists v vd i m, dva_target s dv = Some (v, vd, i, m)
                                  /\ ms_loaded m = true) ->
  freed_block s' dv now (txg_slot txg).
Proof.
  induction l as [|d l IH]; intros s s' H Hfz Hg Hin Hr Hld; [done|].
  simpl in H. inv_bind H as s1 E1.
  destruct Hin as [->|Hin].
  - eapply freed_block_frame; [by eapply free_copies_grows|].
    by eapply metaslab_free_dva_freed.
  - pose proof (metaslab_free_dva_grows _ _ _ _ _ _ E1) as HF.
    apply (IH s1 s' H); [|done|done|by eapply free_ready_frame|].
    + destruct HF as (_ & -> & _). done.
    + intros Hn. destruct (Hld Hn) as (v & vd & i & m & Ht & Hl).
      destruct (dva_target_frame _ _ _ _ _ _ _ _ HF Ht) as (vd' & m' & Ht' & _ & G1 & _).
      exists v, vd', i, m'. split; [done|congruence].
Qed.

Lemma verify_slots_fault arr js j t o n :
  In j js -> arr !! j = Some (Some t) -> range_tree_contains t o n = true ->
  exists f, verify_slots arr js o n = Fault f.
Proof.
  intros Hin E C. induction js as [|k js IH]; [done|]. simpl.
  destruct (tree_at arr k) as [rt|f] eqn:Ek; [|eauto]. simpl.
  unfold range_tree_verify at 1.
  destruct (range_tree_contains rt o n) eqn:Ec; [eauto|]. simpl.
  destruct Hin as [->|Hin]; [|auto].
  apply tree_at_Done in Ek. rewrite E in Ek. injection Ek as <-. congruence.
Qed.

Lemma check_copies_fault s dv now slot l :
  (slot < Z.to_nat TXG_SIZE)%nat -> In dv l -> freed_block s dv now slot ->
  exists f, check_copies s l = Fault f.
Proof.
  intros Hslot Hin (v & vd & i & m & Ht & Hn & Hb).
  apply dva_target_Some in Ht as (L & Hc & Hi & Hm).
  destruct (check_copies s l) as [u|f] eqn:E; [exfalso|eauto].
  induction l as [|d l IH]; [done|]. cbn [check_copies] in E.
  destruct (vdev_lookup_top s (dva_vdev d)) as [[v0 vd0]|] eqn:L0; [|done].
  inv_bind E as m0 Em0. inv_bind E as u1 E1. inv_bind E as u2 E2.
  inv_bind E as u3 E3.
  destruct Hin as [->|Hin]; [|by apply IH].
  rewrite L in L0. inversion L0; subst v0 vd0. rewrite <- Hi in Em0.
  unfold get_ms in Em0. rewrite Hm in Em0. injection Em0 as <-.
  destruct now.
  - destruct Hb as (Hl & Hs & Hh). rewrite Hl in E1. unfold range_tree_verify in E1.
    by rewrite (holds_contains _ _ _ Hs Hn Hh) in E1.
  - destruct Hb as (t & Et & Hs & Hh).
    destruct (verify_slots_fault (ms_freetree m) (seq 0 (Z.to_nat TXG_SIZE)) slot t
                (dva_offset dv) (dva_asize dv)) as [f Ef];
      [apply in_seq; lia|done|by apply holds_contains|congruence].
Qed.

(** ** Replaying a condensed space map *)

Lemma sm_replay_app a b mt rt :
  sm_replay (a ++ b) mt rt = (rt' ← sm_replay a mt rt; sm_replay b mt rt').
Proof.
  revert rt. induction a as [|r a IH]; intros rt; [done|]. simpl.
  destruct (match smr_type r, mt with
            | SM_ALLOC, SM_ALLOC | SM_FREE, SM_FREE =>
                range_tree_add rt (smr_offset r) (smr_size r)
            | _, _ => range_tree_remove rt (smr_offset r) (smr_size r)
            end) as [rt1|f]; simpl; [apply IH|done].
Qed.

Lemma sm_replay_alloc src : forall rt,
  sm_replay (map (fun r => mk_sm_record SM_ALLOC (rs_start r) (rs_size r)) src) SM_FREE rt
  = walk_remove src rt.
Proof.
  induction src as [|r src IH]; intros rt; [done|]. simpl.
  destruct (range_tree_remove rt (rs_start r) (rs_size r)); simpl; [apply IH|done].
Qed.

Lemma sm_replay_free src : forall rt,
  sm_replay (map (fun r => mk_sm_record SM_FREE (rs_start r) (rs_size r)) src) SM_FREE rt
  = vacate_into src rt.
Proof.
  induction src as [|r src IH]; intros rt; [done|]. simpl.
  destruct (range_tree_add rt (rs_start r) (rs_size r)); simpl; [apply IH|done].
Qed.

Lemma walk_remove_within src : forall dst dst',
  sorted dst = true -> walk_remove src dst = Done dst' ->
  forall x, covers src x = true -> covers dst x = true.
Proof.
  induction src as [|r src IH]; intros dst dst' Hs H x Hx; [done|].
  simpl in H. inv_bind H as d1 E.
  apply range_tree_remove_spec in E as (Hn & Hs1 & Hc & Hd); [|done].
  rewrite covers_cons in Hx. apply orb_true_iff in Hx as [Hx|Hx].
  - apply in_range_true in Hx. apply Hd. unfold rs_size. lia.
  - pose proof (IH d1 dst' Hs1 H x Hx) as C. rewrite Hc in C.
    by apply andb_true_iff in C as [C _].
Qed.

Lemma walk_remove_space src : forall dst dst',
  walk_remove src dst = Done dst' ->
  range_tree_space dst' = range_tree_space dst - range_tree_space src.
Proof.
  induction src as [|r src IH]; intros dst dst' H; simpl in H.
  - injection H as <-. simpl. lia.
  - inv_bind H as d1 E. apply range_tree_remove_space in E. apply IH in H.
    simpl. lia.
Qed.

Lemma vacate_into_space src : forall dst dst',
  vacate_into src dst = Done dst' ->
  range_tree_space dst' = range_tree_space dst + range_tree_space src.
Proof.
  induction src as [|r src IH]; intros dst dst' H; simpl in H.
  - injection H as <-. simpl. lia.
  - inv_bind H as d1 E. apply range_tree_add_space in E. apply IH in H.
    simpl. lia.
Qed.

Lemma walk_remove_total src : forall lo dst,
  sorted_from lo src = true -> sorted dst = true ->
  (forall x, covers src x = true -> covers dst x = true) ->
  exists dst', walk_remove src dst = Done dst'.
Proof.
  induction src as [|r src IH]; intros lo dst Hs Hd Hc; simpl; [eauto|].
  apply sorted_from_cons in Hs as (H1 & H2 & Hs).
  destruct (sorted_sorted_from _ Hd) as [l0 Hl0].
  destruct (remove_seg_total dst l0 (rs_start r) (rs_end r) (Hl0 l0 ltac:(lia)) H2)
    as [d1 E1].
  { intros x Hx. apply Hc. rewrite covers_cons.
    rewrite (proj2 (in_range_true _ _ x)) by lia. done. }
  assert (E : range_tree_remove dst (rs_start r) (rs_size r) = Done d1).
  { unfold range_tree_remove, rs_size. destruct (Z.leb_spec (rs_end r - rs_start r) 0); [lia|].
    replace (rs_start r + (rs_end r - rs_start r)) with (rs_end r) by lia.
    by rewrite E1. }
  rewrite E. simpl.
  apply range_tree_remove_spec in E as (_ & Hs1 & Hc1 & _); [|done].
  apply (IH (rs_end r) d1 Hs Hs1). intros x Hx. rewrite Hc1.
  pose proof (covers_above _ _ _ Hs Hx) as Hgt.
  rewrite Hc by (rewrite covers_cons, Hx; apply orb_true_r).
  rewrite (proj2 (in_range_false _ _ x)); [done|]. unfold rs_size. lia.
Qed.

Lemma vacate_into_total src : forall lo dst,
  sorted_from lo src = true -> sorted dst = true ->
  (forall x, covers src x = true -> covers dst x = false) ->
  exists dst', vacate_into src dst = Done dst'.
Proof.
  induction src as [|r src IH]; intros lo dst Hs Hd Hc; simpl; [eauto|].
  apply sorted_from_cons in Hs as (H1 & H2 & Hs).
  destruct (sorted_sorted_from _ Hd) as [l0 Hl0].
  destruct (add_seg_total dst l0 (rs_start r) (rs_end r) (Hl0 l0 ltac:(lia)) H2)
    as [d1 E1].
  { intros x Hx. apply Hc. rewrite covers_cons.
    rewrite (proj2 (in_range_true _ _ x)) by lia. done. }
  assert (E : range_tree_add dst (rs_start r) (rs_size r) = Done d1).
  { unfold range_tree_add, rs_size. destruct (Z.leb_spec (rs_end r - rs_start r) 0); [lia|].
    replace (rs_start r + (rs_end r - rs_start r)) with (rs_end r) by lia.
    by rewrite E1. }
  rewrite E. simpl.
  apply range_tree_add_spec in E as (_ & Hs1 & Hc1 & _); [|done].
  apply (IH (rs_end r) d1 Hs Hs1). intros x Hx. rewrite Hc1.
  pose proof (covers_above _ _ _ Hs Hx) as Hgt.
  rewrite Hc by (rewrite covers_cons, Hx; apply orb_true_r).
  rewrite (proj2 (in_range_false _ _ x)); [done|]. unfold rs_size. lia.
Qed.

(** ** Allocation keeps the frees in flight *)

Lemma frees_same_refl v i m : frees_same v i m m.
Proof. by split. Qed.

Lemma frees_same_trans v i a b c :
  frees_same v i a b -> frees_same v i b c -> frees_same v i a c.
Proof. intros [A1 A2] [B1 B2]. split; congruence. Qed.

Lemma pool_frame_frees_refl s : pool_frame frees_same s s.
Proof. apply pool_frame_refl. intros; apply frees_same_refl. Qed.

Lemma pool_frame_frees_trans s1 s2 s3 :
  pool_frame frees_same s1 s2 -> pool_frame frees_same s2 s3 ->
  pool_frame frees_same s1 s3.
Proof.
  intros A B. eapply pool_frame_trans; [|exact A|exact B].
  intros; by eapply frees_same_trans.
Qed.

Lemma group_alloc_locked_frees tun vd m asize aw wa r :
  group_alloc_locked tun vd m asize aw wa = Done r ->
  match r with
  | Retry m' => frees_same 0 0 m m'
  | Allocated _ m' => frees_same 0 0 m m'
  end.
Proof.
  intros H. unfold group_alloc_locked in H.
  case_hyp H; [by inversion H|].
  case_hyp H; [by inversion H|].
  inv_bind H as a Ea. destruct a as [e ma].
  apply metaslab_activate_effect in Ea as ((_ & _ & _ & _ & _ & K1 & K2 & _) & _).
  simpl in H.
  case_hyp H; [by inversion H|].
  case_hyp H; [by inversion H|].
  inv_bind H as b Eb. destruct b as [o mb].
  apply metaslab_block_alloc_effect in Eb as [l Eb]. simpl in H.
  destruct (o =? U64_MAX) eqn:Eo; simpl in H; inversion H; subst; clear H.
  - done.
  - destruct Eb as (t & Erm & ->). done.
Qed.

Lemma metaslab_group_alloc_frees tun fuel :
  forall s g psize asize txg min_distance dva d o s',
  metaslab_group_alloc tun no_env fuel s g psize asize txg min_distance dva d
  = Done (o, s') ->
  pool_frame frees_same s s'.
Proof.
  induction fuel as [|fuel IH]; intros s g psize asize txg min_distance dva d o s' H;
    simpl in H; [done|].
  inv_bind H as vd Eg. apply get_vdev_Done in Eg.
  destruct (group_pick _ _ _ _ _ _) as [| |i wa] eqn:Ep.
  1,2: inversion H; subst; apply pool_frame_frees_refl.
  change (no_env fuel s) with s in H.
  unfold get_vdev in H. rewrite Eg in H. simpl in H.
  inv_bind H as msp Em. apply get_ms_Done in Em.
  inv_bind H as r Er. apply group_alloc_locked_frees in Er.
  destruct r as [msp'|off msp'].
  - apply IH in H. eapply pool_frame_frees_trans; [|exact H].
    apply pool_frame_set_ms with (vd := vd) (m := msp);
      first [done | apply vdev_alike_refl | intros; apply frees_same_refl].
  - inv_bind H as A EA. inv_bind H as A' EA'. inversion H; subst o s'. clear H.
    apply pool_frame_set_ms with (vd := vd) (m := msp); try done.
    + case_if; by repeat split.
    + by case_if.
Qed.

Lemma alloc_dva_walk_frees tun asize fuel :
  forall s mc psize dva d txg flags mg rotor dshift zio_lock all_zero r,
  alloc_dva_walk tun asize no_env fuel s mc psize dva d txg flags mg rotor dshift
    zio_lock all_zero = Done r ->
  pool_frame frees_same s r.2.
Proof.
  induction fuel as [|fuel IH];
    intros s mc psize dva d txg flags mg rotor dshift zio_lock all_zero r H;
    [done|].
  cbn [alloc_dva_walk] in H.
  inv_bind H as g Emg. inv_bind H as vd Eg. apply get_vdev_Done in Eg.
  inv_bind H as alc Ealc.
  assert (Hnext : forall s1 az,
    pool_frame frees_same s s1 ->
    (get_group s1 g
     ≫= λ mgr : metaslab_group,
          get_class s1 mc
          ≫= λ mcr : metaslab_class,
               if negb (bool_decide (mg_next mgr = rotor))
               then
                alloc_dva_walk tun asize no_env fuel
                  (set_class s1 mc (set_mc_aliquot 0 (set_mc_rotor (mg_next mgr) mcr)))
                  mc psize dva d txg flags (mg_next mgr) rotor dshift zio_lock az
               else
                if negb az
                then
                 alloc_dva_walk tun asize no_env fuel
                   (set_class s1 mc (set_mc_aliquot 0 (set_mc_rotor (mg_next mgr) mcr)))
                   mc psize dva d txg flags (mg_next mgr) rotor (dshift + 1) zio_lock
                   true
                else
                 if negb alc && negb zio_lock
                 then
                  alloc_dva_walk tun asize no_env fuel
                    (set_class s1 mc
                       (set_mc_aliquot 0 (set_mc_rotor (mg_next mgr) mcr)))
                    mc psize dva d txg flags (mg_next mgr) rotor 3 true true
                 else
                  Done
                    (ENOSPC, <[Z.to_nat d:=dva_zero]> dva,
                     set_class s1 mc
                       (set_mc_aliquot 0 (set_mc_rotor (mg_next mgr) mcr))))
    = Done r ->
    pool_frame frees_same s r.2).
  { intros s1 az F1 H1. inv_bind H1 as mgr Emgr. inv_bind H1 as mcr Emcr.
    set (s2 := set_class s1 mc _) in H1.
    assert (F2 : pool_frame frees_same s s2).
    { eapply pool_frame_frees_trans; [exact F1|].
      apply pool_frame_same; first [done | intros; apply frees_same_refl]. }
    repeat case_hyp H1;
      try (eapply pool_frame_frees_trans; [exact F2|]; by eapply IH).
    inversion H1; subst r. exact F2. }
  destruct alc.
  2: { apply (Hnext s all_zero); [|exact H]. apply pool_frame_frees_refl. }
  change (negb true) with false in H. cbv iota in H.
  case_hyp H.
  { apply (Hnext s false); [|exact H]. apply pool_frame_frees_refl. }
  inv_bind H as r0 Er0. destruct r0 as [o s1].
  apply metaslab_group_alloc_frees in Er0. simpl in H.
  destruct (o =? U64_MAX) eqn:Eo; simpl in H.
  { eapply (Hnext s1); [exact Er0|exact H]. }
  inv_bind H as vd1 Evd1. apply get_vdev_Done in Evd1.
  inv_bind H as mc1 Emc1. inversion H; subst r; clear H. simpl.
  eapply pool_frame_frees_trans; [exact Er0|].
  match goal with
  | |- pool_frame _ _ (set_class ?x _ _) =>
      apply pool_frame_frees_trans with (s2 := x)
  end.
  - apply pool_frame_set_vdev with (vd := vd1);
      first [done | intros; apply frees_same_refl].
  - apply pool_frame_same; first [done | intros; apply frees_same_refl].
Qed.

Lemma metaslab_alloc_dva_frees tun asize fuel s mc psize dva d hintdva txg flags lbolt r :
  metaslab_alloc_dva tun asize no_env fuel s mc psize dva d hintdva txg flags lbolt
  = Done r ->
  pool_frame frees_same s r.2.
Proof.
  intros H. unfold metaslab_alloc_dva in H.
  case_hyp H; [inversion H; subst r; apply pool_frame_frees_refl|].
  inv_bind H as mcr Emcr. inv_bind H as mg0 Emg0. inv_bind H as g0 Eg0.
  inv_bind H as mgr Emgr. by eapply alloc_dva_walk_frees.
Qed.

Lemma metaslab_free_dva_now_frees asize s dv txg s' :
  metaslab_free_dva asize s dv txg true = Done s' -> pool_frame frees_same s s'.
Proof.
  intros H. unfold metaslab_free_dva in H.
  destruct (spa_freeze_txg s <? txg); [inversion H; subst; apply pool_frame_frees_refl|].
  destruct (vdev_lookup_top s (dva_vdev dv)) as [[v vd]|] eqn:L;
    [|inversion H; subst; apply pool_frame_frees_refl].
  destruct (vdev_ms_count vd <=? _); [inversion H; subst; apply pool_frame_frees_refl|].
  apply vdev_lookup_top_Some in L as (_ & _ & Hv).
  inv_bind H as m Em. apply of_option_Done in Em.
  inv_bind H as A EA. inv_bind H as A' EA'.
  inv_bind H as u0 U0. inv_bind H as u1 U1. inv_bind H as u2 U2.
  inv_bind H as u3 U3. inv_bind H as u4 U4. inv_bind H as u5 U5.
  inv_bind H as m2 Eadd. apply ms_tree_add_Done in Eadd as (t & Eadd & -> & _).
  inversion H; subst s'. clear H.
  apply pool_frame_set_ms with (vd := vd) (m := m);
    [done|done|apply vdev_alike_refl|done| |intros; apply frees_same_refl].
  done.
Qed.

Lemma alloc_unwind_frees asize d : forall s dva txg r,
  alloc_unwind asize s dva d txg = Done r -> pool_frame frees_same s r.2.
Proof.
  induction d as [|d IH]; intros s dva txg r H; simpl in H.
  - inversion H; subst. apply pool_frame_frees_refl.
  - inv_bind H as dv Edv. inv_bind H as s1 E1.
    apply metaslab_free_dva_now_frees in E1. apply IH in H.
    by eapply pool_frame_frees_trans.
Qed.

Lemma alloc_copies_frees tun asize fuel mc psize hintdva txg flags lbolt n :
  forall s dva d r,
  alloc_copies tun asize no_env fuel s mc psize dva d n hintdva txg flags lbolt = Done r ->
  pool_frame frees_same s r.2.
Proof.
  induction n as [|n IH]; intros s dva d r H; simpl in H.
  { inversion H; subst. apply pool_frame_frees_refl. }
  inv_bind H as r1 E1. apply metaslab_alloc_dva_frees in E1.
  case_hyp H.
  - inv_bind H as u Eu. inversion H; subst r. simpl.
    apply alloc_unwind_frees in Eu. by eapply pool_frame_frees_trans.
  - apply IH in H. by eapply pool_frame_frees_trans.
Qed.

Lemma metaslab_alloc_frees tun asize fuel s mc psize bp ndvas txg hintbp flags lbolt r :
  metaslab_alloc tun asize no_env fuel s mc psize bp ndvas txg hintbp flags lbolt = Done r ->
  pool_frame frees_same s r.2.
Proof.
  intros H. unfold metaslab_alloc in H. inv_bind H as mcr Emcr.
  destruct (mc_rotor mcr); [|inversion H; subst; apply pool_frame_frees_refl].
  inv_bind H as r1 E1. apply alloc_copies_frees in E1.
  case_hyp H; inversion H; subst r; exact E1.
Qed.

Lemma pool_frame_and (R1 R2 : nat -> nat -> metaslab -> metaslab -> Prop) s s' :
  pool_frame R1 s s' -> pool_frame R2 s s' ->
  pool_frame (fun v i m m' => R1 v i m m' /\ R2 v i m m') s s'.
Proof.
  intros (A1 & A2 & A3 & A4) (_ & _ & _ & B4). split; [done|]. split; [done|].
  split; [done|]. intros v vd Hv.
  destruct (A4 v vd Hv) as (vd1 & Hv1 & Hal & Hm1).
  destruct (B4 v vd Hv) as (vd2 & Hv2 & _ & Hm2).
  assert (vd2 = vd1) as -> by congruence.
  exists vd1. split; [done|]. split; [done|]. intros i m Hm.
  destruct (Hm1 i m Hm) as (m1 & E1 & R1m). destruct (Hm2 i m Hm) as (m2 & E2 & R2m).
  assert (m2 = m1) as -> by congruence. eauto.
Qed.

Lemma frees_apart_step v0 i0 o n slot v i m m' :
  alloc_at_frees v0 i0 o n slot v i m m' -> sorted (ms_tree m) = true ->
  frees_apart m -> frees_apart m'.
Proof.
  intros [Ha [F1 F2]] Hs (E1 & E2 & Hd). unfold frees_apart. rewrite F1, F2.
  split; [done|]. split; [done|]. intros t Ht. specialize (Hd t Ht).
  unfold alloc_at in Ha. case_decide.
  - destruct Ha as (_ & _ & _ & B6 & (T & B7 & B8 & B9) & _). rewrite B6.
    pose proof (range_tree_remove_spec _ _ _ _ B8 B9) as (_ & _ & Hcb & _).
    intros x Hx. rewrite Hcb. destruct (ms_loaded m) eqn:El.
    + rewrite (B7 eq_refl), (Hd x Hx). done.
    + subst t. done.
  - destruct Ha as (_ & _ & _ & K4 & _). destruct (ms_loaded m) eqn:El.
    + destruct (K4 eq_refl) as [-> ->]. exact Hd.
    + subst t. by destruct (ms_loaded m').
Qed.

Lemma pool_frees_apart_step v0 i0 o n slot s s' :
  pool_ok s = true ->
  pool_frame (alloc_at_frees v0 i0 o n slot) s s' ->
  pool_frees_apart s -> pool_frees_apart s'.
Proof.
  intros Hok F Hinv v vd' i m' Hv' Hm'.
  destruct (pool_frame_lookup_back _ _ _ _ _ F Hv') as (vd & Hv & Hal).
  destruct F as (_ & _ & _ & F4).
  destruct (F4 v vd Hv) as (vd1 & Hv1 & _ & Hms).
  assert (vd1 = vd') as -> by congruence.
  assert (is_Some (vdev_ms vd !! i)) as [m Hm].
  { apply lookup_lt_is_Some. destruct Hal as (_ & _ & _ & _ & _ & <-).
    by eapply lookup_lt_Some. }
  destruct (Hms i m Hm) as (m1 & Hm1 & Ha).
  assert (m1 = m') as -> by congruence.
  pose proof (proj1 (pool_ok_lookup s) Hok v vd Hv) as (_ & _ & _ & O4).
  specialize (O4 i m Hm). apply ms_ok_iff in O4 as (_ & _ & Hs & _).
  eapply frees_apart_step; eauto.
Qed.


Lemma frees_lack_frame s s' a :
  pool_frame frees_same s s' -> frees_lack s a -> frees_lack s' a.
Proof.
  intros F (v & vd & m & L & Hm & E1 & E2 & Hl).
  destruct (vdev_lookup_top_frame _ _ _ _ _ _ F L) as (vd' & L' & _ & Hal & Hms).
  destruct (Hms _ _ Hm) as (m' & Hm' & F1 & F2).
  exists v, vd', m'. split; [done|].
  destruct Hal as (_ & -> & _). split; [done|]. rewrite F1, F2. done.
Qed.

Lemma frees_lack_new s s1 g i o n slot vd0 gb :
  pool_ok s = true -> pool_frees_apart s ->
  pool_frame (alloc_at_frees g i o n slot) s s1 ->
  spa_vdevs s !! g = Some vd0 -> is_Some (vdev_ms vd0 !! i) ->
  frees_lack s1 (mk_dva (vdev_id vd0) o n gb).
Proof.
  intros Hok Hinv F Hv [m Hm].
  pose proof (proj1 (pool_ok_lookup s) Hok g vd0 Hv) as (O1 & O2 & _ & O4).
  specialize (O4 i m Hm). apply ms_ok_iff in O4 as (P1 & P2 & _).
  destruct (Hinv g vd0 i m Hv Hm) as (E1 & E2 & Hd).
  destruct F as (_ & _ & _ & F4).
  destruct (F4 g vd0 Hv) as (vd1 & Hv1 & Hal & Hms).
  destruct (Hms i m Hm) as (m1 & Hm1 & Ha & F1 & F2).
  unfold alloc_at in Ha. rewrite decide_True in Ha by done.
  pose proof (alloc_moves_pos _ _ _ _ _ _ Ha) as Hn.
  destruct Ha as
    (B1 & B2 & (A & A' & B3 & B4 & B5) & B6 & (T & B7 & B8 & B9) & B10 & B11 & B12).
  pose proof (range_tree_remove_spec _ _ _ _ B8 B9) as (_ & _ & _ & Hheld).
  destruct Hal as (A1 & A2 & _).
  exists g, vd1, m1. simpl. split.
  { unfold vdev_lookup_top. rewrite O1.
    destruct (Z.ltb_spec (Z.of_nat g) 0); [lia|]. by rewrite Nat2Z.id, Hv1. }
  rewrite A2, (shiftr_index o n i (vdev_ms_shift vd0)), Nat2Z.id by lia.
  split; [done|]. rewrite F1, F2. split; [done|]. split; [done|].
  intros t Ht x Hx. specialize (Hd t Ht). destruct (ms_loaded m) eqn:El.
  - destruct (covers t x) eqn:Ec; [|done].
    pose proof (Hd x Ec) as X. rewrite <- (B7 eq_refl), (Hheld x Hx) in X. done.
  - by subst t.
Qed.

Section Clear.

Variable tun : tunables.
Variable asize : vdev -> Z -> Z.
Variable fuel : nat.
Variable mc : nat.
Variable psize txg flags lbolt : Z.
Variable hintdva : option (list dva_t).
Hypothesis Hst : asize_stable asize.

Lemma alloc_copies_clear n : forall s dva d r,
  pool_ok s = true -> pool_frees_apart s ->
  (forall j a, (j < d)%nat -> dva !! j = Some a -> frees_lack s a) ->
  alloc_copies tun asize no_env fuel s mc psize dva d n hintdva txg flags lbolt
  = Done r ->
  r.1.1 = 0 ->
  (forall j a, (j < d + n)%nat -> r.1.2 !! j = Some a -> frees_lack r.2 a)
  /\ (forall j, (d + n <= j)%nat -> r.1.2 !! j = dva !! j).
Proof.
  induction n as [|n IH]; intros s dva d r Hok Hinv Ht H He; simpl in H.
  { inversion H; subst r. simpl. rewrite Nat.add_0_r. split; [assumption|done]. }
  inv_bind H as r1 E1.
  pose proof (metaslab_alloc_dva_frees _ _ _ _ _ _ _ _ _ _ _ _ _ E1) as Fs.
  apply metaslab_alloc_dva_effect in E1; [|done|done].
  unfold dva_outcome in E1. rewrite !Nat2Z.id in E1.
  destruct E1 as [(He1 & F & Hd)|(He1 & g & i & o & vd0 & F & Hv & Hi & Hd)].
  - apply Z.eqb_neq in He1 as He1'. rewrite He1' in H. simpl in H.
    inv_bind H as u Eu. inversion H; subst r. simpl in He. done.
  - rewrite He1 in H. simpl in H.
    set (dv := mk_dva _ _ _ _) in Hd.
    assert (pool_ok r1.2 = true) as Hok1.
    { eapply pool_ok_frame; [exact Hok|exact F|]. intros. by eapply alloc_at_ok. }
    assert (FF : pool_frame (alloc_at_frees g i o (asize vd0 psize) (txg_slot txg))
                   s r1.2) by exact (pool_frame_and _ _ _ _ F Fs).
    apply IH in H;
      [|exact Hok1|exact (pool_frees_apart_step _ _ _ _ _ _ _ Hok FF Hinv)| |exact He].
    + replace (d + S n)%nat with (S d + n)%nat by lia. destruct H as [H1 H2].
      split; [exact H1|]. intros j Hj. rewrite (H2 j Hj), Hd.
      apply list_lookup_insert_ne. lia.
    + intros j a Hj Hl. rewrite Hd in Hl.
      rewrite list_lookup_insert in Hl. case_decide as Hdec.
      * injection Hl as <-. exact (frees_lack_new _ _ _ _ _ _ _ _ _ Hok Hinv FF Hv Hi).
      * assert (j < d)%nat as Hjd.
        { destruct (decide (j = d)) as [->|]; [|lia].
          exfalso. apply Hdec. split; [done|]. by eapply lookup_lt_Some. }
        eapply frees_lack_frame; [exact Fs|]. by eapply Ht.
Qed.

End Clear.

Lemma verify_slots_pass arr n o sz :
  trees_exist n arr = true ->
  (forall t, In (Some t) arr -> lacks t o (o + sz)) ->
  forall js, (forall j, In j js -> (j < n)%nat) -> verify_slots arr js o sz = Done tt.
Proof.
  intros He Hl js. induction js as [|j js IH]; intros Hjs; [done|]. simpl.
  destruct (trees_exist_lookup _ _ _ He (Hjs j ltac:(by left))) as [t Et].
  rewrite (proj2 (tree_at_Done _ _ _) Et). simpl.
  unfold range_tree_verify at 1. rewrite lacks_not_contains.
  - simpl. apply IH. intros k Hk. apply Hjs. by right.
  - apply Hl. apply list_elem_of_In. by eapply list_elem_of_lookup_2.
Qed.

Lemma Done_bind {A B} (a : A) (k : A -> outcome B) : (Done a ≫= k) = k a.
Proof. reflexivity. Qed.

Lemma check_copies_pass s l :
  pool_ok s = true ->
  (forall a, In a l -> dva_taken s a /\ frees_lack s a) ->
  check_copies s l = Done tt.
Proof.
  intros Hok. induction l as [|a l IH]; intros H; [done|].
  destruct (H a ltac:(by left)) as
    [(v & vd & i & m & Tv & Tid & Tm & Tl & Tn & Tlo & Thi & Tlk)
     (v' & vd' & m' & L & Hm' & E1 & E2 & Hl)].
  cbn [check_copies]. rewrite L.
  apply vdev_lookup_top_Some in L as (_ & Hv' & Hvd').
  assert (v' = v) as -> by (rewrite Hv', Tid; apply Nat2Z.id).
  assert (vd' = vd) as -> by congruence.
  pose proof (proj1 (pool_ok_lookup s) Hok v vd Tv) as (_ & O2 & _ & O4).
  specialize (O4 i m Tm). apply ms_ok_iff in O4 as (P1 & P2 & _).
  rewrite (shiftr_index (dva_offset a) (dva_asize a) i (vdev_ms_shift vd)), Nat2Z.id
    in Hm' by lia.
  assert (m' = m) as -> by congruence.
  rewrite (shiftr_index (dva_offset a) (dva_asize a) i (vdev_ms_shift vd)), Nat2Z.id
    by lia.
  unfold get_ms. rewrite Tm. cbn [of_option]. rewrite Done_bind. cbv beta.
  rewrite Tl.
  assert (V0 : range_tree_verify (ms_tree m) (dva_offset a) (dva_asize a) = Done tt).
  { unfold range_tree_verify. by rewrite (lacks_not_contains _ _ _ Tlk). }
  rewrite V0, Done_bind. cbv beta.
  rewrite (verify_slots_pass _ _ _ _ E1), Done_bind.
  2: { intros t Ht. apply Hl, in_or_app. by left. }
  2: { intros j Hj. apply in_seq in Hj. lia. }
  cbv beta. rewrite (verify_slots_pass _ _ _ _ E2), Done_bind.
  2: { intros t Ht. apply Hl, in_or_app. by right. }
  2: { intros j Hj. apply in_seq in Hj. lia. }
  cbv beta. apply IH. intros b Hb. apply H. by right.
Qed.

Lemma filter_valid_prefix (l : list dva_t) : forall k,
  (forall j x, (k <= j)%nat -> l !! j = Some x -> DVA_IS_VALID x = false) ->
  (length (filter (fun d => DVA_IS_VALID d = true) l) <= k)%nat.
Proof.
  induction l as [|a l IH]; intros k H; [simpl; lia|].
  destruct k as [|k].
  - rewrite filter_valid_none; [simpl; lia|]. intros j x. apply H. lia.
  - rewrite filter_cons. specialize (IH k).
    assert (length (filter (fun d => DVA_IS_VALID d = true) l) <= k)%nat.
    { apply IH. intros j x Hj Hx. apply (H (S j) x); [lia|done]. }
    destruct (decide (DVA_IS_VALID a = true)); simpl; lia.
Qed.

(** ** Allocation rotates the ring *)

Lemma rings_kept_refl s : rings_kept s s.
Proof.
  split; [done|]. split; [|split; [done|]].
  - intros g mg mg' H1 H2. rewrite H1 in H2. by injection H2 as <-.
  - intros c l Hl. exists l. done.
Qed.

Lemma rings_kept_trans s1 s2 s3 :
  rings_kept s1 s2 -> rings_kept s2 s3 -> rings_kept s1 s3.
Proof.
  intros (A1 & A2 & A3 & A4) (B1 & B2 & B3 & B4).
  split; [intros g; by rewrite B1|]. split; [|split].
  - intros g mg mg3 H1 H3.
    pose proof (A1 g) as C. rewrite H1 in C.
    destruct (mg_of s2 g) as [mg2|] eqn:H2; [|done].
    destruct (A2 g mg mg2 H1 H2) as (? & ? & ?).
    destruct (B2 g mg2 mg3 H2 H3) as (? & ? & ?). split_and!; congruence.
  - intros c. by rewrite B3.
  - intros c l Hl. destruct (A4 c l Hl) as (l2 & H2 & E2).
    destruct (B4 c l2 H2) as (l3 & H3 & E3). exists l3. split; [done|].
    intros g. by rewrite E3.
Qed.

Lemma rings_kept_frame s s' :
  (forall g, mg_class <$> mg_of s' g = mg_class <$> mg_of s g) ->
  (forall g mg mg', mg_of s g = Some mg -> mg_of s' g = Some mg' ->
     mg_activation_count mg' = mg_activation_count mg
     /\ mg_next mg' = mg_next mg /\ mg_prev mg' = mg_prev mg) ->
  (forall c, is_Some (spa_classes s' !! c) <-> is_Some (spa_classes s !! c)) ->
  (forall c, rotor_at s' c = rotor_at s c) ->
  rings_kept s s'.
Proof.
  intros H1 H2 H3 H4. split; [done|]. split; [done|]. split; [done|].
  intros c l Hl. exists l. split; [|done].
  apply (ring_of_frame s s' c l); [done|done| |done].
  intros g mg mg' Hmg Hmg' _. destruct (H2 g mg mg' Hmg Hmg') as (? & ? & ?).
  split; [by left|done].
Qed.

Lemma rings_kept_same s s' :
  spa_classes s' = spa_classes s -> (forall g, mg_of s' g = mg_of s g) ->
  rings_kept s s'.
Proof.
  intros Hc Hg. apply rings_kept_frame.
  - intros g. by rewrite Hg.
  - intros g mg mg' H1 H2. rewrite Hg, H1 in H2. by injection H2 as <-.
  - intros c. by rewrite Hc.
  - intros c. unfold rotor_at. by rewrite Hc.
Qed.

Lemma rings_kept_inv s s' : rotor_inv s -> rings_kept s s' -> rotor_inv s'.
Proof.
  intros [I1 I2] (A1 & A2 & A3 & A4). split.
  - intros g mg' Hmg'. destruct (class_of_view _ _ _ _ A1 Hmg') as (mg & Hmg & Hc).
    rewrite <- Hc. apply A3. by eapply I1.
  - intros c Hc. apply A3 in Hc. destruct (I2 c Hc) as [l Hl].
    destruct (A4 c l Hl) as (l' & Hl' & _). eauto.
Qed.

Lemma on_ring_kept s s' c g : rings_kept s s' -> on_ring s c g -> on_ring s' c g.
Proof.
  intros (_ & _ & _ & A4) (l & Hl & Hg). destruct (A4 c l Hl) as (l' & Hl' & E).
  exists l'. split; [done|]. by apply E.
Qed.

Lemma ring_of_unique s c l1 l2 : ring_of s c l1 -> ring_of s c l2 -> l1 = l2.
Proof. intros H1 H2. by rewrite <- (class_ring_of _ _ _ H1), <- (class_ring_of _ _ _ H2). Qed.

Lemma chain_head_next s g t :
  chain s g t g -> exists n, nxt s g = Some n /\ n ∈ g :: t.
Proof.
  destruct t as [|b t]; simpl.
  - intros [H _]. exists g. split; [done|set_solver].
  - intros (H & _). exists b. split; [done|set_solver].
Qed.

Lemma on_ring_next s c g mgr :
  on_ring s c g -> mg_of s g = Some mgr ->
  exists n, mg_next mgr = Some n /\ on_ring s c n.
Proof.
  intros (l & Hl & Hg) Hmg. pose proof Hl as (Hnd & _ & _ & _ & Hch).
  destruct (ring_rotate s l g Hnd Hch Hg) as (t & Hnd' & Hch' & Ht).
  destruct (chain_head_next _ _ _ Hch') as (n & Hn & Hin).
  rewrite (mg_of_nxt _ _ _ Hmg) in Hn. exists n. split; [done|].
  exists l. split; [done|].
  apply elem_of_cons in Hin as [->|Hin]; [done|]. by apply Ht in Hin as [? _].
Qed.

Lemma rings_kept_rotate s mc mcr g mgr a :
  spa_classes s !! mc = Some mcr -> on_ring s mc g -> mg_of s g = Some mgr ->
  rings_kept s (set_class s mc (set_mc_aliquot a (set_mc_rotor (mg_next mgr) mcr))).
Proof.
  intros Hmc Hon Hmg. set (s' := set_class s mc _).
  assert (Hgs : forall g', mg_of s' g' = mg_of s g') by done.
  apply lookup_lt_Some in Hmc as Hlt.
  split; [intros g'; by rewrite Hgs|]. split; [|split].
  - intros g' mg mg' H1 H2. rewrite Hgs, H1 in H2. by injection H2 as <-.
  - intros c. unfold s'. simpl. rewrite !lookup_lt_is_Some, length_insert. done.
  - intros c l0 Hl0. destruct (decide (c = mc)) as [->|Hne].
    + destruct (on_ring_next _ _ _ _ Hon Hmg) as (n & Hn & l & Hl & Hin).
      assert (l0 = l) as -> by (by eapply ring_of_unique).
      pose proof Hl as (Hnd & Hrot & Hmem & Hout & Hch).
      destruct (ring_rotate s l n Hnd Hch Hin) as (t & Hnd' & Hch' & Ht).
      exists (n :: t). split.
      * split; [done|]. split.
        { unfold s'. rewrite rotor_at_set_class, decide_True by done. simpl.
          by rewrite Hn. }
        split; [|split].
        -- intros g' Hg'. rewrite Hgs. apply Hmem.
           apply elem_of_cons in Hg' as [->|Hg']; [done|]. by apply Ht in Hg' as [? _].
        -- intros g' mg' Hmg' Hc Hni. rewrite Hgs in Hmg'.
           apply (Hout g' mg' Hmg' Hc). intros Hin'. apply Hni.
           destruct (decide (g' = n)) as [->|Hd]; [set_solver|].
           apply elem_of_cons. right. by apply Ht.
        -- eapply chain_frame; [| |exact Hch']; intros; reflexivity.
      * intros g'. rewrite elem_of_cons, Ht.
        destruct (decide (g' = n)) as [->|Hd]; [tauto|tauto].
    + exists l0. split; [|done].
      apply (ring_of_frame s s' c l0); [intros; by rewrite Hgs| | |done].
      * unfold s'. rewrite rotor_at_set_class, decide_False; [done|]. intros [? _]. done.
      * intros g' mg mg' H1 H2 _. rewrite Hgs, H1 in H2. injection H2 as <-.
        split; [by left|done].
Qed.

Lemma rings_kept_set_class s mc mcr mcr' :
  spa_classes s !! mc = Some mcr -> mc_rotor mcr' = mc_rotor mcr ->
  rings_kept s (set_class s mc mcr').
Proof.
  intros Hmc Hr. apply lookup_lt_Some in Hmc as Hlt. apply rings_kept_frame.
  - done.
  - intros g mg mg' H1 H2. change (mg_of (set_class s mc mcr') g) with (mg_of s g) in H2.
    rewrite H1 in H2. by injection H2 as <-.
  - intros c. simpl. rewrite !lookup_lt_is_Some, length_insert. done.
  - intros c. rewrite rotor_at_set_class. case_decide as Hd; [|done].
    destruct Hd as [<- _]. unfold rotor_at. rewrite Hmc. simpl. by rewrite Hr.
Qed.

Lemma rings_kept_set_vdev s g vd vd' :
  spa_vdevs s !! g = Some vd ->
  mg_class (vdev_mg vd') = mg_class (vdev_mg vd) ->
  mg_activation_count (vdev_mg vd') = mg_activation_count (vdev_mg vd) ->
  mg_next (vdev_mg vd') = mg_next (vdev_mg vd) ->
  mg_prev (vdev_mg vd') = mg_prev (vdev_mg vd) ->
  rings_kept s (set_vdev s g vd').
Proof.
  intros Hv C1 C2 C3 C4. apply lookup_lt_Some in Hv as Hlt.
  assert (Hmg : mg_of s g = Some (vdev_mg vd)) by (unfold mg_of; by rewrite Hv).
  apply rings_kept_frame.
  - intros g'. rewrite mg_of_set_vdev. case_decide as Hd; [|done].
    destruct Hd as [<- _]. rewrite Hmg. simpl. by rewrite C1.
  - intros g' mg mg' H1 H2. rewrite mg_of_set_vdev in H2. case_decide as Hd.
    + destruct Hd as [<- _]. rewrite Hmg in H1. injection H1 as <-.
      injection H2 as <-. done.
    + rewrite H1 in H2. by injection H2 as <-.
  - done.
  - done.
Qed.

Lemma group_alloc_groups tun fuel :
  forall s g psize asize txg min_distance dva d o s',
  metaslab_group_alloc tun no_env fuel s g psize asize txg min_distance dva d
  = Done (o, s') ->
  spa_classes s' = spa_classes s /\ forall g', mg_of s' g' = mg_of s g'.
Proof.
  induction fuel as [|fuel IH]; intros s g psize asize txg min_distance dva d o s' H;
    simpl in H; [done|].
  inv_bind H as vd Eg. apply get_vdev_Done in Eg.
  destruct (group_pick _ _ _ _ _ _) as [| |i wa] eqn:Ep.
  1,2: by inversion H; subst.
  change (no_env fuel s) with s in H.
  unfold get_vdev in H. rewrite Eg in H. simpl in H.
  inv_bind H as msp Em. inv_bind H as r Er.
  assert (Hset : forall vd1 i1 m1, vdev_mg vd1 = vdev_mg vd ->
            forall g', mg_of (set_vdev s g (set_ms vd1 i1 m1)) g' = mg_of s g').
  { intros vd1 i1 m1 Hvm g'. rewrite mg_of_set_vdev. case_decide as Hd; [|done].
    destruct Hd as [<- _]. unfold mg_of. rewrite Eg. simpl. by rewrite Hvm. }
  destruct r as [msp'|off msp'].
  - apply IH in H as [H1 H2]. split; [done|]. intros g'. rewrite H2. by apply Hset.
  - inv_bind H as A EA. inv_bind H as A' EA'. inversion H; subst o s'. clear H.
    split; [done|]. apply Hset. by case_if.
Qed.

Lemma free_dva_groups asize s dv txg now s' :
  metaslab_free_dva asize s dv txg now = Done s' ->
  spa_classes s' = spa_classes s /\ forall g', mg_of s' g' = mg_of s g'.
Proof.
  intros H. unfold metaslab_free_dva in H.
  destruct (spa_freeze_txg s <? txg); [by inversion H; subst|].
  destruct (vdev_lookup_top s (dva_vdev dv)) as [[v vd]|] eqn:L;
    [|by inversion H; subst].
  destruct (vdev_ms_count vd <=? _); [by inversion H; subst|].
  apply vdev_lookup_top_Some in L as (_ & _ & Hv).
  assert (Hset : forall vd1 i1 m1, vdev_mg vd1 = vdev_mg vd ->
            forall g', mg_of (set_vdev s v (set_ms vd1 i1 m1)) g' = mg_of s g').
  { intros vd1 i1 m1 Hvm g'. rewrite mg_of_set_vdev. case_decide as Hd; [|done].
    destruct Hd as [<- _]. unfold mg_of. rewrite Hv. simpl. by rewrite Hvm. }
  inv_bind H as m Em.
  destruct now.
  - inv_bind H as A EA. inv_bind H as A' EA'.
    inv_bind H as u0 U0. inv_bind H as u1 U1. inv_bind H as u2 U2.
    inv_bind H as u3 U3. inv_bind H as u4 U4. inv_bind H as u5 U5.
    inv_bind H as m2 Eadd. inversion H; subst s'. split; [done|]. by apply Hset.
  - inv_bind H as F EF. inv_bind H as F' EF'. inversion H; subst s'.
    split; [done|]. apply Hset. by case_if.
Qed.

Lemma alloc_dva_walk_rings tun asize fuel :
  forall s mc psize dva d txg flags mg rotor dshift zio_lock all_zero r,
  rotor_inv s -> (forall g, mg = Some g -> on_ring s mc g) ->
  alloc_dva_walk tun asize no_env fuel s mc psize dva d txg flags mg rotor dshift
    zio_lock all_zero = Done r ->
  rings_kept s r.2.
Proof.
  induction fuel as [|fuel IH];
    intros s mc psize dva d txg flags mg rotor dshift zio_lock all_zero r Hinv Hon H;
    [done|].
  cbn [alloc_dva_walk] in H.
  inv_bind H as g Emg. apply of_option_Done in Emg. subst mg.
  specialize (Hon g eq_refl).
  inv_bind H as vd Eg. apply get_vdev_Done in Eg.
  inv_bind H as alc Ealc.
  assert (Hnext : forall s1 az,
    rings_kept s s1 ->
    (get_group s1 g
     ≫= λ mgr : metaslab_group,
          get_class s1 mc
          ≫= λ mcr : metaslab_class,
               if negb (bool_decide (mg_next mgr = rotor))
               then
                alloc_dva_walk tun asize no_env fuel
                  (set_class s1 mc (set_mc_aliquot 0 (set_mc_rotor (mg_next mgr) mcr)))
                  mc psize dva d txg flags (mg_next mgr) rotor dshift zio_lock az
               else
                if negb az
                then
                 alloc_dva_walk tun asize no_env fuel
                   (set_class s1 mc (set_mc_aliquot 0 (set_mc_rotor (mg_next mgr) mcr)))
                   mc psize dva d txg flags (mg_next mgr) rotor (dshift + 1) zio_lock
                   true
                else
                 if negb alc && negb zio_lock
                 then
                  alloc_dva_walk tun asize no_env fuel
                    (set_class s1 mc
                       (set_mc_aliquot 0 (set_mc_rotor (mg_next mgr) mcr)))
                    mc psize dva d txg flags (mg_next mgr) rotor 3 true true
                 else
                  Done
                    (ENOSPC, <[Z.to_nat d:=dva_zero]> dva,
                     set_class s1 mc
                       (set_mc_aliquot 0 (set_mc_rotor (mg_next mgr) mcr))))
    = Done r ->
    rings_kept s r.2).
  { intros s1 az F1 H1. inv_bind H1 as mgr Emgr. apply get_group_Done in Emgr.
    inv_bind H1 as mcr Emcr. apply get_class_Done in Emcr.
    set (s2 := set_class s1 mc _) in H1.
    pose proof (on_ring_kept _ _ _ _ F1 Hon) as Hon1.
    assert (F12 : rings_kept s1 s2).
    { unfold s2. exact (rings_kept_rotate s1 mc mcr g mgr 0 Emcr Hon1 Emgr). }
    assert (F2 : rings_kept s s2) by (by eapply rings_kept_trans).
    pose proof (rings_kept_inv _ _ Hinv F2) as Hinv2.
    assert (Hon2 : forall g', mg_next mgr = Some g' -> on_ring s2 mc g').
    { intros g' Hg'. destruct (on_ring_next _ _ _ _ Hon1 Emgr) as (n & Hn & Honn).
      rewrite Hn in Hg'. injection Hg' as <-. exact (on_ring_kept _ _ _ _ F12 Honn). }
    repeat case_hyp H1;
      try (eapply rings_kept_trans; [exact F2|]; by eapply IH).
    inversion H1; subst r. exact F2. }
  destruct alc.
  2: { apply (Hnext s all_zero); [|exact H]. apply rings_kept_refl. }
  change (negb true) with false in H. cbv iota in H.
  case_hyp H.
  { apply (Hnext s false); [|exact H]. apply rings_kept_refl. }
  inv_bind H as r0 Er0. destruct r0 as [o s1].
  apply group_alloc_groups in Er0 as [Hc1 Hg1]. simpl in H.
  assert (F1 : rings_kept s s1) by (by apply rings_kept_same).
  destruct (o =? U64_MAX) eqn:Eo; simpl in H.
  { eapply (Hnext s1); [exact F1|exact H]. }
  inv_bind H as vd1 Evd1. apply get_vdev_Done in Evd1.
  inv_bind H as mc1 Emc1. apply get_class_Done in Emc1.
  inversion H; subst r; clear H. simpl.
  eapply rings_kept_trans; [exact F1|].
  set (mg1 := if mc_aliquot mc1 =? 0 then _ else _).
  assert (Hmg1 : mg_class mg1 = mg_class (vdev_mg vd1)
                 /\ mg_activation_count mg1 = mg_activation_count (vdev_mg vd1)
                 /\ mg_next mg1 = mg_next (vdev_mg vd1)
                 /\ mg_prev mg1 = mg_prev (vdev_mg vd1)).
  { unfold mg1. by case_if. }
  destruct Hmg1 as (M1 & M2 & M3 & M4).
  set (sA := set_vdev s1 g (set_vdev_mg mg1 vd1)).
  assert (FA : rings_kept s1 sA) by (by apply rings_kept_set_vdev with (vd := vd1)).
  eapply rings_kept_trans; [exact FA|].
  assert (HcA : spa_classes sA !! mc = Some mc1) by done.
  case_if.
  - apply rings_kept_rotate with (g := g); [done| |].
    + eapply on_ring_kept; [exact FA|]. by eapply on_ring_kept.
    + unfold sA. rewrite mg_of_set_vdev, decide_True; [done|].
      split; [done|]. by eapply lookup_lt_Some.
  - by apply rings_kept_set_class with (mcr := mc1).
Qed.

Lemma rotor_on_ring s mc mcr g :
  rotor_inv s -> spa_classes s !! mc = Some mcr -> mc_rotor mcr = Some g ->
  on_ring s mc g.
Proof.
  intros [_ I2] Hmc Hr. destruct (I2 mc ltac:(by eexists)) as [l Hl].
  exists l. split; [done|]. destruct Hl as (_ & Hrot & _).
  unfold rotor_at in Hrot. rewrite Hmc in Hrot. simpl in Hrot. rewrite Hr in Hrot.
  injection Hrot as Hh. destruct l as [|x t]; [done|]. simpl in Hh.
  injection Hh as ->. set_solver.
Qed.

Lemma active_on_ring s mc g mgr :
  rotor_inv s -> is_Some (spa_classes s !! mc) -> mg_of s g = Some mgr ->
  mg_class mgr = mc -> 0 < mg_activation_count mgr -> on_ring s mc g.
Proof.
  intros [_ I2] Hmc Hmg Hc Ha. destruct (I2 mc Hmc) as [l Hl].
  exists l. split; [done|]. destruct (decide (g ∈ l)) as [|Hni]; [done|].
  destruct Hl as (_ & _ & _ & Hout & _). destruct (Hout g mgr Hmg Hc Hni). lia.
Qed.

Lemma metaslab_alloc_dva_rings tun asize fuel s mc psize dva d hintdva txg flags lbolt r :
  rotor_inv s ->
  metaslab_alloc_dva tun asize no_env fuel s mc psize dva d hintdva txg flags lbolt
  = Done r ->
  rings_kept s r.2.
Proof.
  intros Hinv H. unfold metaslab_alloc_dva in H.
  case_hyp H; [inversion H; subst r; apply rings_kept_refl|].
  inv_bind H as mcr Emcr. apply get_class_Done in Emcr.
  inv_bind H as mg0 Emg0. inv_bind H as g0 Eg0. apply of_option_Done in Eg0.
  inv_bind H as mgr Emgr. apply get_group_Done in Emgr.
  eapply alloc_dva_walk_rings; [exact Hinv| |exact H].
  intros g Hg. case_hyp Hg.
  - by eapply rotor_on_ring.
  - apply orb_false_iff in Heqb0 as [B1 B2].
    apply negb_false_iff, bool_decide_eq_true in B1. apply Z.leb_gt in B2.
    rewrite Eg0 in Hg. injection Hg as <-.
    by eapply active_on_ring.
Qed.

Lemma alloc_unwind_rings asize d : forall s dva txg r,
  alloc_unwind asize s dva d txg = Done r -> rings_kept s r.2.
Proof.
  induction d as [|d IH]; intros s dva txg r H; simpl in H.
  - inversion H; subst. apply rings_kept_refl.
  - inv_bind H as dv Edv. inv_bind H as s1 E1.
    apply free_dva_groups in E1 as [C1 G1]. apply IH in H.
    eapply rings_kept_trans; [|exact H]. by apply rings_kept_same.
Qed.

Lemma alloc_copies_rings tun asize fuel mc psize hintdva txg flags lbolt n :
  forall s dva d r,
  rotor_inv s ->
  alloc_copies tun asize no_env fuel s mc psize dva d n hintdva txg flags lbolt = Done r ->
  rings_kept s r.2.
Proof.
  induction n as [|n IH]; intros s dva d r Hinv H; simpl in H.
  { inversion H; subst. apply rings_kept_refl. }
  inv_bind H as r1 E1. apply metaslab_alloc_dva_rings in E1; [|done].
  case_hyp H.
  - inv_bind H as u Eu. inversion H; subst r. simpl.
    apply alloc_unwind_rings in Eu. by eapply rings_kept_trans.
  - apply IH in H; [|by eapply rings_kept_inv]. by eapply rings_kept_trans.
Qed.

Lemma ring_pool_inv s : ring_pool = Done s -> rotor_inv s.
Proof.
  intros E. vm_compute in E. injection E as <-. split.
  - intros g mg H. destruct g as [|[|g]]; simpl in H; inversion H; by eexists.
  - intros c Hc. destruct c as [|c]; [|by destruct Hc as [? Hc]; destruct c].
    exists [1%nat; 0%nat]. split; [|split; [reflexivity|split; [|split]]].
    + apply NoDup_cons. split; [set_solver|]. apply NoDup_singleton.
    + intros g Hg. apply elem_of_cons in Hg as [->|Hg]; [by eexists|].
      apply list_elem_of_singleton in Hg as ->. by eexists.
    + intros g mg Hmg _ Hni. destruct g as [|[|g]]; [set_solver|set_solver|].
      discriminate.
    + simpl. repeat split; reflexivity.
Qed.

(** ** The guard of a range under allocation *)








Lemma covers_nil x : covers [] x = false.
Proof. reflexivity. Qed.
















(** ** The steps of the pipeline *)






(** ** Runs of the pipeline and the allocator *)





Section Run.

Variable tun : tunables.
Variable asize : vdev -> Z -> Z.
Variable p : msp_ptr.
Variables T a b : Z.

Hypothesis Hab : a < b.
Hypothesis Hst : asize_stable asize.


End Run.


(** * The claims *)

(** C8, as stated: after [metaslab_passivate(m, size)] the weight has no
    active bit and equals [size].  It fails for an inactive metaslab of weight
    512 passivated with 1024: the weight stays 512. *)
Lemma C8_passivate_counterexample :
  let m := metaslab_group_sort (ms_example metaslab_ff_ops) 512 in
  ~ (Z.land (ms_weight (metaslab_passivate m 1024)) METASLAB_ACTIVE_MASK = 0
     /\ ms_weight (metaslab_passivate m 1024) = 1024).
Proof. intros m [_ H]. vm_compute in H. discriminate. Qed.

(** C8, amended: [metaslab_passivate(m, size)] leaves the smaller of the old
    weight and [size].  When [size] carries no active bit, the new weight
    carries none; when moreover the metaslab was active, as at both call
    sites, the new weight is [size]. *)
Theorem C8_passivate_weight (msp : metaslab) (size : Z) :
  0 <= ms_weight msp < U64_MOD -> 0 <= size < U64_MOD ->
  let w := ms_weight (metaslab_passivate msp size) in
  w = Z.min (ms_weight msp) size
  /\ (Z.land size METASLAB_ACTIVE_MASK = 0 -> Z.land w METASLAB_ACTIVE_MASK = 0)
  /\ (Z.land size METASLAB_ACTIVE_MASK = 0 ->
      Z.land (ms_weight msp) METASLAB_ACTIVE_MASK <> 0 -> w = size).
Proof.
  intros Hw Hs w. subst w. unfold metaslab_passivate, metaslab_group_sort. simpl.
  split; [done|]. split.
  - intros H0. apply active_mask_zero_iff in H0; [|done].
    apply active_mask_zero_iff; lia.
  - intros H0 H1. apply active_mask_zero_iff in H0; [|done].
    rewrite active_mask_zero_iff in H1 by done. lia.
Qed.

Lemma C8_passivate_weight_witness :
  let m := metaslab_group_sort (ms_example metaslab_ff_ops)
             (Z.lor METASLAB_WEIGHT_PRIMARY 8192) in
  ms_weight (metaslab_passivate m 2048) = 2048
  /\ Z.land (ms_weight (metaslab_passivate m 2048)) METASLAB_ACTIVE_MASK = 0.
Proof.
  intros m.
  assert (Hw : 0 <= ms_weight m < U64_MOD) by (vm_compute; split; congruence).
  assert (Hs : 0 <= 2048 < U64_MOD) by (vm_compute; split; congruence).
  destruct (C8_passivate_weight m 2048 Hw Hs) as (_ & H1 & H2).
  split.
  - apply H2; [reflexivity | vm_compute; discriminate].
  - apply H1. reflexivity.
Defined.

(** C3, as stated: the active bits of the metaslab are in the weight whenever
    it is active.  A loaded, active first-fit metaslab is always fragmented,
    and its weight comes back without them. *)
Lemma C3_weight_counterexample :
  let m := set_ms_loaded true
             (metaslab_group_sort (ms_example metaslab_ff_ops)
                (Z.lor METASLAB_WEIGHT_PRIMARY 8192)) in
  let vd := vdev_example 0 0 in
  ~ (exists m', metaslab_weight default_tunables vd m
                = Done (metaslab_weight_spec default_tunables vd m, m')).
Proof. intros m vd [m' H]. vm_compute in H. discriminate. Qed.

(** C3, amended: for a device that is not being removed, [metaslab_weight]
    returns [2 * free - (id * free) / ms_count] with
    [free = ms_size - space_map_allocated], which lies between [free] and
    [2 * free], plus the histogram factor when [weight_factor_enable] is set;
    the active bits are OR'd in when the metaslab is loaded and its allocator
    does not report it fragmented. *)
Theorem C3_metaslab_weight (tun : tunables) (vd : vdev) (msp : metaslab) :
  vdev_removing vd = false ->
  0 <= ms_id msp < vdev_ms_count vd ->
  0 <= space_map_allocated (ms_sm msp) <= ms_size msp ->
  ms_size msp < 2 ^ 62 ->
  ms_id msp * ms_size msp < U64_MOD ->
  let free := ms_size msp - space_map_allocated (ms_sm msp) in
  let base := 2 * free - (ms_id msp * free) / vdev_ms_count vd in
  let w := if metaslab_weight_factor_enable tun
           then u64 (base + metaslab_weight_factor vd msp) else base in
  free <= base <= 2 * free
  /\ metaslab_weight tun vd msp
     = Done (if ms_loaded msp && negb (msop_fragmented tun msp)
             then Z.lor w (Z.land (ms_weight msp) METASLAB_ACTIVE_MASK) else w,
             set_ms_factor (metaslab_weight_factor vd msp) msp).
Proof.
  intros Hrm Hid Hal Hsz Hmul free base w.
  assert (Hfree : 0 <= free <= ms_size msp) by (subst free; lia).
  assert (Hq : 0 <= (ms_id msp * free) / vdev_ms_count vd <= free).
  { split.
    - apply Z.div_pos; nia.
    - apply Z.div_le_upper_bound; nia. }
  split; [subst base; lia|].
  unfold metaslab_weight. rewrite Hrm.
  fold free.
  assert (Hu : U64_MOD = 2 ^ 64) by reflexivity.
  rewrite (u64_small free) by lia.
  rewrite (u64_small (ms_id msp * free)) by nia.
  unfold udiv. destruct (vdev_ms_count vd =? 0) eqn:E; [apply Z.eqb_eq in E; lia|].
  simpl. fold base.
  rewrite (u64_small base) by (subst base; lia).
  rewrite msop_fragmented_set_factor.
  reflexivity.
Qed.

Lemma C3_metaslab_weight_witness :
  let m := set_ms_loaded true
             (metaslab_group_sort (ms_example metaslab_ff_ops)
                (Z.lor METASLAB_WEIGHT_PRIMARY 8192)) in
  metaslab_weight default_tunables (vdev_example 0 0) m
  = Done (8192, set_ms_factor 864 m).
Proof.
  intros m.
  refine (proj2 (C3_metaslab_weight default_tunables (vdev_example 0 0) m
                   _ _ _ _ _)).
  - reflexivity.
  - simpl. lia.
  - simpl. lia.
  - simpl. lia.
  - vm_compute. reflexivity.
Defined.

(** C2, as stated: the test holds exactly when the encoding of the largest
    segment is less than the length and the length exceeds the threshold.  At
    one free sector, a space map of 16 bytes and [zfs_condense_pct = 200] the
    length equals the threshold and the source answers true. *)
Lemma C2_should_condense_counterexample :
  let rs := mk_seg 0 512 in
  let sm := set_sm_length 16 (space_map_open 1 0 4096 9) in
  let m := set_ms_sm (Some sm) (set_ms_loaded true
             (set_ms_tree [rs] (ms_example metaslab_ff_ops))) in
  ~ (metaslab_should_condense default_tunables m
     = Done (should_condense_spec default_tunables m rs)).
Proof. intros rs sm m H. vm_compute in H. discriminate. Qed.

(** C2, amended: with [rs] a longest segment of the free tree, of [sectors]
    sectors, [metaslab_should_condense] returns true exactly when
    [8 * (sectors / min(sectors, SM_RUN_MAX))] is at most the length of the
    space map on disk and that length is at least
    [condense_pct * 8 * nodes / 100], with integer division. *)
Theorem C2_should_condense (tun : tunables) (msp : metaslab) (sm : space_map) :
  ms_sm msp = Some sm ->
  ms_tree msp <> [] ->
  0 <= sm_shift sm ->
  (forall r, In r (ms_tree msp) ->
     0 <= rs_start r /\ rs_end r < U64_MOD /\ 2 ^ sm_shift sm <= rs_size r) ->
  0 <= zfs_condense_pct tun ->
  zfs_condense_pct tun * 8 * avl_numnodes (ms_tree msp) < U64_MOD ->
  exists rs,
    In rs (ms_tree msp)
    /\ (forall r, In r (ms_tree msp) -> rs_size r <= rs_size rs)
    /\ let sectors := rs_size rs / 2 ^ sm_shift sm in
       metaslab_should_condense tun msp
       = Done ((8 * (sectors / Z.min sectors SM_RUN_MAX) <=? sm_length sm)
               && (zfs_condense_pct tun * 8 * avl_numnodes (ms_tree msp) / 100
                   <=? sm_length sm)).
Proof.
  intros Hsm Hne Hsh Hseg Hpct Hprod.
  unfold metaslab_should_condense.
  destruct (avl_last (ms_size_tree msp)) as [rs|] eqn:El.
  2:{ apply size_tree_last_none in El. done. }
  destruct (size_tree_last _ _ El) as [Hin Hmax].
  assert (Hu : forall r, In r (ms_tree msp) -> u64 (rs_end r - rs_start r) = rs_size r).
  { intros r Hr. destruct (Hseg r Hr) as (? & ? & ?). unfold rs_size in *.
    assert (0 < 2 ^ sm_shift sm) by (apply Z.pow_pos_nonneg; lia).
    apply u64_small. lia. }
  exists rs. split; [done|]. split.
  { intros r Hr. specialize (Hmax r Hr). rewrite !Hu in Hmax by done. done. }
  rewrite Hsm. simpl.
  rewrite (Hu rs Hin). rewrite Z.shiftr_div_pow2 by done.
  set (sectors := rs_size rs / 2 ^ sm_shift sm).
  destruct (Hseg rs Hin) as (Hs0 & Hs1 & Hs2).
  assert (Hp : 0 < 2 ^ sm_shift sm) by (apply Z.pow_pos_nonneg; lia).
  assert (Hsec : 1 <= sectors).
  { subst sectors. apply Z.div_le_lower_bound; lia. }
  assert (Hsecu : sectors < U64_MOD).
  { subst sectors. apply Z.div_lt_upper_bound; [done|]. unfold rs_size.
    assert (0 < U64_MOD) by reflexivity. nia. }
  assert (Hrm : SM_RUN_MAX = 32768) by reflexivity.
  unfold udiv.
  destruct (Z.min sectors SM_RUN_MAX =? 0) eqn:E0; [apply Z.eqb_eq in E0; lia|].
  simpl.
  assert (He : 0 <= sectors / Z.min sectors SM_RUN_MAX <= sectors).
  { split; [apply Z.div_pos; lia|].
    apply Z.div_le_upper_bound; [lia|]. nia. }
  assert (He2 : sectors / Z.min sectors SM_RUN_MAX * 8 < U64_MOD).
  { destruct (Z.le_gt_cases sectors SM_RUN_MAX) as [L|G].
    - rewrite Z.min_l by done. rewrite Z.div_same by lia. reflexivity.
    - rewrite Z.min_r by lia.
      assert (sectors / SM_RUN_MAX < 2 ^ 49).
      { apply Z.div_lt_upper_bound; [lia|]. rewrite Hrm.
        change U64_MOD with (2 ^ 64) in Hsecu. lia. }
      change U64_MOD with (2 ^ 64). lia. }
  rewrite (u64_small (_ * 8)) by lia.
  rewrite (u64_small (zfs_condense_pct tun)).
  2:{ split; [done|]. unfold avl_numnodes in Hprod.
      destruct (ms_tree msp); [done|]. simpl length in Hprod. nia. }
  rewrite (u64_small (_ * 8 * _)).
  2:{ split; [|done]. unfold avl_numnodes. nia. }
  rewrite (Z.mul_comm _ 8). reflexivity.
Qed.

Lemma C2_should_condense_witness :
  let sm := set_sm_length 16 (space_map_open 1 0 4096 9) in
  let m := set_ms_sm (Some sm) (set_ms_loaded true
             (set_ms_tree [mk_seg 0 512] (ms_example metaslab_ff_ops))) in
  exists rs, In rs (ms_tree m)
    /\ metaslab_should_condense default_tunables m = Done true.
Proof.
  intros sm m.
  destruct (C2_should_condense default_tunables m sm) as (rs & Hin & _ & H).
  - reflexivity.
  - discriminate.
  - simpl. lia.
  - intros r [<-|[]]. vm_compute. repeat split; congruence.
  - simpl. lia.
  - vm_compute. reflexivity.
  - exists rs. split; [done|].
    destruct Hin as [<-|[]]. exact H.
Defined.

(** C4, as stated: the allocations return 0, 512, 0 and then Exhausted.  The
    second one returns 1024. *)
Lemma C4_first_fit_counterexample :
  ~ (exists e, ff_scenario = Done [0; 512; 0; U64_MAX; e]).
Proof. intros [e H]. vm_compute in H. discriminate. Qed.

(** C4, amended: on a fully free first-fit metaslab of 4096 bytes with
    512-byte sectors, allocating 512 returns offset 0; allocating 1024 then
    returns offset 1024, the first offset aligned to 1024 in the segment left
    from 512 on; after the 512 bytes at offset 0 are freed, allocating 512
    returns offset 0, found from the cursor 512 of its bucket without a wrap,
    since the search key at the cursor overlaps the segment from 0 to 1024;
    allocating 4096 is then answered with [-1ULL] by the allocator and with
    [ENOSPC] by [metaslab_alloc]. *)
Theorem C4_first_fit :
  ff_scenario = Done [0; 1024; 0; U64_MAX; ENOSPC]
  /\ exists m,
       ff_before_third = Done m
       /\ ms_tree m = [mk_seg 0 1024; mk_seg 2048 4096]
       /\ lbas_get m 9 = Done 512
       /\ picker_walk
            (avl_seek range_tree_seg_compare (mk_seg 512 (u64 (512 + 512))) (ms_tree m))
            512 512 = Some 0.
Proof.
  split; [vm_compute; reflexivity|].
  eexists. split; [vm_compute; reflexivity|].
  repeat split; vm_compute; reflexivity.
Qed.
(** C9, as stated: the ring is sound after any sequence of calls.  A second
    activation of an active group links it in again after the rotor: here
    group 1 stays active, with its neighbours set, and is left off the ring
    walked from the rotor. *)
Lemma C9_rotor_ring_counterexample :
  exists s mg,
    fresh_pool rotor_pool
    /\ rotor_calls default_tunables rotor_pool [Activate 0; Activate 1; Activate 0]
       = Done s
    /\ mg_of s 1%nat = Some mg /\ mg_class mg = 0%nat /\ mg_active mg
    /\ class_ring s 0 = [0%nat]
    /\ ~ (count_occ Nat.eq_dec (class_ring s 0) 1%nat = 1%nat
          /\ mg_prev mg <> None /\ mg_next mg <> None).
Proof.
  eexists _, _. split; [exact rotor_pool_fresh|].
  split; [vm_compute; reflexivity|].
  split; [vm_compute; reflexivity|].
  split; [reflexivity|]. split; [reflexivity|].
  split; [vm_compute; reflexivity|].
  intros [H _]. vm_compute in H. discriminate.
Qed.



(** C5, as stated: at [metaslab_sync_done(t)] the contents of
    [defer\[t mod 2\]] are moved into the in-core free tree, loaded or not.
    For a metaslab that is not loaded the 512 bytes at 0 of the defer tree
    are in no tree afterwards. *)
Lemma C5_sync_done_counterexample :
  ms_defertree (defer_ms false) !! defer_slot 6 = Some (Some [mk_seg 0 512])
  /\ exists s' m',
       metaslab_sync_done default_tunables (defer_pool false) (0%nat, 0%nat) 6 = Done s'
       /\ get_msp s' (0%nat, 0%nat) = Done m'
       /\ ~ holds (ms_tree m') 0 512.
Proof.
  split; [reflexivity|]. eexists _, _.
  split; [vm_compute; reflexivity|]. split; [vm_compute; reflexivity|].
  intros H. specialize (H 0 ltac:(lia)). vm_compute in H. discriminate.
Qed.

(** C5, amended: at [metaslab_sync_done(t)] that completes, with
    [freed = freed\[t\]] and [defer = defer\[t mod 2\]] (the trees being
    created empty first for a metaslab that has none),
    [defer_delta = space(freed) - space(defer)] is added with [alloc_delta]
    to the counters of the device and of its class and to [ms_deferspace];
    [defer\[t mod 2\]] ends holding [freed] and [freed\[t\]] ends empty.
    The contents of [defer] enter the in-core free tree only when the
    metaslab is loaded, and that tree is emptied again if the call unloads the
    metaslab; when the metaslab is not loaded they are dropped and the
    in-core free tree is as before. *)
Theorem C5_sync_done (tun : tunables) (s s' : spa) (p : msp_ptr) (txg : Z)
    (vd : vdev) (m : metaslab) :
  metaslab_sync_done tun s p txg = Done s' ->
  spa_vdevs s !! p.1 = Some vd -> vdev_ms vd !! p.2 = Some m ->
  sorted (ms_tree m) = true ->
  let cslot := txg_slot (TXG_CLEAN txg) in
  let dslot := defer_slot txg in
  let new := tree_is_null (ms_freetree m) cslot in
  let m1 := if new then metaslab_create_trees m else m in
  exists freed defer vd' m' mc,
    ms_freetree m1 !! cslot = Some (Some freed)
    /\ ms_defertree m1 !! dslot = Some (Some defer)
    /\ spa_vdevs s' !! p.1 = Some vd' /\ vdev_ms vd' !! p.2 = Some m'
    /\ spa_classes s !! mg_class (vdev_mg vd) = Some mc
    /\ let defer_delta := range_tree_space freed - range_tree_space defer in
       let alloc_delta := space_map_alloc_delta (ms_sm m) in
       vdev_stat vd'
       = vdev_stat_update
           (if new then vdev_stat_update (vdev_stat vd) 0 (ms_size m) else vdev_stat vd)
           (alloc_delta + defer_delta) 0
       /\ spa_classes s' !! mg_class (vdev_mg vd)
          = Some (metaslab_class_space_update
                    (if new
                     then metaslab_class_space_update mc 0 0 (ms_size m) (ms_size m)
                     else mc)
                    (alloc_delta + defer_delta) defer_delta 0 0)
       /\ ms_deferspace m' = ms_deferspace m + defer_delta
       /\ ms_freetree m' = <[cslot := Some []]> (ms_freetree m1)
       /\ ms_defertree m' = <[dslot := Some freed]> (ms_defertree m1)
       /\ (ms_loaded m = false -> ms_loaded m' = false /\ ms_tree m' = ms_tree m)
       /\ (ms_loaded m = true ->
           (ms_loaded m' = true
            /\ sorted (ms_tree m') = true
            /\ forall x, covers (ms_tree m') x = covers (ms_tree m) x || covers defer x)
           \/ (ms_loaded m' = false /\ ms_tree m' = [])).
Proof.
  intros H Hvd Hm Hs cslot dslot new m1.
  destruct (metaslab_sync_done_effect _ _ _ _ _ _ _ H Hvd Hm)
    as (freed & defer & vd' & m' & mc & A1 & A2 & A3 & A4 & A5 & A6 & A7 & A8
        & A9 & A10 & A11 & A12 & mid & Hmid & Hend).
  exists freed, defer, vd', m', mc.
  do 5 (split; [done|]). intros defer_delta alloc_delta.
  do 5 (split; [done|]). split.
  - intros Hl. rewrite Hl in Hmid. subst mid.
    destruct Hend as [[E1 E2]|(E1 & _)]; [split; congruence|congruence].
  - intros Hl. rewrite Hl in Hmid.
    destruct Hend as [[E1 E2]|(_ & E1 & E2)]; [left|by right].
    apply vacate_into_spec in Hmid as (B1 & B2 & _); [|done].
    rewrite E2. split; [congruence|]. done.
Qed.

Lemma C5_sync_done_witness :
  exists s' vd' m',
    metaslab_sync_done default_tunables (defer_pool true) (0%nat, 0%nat) 6 = Done s'
    /\ spa_vdevs s' !! 0%nat = Some vd' /\ vdev_ms vd' !! 0%nat = Some m'
    /\ ms_deferspace m' = 0
    /\ ms_freetree m' = [Some []; Some []; Some []; Some []]
    /\ ms_defertree m' = [Some [mk_seg 512 1024]; Some []]
    /\ ms_loaded m' = true
    /\ forall x, covers (ms_tree m') x = covers [mk_seg 1024 4096] x || covers [mk_seg 0 512] x.
Proof.
  destruct (metaslab_sync_done default_tunables (defer_pool true) (0%nat, 0%nat) 6)
    as [s'|f] eqn:E; [|vm_compute in E; discriminate].
  destruct (C5_sync_done default_tunables (defer_pool true) s' (0%nat, 0%nat) 6
              (set_vdev_ms [defer_ms true] (vdev_example 0 0)) (defer_ms true)
              E eq_refl eq_refl eq_refl)
    as (freed & defer & vd' & m' & mc & A1 & A2 & A3 & A4 & A5 & A6 & A7 & A8
        & A9 & A10 & A11 & A12).
  exists s', vd', m'.
  split; [reflexivity|].
  vm_compute in A1. vm_compute in A2.
  injection A1 as <-. injection A2 as <-.
  split; [exact A3|]. split; [exact A4|]. split; [exact A8|].
  split; [exact A9|]. split; [exact A10|].
  destruct (A12 eq_refl) as [(B1 & B2 & B3)|(B1 & B2)].
  - split; [exact B1|exact B3].
  - exfalso. clear - E A3 A4 B1. vm_compute in E. injection E as <-.
    vm_compute in A3. injection A3 as <-.
    vm_compute in A4. injection A4 as <-. discriminate.
Defined.




(** C7: for every pool and under every interference of other threads,
    [metaslab_group_alloc] does not end in the failure of the check against
    [ms_condensing] in [metaslab_block_alloc], a check that fails exactly on
    a condensing metaslab: under [ms_lock] a condensing metaslab is given up
    with its trees as they were, and without interference a call leaves
    every condensing metaslab condensing, with its free tree and its
    allocation trees as before. *)
Theorem C7_condensing_blocks_alloc (tun : tunables) (fuel : nat) (s : spa) (g : nat)
    (psize asize txg min_distance : Z) (dva : list dva_t) (d : Z) :
  (forall env,
     metaslab_group_alloc tun env fuel s g psize asize txg min_distance dva d
     <> Fault FAllocCondensing)
  /\ (forall vd m n,
        metaslab_block_alloc tun vd m n = Fault FAllocCondensing
        <-> ms_condensing m = true)
  /\ (forall vd m aw wa r,
        ms_condensing m = true ->
        group_alloc_locked tun vd m asize aw wa = Done r ->
        exists m', r = Retry m' /\ condensing_as m m')
  /\ (forall r v vd i m,
        metaslab_group_alloc tun no_env fuel s g psize asize txg min_distance dva d
        = Done r ->
        spa_vdevs s !! v = Some vd -> vdev_ms vd !! i = Some m ->
        ms_condensing m = true ->
        exists vd' m',
          spa_vdevs r.2 !! v = Some vd' /\ vdev_ms vd' !! i = Some m'
          /\ condensing_as m m').
Proof.
  split; [intros env; apply passes_metaslab_group_alloc|].
  split.
  { intros vd m n. split.
    - intros E. destruct (ms_condensing m) eqn:Ec; [done|]. exfalso.
      by apply (proj2 (metaslab_block_alloc_passes tun vd m n) Ec).
    - intros Hc. unfold metaslab_block_alloc. by rewrite Hc. }
  split; [intros; by eapply group_alloc_locked_condensing|].
  intros r v vd i m H. by eapply metaslab_group_alloc_condensing.
Qed.

Lemma C7_condensing_blocks_alloc_witness :
  exists r vd' m',
    metaslab_group_alloc default_tunables no_env 4 condensing_pool 0 512 512 5 0
      [dva_zero] 0 = Done r
    /\ spa_vdevs r.2 !! 0%nat = Some vd' /\ vdev_ms vd' !! 0%nat = Some m'
    /\ condensing_as condensing_ms m'.
Proof.
  destruct (metaslab_group_alloc default_tunables no_env 4 condensing_pool 0 512 512 5 0
              [dva_zero] 0) as [r|f] eqn:E; [|vm_compute in E; discriminate].
  destruct (proj2 (proj2 (proj2
              (C7_condensing_blocks_alloc default_tunables 4 condensing_pool 0
                 512 512 5 0 [dva_zero] 0)))
              r 0%nat (set_vdev_ms [condensing_ms] (vdev_example 0 0)) 0%nat
              condensing_ms E eq_refl eq_refl eq_refl)
    as (vd' & m' & V & M & C).
  exists r, vd', m'. split; [reflexivity|]. split; [exact V|]. split; [exact M|exact C].
Defined.

(** C6, as stated: after an error no in-core free tree has changed.  The
    dry run loads the metaslab of the first copy, finds the second copy
    missing and returns [ENOENT]; the free tree of the metaslab, empty before
    the call, is the loaded one after it. *)
Lemma C6_claim_counterexample :
  exists s' m',
    metaslab_claim asize_example claim_pool claim_bp 5 = Done (ENOENT, s')
    /\ get_msp claim_pool (0%nat, 0%nat) = Done claim_ms
    /\ get_msp s' (0%nat, 0%nat) = Done m'
    /\ ms_tree m' <> ms_tree claim_ms.
Proof.
  eexists _, _. split; [vm_compute; reflexivity|]. split; [reflexivity|].
  split; [vm_compute; reflexivity|]. vm_compute. discriminate.
Qed.

(** C6, amended: when no two copies of the block pointer overlap and
    [metaslab_claim] with a non-zero txg returns an error, the error is that
    of the dry run and nothing was committed: every allocation tree is as
    before the call, and so is the in-core free tree of every metaslab that
    was loaded before the call.  In particular, when every copy lies in a
    loaded metaslab of the pool and some copy is not in the free tree of its
    metaslab, the call returns [ENOENT] and leaves the pool as it was. *)
Theorem C6_claim_atomic (asize : vdev -> Z -> Z) (s : spa) (bp : blkptr_t) (txg : Z) :
  asize_stable asize -> txg <> 0 ->
  let dvas := take (Z.to_nat (BP_GET_NDVAS bp)) (blk_dva bp) in
  copies_apart asize s dvas = true ->
  (forall e s', metaslab_claim asize s bp txg = Done (e, s') -> e <> 0 ->
     trees_kept s s')
  /\ (Forall (fun dv => copy_loaded s dv = true) dvas ->
      Exists (fun dv => copy_free asize s dv = false) dvas ->
      metaslab_claim asize s bp txg = Done (ENOENT, s)).
Proof.
  intros Hst Htxg dvas Hap. apply Z.eqb_neq in Htxg as Htxg'. split.
  - intros e s' H He. unfold metaslab_claim in H. fold dvas in H.
    rewrite Htxg' in H. simpl in H. inv_bind H as r Er. destruct r as [e1 s1].
    apply claim_copies_dry in Er as [F R]; [|done]. simpl in H.
    assert (HF : pool_frame (fun _ _ => claim_keeps) s s').
    { destruct (e1 =? 0) eqn:E1; simpl in H; [|by inversion H; subst].
      apply Z.eqb_eq in E1. exfalso. apply He.
      eapply claim_copies_wet; [exact Htxg|exact Hst|exact H| |by apply R].
      by rewrite (copies_apart_frame _ _ _ _ _ Hst F). }
    intros v vd i m Hv Hm. destruct HF as (_ & _ & _ & HF).
    destruct (HF v vd Hv) as (vd' & Hv' & _ & Hms).
    destruct (Hms i m Hm) as (m' & Hm' & K1 & K2).
    exists vd', m'. split; [done|]. split; [done|]. split; [done|].
    intros Hl. apply K2. unfold ms_ready. by rewrite Hl.
  - intros Hl Hex. unfold metaslab_claim. fold dvas. rewrite Htxg'. simpl.
    rewrite (claim_copies_dry_loaded _ _ _ Hl).
    assert (Hf : forallb (copy_free asize s) dvas = false).
    { apply not_true_is_false. intros Hall. rewrite forallb_forall in Hall.
      apply Exists_exists in Hex as (dv & Hin & Hdv).
      rewrite (Hall dv (proj1 (list_elem_of_In _ _) Hin)) in Hdv. done. }
    rewrite Hf. done.
Qed.

Lemma C6_claim_atomic_witness :
  exists s', metaslab_claim asize_example claim_pool claim_bp 5 = Done (ENOENT, s')
             /\ trees_kept claim_pool s'.
Proof.
  destruct (metaslab_claim asize_example claim_pool claim_bp 5) as [[e s']|f] eqn:E;
    [|vm_compute in E; discriminate].
  assert (He : e = ENOENT) by (vm_compute in E; by injection E as <- _).
  subst e. exists s'. split; [reflexivity|].
  refine (proj1 (C6_claim_atomic asize_example claim_pool claim_bp 5
                   asize_example_stable _ _) ENOENT s' E _).
  - lia.
  - vm_compute. reflexivity.
  - vm_compute. discriminate.
Defined.

(** C10, as stated: after an error the free tree of each touched metaslab
    equals its state before the call.  Two copies of 4096 bytes are asked of
    a pool with one metaslab of 4096 bytes that is not loaded: the first copy
    loads the metaslab, the second finds no space, the first is freed again,
    and the call returns [ENOSPC] with the metaslab loaded: its in-core free
    tree, empty before the call, now holds the 4096 bytes. *)
Lemma C10_alloc_counterexample :
  exists s0 m0 r m,
    ff_pool = Done s0 /\ get_msp s0 (0%nat, 0%nat) = Done m0
    /\ alloc_two s0 4096 = Done r /\ r.1.1 = ENOSPC
    /\ get_msp r.2 (0%nat, 0%nat) = Done m
    /\ ms_tree m <> ms_tree m0.
Proof.
  eexists _, _, _, _. split; [vm_compute; reflexivity|].
  split; [vm_compute; reflexivity|]. split; [vm_compute; reflexivity|].
  split; [reflexivity|]. split; [vm_compute; reflexivity|].
  vm_compute. discriminate.
Qed.

(** C10, amended: in a well-formed pool that no other thread touches, with
    the txg not beyond [spa_freeze_txg], an allocated size that depends on the
    geometry of the device only and gang headers of [SPA_GANGBLOCKSIZE]
    bytes, when [metaslab_alloc] returns an error every copy allocated for an
    earlier index has been freed again and zeroed: every DVA of the block
    pointer is the caller's or zero, so a block pointer that carried no DVAs
    carries none; every allocation tree is as before the call, and so is the
    in-core free tree of every metaslab that was loaded before the call; the
    pool is still well-formed. *)
Theorem C10_alloc_unwinds (tun : tunables) (asize : vdev -> Z -> Z) (fuel : nat)
    (s : spa) (mc : nat) (psize : Z) (bp : blkptr_t) (ndvas txg : Z)
    (hintbp : option blkptr_t) (flags lbolt : Z) (e : Z) (bp' : blkptr_t) (s' : spa) :
  pool_ok s = true -> asize_stable asize -> txg <= spa_freeze_txg s ->
  (Z.land flags METASLAB_GANG_HEADER <> 0 -> psize = SPA_GANGBLOCKSIZE) ->
  metaslab_alloc tun asize no_env fuel s mc psize bp ndvas txg hintbp flags lbolt
  = Done (e, bp', s') ->
  e <> 0 ->
  trees_kept s s'
  /\ pool_ok s' = true
  /\ (forall j, blk_dva bp' !! j = blk_dva bp !! j
                \/ blk_dva bp' !! j = Some dva_zero)
  /\ (BP_GET_NDVAS bp = 0 -> BP_GET_NDVAS bp' = 0).
Proof.
  intros Hok Hst Hfz Hgang H He.
  assert (Hmain : pool_frame keeps s s'
                  /\ forall j, blk_dva bp' !! j = blk_dva bp !! j
                               \/ blk_dva bp' !! j = Some dva_zero).
  { unfold metaslab_alloc in H. inv_bind H as mcr Emcr.
    destruct (mc_rotor mcr).
    2: { inversion H; subst. split; [|by left].
         apply pool_frame_refl. intros; apply keeps_refl. }
    inv_bind H as r Er.
    destruct (negb (r.1.1 =? 0)) eqn:E0.
    2: { inversion H; subst. done. }
    inversion H; subst e bp' s'. clear H.
    apply (alloc_copies_unwinds _ _ _ _ _ _ _ _ _ Hst Hgang) in Er
      as (sm & dvam & F & I1 & I2 & Hu); [|done|done|done].
    simpl in Hu. inversion Hu; subst. simpl. split; [exact F|exact I2]. }
  destruct Hmain as [F Hd]. split; [by apply keeps_trees_kept|].
  split; [by eapply pool_ok_keeps|]. split; [done|].
  unfold BP_GET_NDVAS. intros H0.
  assert (X : length (filter (fun d => DVA_IS_VALID d = true) (blk_dva bp)) = 0%nat)
    by lia.
  rewrite ndvas_zero in X.
  assert (Y : length (filter (fun d => DVA_IS_VALID d = true) (blk_dva bp')) = 0%nat);
    [|lia].
  apply ndvas_zero. intros j x Hj. destruct (Hd j) as [E|E].
  - rewrite Hj in E. symmetry in E. by eapply X.
  - rewrite Hj in E. by inversion E.
Qed.

Lemma C10_alloc_unwinds_witness :
  exists s r,
    loaded_pool = Done s /\ alloc_two s 2048 = Done r /\ r.1.1 <> 0
    /\ trees_kept s r.2
    /\ forall j, blk_dva r.1.2 !! j = blk_dva bp_empty !! j
                 \/ blk_dva r.1.2 !! j = Some dva_zero.
Proof.
  destruct loaded_pool as [s|f] eqn:E; [|vm_compute in E; discriminate].
  destruct (alloc_two s 2048) as [[[e bp'] s']|f] eqn:E2.
  2: { exfalso. vm_compute in E. injection E as <-. vm_compute in E2. discriminate. }
  assert (He : e <> 0).
  { vm_compute in E. injection E as <-. vm_compute in E2. injection E2 as <- _ _.
    discriminate. }
  exists s, (e, bp', s'). split; [reflexivity|]. split; [exact E2|].
  split; [exact He|].
  destruct (C10_alloc_unwinds default_tunables asize_example 8 s 0 2048 bp_empty 2 5
              None 0 1 e bp' s') as (T & _ & D & _).
  - vm_compute in E. injection E as <-. vm_compute. reflexivity.
  - exact asize_example_stable.
  - vm_compute in E. injection E as <-. vm_compute. discriminate.
  - intros Hg. exfalso. apply Hg. reflexivity.
  - exact E2.
  - exact He.
  - split; [exact T|exact D].
Defined.

(** * Further properties of the allocator *)



(** X2: [metaslab_block_maxsize] is the size, as the 64-bit difference of
    its ends, of a largest segment of the free tree: no segment is larger,
    some segment has that size when the tree is not empty, and the answer is
    0 for an empty tree. *)
Theorem block_maxsize_largest (m : metaslab) :
  (ms_tree m = [] -> metaslab_block_maxsize m = 0)
  /\ (ms_tree m <> [] ->
      exists rs, In rs (ms_tree m)
                 /\ metaslab_block_maxsize m = u64 (rs_end rs - rs_start rs))
  /\ forall r, In r (ms_tree m) ->
       u64 (rs_end r - rs_start r) <= metaslab_block_maxsize m.
Proof.
  unfold metaslab_block_maxsize.
  destruct (avl_last (ms_size_tree m)) as [rs|] eqn:E.
  - destruct (size_tree_last _ _ E) as [Hin Hmax].
    split; [|split].
    + intros Hnil. rewrite Hnil in Hin. destruct Hin.
    + intros _. exists rs. split; [exact Hin|reflexivity].
    + exact Hmax.
  - pose proof (size_tree_last_none _ E) as Hnil.
    split; [|split].
    + reflexivity.
    + intros Hne. contradiction.
    + intros r Hr. rewrite Hnil in Hr. destruct Hr.
Qed.

(** X3: when [metaslab_block_alloc] returns on a metaslab whose free tree is
    in canonical form, the metaslab was not condensing.  If it returns -1 the
    free tree is unchanged.  Otherwise the size is positive, every byte of
    the block was free before and none is free after, every other byte is
    free exactly if it was, the free space went down by the size, and both
    the offset and the size are multiples of the sector size of the device. *)
Theorem block_alloc_takes_free_space (tun : tunables) (vd : vdev) (m : metaslab) (n o : Z)
    (m' : metaslab) :
  sorted (ms_tree m) = true ->
  metaslab_block_alloc tun vd m n = Done (o, m') ->
  ms_condensing m = false
  /\ (o = U64_MAX -> ms_tree m' = ms_tree m)
  /\ (o <> U64_MAX ->
      0 < n /\ holds (ms_tree m) o (o + n) /\ lacks (ms_tree m') o (o + n)
      /\ (forall x, ~ (o <= x < o + n) -> covers (ms_tree m') x = covers (ms_tree m) x)
      /\ sorted (ms_tree m') = true
      /\ range_tree_space (ms_tree m') = range_tree_space (ms_tree m) - n
      /\ P2PHASE o (u64 (Z.shiftl 1 (vdev_ashift vd))) = 0
      /\ P2PHASE n (u64 (Z.shiftl 1 (vdev_ashift vd))) = 0).
Proof.
  intros Hs H.
  pose proof (metaslab_block_alloc_effect _ _ _ _ _ _ H) as [l Heff].
  assert (ms_condensing m = false) as Hc.
  { unfold metaslab_block_alloc in H. destruct (ms_condensing m); [discriminate|reflexivity]. }
  split; [exact Hc|]. split.
  - intros ->. rewrite Z.eqb_refl in Heff. subst m'. reflexivity.
  - intros Hne. destruct (Z.eqb_spec o U64_MAX) as [|_]; [contradiction|].
    destruct Heff as (t & Hrm & ->).
    change (ms_tree (set_ms_tree t (set_ms_lbas l m))) with t.
    destruct (range_tree_remove_spec _ _ _ _ Hs Hrm) as (Hn & Hst & Hcov & Hheld).
    split; [exact Hn|]. split; [exact Hheld|]. split.
    { intros x Hx. rewrite Hcov, (proj2 (in_range_true _ _ _) Hx).
      apply andb_false_r. }
    split.
    { intros x Hx. rewrite Hcov, (proj2 (in_range_false _ _ _) Hx).
      apply andb_true_r. }
    split; [exact Hst|]. split; [exact (range_tree_remove_space _ _ _ _ Hrm)|].
    unfold metaslab_block_alloc in H. rewrite Hc in H.
    inv_bind H as r Hr. destruct r as [o1 m1]. simpl in H.
    destruct (Z.eqb_spec o1 U64_MAX) as [->|_].
    { injection H as <- _. contradiction. }
    inv_bind H as u1 Hu1. inv_bind H as u2 Hu2. inv_bind H as u3 Hu3.
    inv_bind H as m2 Hm2. injection H as <- _.
    unfold verify in Hu1, Hu2.
    destruct (Z.eqb_spec (P2PHASE o1 (u64 (Z.shiftl 1 (vdev_ashift vd)))) 0);
      [|discriminate].
    destruct (Z.eqb_spec (P2PHASE n (u64 (Z.shiftl 1 (vdev_ashift vd)))) 0);
      [|discriminate].
    split; assumption.
Qed.

Lemma block_alloc_takes_free_space_witness :
  exists o m',
    metaslab_block_alloc default_tunables (vdev_example 0 0)
      (loaded_ms metaslab_ff_ops) 1024 = Done (o, m')
    /\ o <> U64_MAX
    /\ lacks (ms_tree m') o (o + 1024)
    /\ range_tree_space (ms_tree m')
       = range_tree_space (ms_tree (loaded_ms metaslab_ff_ops)) - 1024.
Proof.
  destruct (metaslab_block_alloc default_tunables (vdev_example 0 0)
              (loaded_ms metaslab_ff_ops) 1024) as [[o m']|f] eqn:E;
    [|vm_compute in E; discriminate].
  assert (Ho : o <> U64_MAX).
  { vm_compute in E. injection E as <- _. discriminate. }
  exists o, m'. split; [reflexivity|]. split; [exact Ho|].
  destruct (block_alloc_takes_free_space default_tunables (vdev_example 0 0)
              (loaded_ms metaslab_ff_ops) 1024 o m' eq_refl E) as (_ & _ & H).
  destruct (H Ho) as (_ & _ & Hl & _ & _ & Hsp & _).
  split; [exact Hl|exact Hsp].
Defined.



(** X5: when [metaslab_load] returns on a metaslab whose free tree is in
    canonical form, the metaslab is no longer loading and its free tree is in
    canonical form.  On an error of the space map the metaslab is not loaded
    and the free tree is what it was.  On success the metaslab is loaded and a
    byte is free exactly if the space map (or, without one, the whole
    metaslab) has it free and neither defer tree holds it: space waiting in
    the defer trees is not handed out by a reload. *)
Theorem load_excludes_deferred (m : metaslab) (e : Z) (m' : metaslab) :
  sorted (ms_tree m) = true ->
  metaslab_load m = Done (e, m') ->
  exists rt,
    load_source m = Done (e, rt)
    /\ ms_loading m' = false
    /\ sorted (ms_tree m') = true
    /\ (e <> 0 -> ms_loaded m' = false /\ ms_tree m' = ms_tree m)
    /\ (e = 0 ->
        ms_loaded m' = true
        /\ exists d0 d1,
             ms_defertree m !! 0%nat = Some (Some d0)
             /\ ms_defertree m !! 1%nat = Some (Some d1)
             /\ forall x, covers (ms_tree m') x
                          = covers rt x && negb (covers d0 x) && negb (covers d1 x)).
Proof.
  intros Hs H.
  destruct (metaslab_load_source _ _ _ H) as (rt & Hsrc & Hl & Hld & Ht).
  exists rt. split; [exact Hsrc|]. split; [exact Hl|].
  assert (sorted rt = true /\ (e <> 0 -> rt = ms_tree m)) as [Hrt Herr].
  { unfold load_source in Hsrc. destruct (ms_sm m) as [sm|].
    - eapply space_map_load_sorted; eassumption.
    - inv_bind Hsrc as t Et. inversion Hsrc; subst.
      apply range_tree_add_spec in Et; [|exact Hs]. split; [tauto|congruence]. }
  destruct (Z.eqb_spec e 0) as [->|Hne].
  - destruct Ht as (d0 & d1 & t0 & Hd0 & Hd1 & Ht0 & Ht1).
    destruct (walk_remove_spec _ _ _ Hrt Ht0) as [Hs0 Hc0].
    destruct (walk_remove_spec _ _ _ Hs0 Ht1) as [Hs1 Hc1].
    split; [exact Hs1|]. split; [congruence|]. intros _.
    split; [exact Hld|]. exists d0, d1. split; [exact Hd0|]. split; [exact Hd1|].
    intros x. rewrite Hc1, Hc0. reflexivity.
  - rewrite Ht. split; [exact Hrt|]. split; [|congruence].
    intros _. split; [exact Hld|]. apply Herr, Hne.
Qed.

Lemma load_excludes_deferred_witness :
  exists m' rt,
    metaslab_load claim_ms = Done (0, m')
    /\ load_source claim_ms = Done (0, rt)
    /\ ms_loaded m' = true /\ sorted (ms_tree m') = true.
Proof.
  destruct (metaslab_load claim_ms) as [[e m']|f] eqn:E;
    [|vm_compute in E; discriminate].
  assert (He : e = 0) by (vm_compute in E; injection E as <- _; reflexivity).
  subst e.
  destruct (load_excludes_deferred claim_ms 0 m' eq_refl E)
    as (rt & Hsrc & _ & Hs & _ & Hok).
  destruct (Hok eq_refl) as [Hl _].
  exists m', rt. split; [reflexivity|]. split; [exact Hsrc|].
  split; [exact Hl|exact Hs].
Defined.

(** X6: [metaslab_activate] with the primary or the secondary weight on a
    well-formed metaslab leaves it well-formed.  A metaslab that is active
    already is returned as it is, and one that is loaded keeps its free tree.
    On success the metaslab is loaded and active, and if it was not active
    before its weight is the old one with the activation bit set.  On a load
    error the metaslab is not loaded and its weight is 0. *)
Theorem activate_loads_and_marks (shift : Z) (i : nat) (m : metaslab) (w e : Z) (m' : metaslab) :
  ms_ok shift i m = true ->
  w = METASLAB_WEIGHT_PRIMARY \/ w = METASLAB_WEIGHT_SECONDARY ->
  metaslab_activate m w = Done (e, m') ->
  ms_ok shift i m' = true
  /\ (Z.land (ms_weight m) METASLAB_ACTIVE_MASK <> 0 -> e = 0 /\ m' = m)
  /\ (ms_loaded m = true -> e = 0 /\ ms_tree m' = ms_tree m)
  /\ (e = 0 ->
      ms_loaded m' = true /\ Z.land (ms_weight m') METASLAB_ACTIVE_MASK <> 0
      /\ (Z.land (ms_weight m) METASLAB_ACTIVE_MASK = 0 ->
          ms_weight m' = Z.lor (ms_weight m) w))
  /\ (e <> 0 -> ms_loaded m' = false /\ ms_weight m' = 0).
Proof.
  intros Hok Hw H.
  destruct (metaslab_activate_keeps i _ _ _ _ H) as ((_ & _ & _ & Hk & Hokp) & _ & _ & Hld).
  split; [apply Hokp, Hok|].
  apply ms_ok_iff in Hok as Hok'. destruct Hok' as (_ & _ & _ & _ & _ & _ & Hact).
  unfold metaslab_activate in H.
  destruct (Z.eqb_spec (Z.land (ms_weight m) METASLAB_ACTIVE_MASK) 0) as [E0|E0].
  - inv_bind H as u Hu. inv_bind H as r Hr. destruct r as [e1 m1]. simpl in H.
    assert (ms_weight m1 = ms_weight m /\ ms_loaded m1 = (e1 =? 0)
            /\ (ms_loaded m = true -> e1 = 0 /\ m1 = m)) as (Hw1 & Hl1 & Hsame).
    { destruct (ms_loaded m) eqn:El; simpl in Hr.
      - inversion Hr; subst. auto.
      - apply metaslab_load_effect in Hr as (_ & Hl & Hwt).
        split; [exact Hwt|]. split; [exact Hl|]. discriminate. }
    destruct (Z.eqb_spec e1 0) as [->|Hne]; simpl in H; inversion H; subst; clear H.
    + split; [contradiction|]. split.
      { intros Hl. destruct (Hsame Hl) as [_ ->]. auto. }
      split; [|congruence]. intros _.
      unfold metaslab_group_sort. simpl. rewrite Hw1.
      split; [exact Hl1|]. split; [apply land_lor_activation, Hw|auto].
    + split; [contradiction|]. split.
      { intros Hl. destruct (Hsame Hl) as [? _]. contradiction. }
      split; [contradiction|]. intros _.
      unfold metaslab_group_sort. simpl. split; [|reflexivity].
      exact Hl1.
  - inversion H; subst. split; [auto|].
    assert (ms_loaded m' = true) as Hl.
    { destruct (ms_loaded m') eqn:El; [reflexivity|]. elim E0. apply Hact. reflexivity. }
    split; [auto|]. split; [|contradiction].
    intros _. split; [exact Hl|]. split; [exact E0|contradiction].
Qed.

Lemma activate_loads_and_marks_witness :
  exists m',
    metaslab_activate (ms_example metaslab_ff_ops) METASLAB_WEIGHT_PRIMARY
    = Done (0, m')
    /\ ms_loaded m' = true
    /\ Z.land (ms_weight m') METASLAB_ACTIVE_MASK <> 0.
Proof.
  destruct (metaslab_activate (ms_example metaslab_ff_ops) METASLAB_WEIGHT_PRIMARY)
    as [[e m']|f] eqn:E; [|vm_compute in E; discriminate].
  assert (He : e = 0) by (vm_compute in E; injection E as <- _; reflexivity).
  subst e. exists m'. split; [reflexivity|].
  destruct (activate_loads_and_marks 12 0 (ms_example metaslab_ff_ops)
              METASLAB_WEIGHT_PRIMARY 0 m' eq_refl (or_introl eq_refl) E)
    as (_ & _ & _ & Hok & _).
  destruct (Hok eq_refl) as (Hl & Hw & _). split; [exact Hl|exact Hw].
Defined.

(** X7: [metaslab_sync_done] on a loaded metaslab whose trees exist keeps
    [ms_access_txg], and keeps the metaslab loaded when the txg is not beyond
    [ms_access_txg] or [metaslab_debug_unload] is set.  When the txg is beyond
    [ms_access_txg], the allocation trees of the two txgs that follow are
    empty (the call would not return otherwise) and, unless
    [metaslab_debug_unload] is set, the metaslab ends unloaded with an empty
    free tree. *)
Theorem sync_done_unload_policy (tun : tunables) (s s' : spa) (p : msp_ptr) (txg : Z)
    (vd : vdev) (m : metaslab) :
  metaslab_sync_done tun s p txg = Done s' ->
  spa_vdevs s !! p.1 = Some vd -> vdev_ms vd !! p.2 = Some m ->
  ms_loaded m = true ->
  tree_is_null (ms_freetree m) (txg_slot (TXG_CLEAN txg)) = false ->
  exists vd' m',
    spa_vdevs s' !! p.1 = Some vd' /\ vdev_ms vd' !! p.2 = Some m'
    /\ ms_access_txg m' = ms_access_txg m
    /\ (txg <= ms_access_txg m \/ metaslab_debug_unload tun = true ->
        ms_loaded m' = true)
    /\ (ms_access_txg m < txg ->
        (exists a1 a2,
           ms_alloctree m !! txg_slot (u64 (txg + 1)) = Some (Some a1)
           /\ range_tree_space a1 = 0
           /\ ms_alloctree m !! txg_slot (u64 (txg + 2)) = Some (Some a2)
           /\ range_tree_space a2 = 0)
        /\ (metaslab_debug_unload tun = false ->
            ms_loaded m' = false /\ ms_tree m' = [])).
Proof.
  intros H Hvd Hm Hl Hnn.
  destruct (metaslab_sync_done_effect _ _ _ _ _ _ _ H Hvd Hm)
    as (freed & defer & vd' & m' & mc & _ & _ & A3 & A4 & _ & _ & _ & _ & _ & _ & _
        & _ & mid & Hmid & Hend).
  destruct (metaslab_sync_done_result _ _ _ _ _ _ _ _ _ H Hvd Hm A3 A4)
    as (R1 & R2 & R3).
  rewrite Hnn in R3. simpl in R3. rewrite Hl in R2. simpl in R2.
  exists vd', m'. split; [exact A3|]. split; [exact A4|]. split; [exact R1|].
  split.
  - intros [Hge|Hd]; rewrite R2.
    + destruct (Z.ltb_spec (ms_access_txg m) txg); [lia|reflexivity].
    + rewrite Hd. simpl. by rewrite andb_false_r.
  - intros Hlt. split; [apply R3; [exact Hl|exact Hlt]|].
    intros Hd. rewrite Hd in R2.
    destruct (Z.ltb_spec (ms_access_txg m) txg); [|lia]. simpl in R2.
    split; [exact R2|].
    destruct Hend as [[E _]|(_ & _ & E)]; [congruence|exact E].
Qed.

Lemma sync_done_unload_policy_witness :
  exists s' vd' m',
    metaslab_sync_done default_tunables (defer_pool true) (0%nat, 0%nat) 6 = Done s'
    /\ spa_vdevs s' !! 0%nat = Some vd' /\ vdev_ms vd' !! 0%nat = Some m'
    /\ ms_access_txg m' = 100 /\ ms_loaded m' = true.
Proof.
  destruct (metaslab_sync_done default_tunables (defer_pool true) (0%nat, 0%nat) 6)
    as [s'|f] eqn:E; [|vm_compute in E; discriminate].
  destruct (sync_done_unload_policy default_tunables (defer_pool true) s'
              (0%nat, 0%nat) 6 _ (defer_ms true) E eq_refl eq_refl eq_refl eq_refl)
    as (vd' & m' & Hv & Hm & Ha & Hl & _).
  exists s', vd', m'. split; [reflexivity|]. split; [exact Hv|]. split; [exact Hm|].
  split; [exact Ha|]. apply Hl. left. vm_compute. discriminate.
Defined.

(** X8: [metaslab_sync_done] keeps [ms_deferspace] equal to the space held
    by the defer trees: on a metaslab whose trees exist and for which the two
    agree, the tree of the txg's defer slot is replaced by the tree of the
    frees synced in the txg, and the two agree again. *)
Theorem sync_done_deferspace (tun : tunables) (s s' : spa) (p : msp_ptr) (txg : Z)
    (vd : vdev) (m : metaslab) :
  metaslab_sync_done tun s p txg = Done s' ->
  spa_vdevs s !! p.1 = Some vd -> vdev_ms vd !! p.2 = Some m ->
  tree_is_null (ms_freetree m) (txg_slot (TXG_CLEAN txg)) = false ->
  ms_deferspace m = trees_space (ms_defertree m) ->
  exists vd' m' freed,
    spa_vdevs s' !! p.1 = Some vd' /\ vdev_ms vd' !! p.2 = Some m'
    /\ ms_freetree m !! txg_slot (TXG_CLEAN txg) = Some (Some freed)
    /\ ms_defertree m' = <[defer_slot txg := Some freed]> (ms_defertree m)
    /\ ms_deferspace m' = trees_space (ms_defertree m').
Proof.
  intros H Hvd Hm Hnn Hinv.
  destruct (metaslab_sync_done_effect _ _ _ _ _ _ _ H Hvd Hm)
    as (freed & defer & vd' & m' & mc & A1 & A2 & A3 & A4 & _ & _ & _ & A7 & _ & _
        & A10 & _).
  rewrite Hnn in *. simpl in *.
  exists vd', m', freed. do 4 (split; [assumption|]).
  rewrite A7, A10, (trees_space_insert _ _ _ _ A2), Hinv. lia.
Qed.

Lemma sync_done_deferspace_witness :
  exists s' vd' m',
    metaslab_sync_done default_tunables counted_pool (0%nat, 0%nat) 6 = Done s'
    /\ spa_vdevs s' !! 0%nat = Some vd' /\ vdev_ms vd' !! 0%nat = Some m'
    /\ ms_defertree m' = [Some [mk_seg 512 1024]; Some []]
    /\ ms_deferspace m' = trees_space (ms_defertree m').
Proof.
  destruct (metaslab_sync_done default_tunables counted_pool (0%nat, 0%nat) 6)
    as [s'|f] eqn:E; [|vm_compute in E; discriminate].
  destruct (sync_done_deferspace default_tunables counted_pool s' (0%nat, 0%nat) 6 _
              (set_ms_deferspace 512 (defer_ms true)) E eq_refl eq_refl eq_refl eq_refl)
    as (vd' & m' & freed & Hv & Hm & Hf & Hd & Hs).
  exists s', vd', m'. split; [reflexivity|]. split; [exact Hv|]. split; [exact Hm|].
  split; [|exact Hs].
  rewrite Hd. vm_compute in Hf. injection Hf as <-. reflexivity.
Defined.
(** X9: in a well-formed pool that no other thread touches, when
    [metaslab_group_alloc] returns the pool is still well-formed.  If it
    returns -1, every allocation tree is as before and so is the free tree of
    every metaslab that was loaded.  Otherwise the block is of positive size
    and inside one metaslab of the group's device; that metaslab ends loaded
    with [ms_access_txg] set to the txg plus [metaslab_unload_delay], its
    free tree holds no byte of the block and the allocation tree of the txg
    holds all of it; if the metaslab was loaded before, the block was free in
    it and every other byte is free exactly if it was; every other metaslab
    of the pool keeps its allocation trees and, if loaded, its free tree. *)
Theorem group_alloc_takes_block (tun : tunables) (fuel : nat) (s : spa) (g : nat)
    (psize asize txg min_distance : Z) (dva : list dva_t) (d o : Z) (s' : spa) :
  pool_ok s = true ->
  metaslab_group_alloc tun no_env fuel s g psize asize txg min_distance dva d
  = Done (o, s') ->
  pool_ok s' = true
  /\ (o = U64_MAX -> trees_kept s s')
  /\ (o <> U64_MAX ->
      exists vd i m vd' m',
        spa_vdevs s !! g = Some vd /\ vdev_ms vd !! i = Some m
        /\ spa_vdevs s' !! g = Some vd' /\ vdev_ms vd' !! i = Some m'
        /\ 0 < asize
        /\ ms_start m <= o /\ o + asize <= ms_start m + ms_size m
        /\ ms_loaded m' = true
        /\ ms_access_txg m' = u64 (txg + metaslab_unload_delay tun)
        /\ lacks (ms_tree m') o (o + asize)
        /\ slot_holds (ms_alloctree m') (txg_slot txg) o (o + asize)
        /\ (ms_loaded m = true ->
            holds (ms_tree m) o (o + asize)
            /\ forall x, covers (ms_tree m') x
                         = covers (ms_tree m) x && negb (in_range o (o + asize) x))
        /\ forall v j vd1 m1,
             spa_vdevs s !! v = Some vd1 -> vdev_ms vd1 !! j = Some m1 ->
             (v, j) <> (g, i) ->
             exists vd2 m2,
               spa_vdevs s' !! v = Some vd2 /\ vdev_ms vd2 !! j = Some m2
               /\ ms_alloctree m2 = ms_alloctree m1
               /\ (ms_loaded m1 = true -> ms_tree m2 = ms_tree m1)).
Proof.
  intros Hok H.
  destruct (Z.eqb_spec o U64_MAX) as [->|Hne].
  - pose proof (metaslab_group_alloc_effect _ _ _ _ _ _ _ _ _ _ _ _ Hok H) as Heff.
    simpl in Heff.
    split; [by eapply pool_ok_keeps|]. split; [|contradiction].
    intros _. by apply keeps_trees_kept.
  - destruct (metaslab_group_alloc_stamped _ _ _ _ _ _ _ _ _ _ _ _ Hok H Hne)
      as (i & vd & Hv & [m Hm] & F).
    split.
    { eapply pool_ok_frame; [exact Hok|exact F|].
      intros v j a b shift [Hab _]. by eapply alloc_at_ok. }
    split; [contradiction|]. intros _.
    pose proof F as (_ & _ & _ & F4).
    destruct (F4 g vd Hv) as (vd' & Hv' & _ & Hms).
    destruct (Hms i m Hm) as (m' & Hm' & Ha & Hst).
    unfold alloc_at in Ha. rewrite decide_True in Ha by done.
    pose proof (proj1 (pool_ok_lookup s) Hok g vd Hv) as (_ & _ & _ & O4).
    destruct (alloc_moves_block _ _ _ _ _ _ _ (O4 i m Hm) Ha)
      as (K1 & K2 & K3 & K4 & K5 & K6 & K7 & K8 & K9).
    exists vd, i, m, vd', m'. do 8 (split; [assumption|]).
    split; [by apply Hst|]. do 2 (split; [assumption|]). split; [exact K9|].
    intros v j vd1 m1 Hv1 Hm1 Hneq.
    destruct (F4 v vd1 Hv1) as (vd2 & Hv2 & _ & Hms2).
    destruct (Hms2 j m1 Hm1) as (m2 & Hm2 & Hk & _).
    unfold alloc_at in Hk. rewrite decide_False in Hk by (intros [-> ->]; done).
    destruct Hk as (_ & _ & Hk3 & Hk4 & _).
    exists vd2, m2. split; [done|]. split; [done|]. split; [done|].
    intros Hl. by apply Hk4.
Qed.

Lemma group_alloc_takes_block_witness :
  exists s r,
    ff_pool = Done s
    /\ metaslab_group_alloc default_tunables no_env 4 s 0 512 512 5 0 [dva_zero] 0
       = Done r
    /\ r.1 <> U64_MAX /\ pool_ok r.2 = true.
Proof.
  destruct ff_pool as [s|f] eqn:E; [|vm_compute in E; discriminate].
  destruct (metaslab_group_alloc default_tunables no_env 4 s 0 512 512 5 0 [dva_zero] 0)
    as [[o s']|f] eqn:E2.
  2: { exfalso. vm_compute in E. injection E as <-. vm_compute in E2. discriminate. }
  assert (Ho : o <> U64_MAX).
  { vm_compute in E. injection E as <-. vm_compute in E2. injection E2 as <- _.
    discriminate. }
  exists s, (o, s'). split; [reflexivity|]. split; [exact E2|].
  split; [exact Ho|].
  destruct (group_alloc_takes_block default_tunables 4 s 0 512 512 5 0 [dva_zero] 0
              o s') as (Hok & _).
  - vm_compute in E. injection E as <-. vm_compute. reflexivity.
  - exact E2.
  - exact Hok.
Defined.

(** X10: a block of one copy allocated by [metaslab_alloc] into a block
    pointer that carried no copy, and freed at once by [metaslab_free] in the
    same txg, leaves no trace in the trees: the block pointer returned carries
    one copy and the txg as its birth, and after the free every allocation
    tree is as before the allocation and so is the free tree of every
    metaslab that was loaded then; the pool is still well-formed.  The pool is
    well-formed and touched by no other thread, the txg is not beyond
    [spa_freeze_txg], the allocated size depends on the geometry of the device
    only, and a gang header is of [SPA_GANGBLOCKSIZE] bytes. *)
Theorem alloc_free_round_trip (tun : tunables) (asize : vdev -> Z -> Z)
    (fuel : nat) (s : spa) (mc : nat) (psize : Z) (bp : blkptr_t) (txg : Z)
    (hintbp : option blkptr_t) (flags lbolt : Z) (bp' : blkptr_t) (s1 s2 : spa) :
  pool_ok s = true -> asize_stable asize -> txg <= spa_freeze_txg s ->
  (Z.land flags METASLAB_GANG_HEADER <> 0 -> psize = SPA_GANGBLOCKSIZE) ->
  BP_GET_NDVAS bp = 0 -> blk_dva bp <> [] ->
  metaslab_alloc tun asize no_env fuel s mc psize bp 1 txg hintbp flags lbolt
  = Done (0, bp', s1) ->
  metaslab_free asize s1 bp' txg true = Done s2 ->
  BP_GET_NDVAS bp' = 1 /\ blk_birth bp' = txg
  /\ trees_kept s s2 /\ pool_ok s2 = true.
Proof.
  intros Hok Hst Hfz Hgang Hn0 Hne H Hfree.
  unfold metaslab_alloc in H. inv_bind H as mcr Emcr.
  destruct (mc_rotor mcr); [|inversion H].
  inv_bind H as r Er.
  change (Z.to_nat 1) with 1%nat in Er. simpl in Er.
  inv_bind Er as r1 E1.
  destruct (negb (r1.1.1 =? 0)) eqn:E0.
  { inversion Er; subst r. simpl in H. rewrite E0 in H.
    inversion H; subst. apply negb_true_iff, Z.eqb_neq in E0. done. }
  inversion Er; subst r. clear Er. simpl in H. inversion H; subst bp' s1. clear H.
  apply metaslab_alloc_dva_effect in E1; [|done|done].
  unfold dva_outcome in E1. change (Z.to_nat (Z.of_nat 0)) with 0%nat in E1.
  apply negb_false_iff, Z.eqb_eq in E0.
  destruct E1 as [(He1 & _)|(_ & g & i & o & vd0 & F & Hv & Hi & Hd)]; [done|].
  assert (0 < asize vd0 psize) as Hpos.
  { destruct Hi as [m Hm]. destruct F as (_ & _ & _ & F4).
    destruct (F4 g vd0 Hv) as (vd' & _ & _ & Hms).
    destruct (Hms i m Hm) as (m' & _ & Ha).
    unfold alloc_at in Ha. rewrite decide_True in Ha by done.
    by eapply alloc_moves_pos. }
  set (dv := mk_dva _ _ _ _) in Hd.
  assert (DVA_IS_VALID dv = true) as Hval.
  { unfold DVA_IS_VALID, dv. simpl. apply negb_true_iff, Z.eqb_neq. lia. }
  assert (filter (fun d => DVA_IS_VALID d = true) r1.1.2 = [dv]
          /\ exists rest, r1.1.2 = dv :: rest) as [Hfil [rest Hrest]].
  { rewrite Hd. destruct (blk_dva bp) as [|x l] eqn:El; [done|]. simpl.
    split; [|eauto]. rewrite filter_cons, decide_True by done. f_equal.
    apply filter_valid_none. intros j y Hj.
    unfold BP_GET_NDVAS in Hn0. rewrite El in Hn0.
    assert (length (filter (fun d => DVA_IS_VALID d = true) (x :: l)) = 0%nat) as Hz
      by lia.
    rewrite ndvas_zero in Hz. apply (Hz (S j) y Hj). }
  assert (BP_GET_NDVAS (mk_blkptr r1.1.2 0 txg) = 1) as Hn1.
  { unfold BP_GET_NDVAS. simpl. by rewrite Hfil. }
  split; [exact Hn1|]. split; [reflexivity|].
  unfold metaslab_free in Hfree. rewrite Hn1 in Hfree. simpl in Hfree.
  rewrite Hrest in Hfree. change (Z.to_nat 1) with 1%nat in Hfree. simpl in Hfree.
  inv_bind Hfree as s3 E3. inversion Hfree; subst s3. clear Hfree.
  assert (pool_frame keeps s s2) as Fk.
  { eapply (alloc_undo asize s r1.2 r1.2 s2 g i o vd0 psize txg); try eassumption.
    - intros Hg. apply Hgang. intros Hz. rewrite Hz in Hg. discriminate.
    - apply pool_frame_refl. intros. apply keeps_refl. }
  split; [by apply keeps_trees_kept|by eapply pool_ok_keeps].
Qed.

Lemma alloc_free_round_trip_witness :
  exists s r s2,
    loaded_pool = Done s /\ ff_alloc s 512 = Done r
    /\ metaslab_free asize_example r.2 r.1.2 5 true = Done s2
    /\ trees_kept s s2.
Proof.
  destruct loaded_pool as [s|f] eqn:E; [|vm_compute in E; discriminate].
  destruct (ff_alloc s 512) as [[[e bp'] s1]|f] eqn:E1.
  2: { exfalso. vm_compute in E. injection E as <-. vm_compute in E1. discriminate. }
  assert (He : e = 0).
  { vm_compute in E. injection E as <-. vm_compute in E1. injection E1 as <- _ _.
    reflexivity. }
  subst e.
  destruct (metaslab_free asize_example s1 bp' 5 true) as [s2|f] eqn:E2.
  2: { exfalso. vm_compute in E. injection E as <-. vm_compute in E1.
       injection E1 as <- <-. vm_compute in E2. discriminate. }
  exists s, (0, bp', s1), s2. split; [reflexivity|]. split; [exact E1|].
  split; [exact E2|].
  destruct (alloc_free_round_trip default_tunables asize_example 8 s 0 512 bp_empty 5
              None 0 1 bp' s1 s2) as (_ & _ & T & _).
  - vm_compute in E. injection E as <-. vm_compute. reflexivity.
  - exact asize_example_stable.
  - vm_compute in E. injection E as <-. vm_compute. discriminate.
  - intros Hg. exfalso. apply Hg. reflexivity.
  - reflexivity.
  - discriminate.
  - exact E1.
  - exact E2.
  - exact T.
Defined.

(** X11: the copies of a block that [metaslab_alloc] allocates never share
    space.  In a well-formed pool that no other thread touches, when
    [metaslab_alloc] returns success the pool is still well-formed, each of
    the [ndvas] copies is of positive size and lies inside one metaslab of its
    device, which is loaded and whose free tree holds no byte of the copy,
    and any two of the copies are on different devices or do not overlap. *)
Theorem alloc_copies_never_overlap (tun : tunables) (asize : vdev -> Z -> Z) (fuel : nat)
    (s : spa) (mc : nat) (psize : Z) (bp : blkptr_t) (ndvas txg : Z)
    (hintbp : option blkptr_t) (flags lbolt : Z) (bp' : blkptr_t) (s' : spa) :
  pool_ok s = true -> asize_stable asize ->
  metaslab_alloc tun asize no_env fuel s mc psize bp ndvas txg hintbp flags lbolt
  = Done (0, bp', s') ->
  pool_ok s' = true
  /\ (forall j a, Z.of_nat j < ndvas -> blk_dva bp' !! j = Some a -> dva_taken s' a)
  /\ (forall j k a b, (j < k)%nat -> Z.of_nat k < ndvas ->
        blk_dva bp' !! j = Some a -> blk_dva bp' !! k = Some b -> dva_apart a b).
Proof.
  intros Hok Hst H.
  unfold metaslab_alloc in H. inv_bind H as mcr Emcr.
  destruct (mc_rotor mcr); [|inversion H].
  inv_bind H as r Er.
  destruct (Z.eqb_spec r.1.1 0) as [E0|E0]; simpl in H; [|inversion H; done].
  inversion H; subst bp' s'. clear H. simpl.
  destruct (alloc_copies_apart _ _ _ _ _ _ _ _ _ Hst _ _ _ 0%nat _ Hok
              ltac:(intros; lia) ltac:(intros; lia) Er E0) as (P & T & A).
  split; [exact P|]. split.
  - intros j a Hj. apply T. lia.
  - intros j k a b Hjk Hk. apply A. lia.
Qed.

Lemma alloc_copies_never_overlap_witness :
  exists s r a b,
    ff_pool = Done s /\ alloc_two s 512 = Done r /\ r.1.1 = 0
    /\ blk_dva r.1.2 !! 0%nat = Some a /\ blk_dva r.1.2 !! 1%nat = Some b
    /\ dva_apart a b.
Proof.
  destruct ff_pool as [s|f] eqn:E; [|vm_compute in E; discriminate].
  destruct (alloc_two s 512) as [[[e bp'] s1]|f] eqn:E1.
  2: { exfalso. vm_compute in E. injection E as <-. vm_compute in E1. discriminate. }
  assert (He : e = 0).
  { vm_compute in E. injection E as <-. vm_compute in E1. injection E1 as <- _ _.
    reflexivity. }
  subst e.
  destruct (blk_dva bp' !! 0%nat) as [a|] eqn:Ea.
  2: { exfalso. vm_compute in E. injection E as <-. vm_compute in E1.
       injection E1 as <- _. vm_compute in Ea. discriminate. }
  destruct (blk_dva bp' !! 1%nat) as [b|] eqn:Eb.
  2: { exfalso. vm_compute in E. injection E as <-. vm_compute in E1.
       injection E1 as <- _. vm_compute in Eb. discriminate. }
  exists s, (0, bp', s1), a, b. split; [reflexivity|]. split; [exact E1|].
  split; [reflexivity|]. split; [exact Ea|]. split; [exact Eb|].
  destruct (alloc_copies_never_overlap default_tunables asize_example 8 s 0 512
              bp_empty 2 5 None 0 1 bp' s1) as (_ & _ & A).
  - vm_compute in E. injection E as <-. vm_compute. reflexivity.
  - exact asize_example_stable.
  - exact E1.
  - apply (A 0%nat 1%nat a b); [lia|lia|exact Ea|exact Eb].
Defined.

(** X12: a free of the same copy twice in one txg does not go unnoticed.
    When [metaslab_free_dva] has returned for a copy that lies in a metaslab
    of the pool, in a txg not beyond [spa_freeze_txg], a second call for the
    same copy in the same txg and mode fails: a deferred free in
    [range_tree_add] on the free tree of the txg, which holds the block
    already, and an immediate free in [range_tree_remove] on the allocation
    tree of the txg, which holds it no longer. *)
Theorem double_free_faults (asize : vdev -> Z -> Z) (s s1 : spa) (dv : dva_t) (txg : Z)
    (now : bool) (v : nat) (vd : vdev) (i : nat) (m : metaslab) :
  asize_stable asize ->
  txg <= spa_freeze_txg s ->
  dva_target s dv = Some (v, vd, i, m) ->
  trees_sorted (if now then ms_alloctree m else ms_freetree m) = true ->
  metaslab_free_dva asize s dv txg now = Done s1 ->
  metaslab_free_dva asize s1 dv txg now
  = Fault (if now then FMissing else FOverlap).
Proof.
  intros Hst Hfz Ht Hsorted H.
  apply dva_target_Some in Ht as (L & Hc & Hi & Hm).
  unfold metaslab_free_dva in H. rewrite txg_not_frozen in H by done.
  rewrite L, Hc in H. rewrite <- Hi in H. unfold get_ms in H. rewrite Hm in H.
  simpl in H. fold (dva_size asize vd dv) in H.
  apply vdev_lookup_top_Some in L as (Hid & Hv & Hvd).
  apply lookup_lt_Some in Hvd as Hlv. apply lookup_lt_Some in Hm as Hli.
  assert (forall vd1 mf, vdev_alike vd vd1 -> vdev_ms vd1 = vdev_ms vd ->
            exists k,
              metaslab_free_dva asize (set_vdev s v (set_ms vd1 i mf)) dv txg now
              = (if now then
                   alloctree ← tree_at (ms_alloctree mf) (txg_slot txg);
                   alloctree' ← range_tree_remove alloctree (dva_offset dv)
                                  (dva_size asize vd dv);
                   k alloctree alloctree'
                 else
                   freetree ← tree_at (ms_freetree mf) (txg_slot txg);
                   freetree' ← range_tree_add freetree (dva_offset dv)
                                 (dva_size asize vd dv);
                   k freetree freetree')) as Hsecond.
  { intros vd1 mf Hal Hms.
    unfold metaslab_free_dva.
    change (spa_freeze_txg (set_vdev s v (set_ms vd1 i mf))) with (spa_freeze_txg s).
    rewrite txg_not_frozen by done.
    assert (vdev_lookup_top (set_vdev s v (set_ms vd1 i mf)) (dva_vdev dv)
            = Some (v, set_ms vd1 i mf)) as ->.
    { unfold vdev_lookup_top. destruct (Z.ltb_spec (dva_vdev dv) 0); [lia|].
      rewrite <- Hv. simpl. rewrite list_lookup_insert, decide_True by done.
      reflexivity. }
    assert (dva_size asize (set_ms vd1 i mf) dv = dva_size asize vd dv) as Hsz.
    { apply dva_size_alike; [exact Hst|].
      destruct Hal as (A1 & A2 & A3 & A4 & A5 & A6). repeat split; simpl; try done.
      rewrite length_insert. congruence. }
    destruct Hal as (A1 & A2 & A3 & A4 & A5 & A6).
    change (vdev_ms_count (set_ms vd1 i mf)) with (vdev_ms_count vd1).
    change (vdev_ms_shift (set_ms vd1 i mf)) with (vdev_ms_shift vd1).
    rewrite A2, A3, Hc. rewrite <- Hi.
    unfold get_ms. simpl. rewrite Hms, list_lookup_insert, decide_True by done.
    simpl. fold (dva_size asize (set_ms vd1 i mf) dv). rewrite Hsz.
    destruct now; eexists (fun t0 t => _); reflexivity. }
  destruct now.
  - inv_bind H as A EA. apply tree_at_Done in EA. inv_bind H as A' EA'.
    inv_bind H as u0 U0. inv_bind H as u1 U1. inv_bind H as u2 U2.
    inv_bind H as u3 U3. inv_bind H as u4 U4. inv_bind H as u5 U5.
    inv_bind H as m2 Eadd. apply ms_tree_add_Done in Eadd as (t & Eadd & -> & _).
    injection H as <-.
    destruct (Hsecond vd (set_ms_tree t
                 (set_ms_alloctree (set_tree (ms_alloctree m) (txg_slot txg) A') m))
                (vdev_alike_refl vd) eq_refl) as [k ->].
    simpl. unfold tree_at, set_tree. apply lookup_lt_Some in EA as Hl.
    rewrite list_lookup_insert, decide_True by done. simpl.
    rewrite (range_tree_remove_again _ _ _ _ (trees_sorted_lookup _ _ _ Hsorted EA) EA').
    reflexivity.
  - inv_bind H as ft Eft. apply tree_at_Done in Eft. inv_bind H as ft' Eadd.
    injection H as <-.
    set (vd1 := if range_tree_space ft =? 0 then _ else vd).
    assert (vdev_alike vd vd1 /\ vdev_ms vd1 = vdev_ms vd) as [Hal Hms].
    { subst vd1. destruct (_ =? 0); split; try reflexivity;
        apply vdev_alike_refl || (repeat split). }
    destruct (Hsecond vd1 (set_ms_freetree
                 (set_tree (ms_freetree m) (txg_slot txg) ft') m) Hal Hms) as [k ->].
    simpl. unfold tree_at, set_tree. apply lookup_lt_Some in Eft as Hl.
    rewrite list_lookup_insert, decide_True by done. simpl.
    rewrite (range_tree_add_again _ _ _ _ (trees_sorted_lookup _ _ _ Hsorted Eft) Eadd).
    reflexivity.
Qed.

Lemma double_free_faults_witness :
  exists s1,
    metaslab_free_dva asize_example (reuse_pool true) (mk_dva 0 0 512 false) 5 false
    = Done s1
    /\ metaslab_free_dva asize_example s1 (mk_dva 0 0 512 false) 5 false
       = Fault FOverlap.
Proof.
  destruct (metaslab_free_dva asize_example (reuse_pool true) (mk_dva 0 0 512 false)
              5 false) as [s1|f] eqn:E; [|vm_compute in E; discriminate].
  exists s1. split; [reflexivity|].
  apply (double_free_faults asize_example (reuse_pool true) s1 (mk_dva 0 0 512 false) 5
           false 0%nat (set_vdev_ms [reuse_ms true] (vdev_example 0 0)) 0%nat
           (reuse_ms true)).
  - exact asize_example_stable.
  - vm_compute. discriminate.
  - vm_compute. reflexivity.
  - reflexivity.
  - exact E.
Defined.

(** X13: a copy cannot be claimed twice.  In a well-formed pool, when
    [metaslab_claim_dva] has claimed a copy in a txg other than 0, any further
    [metaslab_claim_dva] of the same copy that returns answers [ENOENT]. *)
Theorem double_claim_refused (asize : vdev -> Z -> Z) (s s1 s2 : spa) (dv : dva_t)
    (txg txg2 e2 : Z) :
  pool_ok s = true -> asize_stable asize -> txg <> 0 ->
  is_Some (dva_target s dv) ->
  metaslab_claim_dva asize s dv txg = Done (0, s1) ->
  metaslab_claim_dva asize s1 dv txg2 = Done (e2, s2) ->
  e2 = ENOENT.
Proof.
  intros Hok Hst Htxg [[[[v vd] i] m] Ht] H1 H2.
  pose proof Ht as Ht'. apply dva_target_Some in Ht' as (L & Hc & Hi & Hm).
  apply vdev_lookup_top_Some in L as (_ & _ & Hv).
  pose proof (proj1 (pool_ok_lookup s) Hok v vd Hv) as (_ & _ & _ & O4).
  pose proof (O4 i m Hm) as Okm.
  destruct (metaslab_claim_dva_some _ _ _ _ _ _ _ _ _ _ H1 Ht)
    as (ea & m1 & Ea & Hres).
  simpl in Hres.
  set (o := dva_offset dv) in *. set (n := dva_size asize vd dv) in *.
  destruct (negb ((if (ea =? 0) && negb (range_tree_contains (ms_tree m1) o n)
                   then ENOENT else ea) =? 0) || (txg =? 0)) eqn:Eb.
  { exfalso. destruct Hres as [He _].
    apply orb_true_iff in Eb as [Eb|Eb].
    - apply negb_true_iff, Z.eqb_neq in Eb. congruence.
    - apply Z.eqb_eq in Eb. contradiction. }
  destruct Hres as (_ & t & vd1 & m2 & Hrm & Hal & Hms & Htree & Hld & Hwt & ->).
  apply orb_false_iff in Eb as [Eb _]. apply negb_false_iff, Z.eqb_eq in Eb.
  assert (ea = 0) as ->.
  { destruct ((ea =? 0) && _); [discriminate|exact Eb]. }
  destruct (claim_activate_effect _ _ _ _ _ Ea) as (_ & _ & Hrdy).
  specialize (Hrdy eq_refl).
  pose proof (claim_activate_ok _ _ _ _ _ _ _ Okm Ea) as Ok1.
  apply ms_ok_iff in Ok1 as (_ & _ & Hs1 & _).
  destruct (range_tree_remove_spec _ _ _ _ Hs1 Hrm) as (Hn & _ & Hcov & _).
  assert (lacks (ms_tree m2) o (o + n)) as Hlk.
  { intros x Hx. rewrite Htree, Hcov, (proj2 (in_range_true _ _ _) Hx).
    apply andb_false_r. }
  assert (ms_ready m2 = true) as Hr2.
  { unfold ms_ready in *. by rewrite Hld, Hwt. }
  destruct (dva_target_set s v vd vd1 i m m2 dv v vd i m Hv Hm Hal Hms Ht)
    as (vd2 & m3 & Ht2 & Hal2 & Hm3).
  rewrite decide_True in Hm3 by done. destruct Hm3 as [-> _].
  destruct (metaslab_claim_dva_some _ _ _ _ _ _ _ _ _ _ H2 Ht2)
    as (ea2 & m4 & Ea2 & Hres2).
  simpl in Hres2.
  destruct (claim_activate_effect _ _ _ _ _ Ea2) as (_ & Hsame & _).
  destruct (Hsame Hr2) as [-> Htree4].
  rewrite (dva_size_alike _ _ _ _ Hst Hal2) in Hres2. fold o n in Hres2.
  rewrite Htree4, (lacks_not_contains _ _ _ Hlk) in Hres2.
  simpl in Hres2. tauto.
Qed.

Lemma double_claim_refused_witness :
  exists s1 s2,
    metaslab_claim_dva asize_example claim_pool (mk_dva 0 1024 512 false) 5
    = Done (0, s1)
    /\ metaslab_claim_dva asize_example s1 (mk_dva 0 1024 512 false) 5
       = Done (ENOENT, s2).
Proof.
  destruct (metaslab_claim_dva asize_example claim_pool (mk_dva 0 1024 512 false) 5)
    as [[e s1]|f] eqn:E; [|vm_compute in E; discriminate].
  assert (He : e = 0) by (vm_compute in E; injection E as <- _; reflexivity).
  subst e.
  destruct (metaslab_claim_dva asize_example s1 (mk_dva 0 1024 512 false) 5)
    as [[e2 s2]|f] eqn:E2.
  2: { exfalso. vm_compute in E. injection E as <-. vm_compute in E2. discriminate. }
  exists s1, s2. split; [reflexivity|].
  rewrite <- (double_claim_refused asize_example claim_pool s1 s2
                (mk_dva 0 1024 512 false) 5 5 e2); [exact E2| | | | |exact E|exact E2].
  - vm_compute. reflexivity.
  - exact asize_example_stable.
  - discriminate.
  - vm_compute. eexists. reflexivity.
Defined.

(** X14: the walk of [metaslab_group_alloc] over the tree of the group picks
    a heaviest eligible metaslab.  A metaslab is eligible when it is not
    condensing and, for a copy that shares the device with an earlier copy,
    far enough from every earlier copy.  When the walk picks a metaslab, it
    is eligible, its weight is at least the size asked for and no eligible
    metaslab of the device is heavier; [was_active] is read off its weight.
    When the walk picks none, every eligible metaslab of the device is
    lighter than the size asked for. *)
Theorem group_pick_heaviest (vd : vdev) (asize activation_weight min_distance : Z)
    (dva : list dva_t) :
  match group_pick vd (mg_metaslab_tree vd) asize activation_weight min_distance dva
  with
  | Pick i was_active =>
      exists m,
        vdev_ms vd !! i = Some m
        /\ pick_eligible vd activation_weight min_distance dva m = true
        /\ asize <= ms_weight m
        /\ was_active = negb (to_int (Z.land (ms_weight m) METASLAB_ACTIVE_MASK) =? 0)
        /\ forall j m', vdev_ms vd !! j = Some m' ->
             pick_eligible vd activation_weight min_distance dva m' = true ->
             ms_weight m' <= ms_weight m
  | _ =>
      forall j m', vdev_ms vd !! j = Some m' ->
        pick_eligible vd activation_weight min_distance dva m' = true ->
        ms_weight m' < asize
  end.
Proof.
  pose proof (group_pick_first vd asize activation_weight min_distance dva
                (mg_metaslab_tree vd)) as H.
  pose proof (mg_metaslab_tree_ordered vd) as Hord.
  assert (Hin : forall i m, In (i, m) (mg_metaslab_tree vd) <-> vdev_ms vd !! i = Some m).
  { intros i m. unfold mg_metaslab_tree. rewrite avl_of_nodes_In. apply In_imap_pair. }
  destruct (group_pick _ _ _ _ _ _) as [| |i wa].
  - destruct H as (t1 & x & t2 & E & Hx & Hb).
    intros j m' Hj He. apply Hin in Hj. rewrite E in Hj, Hord.
    apply in_app_or in Hj as [Hj|[->|Hj]].
    + apply Hb in Hj. simpl in Hj. congruence.
    + exact Hx.
    + pose proof (weight_ordered_app _ _ _ _ Hord Hj) as Hc.
      apply metaslab_compare_le in Hc. simpl in Hc. lia.
  - intros j m' Hj He. apply Hin in Hj. apply H in Hj. simpl in Hj. congruence.
  - destruct H as (t1 & m & t2 & E & H1 & H2 & H3 & Hb).
    exists m. split.
    { apply Hin. rewrite E. apply in_or_app. right. left. reflexivity. }
    do 3 (split; [assumption|]).
    intros j m' Hj He. apply Hin in Hj. rewrite E in Hj, Hord.
    apply in_app_or in Hj as [Hj|[Hj|Hj]].
    + apply Hb in Hj. simpl in Hj. congruence.
    + injection Hj as _ <-. lia.
    + pose proof (weight_ordered_app _ _ _ _ Hord Hj) as Hc.
      apply metaslab_compare_le in Hc. simpl in Hc. lia.
Qed.



(** X16: [mc_alloc_groups] counts the allocatable groups of its class.
    If, for every class of the pool, [mc_alloc_groups] is the number of the
    groups of the class with [mg_allocatable] set, then the same holds after
    [metaslab_group_alloc_update], after [metaslab_group_activate] and after
    [metaslab_group_passivate]; the pool has fewer than 2^64 devices. *)
Theorem alloc_groups_counted (tun : tunables) (s s' : spa) (g : nat) :
  alloc_groups_ok s ->
  Z.of_nat (length (spa_vdevs s)) < U64_MOD ->
  metaslab_group_alloc_update tun s g = Done s'
  \/ metaslab_group_activate tun s g = Done s'
  \/ metaslab_group_passivate s g = Done s' ->
  alloc_groups_ok s'.
Proof.
  intros Hok Hlen [H|[H|H]].
  - by eapply alloc_update_counted.
  - by eapply activate_counted.
  - by eapply passivate_counted.
Qed.

Lemma alloc_groups_counted_witness :
  exists s s' mc,
    init_pool = Done s
    /\ metaslab_group_activate default_tunables s 0 = Done s'
    /\ spa_classes s' !! 0%nat = Some mc /\ mc_alloc_groups mc = 1
    /\ alloc_groups_ok s'.
Proof.
  destruct init_pool as [s|f] eqn:E; [|vm_compute in E; discriminate].
  destruct (metaslab_group_activate default_tunables s 0) as [s'|f] eqn:E1.
  2: { exfalso. vm_compute in E. injection E as <-. vm_compute in E1. discriminate. }
  destruct (spa_classes s' !! 0%nat) as [mc|] eqn:E2.
  2: { exfalso. vm_compute in E. injection E as <-. vm_compute in E1.
       injection E1 as <-. vm_compute in E2. discriminate. }
  exists s, s', mc. split; [reflexivity|]. split; [exact E1|]. split; [exact E2|].
  split.
  { vm_compute in E. injection E as <-. vm_compute in E1. injection E1 as <-.
    vm_compute in E2. injection E2 as <-. reflexivity. }
  apply (alloc_groups_counted default_tunables s s' 0).
  - vm_compute in E. injection E as <-.
    intros c mc0 Hc. destruct c as [|c]; [|discriminate].
    injection Hc as <-. reflexivity.
  - vm_compute in E. injection E as <-. reflexivity.
  - right. left. exact E1.
Defined.
(** X17: [metaslab_init] appends the metaslab at index [id] of the device,
    with start [id << ms_shift], size [1 << ms_shift], the operations of the
    class, not loaded.  When the pool is opened or created
    ([txg <= TXG_INITIAL]) its space is available at once: the trees of all
    txgs exist and are empty and the size is added to the space of the device
    and of the class.  When space is added to an existing pool the trees stay
    null, the weight is 0 and no space is counted until the txg has synced. *)
Theorem init_space_available (tun : tunables) (s : spa) (g : nat)
    (id object txg : Z) (opened : space_map) (p : msp_ptr) (s' : spa)
    (vd : vdev) (mc : metaslab_class) :
  metaslab_debug_load tun = false ->
  spa_vdevs s !! g = Some vd ->
  spa_classes s !! mg_class (vdev_mg vd) = Some mc ->
  metaslab_init tun s g id object txg opened = Done (p, s') ->
  p = (g, length (vdev_ms vd)) /\ Z.to_nat id = length (vdev_ms vd)
  /\ exists vd' m' mc',
       spa_vdevs s' !! g = Some vd' /\ vdev_ms vd' !! p.2 = Some m'
       /\ spa_classes s' !! mg_class (vdev_mg vd) = Some mc'
       /\ ms_id m' = id
       /\ ms_start m' = u64 (Z.shiftl id (vdev_ms_shift vd))
       /\ ms_size m' = u64 (Z.shiftl 1 (vdev_ms_shift vd))
       /\ ms_sm m' = (if negb (object =? 0)
                      then (if txg <=? TXG_INITIAL then space_map_update (Some opened)
                            else Some opened)
                      else None)
       /\ ms_ops m' = mc_ops mc
       /\ ms_loaded m' = false /\ ms_tree m' = []
       /\ (txg <= TXG_INITIAL ->
           ms_alloctree m' = repeat (Some []) 4 /\ ms_freetree m' = repeat (Some []) 4
           /\ ms_defertree m' = repeat (Some []) 2
           /\ vs_space (vdev_stat vd') = u64 (vs_space (vdev_stat vd) + ms_size m')
           /\ mc_space mc' = u64 (mc_space mc + ms_size m'))
       /\ (TXG_INITIAL < txg ->
           ms_alloctree m' = repeat None 4 /\ ms_freetree m' = repeat None 4
           /\ ms_defertree m' = repeat None 2
           /\ ms_weight m' = 0
           /\ vdev_stat vd' = vdev_stat vd /\ mc' = mc).
Proof.
  intros Hdbg Hvd Hmc H. unfold metaslab_init in H.
  unfold get_vdev in H. rewrite Hvd in H. simpl in H.
  unfold get_class in H. rewrite Hmc in H. simpl in H.
  inv_bind H as u Eu.
  destruct (bool_decide (Z.to_nat id = length (vdev_ms vd))) eqn:Eid; [|discriminate].
  apply bool_decide_eq_true in Eid. clear Eu u.
  rewrite Hdbg in H. simpl in H.
  set (msp := mk_metaslab id _ _ _ _ _ _ _ _ _ _ _ _ _ _ _ _) in H.
  set (vd1 := set_vdev_ms (vdev_ms vd ++ [msp]) vd) in H.
  set (s1 := set_vdev s g vd1) in H.
  apply lookup_lt_Some in Hvd as Hlg.
  assert (Hv1 : spa_vdevs s1 !! g = Some vd1).
  { unfold s1. simpl. by rewrite list_lookup_insert, decide_True. }
  assert (Hm1 : vdev_ms vd1 !! Z.to_nat id = Some msp).
  { unfold vd1. simpl. rewrite Eid. rewrite lookup_app_r by lia.
    by rewrite Nat.sub_diag. }
  inv_bind H as s2 E2.
  assert (Hfin : forall vd2 m2 mc2,
            spa_vdevs s2 !! g = Some vd2 -> vdev_ms vd2 !! Z.to_nat id = Some m2 ->
            spa_classes s2 !! mg_class (vdev_mg vd) = Some mc2 ->
            p = (g, length (vdev_ms vd))
            /\ exists vd', spa_vdevs s' !! g = Some vd'
                 /\ vdev_ms vd' !! p.2 = Some m2 /\ vdev_stat vd' = vdev_stat vd2
                 /\ spa_classes s' !! mg_class (vdev_mg vd) = Some mc2).
  { intros vd2 m2 mc2 Hv2 Hm2 Hc2. apply lookup_lt_Some in Hv2 as Hl2.
    destruct (negb (txg =? 0)).
    - unfold get_vdev in H. rewrite Hv2 in H. simpl in H.
      injection H as <- <-. rewrite Eid. split; [reflexivity|].
      eexists. split; [simpl; by rewrite list_lookup_insert, decide_True|].
      simpl. rewrite <- Eid. auto.
    - injection H as <- <-. rewrite Eid. split; [reflexivity|].
      exists vd2. simpl. rewrite <- Eid. auto. }
  destruct (Z.leb_spec txg TXG_INITIAL) as [Hle|Hgt].
  - destruct (metaslab_sync_done_effect tun s1 (g, Z.to_nat id) 0 s2 vd1 msp E2 Hv1 Hm1)
      as (freed & defer & vd2 & m2 & mc0 & A1 & A2 & A3 & A4 & A5 & A6 & A7 & A8
          & A9 & A10 & A11 & A12 & mid & Hmid & Hend).
    simpl in A3, A4, A5.
    assert (mc0 = mc) as -> by (unfold s1 in A5; simpl in A5; congruence).
    change (tree_is_null (ms_freetree msp) (txg_slot (TXG_CLEAN 0))) with true in *.
    cbv iota in A1, A2, A6, A7, A9, A10, A11.
    assert (freed = []) as -> by (vm_compute in A1; congruence).
    assert (defer = []) as -> by (vm_compute in A2; congruence).
    destruct (Hfin vd2 m2 _ A3 A4 A7) as (Hp & vd' & Hv' & Hm' & Hst' & Hc').
    split; [exact Hp|]. split; [exact Eid|].
    destruct (metaslab_sync_done_static tun s1 (g, Z.to_nat id) 0 s2 vd1 msp vd2 m2
                E2 Hv1 Hm1 A3 A4) as (S1 & S2 & S3 & S4 & S5 & _).
    assert (Hl : ms_loaded m2 = false /\ ms_tree m2 = []).
    { change (ms_loaded msp) with false in Hmid, Hend. cbv iota in Hmid. subst mid.
      destruct Hend as [[? ?]|(? & _)]; [auto|discriminate]. }
    eexists vd', m2, _. split; [exact Hv'|]. split; [exact Hm'|]. split; [exact Hc'|].
    split; [exact S1|]. split; [exact S2|]. split; [exact S3|].
    split.
    { rewrite S5. simpl. destruct (Z.leb_spec txg TXG_INITIAL); [|lia].
      by destruct (negb (object =? 0)). }
    split; [exact S4|]. split; [apply Hl|]. split; [apply Hl|].
    split; [|intros; lia]. intros _.
    split; [rewrite A9; reflexivity|].
    split; [rewrite A10; reflexivity|].
    split; [rewrite A11; reflexivity|].
    rewrite S3. split.
    + rewrite Hst', A6. simpl. unfold u64. rewrite Z.add_0_r, Z.mod_mod; [reflexivity|].
      unfold U64_MOD. lia.
    + simpl. unfold u64. rewrite Z.add_0_r, Z.mod_mod; [reflexivity|].
      unfold U64_MOD. lia.
  - injection E2 as <-.
    destruct (Hfin vd1 msp mc Hv1 Hm1 Hmc) as (Hp & vd' & Hv' & Hm' & Hst' & Hc').
    split; [exact Hp|]. split; [exact Eid|].
    exists vd', msp, mc. split; [exact Hv'|]. split; [exact Hm'|]. split; [exact Hc'|].
    do 3 (split; [reflexivity|]).
    split.
    { simpl. destruct (Z.leb_spec txg TXG_INITIAL); [lia|].
      by destruct (negb (object =? 0)). }
    do 3 (split; [reflexivity|]).
    split; [intros; lia|]. intros _. split_and!; try reflexivity. exact Hst'.
Qed.

Lemma init_space_available_witness :
  exists p s' vd',
    metaslab_init default_tunables
      (mk_spa [vdev_example 0 0] [metaslab_class_create metaslab_ff_ops]
         0 U64_MAX true 1 TXG_INITIAL 1)
      0 0 0 TXG_INITIAL (space_map_open 0 0 0 0) = Done (p, s')
    /\ spa_vdevs s' !! 0%nat = Some vd'
    /\ vs_space (vdev_stat vd') = 4096.
Proof.
  destruct (metaslab_init default_tunables
      (mk_spa [vdev_example 0 0] [metaslab_class_create metaslab_ff_ops]
         0 U64_MAX true 1 TXG_INITIAL 1)
      0 0 0 TXG_INITIAL (space_map_open 0 0 0 0)) as [[p s']|f] eqn:E;
    [|vm_compute in E; discriminate].
  destruct (init_space_available default_tunables
              (mk_spa [vdev_example 0 0] [metaslab_class_create metaslab_ff_ops]
                 0 U64_MAX true 1 TXG_INITIAL 1) 0%nat 0 0 TXG_INITIAL _ p s'
              (vdev_example 0 0) (metaslab_class_create metaslab_ff_ops)
              eq_refl eq_refl eq_refl E)
    as (_ & _ & vd' & m' & mc' & Hv & _ & _ & _ & _ & Hsz & _ & _ & _ & _ & Hnow & _).
  destruct (Hnow (Z.le_refl _)) as (_ & _ & _ & Hs & _).
  exists p, s', vd'. split; [reflexivity|]. split; [exact Hv|].
  rewrite Hs, Hsz. reflexivity.
Defined.

(** X18: [metaslab_sync] followed by [metaslab_sync_done] of the same txg, on
    a metaslab whose trees exist and whose freed tree (the free tree of the
    txg before) is empty, recycles the slots of the txg: the allocation tree
    and the free tree of the txg and the freed tree end up empty, and the
    frees of the txg are exactly the content of the txg's defer tree. *)
Theorem sync_recycles_slots (tun : tunables) (s s1 s2 : spa) (p : msp_ptr) (txg : Z)
    (vd : vdev) (m : metaslab) :
  metaslab_sync tun s p txg = Done s1 ->
  metaslab_sync_done tun s1 p txg = Done s2 ->
  spa_vdevs s !! p.1 = Some vd -> vdev_ms vd !! p.2 = Some m ->
  ms_trees_ok m = true -> 0 <= txg < U64_MOD ->
  ms_freetree m !! txg_slot (TXG_CLEAN txg) = Some (Some []) ->
  exists vd2 m2 freed,
    spa_vdevs s2 !! p.1 = Some vd2 /\ vdev_ms vd2 !! p.2 = Some m2
    /\ ms_freetree m !! txg_slot txg = Some (Some freed)
    /\ ms_trees_ok m2 = true
    /\ ms_alloctree m2 !! txg_slot txg = Some (Some [])
    /\ ms_freetree m2 !! txg_slot txg = Some (Some [])
    /\ ms_freetree m2 !! txg_slot (TXG_CLEAN txg) = Some (Some [])
    /\ ms_defertree m2 !! defer_slot txg = Some (Some freed).
Proof.
  intros H1 H2 Hvd Hm Hok Ht Hclean.
  pose proof (txg_slot_clean txg Ht) as Hne.
  destruct (metaslab_sync_step _ _ _ _ _ _ _ H1 Hvd Hm Hok)
    as (vd1' & m1' & V1 & M1 & Ok1 & _).
  destruct (metaslab_sync_quiet_or_busy _ _ _ _ _ _ _ H1 Hvd Hm)
    as (vd1 & m1 & A1 & A2 & A3 & A4 & A5 & A6 & A7).
  cbv zeta in A7.
  assert (vd1' = vd1) as -> by congruence. assert (m1' = m1) as -> by congruence.
  pose proof Hok as Hok'.
  apply ms_trees_ok_iff in Hok' as (O1 & O2 & O3 & O4 & O5 & O6 & O7).
  destruct (trees_exist_lookup _ _ _ O4 (txg_slot_lt txg)) as [F HF].
  destruct (trees_exist_lookup _ _ _ O2 (txg_slot_lt txg)) as [A HA].
  assert (HsF : sorted F = true) by exact (trees_sorted_lookup _ _ _ O5 HF).
  assert (Hmid : ms_alloctree m1 !! txg_slot txg = Some (Some [])
                 /\ ms_freetree m1 !! txg_slot txg = Some (Some [])
                 /\ ms_freetree m1 !! txg_slot (TXG_CLEAN txg) = Some (Some F)).
  { apply lookup_lt_Some in HF as HlF. apply lookup_lt_Some in HA as HlA.
    apply lookup_lt_Some in Hclean as HlC.
    destruct A7 as [[-> Hq]|(Ha & freetree & freed & Ef & Ec & Hf)].
    - destruct Hq as [Hq|(ft & at0 & Eft & Hz & Eat & Hza)].
      + rewrite (trees_exist_null _ _ _ O4 (txg_slot_lt txg)) in Hq. discriminate.
      + assert (ft = F) as -> by congruence.
        assert (F = []) as -> by (by apply sorted_space_zero).
        assert (at0 = []) as ->.
        { apply sorted_space_zero; [|done]. exact (trees_sorted_lookup _ _ _ O3 Eat). }
        done.
    - assert (freetree = F) as -> by congruence.
      assert (Ec' : Some freed = Some (Some [])) by (rewrite <- Ec; exact Hclean).
      injection Ec' as ->.
      split.
      { rewrite Ha. unfold set_tree. by rewrite list_lookup_insert, decide_True. }
      destruct (spa_sync_pass s =? 1).
      + rewrite Hf. split.
        * rewrite list_lookup_insert_ne by done.
          by rewrite list_lookup_insert, decide_True.
        * rewrite list_lookup_insert, decide_True; [done|].
          by rewrite length_insert.
      + destruct Hf as (fd & fd' & Efd & Ev & Hf). injection Efd as <-.
        destruct (vacate_into_nil F HsF) as [Ev'|[f Ev']]; [|congruence].
        assert (fd' = F) as -> by congruence.
        rewrite Hf. unfold set_tree. split.
        * rewrite list_lookup_insert_ne by done.
          by rewrite list_lookup_insert, decide_True.
        * rewrite list_lookup_insert, decide_True; [done|].
          by rewrite length_insert. }
  destruct Hmid as (B1 & B2 & B3).
  destruct (metaslab_sync_done_step _ _ _ _ _ _ _ H2 A1 A2 Ok1)
    as (vd2' & m2' & freed' & defer' & V2 & M2 & Ok2 & _).
  destruct (metaslab_sync_done_effect _ _ _ _ _ _ _ H2 A1 A2)
    as (freed & defer & vd2 & m2 & mc & C1 & C2 & C3 & C4 & _ & _ & _ & _ & C9 & C10
        & C11 & _).
  assert (vd2' = vd2) as -> by congruence. assert (m2' = m2) as -> by congruence.
  assert (Hnn : tree_is_null (ms_freetree m1) (txg_slot (TXG_CLEAN txg)) = false).
  { apply tree_is_null_false. eauto. }
  rewrite Hnn in *. simpl in *.
  assert (freed = F) as -> by congruence.
  exists vd2, m2, F. do 4 (split; [done|]).
  apply lookup_lt_Some in B1 as L1. apply lookup_lt_Some in B2 as L2.
  apply lookup_lt_Some in B3 as L3. apply lookup_lt_Some in C2 as L4.
  split; [by rewrite C9|]. split.
  { rewrite C10. by rewrite list_lookup_insert_ne. }
  split.
  { rewrite C10. by rewrite list_lookup_insert, decide_True. }
  rewrite C11. by rewrite list_lookup_insert, decide_True.
Qed.

Lemma sync_recycles_slots_witness :
  exists s1 s2 vd2 m2,
    metaslab_sync default_tunables
      (mk_spa [set_vdev_ms
                 [set_ms_freetree [Some []; Some []; Some [mk_seg 0 512]; Some []]
                    (reuse_ms true)] (vdev_example 0 0)]
         [metaslab_class_create metaslab_ff_ops] 0 U64_MAX true 1 TXG_INITIAL 1)
      (0%nat, 0%nat) 6 = Done s1
    /\ metaslab_sync_done default_tunables s1 (0%nat, 0%nat) 6 = Done s2
    /\ spa_vdevs s2 !! 0%nat = Some vd2 /\ vdev_ms vd2 !! 0%nat = Some m2
    /\ ms_freetree m2 !! 2%nat = Some (Some [])
    /\ ms_defertree m2 !! 0%nat = Some (Some [mk_seg 0 512]).
Proof.
  destruct (metaslab_sync default_tunables
      (mk_spa [set_vdev_ms
                 [set_ms_freetree [Some []; Some []; Some [mk_seg 0 512]; Some []]
                    (reuse_ms true)] (vdev_example 0 0)]
         [metaslab_class_create metaslab_ff_ops] 0 U64_MAX true 1 TXG_INITIAL 1)
      (0%nat, 0%nat) 6) as [s1|f] eqn:E1; [|vm_compute in E1; discriminate].
  destruct (metaslab_sync_done default_tunables s1 (0%nat, 0%nat) 6) as [s2|f] eqn:E2.
  2: { exfalso. vm_compute in E1. injection E1 as <-. vm_compute in E2. discriminate. }
  destruct (sync_recycles_slots default_tunables
              (mk_spa [set_vdev_ms
                 [set_ms_freetree [Some []; Some []; Some [mk_seg 0 512]; Some []]
                    (reuse_ms true)] (vdev_example 0 0)]
                 [metaslab_class_create metaslab_ff_ops] 0 U64_MAX true 1 TXG_INITIAL 1)
              s1 s2 (0%nat, 0%nat) 6
              (set_vdev_ms
                 [set_ms_freetree [Some []; Some []; Some [mk_seg 0 512]; Some []]
                    (reuse_ms true)] (vdev_example 0 0))
              (set_ms_freetree [Some []; Some []; Some [mk_seg 0 512]; Some []]
                 (reuse_ms true))
              E1 E2 eq_refl eq_refl eq_refl ltac:(vm_compute; split; congruence) eq_refl)
    as (vd2 & m2 & freed & Hv & Hm & Hf & _ & _ & Hf2 & _ & Hd).
  exists s1, s2, vd2, m2. split; [reflexivity|]. split; [exact E2|].
  split; [exact Hv|]. split; [exact Hm|]. split; [exact Hf2|].
  vm_compute in Hf. injection Hf as <-. exact Hd.
Defined.
(** X19: a block freed by [metaslab_free], at once or deferred, is caught by
    [metaslab_check_free]: for a copy of the block pointer that is not a gang
    block and lies in a metaslab whose free tree and per-txg free trees are
    canonical (and which is loaded, for a free at once), the check of the same
    block pointer on the pool the free leaves does not return. *)
Theorem freed_block_fails_check (asize : vdev -> Z -> Z) (s s' : spa) (bp : blkptr_t)
    (txg : Z) (now : bool) (dv : dva_t) (v : nat) (vd : vdev) (i : nat) (m : metaslab) :
  metaslab_free asize s bp txg now = Done s' ->
  txg <= spa_freeze_txg s ->
  In dv (take (Z.to_nat (BP_GET_NDVAS bp)) (blk_dva bp)) ->
  dva_gang dv = false ->
  dva_target s dv = Some (v, vd, i, m) ->
  sorted (ms_tree m) = true -> trees_sorted (ms_freetree m) = true ->
  (now = true -> ms_loaded m = true) ->
  exists f, metaslab_check_free true s' bp = Fault f.
Proof.
  intros H Hfz Hin Hg Ht Hs Hfs Hl. unfold metaslab_free in H.
  unfold metaslab_check_free. simpl.
  apply (check_copies_fault s' dv now (txg_slot txg)); [apply txg_slot_lt|done|].
  eapply free_copies_freed; eauto.
  - exists v, vd, i, m. split; [done|]. split; [done|].
    intros j t E. by eapply trees_sorted_lookup.
  - intros Hn. exists v, vd, i, m. auto.
Qed.

Lemma freed_block_fails_check_witness :
  exists s' f,
    metaslab_free asize_example (reuse_pool true)
      (mk_blkptr [mk_dva 0 0 512 false] 0 5) 6 false = Done s'
    /\ metaslab_check_free true s' (mk_blkptr [mk_dva 0 0 512 false] 0 5) = Fault f.
Proof.
  destruct (metaslab_free asize_example (reuse_pool true)
              (mk_blkptr [mk_dva 0 0 512 false] 0 5) 6 false) as [s'|f] eqn:E;
    [|vm_compute in E; discriminate].
  destruct (freed_block_fails_check asize_example (reuse_pool true) s'
              (mk_blkptr [mk_dva 0 0 512 false] 0 5) 6 false (mk_dva 0 0 512 false)
              0%nat (set_vdev_ms [reuse_ms true] (vdev_example 0 0)) 0%nat (reuse_ms true)
              E ltac:(vm_compute; discriminate) ltac:(vm_compute; left; reflexivity)
              eq_refl eq_refl eq_refl eq_refl (fun _ => eq_refl)) as [f Hf].
  exists s', f. split; [reflexivity|exact Hf].
Defined.

(** X20: condensing loses no free space.  When [metaslab_condense] returns,
    the space map it wrote loads without error, and what it loads is exactly
    the free tree of the metaslab together with the frees of the txg, the two
    defer trees and the allocations of the two txgs that follow; its
    allocated counter is the size of the metaslab less that space.  The free
    tree is canonical and shares no offset with those five trees. *)
Theorem condense_keeps_free_space (m m' : metaslab) (txg : Z) (sm : space_map)
    (F d0 d1 a1 a2 : range_tree) :
  metaslab_condense m txg = Done m' ->
  ms_sm m = Some sm -> sm_start sm = ms_start m -> sm_size sm = ms_size m ->
  sm_io_error sm = 0 ->
  ms_freetree m !! txg_slot txg = Some (Some F) ->
  ms_defertree m !! 0%nat = Some (Some d0) ->
  ms_defertree m !! 1%nat = Some (Some d1) ->
  ms_alloctree m !! txg_slot (u64 (txg + 1)) = Some (Some a1) ->
  ms_alloctree m !! txg_slot (u64 (txg + 2)) = Some (Some a2) ->
  sorted (ms_tree m) = true ->
  (forall x, covers (ms_tree m) x = true ->
             covers F x || covers d0 x || covers d1 x || covers a1 x || covers a2 x
             = false) ->
  exists sm' T,
    ms_sm m' = Some sm' /\ ms_condensing m' = false
    /\ space_map_load sm' [] = Done (0, T) /\ sorted T = true
    /\ (forall x, covers T x
                  = covers (ms_tree m) x || covers F x || covers d0 x || covers d1 x
                    || covers a1 x || covers a2 x)
    /\ smp_alloc sm' = ms_size m - range_tree_space T.
Proof.
  intros H Hsm Hst Hsz Hio HF Hd0 Hd1 Ha1 Ha2 Hs Hdis.
  unfold metaslab_condense in H. rewrite Hsm in H. simpl in H.
  apply tree_at_Done in HF, Hd0, Hd1, Ha1, Ha2.
  rewrite HF in H. simpl in H.
  inv_bind H as c0 E0. inv_bind H as c1 E1.
  rewrite Hd0 in H. simpl in H. inv_bind H as c2 E2.
  rewrite Hd1 in H. simpl in H. inv_bind H as c3 E3.
  rewrite Ha1 in H. simpl in H. inv_bind H as c4 E4.
  rewrite Ha2 in H. simpl in H. inv_bind H as ct E5.
  injection H as <-.
  pose proof E0 as E0'. apply range_tree_add_spec in E0' as (Hn & S0 & C0 & _); [|done].
  destruct (walk_remove_spec _ _ _ S0 E1) as (S1 & C1).
  destruct (walk_remove_spec _ _ _ S1 E2) as (S2 & C2).
  destruct (walk_remove_spec _ _ _ S2 E3) as (S3 & C3).
  destruct (walk_remove_spec _ _ _ S3 E4) as (S4 & C4).
  destruct (walk_remove_spec _ _ _ S4 E5) as (S5 & C5).
  pose proof (walk_remove_within _ _ _ S0 E1) as W1.
  pose proof (walk_remove_within _ _ _ S1 E2) as W2.
  pose proof (walk_remove_within _ _ _ S2 E3) as W3.
  pose proof (walk_remove_within _ _ _ S3 E4) as W4.
  pose proof (walk_remove_within _ _ _ S4 E5) as W5.
  destruct (sorted_sorted_from _ S5) as [lc Hlc].
  destruct (walk_remove_total ct lc c0 (Hlc lc ltac:(lia)) S0) as [T0 ET0].
  { intros x Hx. rewrite C5, C4, C3, C2, C1 in Hx.
    repeat (apply andb_true_iff in Hx as [Hx _]). exact Hx. }
  destruct (walk_remove_spec _ _ _ S0 ET0) as (ST0 & CT0).
  assert (HT0 : forall x, covers T0 x
                = covers F x || covers d0 x || covers d1 x || covers a1 x || covers a2 x).
  { intros x. rewrite CT0, C5, C4, C3, C2, C1.
    specialize (W1 x). specialize (W2 x). specialize (W3 x). specialize (W4 x).
    specialize (W5 x). rewrite C4, C3, C2, C1 in W5. rewrite C3, C2, C1 in W4.
    rewrite C2, C1 in W3. rewrite C1 in W2.
    destruct (covers c0 x), (covers F x), (covers d0 x), (covers d1 x),
      (covers a1 x), (covers a2 x); simpl in *; try reflexivity;
      try (by (specialize (W1 eq_refl))); try (by (specialize (W2 eq_refl)));
      try (by (specialize (W3 eq_refl))); try (by (specialize (W4 eq_refl)));
      try (by (specialize (W5 eq_refl))). }
  destruct (sorted_sorted_from _ Hs) as [lt Hlt].
  destruct (vacate_into_total (ms_tree m) lt T0 (Hlt lt ltac:(lia)) ST0) as [T ET].
  { intros x Hx. rewrite HT0. by apply Hdis. }
  destruct (vacate_into_spec _ _ _ ST0 ET) as (ST & CT & _).
  eexists _, T. split; [reflexivity|]. split; [reflexivity|].
  split.
  { unfold space_map_load. simpl. rewrite Hio. simpl. rewrite Hst, Hsz, E0. simpl.
    rewrite sm_replay_app, sm_replay_alloc, ET0. simpl.
    rewrite sm_replay_free, ET. done. }
  split; [done|]. split.
  { intros x. rewrite CT, HT0.
    destruct (covers (ms_tree m) x), (covers F x), (covers d0 x), (covers d1 x),
      (covers a1 x), (covers a2 x); reflexivity. }
  simpl. rewrite (vacate_into_space _ _ _ ET), (walk_remove_space _ _ _ ET0).
  rewrite (range_tree_add_space _ _ _ _ E0). simpl. lia.
Qed.

Lemma condense_keeps_free_space_witness :
  exists m' sm' T,
    metaslab_condense (set_ms_sm (Some (space_map_open 1 0 4096 9)) (defer_ms true)) 5
    = Done m'
    /\ ms_sm m' = Some sm'
    /\ space_map_load sm' [] = Done (0, T)
    /\ smp_alloc sm' = 4096 - range_tree_space T.
Proof.
  destruct (metaslab_condense
              (set_ms_sm (Some (space_map_open 1 0 4096 9)) (defer_ms true)) 5)
    as [m'|f] eqn:E; [|vm_compute in E; discriminate].
  destruct (condense_keeps_free_space
              (set_ms_sm (Some (space_map_open 1 0 4096 9)) (defer_ms true)) m' 5
              (space_map_open 1 0 4096 9) [mk_seg 512 1024] [mk_seg 0 512] [] [] []
              E eq_refl eq_refl eq_refl eq_refl eq_refl eq_refl eq_refl eq_refl eq_refl
              eq_refl)
    as (sm' & T & Hsm & _ & Hl & _ & _ & Ha).
  { intros x Hx. cbn in Hx. cbn. rewrite !orb_false_r in *.
    unfold seg_has in *. cbn in *.
    apply andb_true_iff in Hx as [H1 H2]. apply Z.leb_le in H1.
    destruct (Z.ltb_spec x 1024); [lia|]. destruct (Z.ltb_spec x 512); [lia|].
    by rewrite !andb_false_r. }
  exists m', sm', T. split; [reflexivity|]. split; [exact Hsm|]. split; [exact Hl|].
  exact Ha.
Defined.

(** X21: the stamp of [metaslab_preload] keeps the metaslab in core.  The
    preload leaves a loaded metaslab's free tree alone, loads an unloaded one
    (it stays unloaded if the load fails, and the error is dropped), and sets
    [ms_access_txg] to the syncing txg plus [metaslab_unload_delay] plus 1;
    a [metaslab_sync_done] of any txg up to that stamp then leaves the
    metaslab loaded as the preload left it. *)
Theorem preload_defers_unload (tun : tunables) (s s1 s2 : spa) (p : msp_ptr) (txg : Z)
    (vd : vdev) (m : metaslab) :
  metaslab_preload tun s p = Done s1 ->
  metaslab_sync_done tun s1 p txg = Done s2 ->
  spa_vdevs s !! p.1 = Some vd -> vdev_ms vd !! p.2 = Some m ->
  txg <= u64 (spa_syncing_txg s + metaslab_unload_delay tun + 1) ->
  exists vd1 m1 vd2 m2,
    spa_vdevs s1 !! p.1 = Some vd1 /\ vdev_ms vd1 !! p.2 = Some m1
    /\ spa_vdevs s2 !! p.1 = Some vd2 /\ vdev_ms vd2 !! p.2 = Some m2
    /\ ms_loading m = false
    /\ ms_access_txg m1 = u64 (spa_syncing_txg s + metaslab_unload_delay tun + 1)
    /\ (if ms_loaded m then ms_loaded m1 = true /\ ms_tree m1 = ms_tree m
        else exists e m0, metaslab_load m = Done (e, m0)
               /\ ms_loaded m1 = (e =? 0) /\ ms_tree m1 = ms_tree m0)
    /\ ms_loaded m2 = ms_loaded m1
    /\ ms_access_txg m2 = ms_access_txg m1.
Proof.
  intros H1 H2 Hvd Hm Htxg. unfold metaslab_preload in H1.
  unfold get_msp, get_vdev in H1. rewrite Hvd in H1. simpl in H1.
  unfold get_ms in H1. rewrite Hm in H1. simpl in H1.
  inv_bind H1 as u Eu. unfold metaslab_load_wait in Eu.
  destruct (ms_loading m) eqn:Eld; [discriminate|]. clear Eu u.
  inv_bind H1 as m0 E0. unfold set_msp, get_vdev in H1. rewrite Hvd in H1.
  simpl in H1. injection H1 as <-.
  apply lookup_lt_Some in Hvd as Hlv. apply lookup_lt_Some in Hm as Hlm.
  set (m1 := set_ms_access_txg _ m0) in *.
  assert (Hv1 : spa_vdevs (set_vdev s p.1 (set_ms vd p.2 m1)) !! p.1
                = Some (set_ms vd p.2 m1)).
  { simpl. by rewrite list_lookup_insert, decide_True. }
  assert (Hm1 : vdev_ms (set_ms vd p.2 m1) !! p.2 = Some m1).
  { simpl. by rewrite list_lookup_insert, decide_True. }
  destruct (metaslab_sync_done_effect _ _ _ _ _ _ _ H2 Hv1 Hm1)
    as (freed & defer & vd2 & m2 & mc & _ & _ & A3 & A4 & _).
  destruct (metaslab_sync_done_result _ _ _ _ _ _ _ _ _ H2 Hv1 Hm1 A3 A4)
    as (R1 & R2 & _).
  exists (set_ms vd p.2 m1), m1, vd2, m2.
  do 4 (split; [done|]). split; [done|]. split; [done|].
  split.
  { destruct (ms_loaded m) eqn:El; simpl in E0.
    - injection E0 as <-. done.
    - inv_bind E0 as r Er. injection E0 as <-. destruct r as [e mr].
      exists e, mr. split; [done|]. split; [|done]. simpl.
      apply metaslab_load_source in Er as (rt & _ & _ & Hl & _). exact Hl. }
  split; [|exact R1].
  rewrite R2. change (ms_access_txg m1)
    with (u64 (spa_syncing_txg s + metaslab_unload_delay tun + 1)).
  destruct (Z.ltb_spec (u64 (spa_syncing_txg s + metaslab_unload_delay tun + 1)) txg);
    [lia|]. simpl. by rewrite andb_true_r.
Qed.

Lemma preload_defers_unload_witness :
  exists s1 s2 vd2 m2,
    metaslab_preload default_tunables (reuse_pool false) (0%nat, 0%nat) = Done s1
    /\ metaslab_sync_done default_tunables s1 (0%nat, 0%nat) 6 = Done s2
    /\ spa_vdevs s2 !! 0%nat = Some vd2 /\ vdev_ms vd2 !! 0%nat = Some m2
    /\ ms_loaded m2 = true.
Proof.
  destruct (metaslab_preload default_tunables (reuse_pool false) (0%nat, 0%nat))
    as [s1|f] eqn:E1; [|vm_compute in E1; discriminate].
  destruct (metaslab_sync_done default_tunables s1 (0%nat, 0%nat) 6) as [s2|f] eqn:E2.
  2: { exfalso. vm_compute in E1. injection E1 as <-. vm_compute in E2. discriminate. }
  destruct (preload_defers_unload default_tunables (reuse_pool false) s1 s2
              (0%nat, 0%nat) 6 (set_vdev_ms [reuse_ms false] (vdev_example 0 0))
              (reuse_ms false) E1 E2 eq_refl eq_refl ltac:(vm_compute; discriminate))
    as (vd1 & m1 & vd2 & m2 & _ & _ & Hv2 & Hm2 & _ & _ & Hl1 & Hl2 & _).
  exists s1, s2, vd2, m2. split; [reflexivity|]. split; [exact E2|].
  split; [exact Hv2|]. split; [exact Hm2|].
  rewrite Hl2. cbn in Hl1. destruct Hl1 as (e & m0 & El & -> & _).
  vm_compute in El. injection El as <- _. reflexivity.
Defined.
(** X22: an allocation never touches the frees in flight.  Whatever
    [metaslab_alloc] returns, with no other thread at work, the pool has the
    devices and metaslabs it had, and every metaslab has the per-txg free
    trees and the defer trees it had before the call. *)
Theorem alloc_keeps_pending_frees (tun : tunables) (asize : vdev -> Z -> Z) (fuel : nat)
    (s : spa) (mc : nat) (psize : Z) (bp : blkptr_t) (ndvas txg : Z)
    (hintbp : option blkptr_t) (flags lbolt : Z) (r : Z * blkptr_t * spa) :
  metaslab_alloc tun asize no_env fuel s mc psize bp ndvas txg hintbp flags lbolt
  = Done r ->
  length (spa_vdevs r.2) = length (spa_vdevs s)
  /\ forall v vd i m,
       spa_vdevs s !! v = Some vd -> vdev_ms vd !! i = Some m ->
       exists vd' m',
         spa_vdevs r.2 !! v = Some vd' /\ vdev_ms vd' !! i = Some m'
         /\ length (vdev_ms vd') = length (vdev_ms vd)
         /\ ms_freetree m' = ms_freetree m /\ ms_defertree m' = ms_defertree m.
Proof.
  intros H. apply metaslab_alloc_frees in H as (_ & _ & Hlen & F).
  split; [exact Hlen|]. intros v vd i m Hv Hm.
  destruct (F v vd Hv) as (vd' & Hv' & Hal & Hms).
  destruct (Hms i m Hm) as (m' & Hm' & F1 & F2).
  exists vd', m'. destruct Hal as (_ & _ & _ & _ & _ & A6). done.
Qed.

Lemma alloc_keeps_pending_frees_witness :
  exists s r vd' m',
    ff_pool = Done s /\ ff_alloc s 512 = Done r
    /\ spa_vdevs r.2 !! 0%nat = Some vd' /\ vdev_ms vd' !! 0%nat = Some m'
    /\ ms_freetree m' = [Some []; Some []; Some []; Some []]
    /\ ms_defertree m' = [Some []; Some []].
Proof.
  destruct ff_pool as [s|f] eqn:E; [|vm_compute in E; discriminate].
  destruct (ff_alloc s 512) as [r|f] eqn:E1.
  2: { exfalso. vm_compute in E. injection E as <-. vm_compute in E1. discriminate. }
  destruct (alloc_keeps_pending_frees default_tunables asize_example 8 s 0 512
              bp_empty 1 5 None 0 1 r E1) as [_ H].
  assert (Hs : exists vd m, spa_vdevs s !! 0%nat = Some vd /\ vdev_ms vd !! 0%nat = Some m
                 /\ ms_freetree m = [Some []; Some []; Some []; Some []]
                 /\ ms_defertree m = [Some []; Some []]).
  { vm_compute in E. injection E as <-. eexists _, _. split; [reflexivity|].
    split; [reflexivity|]. split; reflexivity. }
  destruct Hs as (vd & m & Hv & Hm & Hf & Hd).
  destruct (H 0%nat vd 0%nat m Hv Hm) as (vd' & m' & Hv' & Hm' & _ & Hf' & Hd').
  exists s, r, vd', m'. split; [reflexivity|]. split; [exact E1|].
  split; [exact Hv'|]. split; [exact Hm'|]. split; congruence.
Defined.

(** X23: a block just allocated passes the debugging check of a free.  In a
    well-formed pool where every metaslab has its per-txg free trees and
    defer trees, where these share no offset with the free tree of a loaded
    metaslab and are empty in an unloaded one, a successful [metaslab_alloc]
    into an empty block pointer leaves a pool on which
    [metaslab_check_free] of the new block pointer returns: no copy lies in
    a free tree, a per-txg free tree or a defer tree. *)
Theorem fresh_block_passes_check (tun : tunables) (asize : vdev -> Z -> Z) (fuel : nat)
    (s : spa) (mc : nat) (psize : Z) (bp : blkptr_t) (ndvas txg : Z)
    (hintbp : option blkptr_t) (flags lbolt : Z) (bp' : blkptr_t) (s' : spa) :
  pool_ok s = true -> asize_stable asize -> pool_frees_apart s ->
  BP_GET_NDVAS bp = 0 ->
  metaslab_alloc tun asize no_env fuel s mc psize bp ndvas txg hintbp flags lbolt
  = Done (0, bp', s') ->
  metaslab_check_free true s' bp' = Done tt.
Proof.
  intros Hok Hst Hinv Hbp H.
  unfold metaslab_alloc in H. inv_bind H as mcr Emcr.
  destruct (mc_rotor mcr); [|inversion H].
  inv_bind H as r Er.
  destruct (Z.eqb_spec r.1.1 0) as [E0|E0]; simpl in H; [|inversion H; done].
  inversion H; subst bp' s'. clear H.
  destruct (alloc_copies_apart _ _ _ _ _ _ _ _ _ Hst _ _ _ 0%nat _ Hok
              ltac:(intros; lia) ltac:(intros; lia) Er E0) as (P & T & _).
  destruct (alloc_copies_clear _ _ _ _ _ _ _ _ _ Hst _ _ _ 0%nat _ Hok Hinv
              ltac:(intros; lia) Er E0) as (C & Htail).
  unfold metaslab_check_free, BP_GET_NDVAS. simpl. rewrite Nat2Z.id.
  apply check_copies_pass; [exact P|]. intros a Ha.
  apply list_elem_of_In, list_elem_of_lookup in Ha as [j Hj].
  apply lookup_take_Some in Hj as [Hj Hlt].
  assert (length (filter (fun d => DVA_IS_VALID d = true) r.1.2) <= Z.to_nat ndvas)%nat.
  { apply filter_valid_prefix. intros k x Hk Hx. rewrite (Htail k) in Hx by lia.
    unfold BP_GET_NDVAS in Hbp.
    assert (length (filter (fun d => DVA_IS_VALID d = true) (blk_dva bp)) = 0%nat) as Hz
      by lia.
    by apply (proj1 (ndvas_zero _) Hz k x). }
  split; [apply (T j); [lia|done]|apply (C j); [lia|done]].
Qed.

Lemma fresh_block_passes_check_witness :
  exists s bp' s',
    ff_pool = Done s /\ alloc_two s 512 = Done (0, bp', s')
    /\ metaslab_check_free true s' bp' = Done tt.
Proof.
  destruct ff_pool as [s|f] eqn:E; [|vm_compute in E; discriminate].
  destruct (alloc_two s 512) as [[[e bp'] s1]|f] eqn:E1.
  2: { exfalso. vm_compute in E. injection E as <-. vm_compute in E1. discriminate. }
  assert (He : e = 0).
  { vm_compute in E. injection E as <-. vm_compute in E1. injection E1 as <- _ _.
    reflexivity. }
  subst e. exists s, bp', s1. split; [reflexivity|]. split; [exact E1|].
  apply (fresh_block_passes_check default_tunables asize_example 8 s 0 512
           bp_empty 2 5 None 0 1 bp' s1).
  - vm_compute in E. injection E as <-. vm_compute. reflexivity.
  - exact asize_example_stable.
  - vm_compute in E. injection E as <-. intros v vd i m Hv Hm.
    destruct v as [|v]; [|destruct v; discriminate].
    injection Hv as <-. destruct i as [|i]; [|destruct i; discriminate].
    injection Hm as <-. split; [reflexivity|]. split; [reflexivity|].
    intros t Ht. cbn in Ht.
    repeat (destruct Ht as [Ht|Ht]; [by injection Ht as <-|]). destruct Ht.
  - reflexivity.
  - exact E1.
Defined.
(** X24: an allocation only turns the rotor.  In a pool whose classes have
    well-formed rings, with no other thread at work, whatever
    [metaslab_alloc] returns, the rings are well-formed after it, every
    group has the class, the activation count and the neighbours it had, and
    the ring of every class holds the groups it held: the rotor has moved
    along the ring, nothing else. *)
Theorem alloc_rotates_ring (tun : tunables) (asize : vdev -> Z -> Z) (fuel : nat)
    (s : spa) (mc : nat) (psize : Z) (bp : blkptr_t) (ndvas txg : Z)
    (hintbp : option blkptr_t) (flags lbolt : Z) (r : Z * blkptr_t * spa) :
  rotor_inv s ->
  metaslab_alloc tun asize no_env fuel s mc psize bp ndvas txg hintbp flags lbolt
  = Done r ->
  rotor_inv r.2
  /\ (forall g mg, mg_of s g = Some mg ->
        exists mg', mg_of r.2 g = Some mg'
          /\ mg_class mg' = mg_class mg
          /\ mg_activation_count mg' = mg_activation_count mg
          /\ mg_next mg' = mg_next mg /\ mg_prev mg' = mg_prev mg)
  /\ forall c l, ring_of s c l ->
       exists l', ring_of r.2 c l' /\ l' ≡ₚ l.
Proof.
  intros Hinv H.
  assert (K : rings_kept s r.2).
  { unfold metaslab_alloc in H. inv_bind H as mcr Emcr.
    destruct (mc_rotor mcr); [|inversion H; subst; apply rings_kept_refl].
    inv_bind H as r1 E1. apply alloc_copies_rings in E1; [|done].
    case_hyp H; inversion H; subst r; exact E1. }
  split; [by eapply rings_kept_inv|].
  destruct K as (A1 & A2 & A3 & A4). split.
  - intros g mg Hmg. pose proof (A1 g) as C. rewrite Hmg in C.
    destruct (mg_of r.2 g) as [mg'|] eqn:Hmg'; [|done].
    exists mg'. simpl in C. injection C as C.
    destruct (A2 g mg mg' Hmg Hmg') as (? & ? & ?). done.
  - intros c l Hl. destruct (A4 c l Hl) as (l' & Hl' & E). exists l'.
    split; [done|]. apply NoDup_Permutation; [apply Hl'|apply Hl|done].
Qed.

Lemma alloc_rotates_ring_witness :
  exists s r l',
    ring_pool = Done s /\ alloc_two s 512 = Done r /\ r.1.1 = 0
    /\ ring_of r.2 0 l' /\ l' ≡ₚ [1%nat; 0%nat].
Proof.
  destruct ring_pool as [s|f] eqn:E; [|vm_compute in E; discriminate].
  destruct (alloc_two s 512) as [r|f] eqn:E1.
  2: { exfalso. vm_compute in E. injection E as <-. vm_compute in E1. discriminate. }
  assert (He : r.1.1 = 0).
  { vm_compute in E. injection E as <-. vm_compute in E1. injection E1 as <-.
    reflexivity. }
  assert (Hcls : is_Some (spa_classes s !! 0%nat)).
  { vm_compute in E. injection E as <-. eexists. reflexivity. }
  assert (Hcr : class_ring s 0 = [1%nat; 0%nat]).
  { vm_compute in E. injection E as <-. vm_compute. reflexivity. }
  pose proof (ring_pool_inv s E) as Hinv.
  destruct (alloc_rotates_ring default_tunables asize_example 8 s 0 512
              bp_empty 2 5 None 0 1 r Hinv E1) as (_ & _ & Hr).
  assert (Hl : ring_of s 0 [1%nat; 0%nat]).
  { destruct Hinv as [_ I2]. destruct (I2 0%nat Hcls) as [l Hl].
    pose proof (class_ring_of _ _ _ Hl) as Hc. rewrite Hcr in Hc. subst l. exact Hl. }
  destruct (Hr 0%nat _ Hl) as (l' & Hl' & Hp).
  exists s, r, l'. split; [reflexivity|]. split; [exact E1|].
  split; [exact He|]. split; [exact Hl'|exact Hp].
Defined.

(** X25: the cursor-fit allocator is sound as long as its cursor window is
    free.  When the window from [ms_lbas[0]] to [ms_lbas[1]] is empty or lies
    inside one segment of a canonical free tree below 2^62,
    [metaslab_cf_alloc] leaves the free tree alone and returns -1 only if
    no segment is long enough; otherwise the block it returns lies inside
    one segment, and once the block is removed from the tree the new window
    again lies inside one segment. *)
Theorem cf_alloc_in_window (m : metaslab) (size o : Z) (m' : metaslab) :
  sorted (ms_tree m) = true -> tree_within (ms_tree m) 0 (2 ^ 62) = true ->
  0 < size < 2 ^ 62 -> cf_window m ->
  metaslab_cf_alloc m size = Done (o, m') ->
  ms_tree m' = ms_tree m
  /\ ((o = U64_MAX /\ m' = m
       /\ forall r, In r (ms_tree m) -> rs_end r - rs_start r < size)
      \/ (0 <= o < 2 ^ 62
          /\ range_tree_contains (ms_tree m) o size = true
          /\ forall t, range_tree_remove (ms_tree m) o size = Done t ->
               cf_window (set_ms_tree t m'))).
Proof.
  intros Hs Hw Hn (c & e & Hc & He & Hce & He62 & Hwin) H.
  unfold metaslab_cf_alloc in H.
  change (lbas_get m 0) with (of_option FNull (ms_lbas m !! 0%nat)) in H.
  change (lbas_get m 1) with (of_option FNull (ms_lbas m !! 1%nat)) in H.
  rewrite Hc, He in H. simpl in H.
  assert (Hu : u64 (c + size) = c + size) by (apply u64_small; unfold U64_MOD; lia).
  rewrite Hu in H.
  assert (Hbound : forall r, In r (ms_tree m) ->
            0 <= rs_start r /\ rs_start r < rs_end r /\ rs_end r <= 2 ^ 62).
  { intros r Hr. destruct (tree_within_In _ _ _ _ Hw Hr).
    pose proof (sorted_In _ _ Hs Hr). lia. }
  assert (Hkeep : forall r a b t,
            In r (ms_tree m) -> rs_start r <= a -> a < b -> b <= rs_end r ->
            range_tree_remove (ms_tree m) a (b - a) = Done t ->
            forall b', b <= b' -> b' <= rs_end r -> b < b' ->
            exists r', In r' t /\ rs_start r' <= b /\ b' <= rs_end r').
  { intros r a b t Hr Ha Hab Hb Hrm b' H1 H2 H3.
    destruct (range_tree_remove_spec _ _ _ _ Hs Hrm) as (_ & St & Ct & _).
    assert (Hh : holds t b b').
    { intros x Hx. rewrite Ct. apply andb_true_iff. split.
      - unfold covers. apply existsb_exists. exists r. split; [done|].
        unfold seg_has. apply andb_true_iff. rewrite Z.leb_le, Z.ltb_lt. lia.
      - apply negb_true_iff, in_range_false. lia. }
    pose proof (holds_contains t b (b' - b) St ltac:(lia)) as C.
    replace (b + (b' - b)) with b' in C by lia. specialize (C Hh).
    apply contains_elim in C as (_ & r' & Hin & R1 & R2).
    exists r'. split; [done|]. lia. }
  destruct (Z.ltb_spec e (c + size)) as [Hlt|Hge].
  - destruct (avl_last (ms_size_tree m)) as [rs|] eqn:El.
    + destruct (size_tree_last _ _ El) as [Hin Hmax].
      destruct (Hbound rs Hin) as (B1 & B2 & B3).
      rewrite (u64_small (rs_end rs - rs_start rs)) in H by (unfold U64_MOD; lia).
      destruct (Z.ltb_spec (rs_end rs - rs_start rs) size) as [Hsm|Hbig].
      * injection H as <- <-. split; [done|]. left. split; [done|]. split; [done|].
        intros r Hr. specialize (Hmax r Hr). destruct (Hbound r Hr) as (? & ? & ?).
        rewrite !u64_small in Hmax by (unfold U64_MOD; lia). lia.
      * injection H as <- <-. split; [done|]. right. split; [lia|]. split.
        { apply contains_intro with (r := rs); [done|lia|lia|lia]. }
        intros t Hrm. rewrite u64_small by (unfold U64_MOD; lia).
        exists (rs_start rs + size), (rs_end rs). simpl.
        assert (Hl : (1 < length (ms_lbas m))%nat) by (by eapply lookup_lt_Some).
        split; [rewrite list_lookup_insert, decide_True;
                [done|split; [done|rewrite length_insert; lia]]|].
        split; [rewrite list_lookup_insert_ne by done;
                rewrite list_lookup_insert, decide_True; [done|split; [done|lia]]|].
        split; [lia|]. split; [lia|]. intros Hlt'.
        apply (Hkeep rs (rs_start rs) (rs_start rs + size) t Hin); try lia.
        by replace (rs_start rs + size - rs_start rs) with size by lia.
    + injection H as <- <-. split; [done|]. left. split; [done|]. split; [done|].
      intros r Hr. rewrite (size_tree_last_none _ El) in Hr. destruct Hr.
  - injection H as <- <-. split; [done|]. right.
    destruct (Hwin ltac:(lia)) as (r & Hr & R1 & R2).
    split; [lia|]. split.
    { apply contains_intro with (r := r); [done|lia|lia|lia]. }
    intros t Hrm. exists (c + size), e. simpl.
    assert (Hl : (1 < length (ms_lbas m))%nat) by (by eapply lookup_lt_Some).
    split; [rewrite list_lookup_insert, decide_True; [done|split; [done|lia]]|].
    split; [by rewrite list_lookup_insert_ne|].
    split; [lia|]. split; [lia|]. intros Hlt'.
    apply (Hkeep r c (c + size) t Hr); try lia.
    by replace (c + size - c) with size by lia.
Qed.

Lemma cf_alloc_in_window_witness :
  exists m',
    metaslab_cf_alloc (loaded_ms metaslab_cf_ops) 512 = Done (512, m')
    /\ range_tree_contains (ms_tree (loaded_ms metaslab_cf_ops)) 512 512 = true.
Proof.
  destruct (metaslab_cf_alloc (loaded_ms metaslab_cf_ops) 512) as [[o m']|f] eqn:E;
    [|vm_compute in E; discriminate].
  assert (Ho : o = 512) by (vm_compute in E; injection E as <- _; reflexivity).
  subst o. exists m'. split; [reflexivity|].
  destruct (cf_alloc_in_window (loaded_ms metaslab_cf_ops) 512 512 m'
              eq_refl eq_refl ltac:(lia)) as (_ & [(Hbad & _)|(_ & Hc & _)]).
  - exists 0, 0. split; [reflexivity|]. split; [reflexivity|].
    split; [lia|]. split; [lia|]. intros; lia.
  - exact E.
  - vm_compute in Hbad. discriminate.
  - exact Hc.
Defined.
